(** * Waztomatic: campaign scheduling, rate-limited dispatch, spintax,
      personalisation, auto-reply matching and the in-memory store

    A shallow embedding of the server core:

    - [server/services/spintax.ts]   ([parseSpintax], [validateSpintax],
      [countSpintaxVariations], [generateAllSpintaxVariations]),
    - [server/storage.ts]            ([MemStorage]),
    - [server/services/scheduler.ts] ([SchedulerService]),
    - [server/services/whatsapp.ts]  ([WhatsAppService]: sending, auto-replies,
      receipts, connection updates),
    - [server/routes.ts]             (the contact import and the removal of a
      campaign).

    Conventions.  A JavaScript string is a sequence of UTF-16 code units; the
    embedding covers the strings whose code units are below 256, one [ascii]
    per code unit.  Records keep [string] fields; the character-level
    algorithms run on [list ascii] and are wrapped back into [string].
    Timestamps are milliseconds as [Z].  The number of variations of a text
    is a JavaScript number: a natural number as a double, rounded after
    every multiplication, or [Infinity].  Thrown exceptions are the [Throw]
    outcome of a small error monad; a [while] loop that the source does not
    bound takes fuel and answers [None] when the fuel runs out. *)

From Stdlib Require Import List String Ascii ZArith Lia Bool Arith PeanoNat.
Import ListNotations.

Set Implicit Arguments.

(* ================================================================== *)
(** * JavaScript strings *)
(* ================================================================== *)

Module JsString.

Definition chars := list ascii.

Definition of_string (s : string) : chars := list_ascii_of_string s.
Definition to_string (l : chars) : string := string_of_list_ascii l.

Definition lbrace : ascii := "{"%char.
Definition rbrace : ascii := "}"%char.
Definition pipe   : ascii := "|"%char.
Definition dollar : ascii := "$"%char.

Definition is_brace (c : ascii) : bool :=
  Ascii.eqb c lbrace || Ascii.eqb c rbrace.

(** [WhiteSpace] and [LineTerminator] code units below 256: TAB, LF, VT, FF,
    CR, SP and NBSP.  These are what [String.prototype.trim] strips. *)
Definition isWhiteSpace (c : ascii) : bool :=
  let n := nat_of_ascii c in
  ((9 <=? n) && (n <=? 13)) || (n =? 32) || (n =? 160).

Fixpoint trimStart (s : chars) : chars :=
  match s with
  | c :: t => if isWhiteSpace c then trimStart t else s
  | [] => []
  end.

Definition trimEnd (s : chars) : chars := rev (trimStart (rev s)).

Definition trim (s : chars) : chars := trimEnd (trimStart s).

(** [s.split(sep)] for a one-character separator: n separators give n+1
    pieces, the empty string gives one empty piece. *)
Fixpoint split (sep : ascii) (s : chars) : list chars :=
  match s with
  | [] => [[]]
  | c :: t =>
      if Ascii.eqb c sep then [] :: split sep t
      else match split sep t with
           | p :: ps => (c :: p) :: ps
           | [] => [[c]]
           end
  end.

Fixpoint startsWith (pat s : chars) : bool :=
  match pat, s with
  | [], _ => true
  | p :: pat', c :: s' => Ascii.eqb p c && startsWith pat' s'
  | _ :: _, [] => false
  end.

Fixpoint includes (pat s : chars) : bool :=
  startsWith pat s ||
  match s with
  | [] => false
  | _ :: t => includes pat t
  end.

Definition endsWith (pat s : chars) : bool := startsWith (rev pat) (rev s).

Definition eqb (a b : chars) : bool :=
  String.eqb (to_string a) (to_string b).

(** [toLowerCase] on code units below 256: A-Z and the Latin-1 capitals
    U+00C0..U+00DE other than the multiplication sign U+00D7 move up by 32. *)
Definition lowerChar (c : ascii) : ascii :=
  let n := nat_of_ascii c in
  if ((65 <=? n) && (n <=? 90))
     || ((192 <=? n) && (n <=? 222) && negb (n =? 215))
  then ascii_of_nat (n + 32) else c.

Definition toLowerCase (s : chars) : chars := map lowerChar s.

(** [GetSubstitution] (ECMA-262) for a match without capture groups and
    without named groups: [$$], [$&], [$`] and [$'] are special, every other
    use of [$] (also [$1], [$<]) stays as written. *)
Fixpoint GetSubstitution (matched before after template : chars) : chars :=
  match template with
  | [] => []
  | c :: t =>
      if Ascii.eqb c dollar then
        match t with
        | d :: t' =>
            if Ascii.eqb d dollar then dollar :: GetSubstitution matched before after t'
            else if Ascii.eqb d "&"%char then matched ++ GetSubstitution matched before after t'
            else if Ascii.eqb d "`"%char then before ++ GetSubstitution matched before after t'
            else if Ascii.eqb d "'"%char then after ++ GetSubstitution matched before after t'
            else c :: GetSubstitution matched before after t
        | [] => [c]
        end
      else c :: GetSubstitution matched before after t
  end.

(** [str.replace(pattern, replacement)] with a string pattern: only the
    first occurrence is replaced, and the replacement is still expanded by
    [GetSubstitution].  [before] is the part of [str] already passed. *)
Fixpoint replaceFirst_from (pattern replacement before s : chars) : chars :=
  if startsWith pattern s then
    let after := skipn (List.length pattern) s in
    before ++ GetSubstitution pattern before after replacement ++ after
  else
    match s with
    | [] => before
    | c :: t => replaceFirst_from pattern replacement (before ++ [c]) t
    end.

Definition replaceFirst (pattern replacement s : chars) : chars :=
  replaceFirst_from pattern replacement [] s.

(** [str.replace(/literal/g, replacement)] where the regular expression is a
    non-empty literal: every occurrence, left to right and without overlap,
    each expanded by [GetSubstitution] against the original string.  [skip]
    counts the characters of the current match still to be passed over. *)
Fixpoint replaceAll_from (pattern replacement before s : chars) (skip : nat) : chars :=
  match s with
  | [] => []
  | c :: t =>
      match skip with
      | S k => replaceAll_from pattern replacement (before ++ [c]) t k
      | O =>
          if startsWith pattern s then
            GetSubstitution pattern before (skipn (List.length pattern) s) replacement
              ++ replaceAll_from pattern replacement (before ++ [c]) t (List.length pattern - 1)
          else c :: replaceAll_from pattern replacement (before ++ [c]) t 0
      end
  end.

Definition replaceAll (pattern replacement s : chars) : chars :=
  replaceAll_from pattern replacement [] s 0.

End JsString.


Import JsString.

Local Open Scope string_scope.
Local Open Scope list_scope.

(* ================================================================== *)
(** * server/services/spintax.ts *)
(* ================================================================== *)

Module Spintax.

(** The longest run of characters other than braces, and what follows it. *)
Fixpoint span_nonbrace (s : chars) : chars * chars :=
  match s with
  | [] => ([], [])
  | c :: t =>
      if is_brace c then ([], s)
      else let (run, rest) := span_nonbrace t in (c :: run, rest)
  end.

Definition has_pipe (s : chars) : bool := existsb (Ascii.eqb pipe) s.

(** One attempt of the pattern at the head of [s].  With [need_pipe] the
    pattern is the [spintaxPattern] of parseSpintax (an opening brace, a
    captured group made of non-brace characters, a pipe and non-brace
    characters, a closing brace); without it the one of validateSpintax,
    whose group is any run of non-brace characters.  Both can only match an
    opening brace, the whole run of non-brace characters after it, and a
    closing brace right after the run; the first also needs a pipe somewhere
    in the run.  The answer is capture group 1 and the text after the match. *)
Definition match_here (need_pipe : bool) (s : chars) : option (chars * chars) :=
  match s with
  | c :: t =>
      if Ascii.eqb c lbrace then
        let (run, rest) := span_nonbrace t in
        match rest with
        | d :: rest' =>
            if Ascii.eqb d rbrace && (negb need_pipe || has_pipe run)
            then Some (run, rest') else None
        | [] => None
        end
      else None
  | [] => None
  end.

(** [pattern.exec(s)] from the start of [s]: the leftmost match, as the text
    before it, capture group 1 and the text after it. *)
Fixpoint exec (need_pipe : bool) (s : chars) : option (chars * chars * chars) :=
  match match_here need_pipe s with
  | Some (g, after) => Some ([], g, after)
  | None =>
      match s with
      | [] => None
      | c :: t =>
          match exec need_pipe t with
          | Some (before, g, after) => Some (c :: before, g, after)
          | None => None
          end
      end
  end.

(** [match[0]] rebuilt from capture group 1. *)
Definition fullMatch (g : chars) : chars := lbrace :: g ++ [rbrace].

(** [options[Math.floor(Math.random() * options.length)]]: the draw number
    [k] of the random source picks an index below [options.length]. *)
Definition randomOption (random : nat -> nat) (k : nat) (options : list chars) : chars :=
  nth (random k mod List.length options) options [].

(** The [while] loop of [parseSpintax].  [lastIndex] is reset to 0 after each
    replacement, so every [exec] searches from the start of [result].  The
    answer carries the number of draws made from the random source. *)
Fixpoint parseSpintax_loop (fuel : nat) (random : nat -> nat) (k : nat) (result : chars)
  : option (chars * nat) :=
  match exec true result with
  | None => Some (result, k)
  | Some (_, g, _) =>
      match fuel with
      | O => None
      | S fuel' =>
          let options := split pipe g in
          let chosen := randomOption random k options in
          parseSpintax_loop fuel' random (S k)
            (replaceFirst (fullMatch g) (trim chosen) result)
      end
  end.

Definition parseSpintax_from (fuel : nat) (random : nat -> nat) (k : nat) (text : string)
  : option (string * nat) :=
  match parseSpintax_loop fuel random k (of_string text) with
  | Some (r, k') => Some (to_string r, k')
  | None => None
  end.

Definition parseSpintax (fuel : nat) (random : nat -> nat) (text : string) : option string :=
  option_map fst (parseSpintax_from fuel random 0 text).

(** The brace-balance loop of [validateSpintax]: the final [braceCount] and
    the error pushed before the [break], if any. *)
Fixpoint brace_loop (braceCount : Z) (s : chars) : Z * list string :=
  match s with
  | [] => (braceCount, [])
  | c :: t =>
      if Ascii.eqb c lbrace then brace_loop (braceCount + 1) t
      else if Ascii.eqb c rbrace then
        let braceCount' := (braceCount - 1)%Z in
        if (braceCount' <? 0)%Z then (braceCount', ["Unmatched closing brace }"])
        else brace_loop braceCount' t
      else brace_loop braceCount t
  end.

Definition brace_errors (s : chars) : list string :=
  let (braceCount, errors) := brace_loop 0 s in
  if (0 <? braceCount)%Z then errors ++ ["Unmatched opening brace {"] else errors.

(** The body of the pattern loop for one match. *)
Definition pattern_errors (content : chars) : list string :=
  if negb (includes [pipe] content) then
    [("Invalid spintax pattern: " ++ to_string (fullMatch content) ++ " (missing pipe separator)")%string]
  else
    let options := split pipe content in
    if existsb (fun option => JsString.eqb (trim option) []) options then
      [("Empty option in spintax pattern: " ++ to_string (fullMatch content))%string]
    else [].

(** The pattern loop of [validateSpintax]: [exec] with the [g] flag resumes
    after the previous match; [s] is the text from [lastIndex] on.  Every
    match is at least two characters long, so [length text] rounds are
    enough (see [pattern_loop_fuel]). *)
Fixpoint pattern_loop (fuel : nat) (s : chars) : list string :=
  match fuel with
  | O => []
  | S fuel' =>
      match exec false s with
      | None => []
      | Some (_, content, after) => pattern_errors content ++ pattern_loop fuel' after
      end
  end.

Record ValidationResult := { isValid : bool; errors : list string }.

Definition validateSpintax (text : string) : ValidationResult :=
  let s := of_string text in
  let errors := brace_errors s ++ pattern_loop (List.length s) s in
  {| isValid := (List.length errors =? 0)%nat; errors := errors |}.

(** ** Spintax markers and braces without partner *)

(** A spintax marker [{...|...}]: an opening brace, a run without braces
    that holds a pipe, a closing brace. *)
Definition marker_at (s : chars) (before content after : chars) : Prop :=
  s = before ++ fullMatch content ++ after
  /\ forallb (fun c => negb (is_brace c)) content = true
  /\ has_pipe content = true.

Definition has_marker (s : string) : Prop :=
  exists before content after, marker_at (of_string s) before content after.

(** Brace pairing as a reader does it: a closing brace pairs with the
    nearest opening brace before it that is still unpaired.  The answer is
    the positions of the closing braces left without partner and of the
    opening braces left without partner. *)
Fixpoint pair_braces (i : nat) (open : list nat) (s : chars) : list nat * list nat :=
  match s with
  | [] => ([], open)
  | c :: t =>
      if Ascii.eqb c lbrace then pair_braces (S i) (i :: open) t
      else if Ascii.eqb c rbrace then
        match open with
        | _ :: open' => pair_braces (S i) open' t
        | [] => let (cl, op) := pair_braces (S i) [] t in (i :: cl, op)
        end
      else pair_braces (S i) open t
  end.

Definition unmatched_closing (text : string) : list nat := fst (pair_braces 0 [] (of_string text)).
Definition unmatched_opening (text : string) : list nat := snd (pair_braces 0 [] (of_string text)).

(** Texts without dollar sign, and the number of opening braces of a text:
    the measure of the rounds [parseSpintax] needs on such texts. *)
Definition no_dollar (s : chars) : bool :=
  forallb (fun c => negb (Ascii.eqb c dollar)) s.

Definition count_lbrace (s : chars) : nat :=
  List.length (filter (Ascii.eqb lbrace) s).

(** A group [{...}]: an opening brace, a run without braces, a closing
    brace.  The malformations [validateSpintax] is there to report: a brace
    without partner, a group without pipe, a group with an option that is
    empty once trimmed. *)
Definition group_at (s : chars) (before content after : chars) : Prop :=
  s = before ++ fullMatch content ++ after
  /\ forallb (fun c => negb (is_brace c)) content = true.

Definition empty_option (content : chars) : bool :=
  existsb (fun option => JsString.eqb (trim option) []) (split pipe content).

Definition malformed (text : string) : Prop :=
  unmatched_opening text <> []
  \/ unmatched_closing text <> []
  \/ exists before content after,
       group_at (of_string text) before content after
       /\ (has_pipe content = false \/ empty_option content = true).

(** ** countSpintaxVariations *)

(** The values [totalVariations] takes: a JavaScript number that holds a
    natural number, or [Infinity]. *)
Inductive JsNumber :=
| Finite (n : Z)
| Infinity.

(** The double nearest to the natural number [p]: 53 bits of mantissa,
    ties to the even mantissa, [Infinity] from 2^1024 on.  This is what the
    multiplication of two numbers with the exact product [p] gives. *)
Definition double_of_Z (p : Z) : JsNumber :=
  if (p <? 2 ^ 53)%Z then Finite p
  else
    let e := (Z.log2 p - 52)%Z in
    let q := (p / 2 ^ e)%Z in
    let r := (p mod 2 ^ e)%Z in
    let half := (2 ^ (e - 1))%Z in
    let q' := if (r <? half)%Z then q
              else if (half <? r)%Z then (q + 1)%Z
              else if Z.even q then q else (q + 1)%Z in
    let v := (q' * 2 ^ e)%Z in
    if (v <? 2 ^ 1024)%Z then Finite v else Infinity.

(** [totalVariations *= options.length]; an array that [split] returns has
    one element at least. *)
Definition times (totalVariations : JsNumber) (length : nat) : JsNumber :=
  match totalVariations with
  | Finite n => double_of_Z (n * Z.of_nat length)
  | Infinity => Infinity
  end.

(** The loop of [countSpintaxVariations]: [exec] with the [g] flag resumes
    after the previous match, [s] is the text from [lastIndex] on.  A match
    is at least three characters long, so [length text] rounds are enough. *)
Fixpoint count_loop (fuel : nat) (s : chars) (totalVariations : JsNumber) : JsNumber :=
  match fuel with
  | O => totalVariations
  | S fuel' =>
      match exec true s with
      | None => totalVariations
      | Some (_, g, after) =>
          let options := split pipe g in
          count_loop fuel' after (times totalVariations (List.length options))
      end
  end.

Definition countSpintaxVariations (text : string) : JsNumber :=
  let s := of_string text in
  count_loop (List.length s) s (Finite 1).

(** ** generateAllSpintaxVariations *)

(** The inner function [generateVariation]: the loop of [parseSpintax] once
    more, on the pattern object of the enclosing function; [lastIndex] is 0
    whenever the loop is entered, since a failed [exec] resets it.  [k] is
    the number of draws already made from the random source. *)
Definition generateVariation (fuel : nat) (random : nat -> nat) (k : nat) (inputText : string)
  : option (string * nat) :=
  match parseSpintax_loop fuel random k (of_string inputText) with
  | Some (r, k') => Some (to_string r, k')
  | None => None
  end.

(** [uniqueVariations.add(variation)] on a [Set], kept in insertion order. *)
Definition Set_add (x : string) (s : list string) : list string :=
  if existsb (String.eqb x) s then s else s ++ [x].

(** The loop [while (uniqueVariations.size < maxVariations && attempts <
    maxAttempts)]; [attemptsLeft] is [maxAttempts - attempts]. *)
Fixpoint variations_loop (attemptsLeft : nat) (fuel : nat) (random : nat -> nat) (k : nat)
  (text : string) (maxVariations : Z) (uniqueVariations : list string)
  : option (list string) :=
  match attemptsLeft with
  | O => Some uniqueVariations
  | S attemptsLeft' =>
      if (Z.of_nat (List.length uniqueVariations) <? maxVariations)%Z then
        match generateVariation fuel random k text with
        | Some (variation, k') =>
            variations_loop attemptsLeft' fuel random k' text maxVariations
              (Set_add variation uniqueVariations)
        | None => None
        end
      else Some uniqueVariations
  end.

(** [generateAllSpintaxVariations(text, maxVariations)] for an integer
    [maxVariations] (100 when the argument is left out). *)
Definition generateAllSpintaxVariations (fuel : nat) (random : nat -> nat) (text : string)
  (maxVariations : Z) : option (list string) :=
  let maxAttempts := (maxVariations * 10)%Z in
  variations_loop (Z.to_nat maxAttempts) fuel random 0 text maxVariations [].

(** ** Templates without nesting *)

(** A template read left to right: a text without braces, then groups, each
    followed by a text without braces. *)
Record FlatTemplate := {
  lead : chars;
  parts : list (chars * chars)
}.

Definition no_brace (s : chars) : bool := forallb (fun c => negb (is_brace c)) s.

(** The groups hold a pipe, and no dollar sign. *)
Definition flat (t : FlatTemplate) : bool :=
  no_brace (lead t)
  && forallb (fun gb => no_brace (fst gb) && has_pipe (fst gb) && no_dollar (fst gb)
                        && no_brace (snd gb)) (parts t).

Fixpoint flat_tail (gs : list (chars * chars)) : chars :=
  match gs with
  | [] => []
  | (g, b) :: rest => fullMatch g ++ b ++ flat_tail rest
  end.

Definition flat_text (t : FlatTemplate) : chars := lead t ++ flat_tail (parts t).

(** The template with its i-th group exchanged for the option that draw
    number [k + i] of the random source picks, trimmed. *)
Fixpoint rendered_tail (random : nat -> nat) (k : nat) (gs : list (chars * chars)) : chars :=
  match gs with
  | [] => []
  | (g, b) :: rest =>
      trim (randomOption random k (split pipe g)) ++ b ++ rendered_tail random (S k) rest
  end.

Definition rendered (random : nat -> nat) (t : FlatTemplate) : chars :=
  lead t ++ rendered_tail random 0 (parts t).

(** The product of the numbers of options of the groups. *)
Fixpoint options_product (gs : list (chars * chars)) : nat :=
  match gs with
  | [] => 1
  | (g, _) :: rest => List.length (split pipe g) * options_product rest
  end.


(** The same product as the loop of [countSpintaxVariations] computes it,
    one double multiplication per group. *)
Definition rounded_product (gs : list (chars * chars)) : JsNumber :=
  fold_left (fun total gb => times total (List.length (split pipe (fst gb)))) gs (Finite 1).

(** A number that is 2 at least. *)
Definition two_or_more (d : JsNumber) : Prop :=
  match d with
  | Finite n => (2 <= n)%Z
  | Infinity => True
  end.

End Spintax.

(* ================================================================== *)
(** * JavaScript [Map] with string keys *)
(* ================================================================== *)

(** A [Map] iterates in insertion order and [set] on a key already present
    keeps the key's place, so the map is a list of bindings. *)
Module JsMap.

Section JsMap.
Variable V : Type.

Definition t := list (string * V).

Definition empty : t := [].

Fixpoint get (k : string) (m : t) : option V :=
    match m with
    | [] => None
    | (k', v) :: r => if String.eqb k' k then Some v else get k r
    end.

Fixpoint set (k : string) (v : V) (m : t) : t :=
    match m with
    | [] => [(k, v)]
    | (k', v') :: r =>
        if String.eqb k' k then (k, v) :: r else (k', v') :: set k v r
    end.

Definition has (k : string) (m : t) : bool :=
    match get k m with Some _ => true | None => false end.

  (** [delete] answers whether the key was present. *)
Definition delete (k : string) (m : t) : bool * t :=
    (has k m, filter (fun kv => negb (String.eqb (fst kv) k)) m).

Definition keys (m : t) : list string := map fst m.

Definition values (m : t) : list V := map snd m.
End JsMap.

Arguments empty {V}.

End JsMap.

(* ================================================================== *)
(** * shared/schema.ts: the row types *)
(* ================================================================== *)

(** A column that may be [null] is an [option]; [Partial<T>] has every field
    optional, [None] for a field the object literal does not mention. *)

Definition Date := Z.

(** [{ ...row, ...update }] on one field. *)
Definition spread_field {A : Type} (old : A) (update : option A) : A :=
  match update with
  | Some v => v
  | None => old
  end.

Module User.
Record t := { id : string; username : string; password : string }.

(** [InsertUser]: [username] and [password]. *)
Module Insert.
Record t := { username : string; password : string }.
End Insert.
End User.

Module Contact.
Record t := {
    id : string;
    name : string;
    phone : string;
    email : option string;
    groups : option (list string);
    metadata : option (list (string * string));
    createdAt : option Date
  }.

Module Partial.
Record t := {
      id : option string;
      name : option string;
      phone : option string;
      email : option (option string);
      groups : option (option (list string));
      metadata : option (option (list (string * string)));
      createdAt : option (option Date)
    }.
Definition none : t := Build_t None None None None None None None.
End Partial.

Definition spread (c : t) (u : Partial.t) : t :=
    {| id := spread_field (id c) (Partial.id u);
       name := spread_field (name c) (Partial.name u);
       phone := spread_field (phone c) (Partial.phone u);
       email := spread_field (email c) (Partial.email u);
       groups := spread_field (groups c) (Partial.groups u);
       metadata := spread_field (metadata c) (Partial.metadata u);
       createdAt := spread_field (createdAt c) (Partial.createdAt u) |}.

(** [InsertContact]: the row without [id] and [createdAt]; a column that may
    be [null] may also be left out ([None]). *)
Module Insert.
Record t := {
      name : string;
      phone : string;
      email : option string;
      groups : option (list string);
      metadata : option (list (string * string))
    }.
End Insert.
End Contact.

Module WhatsappSession.
Record t := {
    id : string;
    sessionId : string;
    phone : option string;
    status : string;
    qrCode : option string;
    lastSeen : option Date;
    createdAt : option Date
  }.

Module Partial.
Record t := {
      id : option string;
      sessionId : option string;
      phone : option (option string);
      status : option string;
      qrCode : option (option string);
      lastSeen : option (option Date);
      createdAt : option (option Date)
    }.
Definition none : t := Build_t None None None None None None None.
End Partial.

Definition spread (s : t) (u : Partial.t) : t :=
    {| id := spread_field (id s) (Partial.id u);
       sessionId := spread_field (sessionId s) (Partial.sessionId u);
       phone := spread_field (phone s) (Partial.phone u);
       status := spread_field (status s) (Partial.status u);
       qrCode := spread_field (qrCode s) (Partial.qrCode u);
       lastSeen := spread_field (lastSeen s) (Partial.lastSeen u);
       createdAt := spread_field (createdAt s) (Partial.createdAt u) |}.

(** [InsertWhatsappSession]: the row without [id], [createdAt] and
    [lastSeen]; [status] is optional since the column has a default. *)
Module Insert.
Record t := {
      sessionId : string;
      phone : option string;
      status : option string;
      qrCode : option string
    }.
End Insert.
End WhatsappSession.

Module Campaign.
Record t := {
    id : string;
    name : string;
    message : string;
    contactGroups : option (list string);
    mediaUrl : option string;
    mediaType : option string;
    status : string;
    scheduledAt : option Date;
    rateLimit : option Z;
    totalRecipients : option Z;
    messagesSent : option Z;
    messagesDelivered : option Z;
    messagesResponded : option Z;
    sessionId : option string;
    createdAt : option Date
  }.

Module Partial.
Record t := {
      id : option string;
      name : option string;
      message : option string;
      contactGroups : option (option (list string));
      mediaUrl : option (option string);
      mediaType : option (option string);
      status : option string;
      scheduledAt : option (option Date);
      rateLimit : option (option Z);
      totalRecipients : option (option Z);
      messagesSent : option (option Z);
      messagesDelivered : option (option Z);
      messagesResponded : option (option Z);
      sessionId : option (option string);
      createdAt : option (option Date)
    }.
Definition none : t :=
      Build_t None None None None None None None None None None None None None None None.
    (** [{ status: s }], [{ totalRecipients: n }], [{ messagesSent: n }] *)
Definition of_status (s : string) : t :=
      Build_t None None None None None None (Some s) None None None None None None None None.
Definition of_totalRecipients (n : Z) : t :=
      Build_t None None None None None None None None None (Some (Some n)) None None None None None.
Definition of_messagesSent (n : Z) : t :=
      Build_t None None None None None None None None None None (Some (Some n)) None None None None.
End Partial.

Definition spread (c : t) (u : Partial.t) : t :=
    {| id := spread_field (id c) (Partial.id u);
       name := spread_field (name c) (Partial.name u);
       message := spread_field (message c) (Partial.message u);
       contactGroups := spread_field (contactGroups c) (Partial.contactGroups u);
       mediaUrl := spread_field (mediaUrl c) (Partial.mediaUrl u);
       mediaType := spread_field (mediaType c) (Partial.mediaType u);
       status := spread_field (status c) (Partial.status u);
       scheduledAt := spread_field (scheduledAt c) (Partial.scheduledAt u);
       rateLimit := spread_field (rateLimit c) (Partial.rateLimit u);
       totalRecipients := spread_field (totalRecipients c) (Partial.totalRecipients u);
       messagesSent := spread_field (messagesSent c) (Partial.messagesSent u);
       messagesDelivered := spread_field (messagesDelivered c) (Partial.messagesDelivered u);
       messagesResponded := spread_field (messagesResponded c) (Partial.messagesResponded u);
       sessionId := spread_field (sessionId c) (Partial.sessionId u);
       createdAt := spread_field (createdAt c) (Partial.createdAt u) |}.

(** [InsertCampaign]: the row without [id], [createdAt] and the four
    counters. *)
Module Insert.
Record t := {
      name : string;
      message : string;
      contactGroups : option (list string);
      mediaUrl : option string;
      mediaType : option string;
      status : option string;
      scheduledAt : option Date;
      rateLimit : option Z;
      sessionId : option string
    }.
End Insert.
End Campaign.

Module AutoReplyRule.
Record t := {
    id : string;
    name : string;
    keywords : option (list string);
    triggerType : string;
    response : string;
    delay : option Z;
    isActive : option bool;
    businessHoursOnly : option bool;
    businessHoursStart : option string;
    businessHoursEnd : option string;
    sessionId : option string;
    createdAt : option Date
  }.

Module Partial.
Record t := {
      id : option string;
      name : option string;
      keywords : option (option (list string));
      triggerType : option string;
      response : option string;
      delay : option (option Z);
      isActive : option (option bool);
      businessHoursOnly : option (option bool);
      businessHoursStart : option (option string);
      businessHoursEnd : option (option string);
      sessionId : option (option string);
      createdAt : option (option Date)
    }.
Definition none : t :=
      Build_t None None None None None None None None None None None None.
End Partial.

Definition spread (r : t) (u : Partial.t) : t :=
    {| id := spread_field (id r) (Partial.id u);
       name := spread_field (name r) (Partial.name u);
       keywords := spread_field (keywords r) (Partial.keywords u);
       triggerType := spread_field (triggerType r) (Partial.triggerType u);
       response := spread_field (response r) (Partial.response u);
       delay := spread_field (delay r) (Partial.delay u);
       isActive := spread_field (isActive r) (Partial.isActive u);
       businessHoursOnly := spread_field (businessHoursOnly r) (Partial.businessHoursOnly u);
       businessHoursStart := spread_field (businessHoursStart r) (Partial.businessHoursStart u);
       businessHoursEnd := spread_field (businessHoursEnd r) (Partial.businessHoursEnd u);
       sessionId := spread_field (sessionId r) (Partial.sessionId u);
       createdAt := spread_field (createdAt r) (Partial.createdAt u) |}.

(** [InsertAutoReplyRule]: the row without [id] and [createdAt]. *)
Module Insert.
Record t := {
      name : string;
      keywords : option (list string);
      triggerType : option string;
      response : string;
      delay : option Z;
      isActive : option bool;
      businessHoursOnly : option bool;
      businessHoursStart : option string;
      businessHoursEnd : option string;
      sessionId : option string
    }.
End Insert.
End AutoReplyRule.

Module MessageQueue.
Record t := {
    id : string;
    campaignId : option string;
    contactId : option string;
    message : string;
    mediaUrl : option string;
    mediaType : option string;
    status : string;
    scheduledAt : option Date;
    sentAt : option Date;
    deliveredAt : option Date;
    errorMessage : option string;
    sessionId : option string;
    createdAt : option Date
  }.

Module Partial.
Record t := {
      id : option string;
      campaignId : option (option string);
      contactId : option (option string);
      message : option string;
      mediaUrl : option (option string);
      mediaType : option (option string);
      status : option string;
      scheduledAt : option (option Date);
      sentAt : option (option Date);
      deliveredAt : option (option Date);
      errorMessage : option (option string);
      sessionId : option (option string);
      createdAt : option (option Date)
    }.
Definition none : t :=
      Build_t None None None None None None None None None None None None None.
    (** [{ status: 'sent', sentAt: d }] and [{ status: 'failed', errorMessage: e }] *)
Definition sent (d : Date) : t :=
      Build_t None None None None None None (Some "sent") None (Some (Some d)) None None None None.
Definition failed (e : string) : t :=
      Build_t None None None None None None (Some "failed") None None None (Some (Some e)) None None.
End Partial.

Definition spread (m : t) (u : Partial.t) : t :=
    {| id := spread_field (id m) (Partial.id u);
       campaignId := spread_field (campaignId m) (Partial.campaignId u);
       contactId := spread_field (contactId m) (Partial.contactId u);
       message := spread_field (message m) (Partial.message u);
       mediaUrl := spread_field (mediaUrl m) (Partial.mediaUrl u);
       mediaType := spread_field (mediaType m) (Partial.mediaType u);
       status := spread_field (status m) (Partial.status u);
       scheduledAt := spread_field (scheduledAt m) (Partial.scheduledAt u);
       sentAt := spread_field (sentAt m) (Partial.sentAt u);
       deliveredAt := spread_field (deliveredAt m) (Partial.deliveredAt u);
       errorMessage := spread_field (errorMessage m) (Partial.errorMessage u);
       sessionId := spread_field (sessionId m) (Partial.sessionId u);
       createdAt := spread_field (createdAt m) (Partial.createdAt u) |}.

  (** [InsertMessageQueue]: the row without [id], [createdAt], [sentAt] and
      [deliveredAt]; [status] is optional since the column has a default. *)
Module Insert.
Record t := {
      campaignId : option string;
      contactId : option string;
      message : string;
      mediaUrl : option string;
      mediaType : option string;
      status : option string;
      scheduledAt : option Date;
      errorMessage : option string;
      sessionId : option string
    }.
End Insert.
End MessageQueue.

Module MessageAnalytics.
Record t := {
    id : string;
    messageId : option string;
    contactPhone : string;
    messageType : string;
    timestamp : option Date;
    sessionId : option string
  }.
End MessageAnalytics.

(** ** JavaScript truthiness, for [x || y] and [if (x)] *)

(** [s || null] on a nullable string: the empty string is falsy. *)
Definition truthy_string (s : option string) : option string :=
  match s with
  | Some v => if String.eqb v EmptyString then None else Some v
  | None => None
  end.

(** [n || d] on a nullable number: [null] and [0] are falsy. *)
Definition number_or (n : option Z) (d : Z) : Z :=
  match n with
  | Some v => if (v =? 0)%Z then d else v
  | None => d
  end.

(** [n || null] on a nullable number. *)
Definition truthy_number (n : option Z) : option Z :=
  match n with
  | Some v => if (v =? 0)%Z then None else Some v
  | None => None
  end.

(** [d || null] on a nullable [Date]: every [Date] object is truthy. *)
Definition truthy_date (d : option Date) : option Date := d.

(* ================================================================== *)
(** * server/storage.ts: [MemStorage] *)
(* ================================================================== *)

Module MemStorage.

Record t := {
  users : JsMap.t User.t;
  contacts : JsMap.t Contact.t;
  sessions : JsMap.t WhatsappSession.t;
  campaigns : JsMap.t Campaign.t;
  autoReplyRules : JsMap.t AutoReplyRule.t;
  messageQueue : JsMap.t MessageQueue.t;
  messageAnalytics : JsMap.t MessageAnalytics.t
}.

Definition new : t :=
  {| users := JsMap.empty; contacts := JsMap.empty; sessions := JsMap.empty;
     campaigns := JsMap.empty; autoReplyRules := JsMap.empty;
     messageQueue := JsMap.empty; messageAnalytics := JsMap.empty |}.

Definition with_contacts (m : JsMap.t Contact.t) (st : t) : t :=
  {| users := users st; contacts := m; sessions := sessions st;
     campaigns := campaigns st; autoReplyRules := autoReplyRules st;
     messageQueue := messageQueue st; messageAnalytics := messageAnalytics st |}.

Definition with_sessions (m : JsMap.t WhatsappSession.t) (st : t) : t :=
  {| users := users st; contacts := contacts st; sessions := m;
     campaigns := campaigns st; autoReplyRules := autoReplyRules st;
     messageQueue := messageQueue st; messageAnalytics := messageAnalytics st |}.

Definition with_campaigns (m : JsMap.t Campaign.t) (st : t) : t :=
  {| users := users st; contacts := contacts st; sessions := sessions st;
     campaigns := m; autoReplyRules := autoReplyRules st;
     messageQueue := messageQueue st; messageAnalytics := messageAnalytics st |}.

Definition with_autoReplyRules (m : JsMap.t AutoReplyRule.t) (st : t) : t :=
  {| users := users st; contacts := contacts st; sessions := sessions st;
     campaigns := campaigns st; autoReplyRules := m;
     messageQueue := messageQueue st; messageAnalytics := messageAnalytics st |}.

Definition with_messageQueue (m : JsMap.t MessageQueue.t) (st : t) : t :=
  {| users := users st; contacts := contacts st; sessions := sessions st;
     campaigns := campaigns st; autoReplyRules := autoReplyRules st;
     messageQueue := m; messageAnalytics := messageAnalytics st |}.

Definition with_messageAnalytics (m : JsMap.t MessageAnalytics.t) (st : t) : t :=
  {| users := users st; contacts := contacts st; sessions := sessions st;
     campaigns := campaigns st; autoReplyRules := autoReplyRules st;
     messageQueue := messageQueue st; messageAnalytics := m |}.

(** *** Contacts *)

Definition getContacts (st : t) : list Contact.t := JsMap.values (contacts st).

Definition getContact (id : string) (st : t) : option Contact.t :=
  JsMap.get id (contacts st).

Definition updateContact (id : string) (contactUpdate : Contact.Partial.t) (st : t)
  : option Contact.t * t :=
  match JsMap.get id (contacts st) with
  | None => (None, st)
  | Some contact =>
      let updated := Contact.spread contact contactUpdate in
      (Some updated, with_contacts (JsMap.set id updated (contacts st)) st)
  end.

(** [contact.groups?.some(group => groups.includes(group))] *)
Definition in_groups (groups : list string) (contact : Contact.t) : bool :=
  match Contact.groups contact with
  | Some gs => existsb (fun group => existsb (String.eqb group) groups) gs
  | None => false
  end.

Definition getContactsByGroups (groups : list string) (st : t) : list Contact.t :=
  filter (in_groups groups) (JsMap.values (contacts st)).

(** *** WhatsApp sessions *)

Definition getSessions (st : t) : list WhatsappSession.t := JsMap.values (sessions st).

Definition updateSession (id : string) (sessionUpdate : WhatsappSession.Partial.t) (st : t)
  : option WhatsappSession.t * t :=
  match JsMap.get id (sessions st) with
  | None => (None, st)
  | Some session =>
      let updated := WhatsappSession.spread session sessionUpdate in
      (Some updated, with_sessions (JsMap.set id updated (sessions st)) st)
  end.

(** *** Campaigns *)

Definition getCampaign (id : string) (st : t) : option Campaign.t :=
  JsMap.get id (campaigns st).

Definition updateCampaign (id : string) (campaignUpdate : Campaign.Partial.t) (st : t)
  : option Campaign.t * t :=
  match JsMap.get id (campaigns st) with
  | None => (None, st)
  | Some campaign =>
      let updated := Campaign.spread campaign campaignUpdate in
      (Some updated, with_campaigns (JsMap.set id updated (campaigns st)) st)
  end.

(** *** Auto-reply rules *)

(** [getAutoReplyRules(sessionId?)]: an absent or empty [sessionId] is falsy
    and gives every rule. *)
Definition getAutoReplyRules (sessionId : option string) (st : t) : list AutoReplyRule.t :=
  let rules := JsMap.values (autoReplyRules st) in
  match truthy_string sessionId with
  | Some sid =>
      filter (fun rule => match AutoReplyRule.sessionId rule with
                          | Some s => String.eqb s sid
                          | None => false
                          end) rules
  | None => rules
  end.

Definition updateAutoReplyRule (id : string) (ruleUpdate : AutoReplyRule.Partial.t) (st : t)
  : option AutoReplyRule.t * t :=
  match JsMap.get id (autoReplyRules st) with
  | None => (None, st)
  | Some rule =>
      let updated := AutoReplyRule.spread rule ruleUpdate in
      (Some updated, with_autoReplyRules (JsMap.set id updated (autoReplyRules st)) st)
  end.

(** *** Message queue *)

(** [getMessageQueue()] without argument. *)
Definition getMessageQueue (st : t) : list MessageQueue.t := JsMap.values (messageQueue st).

(** [createQueuedMessage]; [id] is the value of [randomUUID()] and [now] the
    value of [new Date()]. *)
Definition createQueuedMessage (id : string) (now : Date) (insertMessage : MessageQueue.Insert.t)
  (st : t) : MessageQueue.t * t :=
  let message :=
    {| MessageQueue.id := id;
       MessageQueue.createdAt := Some now;
       MessageQueue.sentAt := None;
       MessageQueue.deliveredAt := None;
       MessageQueue.status :=
         match truthy_string (MessageQueue.Insert.status insertMessage) with
         | Some s => s
         | None => "pending"
         end;
       MessageQueue.sessionId := truthy_string (MessageQueue.Insert.sessionId insertMessage);
       MessageQueue.mediaUrl := truthy_string (MessageQueue.Insert.mediaUrl insertMessage);
       MessageQueue.mediaType := truthy_string (MessageQueue.Insert.mediaType insertMessage);
       MessageQueue.scheduledAt := truthy_date (MessageQueue.Insert.scheduledAt insertMessage);
       MessageQueue.contactId := truthy_string (MessageQueue.Insert.contactId insertMessage);
       MessageQueue.campaignId := truthy_string (MessageQueue.Insert.campaignId insertMessage);
       MessageQueue.errorMessage := truthy_string (MessageQueue.Insert.errorMessage insertMessage);
       MessageQueue.message := MessageQueue.Insert.message insertMessage |} in
  (message, with_messageQueue (JsMap.set id message (messageQueue st)) st).

Definition updateQueuedMessage (id : string) (messageUpdate : MessageQueue.Partial.t) (st : t)
  : option MessageQueue.t * t :=
  match JsMap.get id (messageQueue st) with
  | None => (None, st)
  | Some message =>
      let updated := MessageQueue.spread message messageUpdate in
      (Some updated, with_messageQueue (JsMap.set id updated (messageQueue st)) st)
  end.

(** [msg.sessionId === sessionId && msg.status === 'pending'] *)
Definition is_pending_for (sessionId : string) (msg : MessageQueue.t) : bool :=
  match MessageQueue.sessionId msg with
  | Some s => String.eqb s sessionId
  | None => false
  end && String.eqb (MessageQueue.status msg) "pending".

Definition getPendingMessages (sessionId : string) (st : t) : list MessageQueue.t :=
  filter (is_pending_for sessionId) (JsMap.values (messageQueue st)).

(** *** Analytics *)

(** [createMessageAnalytic]; [id] is the value of [randomUUID()]. *)
Definition createMessageAnalytic (id : string)
  (messageId : option string) (contactPhone messageType : string)
  (timestamp : option Date) (sessionId : option string) (st : t) : MessageAnalytics.t * t :=
  let messageAnalytic :=
    {| MessageAnalytics.id := id;
       MessageAnalytics.messageId := messageId;
       MessageAnalytics.contactPhone := contactPhone;
       MessageAnalytics.messageType := messageType;
       MessageAnalytics.timestamp := timestamp;
       MessageAnalytics.sessionId := sessionId |} in
  (messageAnalytic,
   with_messageAnalytics (JsMap.set id messageAnalytic (messageAnalytics st)) st).


(** *** The other methods, in the order of the class *)

(** **** Users *)

Definition with_users (m : JsMap.t User.t) (st : t) : t :=
  {| users := m; contacts := contacts st; sessions := sessions st;
     campaigns := campaigns st; autoReplyRules := autoReplyRules st;
     messageQueue := messageQueue st; messageAnalytics := messageAnalytics st |}.

Definition getUser (id : string) (st : t) : option User.t := JsMap.get id (users st).

(** [Array.from(map.values()).find(p)]: the first value, in insertion
    order, that satisfies [p]. *)
Definition getUserByUsername (username : string) (st : t) : option User.t :=
  find (fun user => String.eqb (User.username user) username) (JsMap.values (users st)).

Definition createUser (id : string) (insertUser : User.Insert.t) (st : t) : User.t * t :=
  let user :=
    {| User.id := id;
       User.username := User.Insert.username insertUser;
       User.password := User.Insert.password insertUser |} in
  (user, with_users (JsMap.set id user (users st)) st).

(** **** Contacts *)

(** [createContact]; [id] is the value of [randomUUID()] and [now] the value
    of [new Date()].  An array and an object are truthy, also when empty. *)
Definition createContact (id : string) (now : Date) (insertContact : Contact.Insert.t)
  (st : t) : Contact.t * t :=
  let contact :=
    {| Contact.id := id;
       Contact.name := Contact.Insert.name insertContact;
       Contact.phone := Contact.Insert.phone insertContact;
       Contact.createdAt := Some now;
       Contact.groups := Contact.Insert.groups insertContact;
       Contact.metadata := Contact.Insert.metadata insertContact;
       Contact.email := truthy_string (Contact.Insert.email insertContact) |} in
  (contact, with_contacts (JsMap.set id contact (contacts st)) st).

Definition deleteContact (id : string) (st : t) : bool * t :=
  let (deleted, m) := JsMap.delete id (contacts st) in
  (deleted, with_contacts m st).

(** **** WhatsApp sessions *)

Definition getSession (id : string) (st : t) : option WhatsappSession.t :=
  JsMap.get id (sessions st).

Definition getSessionBySessionId (sessionId : string) (st : t) : option WhatsappSession.t :=
  find (fun session => String.eqb (WhatsappSession.sessionId session) sessionId)
       (JsMap.values (sessions st)).

Definition createSession (id : string) (now : Date) (insertSession : WhatsappSession.Insert.t)
  (st : t) : WhatsappSession.t * t :=
  let session :=
    {| WhatsappSession.id := id;
       WhatsappSession.sessionId := WhatsappSession.Insert.sessionId insertSession;
       WhatsappSession.createdAt := Some now;
       WhatsappSession.lastSeen := None;
       WhatsappSession.status :=
         match truthy_string (WhatsappSession.Insert.status insertSession) with
         | Some s => s
         | None => "pending"
         end;
       WhatsappSession.phone := truthy_string (WhatsappSession.Insert.phone insertSession);
       WhatsappSession.qrCode := truthy_string (WhatsappSession.Insert.qrCode insertSession)
    |} in
  (session, with_sessions (JsMap.set id session (sessions st)) st).

Definition deleteSession (id : string) (st : t) : bool * t :=
  let (deleted, m) := JsMap.delete id (sessions st) in
  (deleted, with_sessions m st).

(** **** Campaigns *)

Definition getCampaigns (st : t) : list Campaign.t := JsMap.values (campaigns st).

(** [rateLimit: insertCampaign.rateLimit ?? 30]: only [null] and
    [undefined] give the default, 0 stays 0. *)
Definition createCampaign (id : string) (now : Date) (insertCampaign : Campaign.Insert.t)
  (st : t) : Campaign.t * t :=
  let campaign :=
    {| Campaign.id := id;
       Campaign.name := Campaign.Insert.name insertCampaign;
       Campaign.message := Campaign.Insert.message insertCampaign;
       Campaign.createdAt := Some now;
       Campaign.totalRecipients := Some 0%Z;
       Campaign.messagesSent := Some 0%Z;
       Campaign.messagesDelivered := Some 0%Z;
       Campaign.messagesResponded := Some 0%Z;
       Campaign.contactGroups := Campaign.Insert.contactGroups insertCampaign;
       Campaign.status :=
         match truthy_string (Campaign.Insert.status insertCampaign) with
         | Some s => s
         | None => "draft"
         end;
       Campaign.sessionId := truthy_string (Campaign.Insert.sessionId insertCampaign);
       Campaign.mediaUrl := truthy_string (Campaign.Insert.mediaUrl insertCampaign);
       Campaign.mediaType := truthy_string (Campaign.Insert.mediaType insertCampaign);
       Campaign.scheduledAt := truthy_date (Campaign.Insert.scheduledAt insertCampaign);
       Campaign.rateLimit :=
         match Campaign.Insert.rateLimit insertCampaign with
         | Some n => Some n
         | None => Some 30%Z
         end |} in
  (campaign, with_campaigns (JsMap.set id campaign (campaigns st)) st).

Definition deleteCampaign (id : string) (st : t) : bool * t :=
  let (deleted, m) := JsMap.delete id (campaigns st) in
  (deleted, with_campaigns m st).

(** **** Auto-reply rules *)

Definition getAutoReplyRule (id : string) (st : t) : option AutoReplyRule.t :=
  JsMap.get id (autoReplyRules st).

(** [delay || null] turns the delay 0 into [null]; [isActive ?? null] and
    [businessHoursOnly ?? null] keep [false] and turn a field that was left
    out into [null]. *)
Definition createAutoReplyRule (id : string) (now : Date)
  (insertRule : AutoReplyRule.Insert.t) (st : t) : AutoReplyRule.t * t :=
  let rule :=
    {| AutoReplyRule.id := id;
       AutoReplyRule.name := AutoReplyRule.Insert.name insertRule;
       AutoReplyRule.response := AutoReplyRule.Insert.response insertRule;
       AutoReplyRule.createdAt := Some now;
       AutoReplyRule.keywords := AutoReplyRule.Insert.keywords insertRule;
       AutoReplyRule.sessionId := truthy_string (AutoReplyRule.Insert.sessionId insertRule);
       AutoReplyRule.delay := truthy_number (AutoReplyRule.Insert.delay insertRule);
       AutoReplyRule.isActive := AutoReplyRule.Insert.isActive insertRule;
       AutoReplyRule.businessHoursOnly := AutoReplyRule.Insert.businessHoursOnly insertRule;
       AutoReplyRule.businessHoursStart :=
         truthy_string (AutoReplyRule.Insert.businessHoursStart insertRule);
       AutoReplyRule.businessHoursEnd :=
         truthy_string (AutoReplyRule.Insert.businessHoursEnd insertRule);
       AutoReplyRule.triggerType :=
         match truthy_string (AutoReplyRule.Insert.triggerType insertRule) with
         | Some s => s
         | None => "contains"
         end |} in
  (rule, with_autoReplyRules (JsMap.set id rule (autoReplyRules st)) st).

Definition deleteAutoReplyRule (id : string) (st : t) : bool * t :=
  let (deleted, m) := JsMap.delete id (autoReplyRules st) in
  (deleted, with_autoReplyRules m st).

(** **** Message queue *)

Definition getQueuedMessage (id : string) (st : t) : option MessageQueue.t :=
  JsMap.get id (messageQueue st).

(** [getMessageQueue(sessionId)] with its argument: an absent or empty
    [sessionId] is falsy and gives every entry. *)
Definition getMessageQueue_session (sessionId : option string) (st : t)
  : list MessageQueue.t :=
  let messages := JsMap.values (messageQueue st) in
  match truthy_string sessionId with
  | Some sid =>
      filter (fun msg => match MessageQueue.sessionId msg with
                         | Some s => String.eqb s sid
                         | None => false
                         end) messages
  | None => messages
  end.

(** **** Analytics *)

(** [a.timestamp && a.timestamp >= startDate] and [a.timestamp &&
    a.timestamp <= endDate]: a row without timestamp fails both. *)
Definition not_before (startDate : Date) (a : MessageAnalytics.t) : bool :=
  match MessageAnalytics.timestamp a with
  | Some t => (startDate <=? t)%Z
  | None => false
  end.

Definition not_after (endDate : Date) (a : MessageAnalytics.t) : bool :=
  match MessageAnalytics.timestamp a with
  | Some t => (t <=? endDate)%Z
  | None => false
  end.

(** [getMessageAnalytics(sessionId?, startDate?, endDate?)]; a [Date] that
    is given is a valid date. *)
Definition getMessageAnalytics (sessionId : option string) (startDate endDate : option Date)
  (st : t) : list MessageAnalytics.t :=
  let analytics := JsMap.values (messageAnalytics st) in
  let analytics :=
    match truthy_string sessionId with
    | Some sid =>
        filter (fun a => match MessageAnalytics.sessionId a with
                         | Some s => String.eqb s sid
                         | None => false
                         end) analytics
    | None => analytics
    end in
  let analytics :=
    match startDate with
    | Some d => filter (not_before d) analytics
    | None => analytics
    end in
  match endDate with
  | Some d => filter (not_after d) analytics
  | None => analytics
  end.

End MemStorage.

(* ================================================================== *)
(** * The process state and the monad of the services *)
(* ================================================================== *)

(** The services are [async] methods of two singletons that share the
    [storage] singleton.  A service call is modelled as one uninterrupted
    run: what other tasks of the event loop do at an [await] is not part of
    the embedding. *)

Module Runtime.

(** A thrown value: an [Error] object with its [message], or anything else. *)
Inductive Thrown :=
| ErrorObject (message : string)
| OtherValue.

(** [error instanceof Error ? error.message : 'Unknown error'] *)
Definition errorMessageOf (error : Thrown) : string :=
  match error with
  | ErrorObject message => message
  | OtherValue => "Unknown error"
  end.

(** [WhatsAppService.sessions]: [socket] tells whether the socket is set. *)
Record SessionData := {
  socket : bool;
  qr : option string;
  status : string;
  phone : option string
}.

(** The content object given to [socket.sendMessage]: [{ text }],
    [{ image: mediaBuffer, caption }], [{ video: mediaBuffer, caption }],
    [{ document: mediaBuffer, mimetype: 'application/pdf', fileName:
    path.basename(mediaUrl) }] and [{ audio: mediaBuffer }].  The buffer is
    what [fs.readFileSync(mediaUrl)] returned; it stands here as the path
    that was read, which also fixes the file name of a document. *)
Inductive MessageContent :=
| TextContent (text : string)
| ImageContent (mediaUrl caption : string)
| VideoContent (mediaUrl caption : string)
| DocumentContent (mediaUrl : string)
| AudioContent (mediaUrl : string).

(** What [socket.sendMessage(jid, content)] was given. *)
Record SocketMessage := {
  via : string;
  jid : string;
  content : MessageContent
}.

(** node-cron: the five-field expression built by [dateToCronExpression]
    (its day-of-week field is always the wildcard) and a task.  A task holds
    the campaign its callback closed over. *)
Record CronExpression := {
  cronMinute : Z;
  cronHour : Z;
  cronDayOfMonth : Z;
  cronMonth : Z
}.

Record ScheduledTask := {
  expression : CronExpression;
  campaign : Campaign.t;
  running : bool
}.

(** A pending [setTimeout] of an auto-reply. *)
Record Timeout := {
  dueAt : Date;
  replySession : string;
  replyTo : string;
  replyText : string
}.

(** What the outside world answers: the values of [randomUUID()] and of
    [Math.random()] by draw number, whether the n-th call of
    [socket.sendMessage] resolves, whether [fs.readFileSync] can read a path,
    and the offset in minutes of the server's local time from UTC. *)
Record Env := {
  randomUUID_at : nat -> string;
  random_at : nat -> nat;
  socket_at : nat -> option Thrown;
  readFileSync_at : string -> option Thrown;
  timezoneOffset : Z
}.

Record World := {
  storage : MemStorage.t;
  waSessions : JsMap.t SessionData;
  cronTasks : list ScheduledTask;
  scheduledJobs : JsMap.t nat;
  timeouts : list Timeout;
  clock : Date;
  uuidsDrawn : nat;
  randomsDrawn : nat;
  socketCalls : nat;
  delivered : list SocketMessage
}.

Definition with_storage (x : MemStorage.t) (w : World) : World :=
  {| storage := x; waSessions := waSessions w; cronTasks := cronTasks w;
     scheduledJobs := scheduledJobs w; timeouts := timeouts w; clock := clock w;
     uuidsDrawn := uuidsDrawn w; randomsDrawn := randomsDrawn w;
     socketCalls := socketCalls w; delivered := delivered w |}.

Definition with_cronTasks (x : list ScheduledTask) (w : World) : World :=
  {| storage := storage w; waSessions := waSessions w; cronTasks := x;
     scheduledJobs := scheduledJobs w; timeouts := timeouts w; clock := clock w;
     uuidsDrawn := uuidsDrawn w; randomsDrawn := randomsDrawn w;
     socketCalls := socketCalls w; delivered := delivered w |}.

Definition with_scheduledJobs (x : JsMap.t nat) (w : World) : World :=
  {| storage := storage w; waSessions := waSessions w; cronTasks := cronTasks w;
     scheduledJobs := x; timeouts := timeouts w; clock := clock w;
     uuidsDrawn := uuidsDrawn w; randomsDrawn := randomsDrawn w;
     socketCalls := socketCalls w; delivered := delivered w |}.

Definition with_timeouts (x : list Timeout) (w : World) : World :=
  {| storage := storage w; waSessions := waSessions w; cronTasks := cronTasks w;
     scheduledJobs := scheduledJobs w; timeouts := x; clock := clock w;
     uuidsDrawn := uuidsDrawn w; randomsDrawn := randomsDrawn w;
     socketCalls := socketCalls w; delivered := delivered w |}.

Definition with_clock (x : Date) (w : World) : World :=
  {| storage := storage w; waSessions := waSessions w; cronTasks := cronTasks w;
     scheduledJobs := scheduledJobs w; timeouts := timeouts w; clock := x;
     uuidsDrawn := uuidsDrawn w; randomsDrawn := randomsDrawn w;
     socketCalls := socketCalls w; delivered := delivered w |}.

Definition with_uuidsDrawn (x : nat) (w : World) : World :=
  {| storage := storage w; waSessions := waSessions w; cronTasks := cronTasks w;
     scheduledJobs := scheduledJobs w; timeouts := timeouts w; clock := clock w;
     uuidsDrawn := x; randomsDrawn := randomsDrawn w;
     socketCalls := socketCalls w; delivered := delivered w |}.

Definition with_randomsDrawn (x : nat) (w : World) : World :=
  {| storage := storage w; waSessions := waSessions w; cronTasks := cronTasks w;
     scheduledJobs := scheduledJobs w; timeouts := timeouts w; clock := clock w;
     uuidsDrawn := uuidsDrawn w; randomsDrawn := x;
     socketCalls := socketCalls w; delivered := delivered w |}.

Definition with_socket (calls : nat) (log : list SocketMessage) (w : World) : World :=
  {| storage := storage w; waSessions := waSessions w; cronTasks := cronTasks w;
     scheduledJobs := scheduledJobs w; timeouts := timeouts w; clock := clock w;
     uuidsDrawn := uuidsDrawn w; randomsDrawn := randomsDrawn w;
     socketCalls := calls; delivered := log |}.

Definition with_waSessions (x : JsMap.t SessionData) (w : World) : World :=
  {| storage := storage w; waSessions := x; cronTasks := cronTasks w;
     scheduledJobs := scheduledJobs w; timeouts := timeouts w; clock := clock w;
     uuidsDrawn := uuidsDrawn w; randomsDrawn := randomsDrawn w;
     socketCalls := socketCalls w; delivered := delivered w |}.

(** Why a run of the model gives no result: a loop used up its fuel, or the
    input is one the embedding does not cover (a metadata key that is a
    regular expression of its own). *)
Inductive NoResult :=
| OutOfFuel
| OutsideModel.

Inductive Result (A : Type) :=
| Ok (a : A) (w : World)
| Throw (error : Thrown) (w : World)
| Stuck (why : NoResult).

Arguments Ok {A} a w.
Arguments Throw {A} error w.
Arguments Stuck {A} why.

Definition M (A : Type) := World -> Result A.

Definition ret {A} (a : A) : M A := fun w => Ok a w.

Definition bind {A B} (m : M A) (k : A -> M B) : M B :=
  fun w =>
    match m w with
    | Ok a w' => k a w'
    | Throw e w' => Throw e w'
    | Stuck why => Stuck why
    end.

Definition throw {A} (e : Thrown) : M A := fun w => Throw e w.

(** [try { body } catch (error) { handler }]: the state reached when the
    exception was thrown is the state the handler starts from. *)
Definition try_catch {A} (body : M A) (handler : Thrown -> M A) : M A :=
  fun w =>
    match body w with
    | Ok a w' => Ok a w'
    | Throw e w' => handler e w'
    | Stuck why => Stuck why
    end.

(** [for (const x of xs) { body }] *)
Fixpoint for_of {X} (xs : list X) (body : X -> M unit) : M unit :=
  match xs with
  | [] => ret tt
  | x :: rest => bind (body x) (fun _ => for_of rest body)
  end.

(** A call into [storage]: none of the [MemStorage] methods throws. *)
Definition storage_call {A} (f : MemStorage.t -> A * MemStorage.t) : M A :=
  fun w => let (a, st) := f (storage w) in Ok a (with_storage st w).

Definition storage_read {A} (f : MemStorage.t -> A) : M A :=
  fun w => Ok (f (storage w)) w.

(** [new Date()] *)
Definition newDate : M Date := fun w => Ok (clock w) w.

(** [await new Promise(resolve => setTimeout(resolve, ms))] *)
Definition sleep (ms : Z) : M unit := fun w => Ok tt (with_clock (clock w + ms)%Z w).

End Runtime.

Declare Scope monad_scope.
Delimit Scope monad_scope with monad.
Notation "x <- m ;; k" := (Runtime.bind m (fun x => k))
  (at level 61, m at next level, right associativity) : monad_scope.
Notation "m ;; k" := (Runtime.bind m (fun _ => k))
  (at level 61, right associativity) : monad_scope.

(* ================================================================== *)
(** * server/services/whatsapp.ts: [WhatsAppService] *)
(* ================================================================== *)

Module WhatsAppService.
Import Runtime.

Local Open Scope monad_scope.

(** One entry of [messageUpdate.messages]: [key.fromMe], [key.remoteJid],
    [message.conversation] and [message.extendedTextMessage.text]. *)
Record IncomingMessage := {
  fromMe : bool;
  remoteJid : option string;
  conversation : option string;
  extendedText : option string
}.

(** [keyword.toLowerCase()], [text.includes(k)], [text.startsWith(k)],
    [text.endsWith(k)] on [string]. *)
Definition lower (s : string) : string := to_string (toLowerCase (of_string s)).

Definition str_includes (k s : string) : bool := includes (of_string k) (of_string s).
Definition str_startsWith (k s : string) : bool := startsWith (of_string k) (of_string s).
Definition str_endsWith (k s : string) : bool := endsWith (of_string k) (of_string s).

(** [rule.keywords.some(f)]: a [TypeError] when [keywords] is [null]. *)
Definition keywords_some (rule : AutoReplyRule.t) (f : string -> bool) : Thrown + bool :=
  match AutoReplyRule.keywords rule with
  | Some keywords => inr (existsb f keywords)
  | None => inl (ErrorObject "Cannot read properties of null (reading 'some')")
  end.

Definition checkAutoReplyTrigger (messageText : string) (rule : AutoReplyRule.t)
  : Thrown + bool :=
  let text := lower messageText in
  let triggerType := AutoReplyRule.triggerType rule in
  if String.eqb triggerType "contains" then
    keywords_some rule (fun keyword => str_includes (lower keyword) text)
  else if String.eqb triggerType "exact" then
    keywords_some rule (fun keyword => String.eqb text (lower keyword))
  else if String.eqb triggerType "starts_with" then
    keywords_some rule (fun keyword => str_startsWith (lower keyword) text)
  else if String.eqb triggerType "ends_with" then
    keywords_some rule (fun keyword => str_endsWith (lower keyword) text)
  else if String.eqb triggerType "any" then inr true
  else inr false.

(** [remoteJid?.split('@')[0]] *)
Definition number_of_jid (remoteJid : option string) : option string :=
  match remoteJid with
  | Some j => Some (to_string (hd [] (split "@"%char (of_string j))))
  | None => None
  end.

(** [conversation || extendedTextMessage?.text || ''] *)
Definition text_of (m : IncomingMessage) : string :=
  match truthy_string (conversation m) with
  | Some t => t
  | None => match truthy_string (extendedText m) with
            | Some t => t
            | None => EmptyString
            end
  end.

Section WithEnv.
Variable env : Env.

Definition randomUUID : M string :=
  fun w => Ok (randomUUID_at env (uuidsDrawn w)) (with_uuidsDrawn (S (uuidsDrawn w)) w).

(** [socket.sendMessage(jid, content)]: the socket accepts the message, or
    the promise rejects. *)
Definition socket_sendMessage (m : SocketMessage) : M unit :=
  fun w =>
    match socket_at env (socketCalls w) with
    | None => Ok tt (with_socket (S (socketCalls w)) (delivered w ++ [m]) w)
    | Some e => Throw e (with_socket (S (socketCalls w)) (delivered w) w)
    end.

Definition readFileSync (path : string) : M unit :=
  fun w =>
    match readFileSync_at env path with
    | None => Ok tt w
    | Some e => Throw e w
    end.

(** [storage.createMessageAnalytic({ messageId: null, contactPhone,
    messageType, timestamp: new Date(), sessionId })] *)
Definition logAnalytic (contactPhone messageType sessionId : string) : M unit :=
  now <- newDate ;;
  id <- randomUUID ;;
  storage_call (MemStorage.createMessageAnalytic id None contactPhone messageType
                  (Some now) (Some sessionId)) ;;
  ret tt.

Definition jid_of (toNumber : string) : string := (toNumber ++ "@s.whatsapp.net")%string.

(** The [switch (mediaType)] of [sendMessage]: a document and an audio file
    go out without the text, an unknown type as the text without the
    file. *)
Definition messageContent (message mediaUrl mediaType : string) : MessageContent :=
  if String.eqb mediaType "image" then ImageContent mediaUrl message
  else if String.eqb mediaType "video" then VideoContent mediaUrl message
  else if String.eqb mediaType "document" then DocumentContent mediaUrl
  else if String.eqb mediaType "audio" then AudioContent mediaUrl
  else TextContent message.

Definition sendMessage (sessionId toNumber message : string)
  (mediaUrl mediaType : option string) : M bool :=
  fun w =>
    let connected :=
      match JsMap.get sessionId (waSessions w) with
      | Some sessionData => socket sessionData && String.eqb (status sessionData) "connected"
      | None => false
      end in
    if negb connected then Throw (ErrorObject "WhatsApp session not connected") w
    else
      (match truthy_string mediaUrl, truthy_string mediaType with
       | Some url, Some type =>
           readFileSync url ;;
           socket_sendMessage
             {| via := sessionId; jid := jid_of toNumber;
                content := messageContent message url type |}
       | _, _ =>
           socket_sendMessage
             {| via := sessionId; jid := jid_of toNumber;
                content := TextContent message |}
       end ;;
       logAnalytic toNumber "sent" sessionId ;;
       ret true) w.

Definition sendAutoReply (sessionId toNumber response : string) : M unit :=
  fun w =>
    match JsMap.get sessionId (waSessions w) with
    | Some sessionData =>
        if socket sessionData then
          try_catch
            (socket_sendMessage
               {| via := sessionId; jid := jid_of toNumber;
                  content := TextContent response |} ;;
             logAnalytic toNumber "sent" sessionId)
            (fun _ => ret tt) w
        else Ok tt w
    | None => Ok tt w
    end.

(** [setTimeout(() => this.sendAutoReply(...), rule.delay * 1000)] *)
Definition setTimeout_reply (sessionId toNumber response : string) (ms : Z) : M unit :=
  fun w =>
    Ok tt (with_timeouts
             (timeouts w ++ [{| dueAt := (clock w + ms)%Z; replySession := sessionId;
                                replyTo := toNumber; replyText := response |}]) w).

(** The loop over the rules, left at the first rule that replies. *)
Fixpoint reply_by_rules (sessionId fromNumber messageText : string)
  (rules : list AutoReplyRule.t) : M unit :=
  match rules with
  | [] => ret tt
  | rule :: rest =>
      match AutoReplyRule.isActive rule with
      | Some true =>
          match checkAutoReplyTrigger messageText rule with
          | inl e => throw e
          | inr true =>
              match AutoReplyRule.delay rule with
              | Some d =>
                  if (0 <? d)%Z
                  then setTimeout_reply sessionId fromNumber (AutoReplyRule.response rule)
                         (d * 1000)
                  else sendAutoReply sessionId fromNumber (AutoReplyRule.response rule)
              | None => sendAutoReply sessionId fromNumber (AutoReplyRule.response rule)
              end
          | inr false => reply_by_rules sessionId fromNumber messageText rest
          end
      | _ => reply_by_rules sessionId fromNumber messageText rest
      end
  end.

Definition handleIncomingMessage (sessionId : string) (message : IncomingMessage) : M unit :=
  if fromMe message then ret tt
  else
    match truthy_string (number_of_jid (remoteJid message)) with
    | None => ret tt
    | Some fromNumber =>
        let messageText := text_of message in
        if String.eqb messageText EmptyString then ret tt
        else
          autoReplyRules <- storage_read (MemStorage.getAutoReplyRules (Some sessionId)) ;;
          reply_by_rules sessionId fromNumber messageText autoReplyRules ;;
          logAnalytic fromNumber "received" sessionId
    end.

Definition handleIncomingMessages (sessionId : string) (messages : list IncomingMessage)
  : M unit :=
  for_of messages (handleIncomingMessage sessionId).

End WithEnv.

(** The inbound messages recorded for a sender: the analytics rows of type
    ['received'] with the sender's number. *)
Definition recorded_inbound (fromNumber : string) (st : MemStorage.t)
  : list MessageAnalytics.t :=
  filter (fun a => String.eqb (MessageAnalytics.messageType a) "received"
                   && String.eqb (MessageAnalytics.contactPhone a) fromNumber)
         (JsMap.values (MemStorage.messageAnalytics st)).

(** ** Receipts, connection updates, disconnecting *)

(** One entry of the [message-receipt.update] event: [key.remoteJid] and
    the two timestamps of [receipt], which are numbers. *)
Record Receipt := {
  readTimestamp : option Z;
  deliveredTimestamp : option Z
}.

Record ReceiptUpdate := {
  receiptJid : option string;
  receipt : option Receipt
}.

(** The [connection.update] event: [connection], [qr] and
    [lastDisconnect?.error?.output?.statusCode]. *)
Record ConnectionUpdate := {
  connection : option string;
  lastDisconnectStatusCode : option Z;
  updateQr : option string
}.

(** [DisconnectReason.loggedOut] *)
Definition loggedOut : Z := 401.

(** [storage.updateSession(sessionId, update)]: the channel name is given
    where the method expects the identifier of the row. *)
Definition updateSession (sessionId : string) (u : WhatsappSession.Partial.t) : M unit :=
  storage_call (MemStorage.updateSession sessionId u) ;; ret tt.

(** [{ qrCode, status: 'qr_pending' }], [{ status: 'connecting' }],
    [{ status: 'disconnected', phone: null, qrCode: null }] and
    [{ status: 'connected', phone, qrCode: null, lastSeen }] *)
Definition update_qr_pending (qrCode : string) : WhatsappSession.Partial.t :=
  WhatsappSession.Partial.Build_t None None None (Some "qr_pending") (Some (Some qrCode))
    None None.

Definition update_connecting : WhatsappSession.Partial.t :=
  WhatsappSession.Partial.Build_t None None None (Some "connecting") None None None.

Definition update_disconnected : WhatsappSession.Partial.t :=
  WhatsappSession.Partial.Build_t None None (Some None) (Some "disconnected") (Some None)
    None None.

Definition update_connected (phone : option string) (lastSeen : Date)
  : WhatsappSession.Partial.t :=
  WhatsappSession.Partial.Build_t None None (Some phone) (Some "connected") (Some None)
    (Some (Some lastSeen)) None.

(** A change of the [SessionData] object registered for a channel. *)
Definition sessions_set (sessionId : string) (sessionData : SessionData) : M unit :=
  fun w => Ok tt (with_waSessions (JsMap.set sessionId sessionData (waSessions w)) w).

Definition sessions_delete (sessionId : string) : M unit :=
  fun w => Ok tt (with_waSessions (snd (JsMap.delete sessionId (waSessions w))) w).

Definition getSessionStatus (sessionId : string) (w : World) : option SessionData :=
  JsMap.get sessionId (waSessions w).

Section WithSocket.
Variable env : Env.
(** [QRCode.toDataURL(qr)], which can reject. *)
Variable toDataURL : string -> Thrown + string.
(** [socket.logout()] of the socket of a channel, which can reject. *)
Variable logout : string -> option Thrown.
(** [socket.user?.id] of the socket of a channel. *)
Variable userId : string -> option string.

(** The body of the loop of [handleMessageReceipts]. *)
Definition handleMessageReceipt (sessionId : string) (update : ReceiptUpdate) : M unit :=
  let read := match receipt update with
              | Some r => truthy_number (readTimestamp r)
              | None => None
              end in
  let delivered := match receipt update with
                   | Some r => truthy_number (deliveredTimestamp r)
                   | None => None
                   end in
  match read, delivered with
  | None, None => ret tt
  | _, _ =>
      let messageType := match read with Some _ => "read" | None => "delivered" end in
      match truthy_string (number_of_jid (receiptJid update)) with
      | Some contactPhone => logAnalytic env contactPhone messageType sessionId
      | None => ret tt
      end
  end.

Definition handleMessageReceipts (sessionId : string) (updates : list ReceiptUpdate)
  : M unit :=
  for_of updates (handleMessageReceipt sessionId).

(** The [if (qr)] step of [handleConnectionUpdate]: a failure of
    [QRCode.toDataURL] is caught and logged. *)
Definition on_qr (sessionId : string) (sessionData : SessionData) (qr : option string)
  : M SessionData :=
  match truthy_string qr with
  | Some code =>
      match toDataURL code with
      | inr qrCodeDataUrl =>
          let sessionData' :=
            {| socket := socket sessionData; qr := Some qrCodeDataUrl;
               status := "qr_pending"; phone := phone sessionData |} in
          sessions_set sessionId sessionData' ;;
          updateSession sessionId (update_qr_pending qrCodeDataUrl) ;;
          ret sessionData'
      | inl _ => ret sessionData
      end
  | None => ret sessionData
  end.

(** [sessionData.socket?.user?.id?.split(':')[0]] *)
Definition phoneNumber_of (sessionId : string) (sessionData : SessionData) : option string :=
  if socket sessionData then
    match userId sessionId with
    | Some id => Some (to_string (hd [] (split ":"%char (of_string id))))
    | None => None
    end
  else None.

(** [handleConnectionUpdate].  The answer tells whether a reconnect was
    asked for, by [setTimeout(() => this.createSession(sessionId), 3000)];
    [createSession], which opens a socket, is not part of the embedding. *)
Definition handleConnectionUpdate (sessionId : string) (update : ConnectionUpdate) : M bool :=
  fun w =>
    match JsMap.get sessionId (waSessions w) with
    | None => Ok false w
    | Some sessionData =>
        (sessionData <- on_qr sessionId sessionData (updateQr update) ;;
         match connection update with
         | Some c =>
             if String.eqb c "close" then
               let shouldReconnect :=
                 match lastDisconnectStatusCode update with
                 | Some code => negb (code =? loggedOut)%Z
                 | None => true
                 end in
               if shouldReconnect then
                 sessions_set sessionId
                   {| socket := socket sessionData; qr := qr sessionData;
                      status := "connecting"; phone := phone sessionData |} ;;
                 updateSession sessionId update_connecting ;;
                 ret true
               else
                 sessions_set sessionId
                   {| socket := false; qr := qr sessionData;
                      status := "disconnected"; phone := None |} ;;
                 updateSession sessionId update_disconnected ;;
                 ret false
             else if String.eqb c "open" then
               let phone' :=
                 match truthy_string (phoneNumber_of sessionId sessionData) with
                 | Some phoneNumber => Some phoneNumber
                 | None => phone sessionData
                 end in
               sessions_set sessionId
                 {| socket := socket sessionData; qr := None;
                    status := "connected"; phone := phone' |} ;;
               now <- newDate ;;
               updateSession sessionId (update_connected phone' now) ;;
               ret false
             else ret false
         | None => ret false
         end) w
    end.

(** [disconnectSession]: when [logout] rejects, the method rejects before
    the channel is taken out of the map. *)
Definition disconnectSession (sessionId : string) : M unit :=
  fun w =>
    (match JsMap.get sessionId (waSessions w) with
     | Some sessionData =>
         if socket sessionData then
           match logout sessionId with
           | None =>
               sessions_set sessionId
                 {| socket := false; qr := qr sessionData;
                    status := status sessionData; phone := phone sessionData |}
           | Some e => throw e
           end
         else ret tt
     | None => ret tt
     end ;;
     sessions_delete sessionId ;;
     updateSession sessionId update_disconnected) w.

End WithSocket.

End WhatsAppService.

(* ================================================================== *)
(** * [Date] getters *)
(* ================================================================== *)

(** A [Date] is a number of milliseconds since 1970-01-01T00:00:00Z.  The
    getters read it on the proleptic Gregorian calendar. *)
Module Calendar.
Local Open Scope Z_scope.

Definition msPerMinute : Z := 60000.
Definition msPerHour : Z := 3600000.
Definition msPerDay : Z := 86400000.

Definition day_number (t : Z) : Z := t / msPerDay.
Definition ms_in_day (t : Z) : Z := t mod msPerDay.

(** Year, month (1-12) and day of the month of a day number. *)
Definition civil_of_days (days : Z) : Z * Z * Z :=
  let z := days + 719468 in
  let era := z / 146097 in
  let doe := z - era * 146097 in
  let yoe := (doe - doe / 1460 + doe / 36524 - doe / 146096) / 365 in
  let y := yoe + era * 400 in
  let doy := doe - (365 * yoe + yoe / 4 - yoe / 100) in
  let mp := (5 * doy + 2) / 153 in
  let d := doy - (153 * mp + 2) / 5 + 1 in
  let m := if mp <? 10 then mp + 3 else mp - 9 in
  (if m <=? 2 then y + 1 else y, m, d).

(** The day number of a year, month (1-12) and day of the month. *)
Definition days_of_civil (y m d : Z) : Z :=
  let y' := if m <=? 2 then y - 1 else y in
  let era := y' / 400 in
  let yoe := y' - era * 400 in
  let mp := if 2 <? m then m - 3 else m + 9 in
  let doy := (153 * mp + 2) / 5 + d - 1 in
  let doe := yoe * 365 + yoe / 4 - yoe / 100 + doy in
  era * 146097 + doe - 719468.

(** [Date.UTC(y, m - 1, d, h, min, s)] *)
Definition utc (y m d h min s : Z) : Z :=
  days_of_civil y m d * msPerDay + h * msPerHour + min * msPerMinute + s * 1000.

Definition getUTCFullYear (t : Z) : Z := fst (fst (civil_of_days (day_number t))).
Definition getUTCMonth (t : Z) : Z := snd (fst (civil_of_days (day_number t))) - 1.
Definition getUTCDate (t : Z) : Z := snd (civil_of_days (day_number t)).
Definition getUTCHours (t : Z) : Z := ms_in_day t / msPerHour.
Definition getUTCMinutes (t : Z) : Z := (ms_in_day t / msPerMinute) mod 60.
Definition getUTCSeconds (t : Z) : Z := (ms_in_day t / 1000) mod 60.

End Calendar.

(* ================================================================== *)
(** * server/services/scheduler.ts: [SchedulerService] *)
(* ================================================================== *)

Module SchedulerService.
Import Runtime.

Local Open Scope monad_scope.

(** ** personalizeMessage *)

(** The [contact: any] argument: what the method reads from it.  A property
    that is missing is [None]. *)
Record AnyContact := {
  name : option string;
  phone : option string;
  email : option string;
  metadata : option (list (string * string))
}.

Definition of_contact (c : Contact.t) : AnyContact :=
  {| name := Some (Contact.name c);
     phone := Some (Contact.phone c);
     email := Contact.email c;
     metadata := Contact.metadata c |}.

(** A value of [personalizeMessage]: it is a pure method, but it can throw,
    and the embedding does not cover every metadata key. *)
Inductive Outcome (A : Type) :=
| Value (a : A)
| Raise (e : Thrown)
| NotCovered.

Arguments Value {A} a.
Arguments Raise {A} e.
Arguments NotCovered {A}.

(** [v || d] on a string property. *)
Definition string_or (v : option string) (d : string) : string :=
  match truthy_string v with
  | Some s => s
  | None => d
  end.

(** [message.replace(/literal/g, replacement)] on [string]. *)
Definition replace_global (literal replacement message : string) : string :=
  to_string (replaceAll (of_string literal) (of_string replacement) (of_string message)).

(** The characters with a meaning of their own in a regular expression. *)
Definition is_syntax_char (c : ascii) : bool :=
  existsb (Ascii.eqb c) (of_string "^$\.*+?()[]{}|").

Definition plain_key (key : string) : bool :=
  forallb (fun c => negb (is_syntax_char c)) (of_string key).

(** [new RegExp(`\\{${key}\\}`, 'g')].  A key without syntax characters gives
    the literal pattern of the placeholder.  A key whose only syntax
    characters are opening parentheses opens a group that nothing closes:
    the constructor throws a [SyntaxError].  Other keys are regular
    expressions of their own and are not covered. *)
Inductive KeyRegExp :=
| Literal (placeholder : string)
| SyntaxError
| OtherRegExp.

Definition RegExp_of_key (key : string) : KeyRegExp :=
  if plain_key key then Literal ("{" ++ key ++ "}")%string
  else if forallb (fun c => negb (is_syntax_char c) || Ascii.eqb c "("%char) (of_string key)
  then SyntaxError
  else OtherRegExp.

(** [Object.keys(contact.metadata).forEach(key => ...)] *)
Fixpoint replace_metadata (entries : list (string * string)) (message : string)
  : Outcome string :=
  match entries with
  | [] => Value message
  | (key, value) :: rest =>
      match RegExp_of_key key with
      | Literal placeholder =>
          replace_metadata rest
            (replace_global placeholder (string_or (Some value) EmptyString) message)
      | SyntaxError => Raise (ErrorObject "Invalid regular expression: Unterminated group")
      | OtherRegExp => NotCovered
      end
  end.

Definition personalizeMessage (template : string) (contact : AnyContact) : Outcome string :=
  let message := template in
  let message := replace_global "{name}" (string_or (name contact) "there") message in
  let message := replace_global "{phone}" (string_or (phone contact) EmptyString) message in
  let message := replace_global "{email}" (string_or (email contact) EmptyString) message in
  match metadata contact with
  | Some entries => replace_metadata entries message
  | None => Value message
  end.

(** ** dateToCronExpression *)

Section WithEnv.
Variable env : Env.
(** Fuel for each call of [parseSpintax]. *)
Variable spintaxFuel : nat.

(** The local-time getters of [Date]. *)
Definition local (t : Date) : Z := (t + timezoneOffset env * Calendar.msPerMinute)%Z.

Definition dateToCronExpression (date : Date) : CronExpression :=
  let minute := Calendar.getUTCMinutes (local date) in
  let hour := Calendar.getUTCHours (local date) in
  let day := Calendar.getUTCDate (local date) in
  let month := (Calendar.getUTCMonth (local date) + 1)%Z in
  {| cronMinute := minute; cronHour := hour; cronDayOfMonth := day; cronMonth := month |}.

(** ** processCampaign *)

Definition lift_outcome {A} (o : Outcome A) : M A :=
  fun w =>
    match o with
    | Value a => Ok a w
    | Raise e => Throw e w
    | NotCovered => Stuck OutsideModel
    end.

(** [parseSpintax(text)], drawing from [Math.random()]. *)
Definition parseSpintax (text : string) : M string :=
  fun w =>
    match Spintax.parseSpintax_from spintaxFuel (random_at env) (randomsDrawn w) text with
    | Some (r, k) => Ok r (with_randomsDrawn k w)
    | None => Stuck OutOfFuel
    end.

Definition createQueuedMessage (insertMessage : MessageQueue.Insert.t) : M MessageQueue.t :=
  now <- newDate ;;
  id <- WhatsAppService.randomUUID env ;;
  storage_call (MemStorage.createQueuedMessage id now insertMessage).

Definition updateCampaign (id : string) (u : Campaign.Partial.t) : M unit :=
  storage_call (MemStorage.updateCampaign id u) ;; ret tt.

Definition updateQueuedMessage (id : string) (u : MessageQueue.Partial.t) : M unit :=
  storage_call (MemStorage.updateQueuedMessage id u) ;; ret tt.

(** The body of the [for (const contact of contacts)] loop. *)
Definition queue_for (campaign : Campaign.t) (contact : Contact.t) : M unit :=
  personalizedMessage <- lift_outcome
    (personalizeMessage (Campaign.message campaign) (of_contact contact)) ;;
  personalizedMessage <- parseSpintax personalizedMessage ;;
  now <- newDate ;;
  createQueuedMessage
    {| MessageQueue.Insert.campaignId := Some (Campaign.id campaign);
       MessageQueue.Insert.contactId := Some (Contact.id contact);
       MessageQueue.Insert.message := personalizedMessage;
       MessageQueue.Insert.mediaUrl := Campaign.mediaUrl campaign;
       MessageQueue.Insert.mediaType := Campaign.mediaType campaign;
       MessageQueue.Insert.status := Some "pending";
       MessageQueue.Insert.scheduledAt := Some now;
       MessageQueue.Insert.errorMessage := None;
       MessageQueue.Insert.sessionId := Campaign.sessionId campaign |} ;;
  ret tt.

(** [!campaign.contactGroups || campaign.contactGroups.length === 0] *)
Definition resolve_contacts (campaign : Campaign.t) (st : MemStorage.t) : list Contact.t :=
  match Campaign.contactGroups campaign with
  | None | Some [] => MemStorage.getContacts st
  | Some groups => MemStorage.getContactsByGroups groups st
  end.

Definition processCampaign (campaign : Campaign.t) : M unit :=
  try_catch
    (updateCampaign (Campaign.id campaign) (Campaign.Partial.of_status "sending") ;;
     contacts <- storage_read (resolve_contacts campaign) ;;
     updateCampaign (Campaign.id campaign)
       (Campaign.Partial.of_totalRecipients (Z.of_nat (List.length contacts))) ;;
     for_of contacts (queue_for campaign))
    (fun error =>
       updateCampaign (Campaign.id campaign) (Campaign.Partial.of_status "failed")).

(** ** scheduleCampaign, the cron tasks, cancelScheduledCampaign *)

(** [cron.schedule(expression, callback, { timezone: "UTC" })] followed by
    [job.start()]: a new running task; its handle is its position. *)
Definition cron_schedule (expression : CronExpression) (campaign : Campaign.t) : M nat :=
  fun w =>
    Ok (List.length (cronTasks w))
       (with_cronTasks
          (cronTasks w ++ [{| expression := expression; campaign := campaign;
                              running := true |}]) w).

Definition scheduledJobs_set (id : string) (job : nat) : M unit :=
  fun w => Ok tt (with_scheduledJobs (JsMap.set id job (scheduledJobs w)) w).

Definition scheduledJobs_delete (id : string) : M unit :=
  fun w => Ok tt (with_scheduledJobs (snd (JsMap.delete id (scheduledJobs w))) w).

Definition scheduleCampaign (campaign : Campaign.t) : M unit :=
  match Campaign.scheduledAt campaign with
  | None => processCampaign campaign
  | Some scheduleTime =>
      now <- newDate ;;
      if (scheduleTime <=? now)%Z then processCampaign campaign
      else
        let cronExpression := dateToCronExpression scheduleTime in
        job <- cron_schedule cronExpression campaign ;;
        scheduledJobs_set (Campaign.id campaign) job ;;
        updateCampaign (Campaign.id campaign) (Campaign.Partial.of_status "scheduled")
  end.

(** node-cron with [timezone: "UTC"]: a five-field expression matches the
    first second of every minute whose minute, hour, day of the month and
    month in UTC are the ones of the expression, whatever the year. *)
Definition cron_matches (e : CronExpression) (t : Date) : bool :=
  ((Calendar.getUTCSeconds t =? 0) && (Calendar.getUTCMinutes t =? cronMinute e)
   && (Calendar.getUTCHours t =? cronHour e) && (Calendar.getUTCDate t =? cronDayOfMonth e)
   && (Calendar.getUTCMonth t + 1 =? cronMonth e))%Z.

(** The callback given to [cron.schedule]. *)
Definition job_callback (campaign : Campaign.t) : M unit :=
  processCampaign campaign ;;
  scheduledJobs_delete (Campaign.id campaign).

(** The clock reaches [t]: every running task whose expression matches [t]
    runs its callback. *)
Definition cron_fire (t : Date) : M unit :=
  fun w =>
    for_of (cronTasks w)
      (fun task =>
         if running task && cron_matches (expression task) t
         then job_callback (campaign task) else ret tt)
      (with_clock t w).

(** [job.stop()] *)
Definition job_stop (job : nat) : M unit :=
  fun w =>
    Ok tt (with_cronTasks
             (map (fun it => if (fst it =? job)%nat
                             then {| expression := expression (snd it);
                                     campaign := campaign (snd it); running := false |}
                             else snd it)
                  (combine (seq 0 (List.length (cronTasks w))) (cronTasks w))) w).

Definition cancelScheduledCampaign (campaignId : string) : M unit :=
  fun w =>
    match JsMap.get campaignId (scheduledJobs w) with
    | Some job => (job_stop job ;; scheduledJobs_delete campaignId) w
    | None => Ok tt w
    end.

(** ** processQueuedMessages *)

(** [pendingMessages.slice(0, batchSize)]: a negative end counts from the
    end of the array. *)
Definition slice_to {A} (l : list A) (batchSize : Z) : list A :=
  if (batchSize <? 0)%Z
  then firstn (Z.to_nat (Z.of_nat (List.length l) + batchSize)) l
  else firstn (Z.to_nat batchSize) l.

(** [campaign?.rateLimit || 30] for the campaign of the first pending
    message. *)
Definition rateLimit_for (firstMessage : MessageQueue.t) (st : MemStorage.t) : Z :=
  let campaign :=
    match truthy_string (MessageQueue.campaignId firstMessage) with
    | Some campaignId => MemStorage.getCampaign campaignId st
    | None => None
    end in
  match campaign with
  | Some c => number_or (Campaign.rateLimit c) 30
  | None => 30
  end.

(** [storage.getContact(message.contactId!)] *)
Definition contact_of (message : MessageQueue.t) (st : MemStorage.t) : option Contact.t :=
  match MessageQueue.contactId message with
  | Some contactId => MemStorage.getContact contactId st
  | None => None
  end.

(** The campaign-statistics step after a successful send. *)
Definition count_sent (message : MessageQueue.t) : M unit :=
  match truthy_string (MessageQueue.campaignId message) with
  | Some campaignId =>
      currentCampaign <- storage_read (MemStorage.getCampaign campaignId) ;;
      match currentCampaign with
      | Some c =>
          updateCampaign campaignId
            (Campaign.Partial.of_messagesSent (number_or (Campaign.messagesSent c) 0 + 1))
      | None => ret tt
      end
  | None => ret tt
  end.

(** The body of the [for (const message of messagesToProcess)] loop. *)
Definition process_message (session : WhatsappSession.t) (batchSize : Z)
  (message : MessageQueue.t) : M unit :=
  try_catch
    (contact <- storage_read (contact_of message) ;;
     match contact with
     | None => ret tt
     | Some contact =>
         WhatsAppService.sendMessage env
           (WhatsappSession.sessionId session) (Contact.phone contact)
           (MessageQueue.message message)
           (truthy_string (MessageQueue.mediaUrl message))
           (truthy_string (MessageQueue.mediaType message)) ;;
         now <- newDate ;;
         updateQueuedMessage (MessageQueue.id message) (MessageQueue.Partial.sent now) ;;
         count_sent message ;;
         if (1 <? batchSize)%Z then sleep 2000 else ret tt
     end)
    (fun error =>
       updateQueuedMessage (MessageQueue.id message)
         (MessageQueue.Partial.failed (errorMessageOf error))).

Definition checkCampaignCompletion (campaignId : string) : M unit :=
  campaign <- storage_read (MemStorage.getCampaign campaignId) ;;
  match campaign with
  | None => ret tt
  | Some _ =>
      pendingMessages <- storage_read MemStorage.getMessageQueue ;;
      let campaignPending :=
        filter (fun msg =>
                  match MessageQueue.campaignId msg with
                  | Some c => String.eqb c campaignId
                  | None => false
                  end && String.eqb (MessageQueue.status msg) "pending")
               pendingMessages in
      if (List.length campaignPending =? 0)%nat
      then updateCampaign campaignId (Campaign.Partial.of_status "completed")
      else ret tt
  end.

(** The body of the [for (const session of sessions)] loop. *)
Definition process_session (session : WhatsappSession.t) : M unit :=
  if negb (String.eqb (WhatsappSession.status session) "connected") then ret tt
  else
    pendingMessages <- storage_read (MemStorage.getPendingMessages (WhatsappSession.id session)) ;;
    match pendingMessages with
    | [] => ret tt
    | firstMessage :: _ =>
        rateLimit <- storage_read (rateLimit_for firstMessage) ;;
        let batchSize := Z.min rateLimit (Z.of_nat (List.length pendingMessages)) in
        let messagesToProcess := slice_to pendingMessages batchSize in
        for_of messagesToProcess (process_message session batchSize) ;;
        match truthy_string (MessageQueue.campaignId firstMessage) with
        | Some campaignId => checkCampaignCompletion campaignId
        | None => ret tt
        end
    end.

Definition processQueuedMessages : M unit :=
  try_catch
    (sessions <- storage_read MemStorage.getSessions ;;
     for_of sessions process_session)
    (fun error => ret tt).

(** ** The message processor and stopScheduler *)

(** The field [messageProcessor] is passed explicitly: [true] stands for
    the registered interval, [false] for [null]. *)

Definition startMessageProcessor : bool := true.

(** The interval of 30 seconds elapses: its callback runs while the
    interval is registered. *)
Definition interval_fire (messageProcessor : bool) : M unit :=
  if messageProcessor then processQueuedMessages else ret tt.

(** [this.scheduledJobs.clear()] *)
Definition scheduledJobs_clear : M unit :=
  fun w => Ok tt (with_scheduledJobs JsMap.empty w).

(** [stopScheduler]; the answer is the new value of [messageProcessor]. *)
Definition stopScheduler (messageProcessor : bool) : M bool :=
  fun w =>
    (for_of (JsMap.values (scheduledJobs w)) job_stop ;;
     scheduledJobs_clear ;;
     ret false) w.

End WithEnv.

End SchedulerService.

(* ================================================================== *)
(** * Notions the properties are stated with *)
(* ================================================================== *)

Module Notions.

(** A field after [{ ...row, ...update }]: the update's value when the update
    supplies the field, the row's value otherwise. *)
Definition overwritten_iff_supplied {A : Type} (old new : A) (supplied : option A) : Prop :=
  match supplied with
  | Some v => new = v
  | None => new = old
  end.

(** A map after an update of the record under [id]: the record is the new
    one, every other key keeps its record, and the keys keep their order. *)
Definition only_changes {R : Type} (m m' : JsMap.t R) (id : string) (r' : R) : Prop :=
  JsMap.get id m' = Some r'
  /\ (forall k, k <> id -> JsMap.get k m' = JsMap.get k m)
  /\ JsMap.keys m' = JsMap.keys m.

Definition Contact_fields (r r' : Contact.t) (u : Contact.Partial.t) : Prop :=
  overwritten_iff_supplied (Contact.id r) (Contact.id r') (Contact.Partial.id u)
  /\ overwritten_iff_supplied (Contact.name r) (Contact.name r') (Contact.Partial.name u)
  /\ overwritten_iff_supplied (Contact.phone r) (Contact.phone r') (Contact.Partial.phone u)
  /\ overwritten_iff_supplied (Contact.email r) (Contact.email r') (Contact.Partial.email u)
  /\ overwritten_iff_supplied (Contact.groups r) (Contact.groups r') (Contact.Partial.groups u)
  /\ overwritten_iff_supplied (Contact.metadata r) (Contact.metadata r')
       (Contact.Partial.metadata u)
  /\ overwritten_iff_supplied (Contact.createdAt r) (Contact.createdAt r')
       (Contact.Partial.createdAt u).

Definition Session_fields (r r' : WhatsappSession.t) (u : WhatsappSession.Partial.t) : Prop :=
  overwritten_iff_supplied (WhatsappSession.id r) (WhatsappSession.id r')
    (WhatsappSession.Partial.id u)
  /\ overwritten_iff_supplied (WhatsappSession.sessionId r) (WhatsappSession.sessionId r')
       (WhatsappSession.Partial.sessionId u)
  /\ overwritten_iff_supplied (WhatsappSession.phone r) (WhatsappSession.phone r')
       (WhatsappSession.Partial.phone u)
  /\ overwritten_iff_supplied (WhatsappSession.status r) (WhatsappSession.status r')
       (WhatsappSession.Partial.status u)
  /\ overwritten_iff_supplied (WhatsappSession.qrCode r) (WhatsappSession.qrCode r')
       (WhatsappSession.Partial.qrCode u)
  /\ overwritten_iff_supplied (WhatsappSession.lastSeen r) (WhatsappSession.lastSeen r')
       (WhatsappSession.Partial.lastSeen u)
  /\ overwritten_iff_supplied (WhatsappSession.createdAt r) (WhatsappSession.createdAt r')
       (WhatsappSession.Partial.createdAt u).

Definition Campaign_fields (r r' : Campaign.t) (u : Campaign.Partial.t) : Prop :=
  overwritten_iff_supplied (Campaign.id r) (Campaign.id r') (Campaign.Partial.id u)
  /\ overwritten_iff_supplied (Campaign.name r) (Campaign.name r') (Campaign.Partial.name u)
  /\ overwritten_iff_supplied (Campaign.message r) (Campaign.message r')
       (Campaign.Partial.message u)
  /\ overwritten_iff_supplied (Campaign.contactGroups r) (Campaign.contactGroups r')
       (Campaign.Partial.contactGroups u)
  /\ overwritten_iff_supplied (Campaign.mediaUrl r) (Campaign.mediaUrl r')
       (Campaign.Partial.mediaUrl u)
  /\ overwritten_iff_supplied (Campaign.mediaType r) (Campaign.mediaType r')
       (Campaign.Partial.mediaType u)
  /\ overwritten_iff_supplied (Campaign.status r) (Campaign.status r')
       (Campaign.Partial.status u)
  /\ overwritten_iff_supplied (Campaign.scheduledAt r) (Campaign.scheduledAt r')
       (Campaign.Partial.scheduledAt u)
  /\ overwritten_iff_supplied (Campaign.rateLimit r) (Campaign.rateLimit r')
       (Campaign.Partial.rateLimit u)
  /\ overwritten_iff_supplied (Campaign.totalRecipients r) (Campaign.totalRecipients r')
       (Campaign.Partial.totalRecipients u)
  /\ overwritten_iff_supplied (Campaign.messagesSent r) (Campaign.messagesSent r')
       (Campaign.Partial.messagesSent u)
  /\ overwritten_iff_supplied (Campaign.messagesDelivered r) (Campaign.messagesDelivered r')
       (Campaign.Partial.messagesDelivered u)
  /\ overwritten_iff_supplied (Campaign.messagesResponded r) (Campaign.messagesResponded r')
       (Campaign.Partial.messagesResponded u)
  /\ overwritten_iff_supplied (Campaign.sessionId r) (Campaign.sessionId r')
       (Campaign.Partial.sessionId u)
  /\ overwritten_iff_supplied (Campaign.createdAt r) (Campaign.createdAt r')
       (Campaign.Partial.createdAt u).

Definition Rule_fields (r r' : AutoReplyRule.t) (u : AutoReplyRule.Partial.t) : Prop :=
  overwritten_iff_supplied (AutoReplyRule.id r) (AutoReplyRule.id r')
    (AutoReplyRule.Partial.id u)
  /\ overwritten_iff_supplied (AutoReplyRule.name r) (AutoReplyRule.name r')
       (AutoReplyRule.Partial.name u)
  /\ overwritten_iff_supplied (AutoReplyRule.keywords r) (AutoReplyRule.keywords r')
       (AutoReplyRule.Partial.keywords u)
  /\ overwritten_iff_supplied (AutoReplyRule.triggerType r) (AutoReplyRule.triggerType r')
       (AutoReplyRule.Partial.triggerType u)
  /\ overwritten_iff_supplied (AutoReplyRule.response r) (AutoReplyRule.response r')
       (AutoReplyRule.Partial.response u)
  /\ overwritten_iff_supplied (AutoReplyRule.delay r) (AutoReplyRule.delay r')
       (AutoReplyRule.Partial.delay u)
  /\ overwritten_iff_supplied (AutoReplyRule.isActive r) (AutoReplyRule.isActive r')
       (AutoReplyRule.Partial.isActive u)
  /\ overwritten_iff_supplied (AutoReplyRule.businessHoursOnly r)
       (AutoReplyRule.businessHoursOnly r') (AutoReplyRule.Partial.businessHoursOnly u)
  /\ overwritten_iff_supplied (AutoReplyRule.businessHoursStart r)
       (AutoReplyRule.businessHoursStart r') (AutoReplyRule.Partial.businessHoursStart u)
  /\ overwritten_iff_supplied (AutoReplyRule.businessHoursEnd r)
       (AutoReplyRule.businessHoursEnd r') (AutoReplyRule.Partial.businessHoursEnd u)
  /\ overwritten_iff_supplied (AutoReplyRule.sessionId r) (AutoReplyRule.sessionId r')
       (AutoReplyRule.Partial.sessionId u)
  /\ overwritten_iff_supplied (AutoReplyRule.createdAt r) (AutoReplyRule.createdAt r')
       (AutoReplyRule.Partial.createdAt u).

Definition Message_fields (r r' : MessageQueue.t) (u : MessageQueue.Partial.t) : Prop :=
  overwritten_iff_supplied (MessageQueue.id r) (MessageQueue.id r') (MessageQueue.Partial.id u)
  /\ overwritten_iff_supplied (MessageQueue.campaignId r) (MessageQueue.campaignId r')
       (MessageQueue.Partial.campaignId u)
  /\ overwritten_iff_supplied (MessageQueue.contactId r) (MessageQueue.contactId r')
       (MessageQueue.Partial.contactId u)
  /\ overwritten_iff_supplied (MessageQueue.message r) (MessageQueue.message r')
       (MessageQueue.Partial.message u)
  /\ overwritten_iff_supplied (MessageQueue.mediaUrl r) (MessageQueue.mediaUrl r')
       (MessageQueue.Partial.mediaUrl u)
  /\ overwritten_iff_supplied (MessageQueue.mediaType r) (MessageQueue.mediaType r')
       (MessageQueue.Partial.mediaType u)
  /\ overwritten_iff_supplied (MessageQueue.status r) (MessageQueue.status r')
       (MessageQueue.Partial.status u)
  /\ overwritten_iff_supplied (MessageQueue.scheduledAt r) (MessageQueue.scheduledAt r')
       (MessageQueue.Partial.scheduledAt u)
  /\ overwritten_iff_supplied (MessageQueue.sentAt r) (MessageQueue.sentAt r')
       (MessageQueue.Partial.sentAt u)
  /\ overwritten_iff_supplied (MessageQueue.deliveredAt r) (MessageQueue.deliveredAt r')
       (MessageQueue.Partial.deliveredAt u)
  /\ overwritten_iff_supplied (MessageQueue.errorMessage r) (MessageQueue.errorMessage r')
       (MessageQueue.Partial.errorMessage u)
  /\ overwritten_iff_supplied (MessageQueue.sessionId r) (MessageQueue.sessionId r')
       (MessageQueue.Partial.sessionId u)
  /\ overwritten_iff_supplied (MessageQueue.createdAt r) (MessageQueue.createdAt r')
       (MessageQueue.Partial.createdAt u).

(** What an update method must do with the map [get_map] it works on:
    answer [undefined] and leave the whole store alone when the id is absent;
    otherwise answer the merged record, store it under the id and touch
    nothing else. *)
Definition update_contract {R P : Type}
  (get_map : MemStorage.t -> JsMap.t R)
  (with_map : JsMap.t R -> MemStorage.t -> MemStorage.t)
  (fields : R -> R -> P -> Prop)
  (update : string -> P -> MemStorage.t -> option R * MemStorage.t) : Prop :=
  forall (id : string) (u : P) (st : MemStorage.t),
    match JsMap.get id (get_map st) with
    | None => update id u st = (None, st)
    | Some r =>
        exists (r' : R) (m' : JsMap.t R),
          update id u st = (Some r', with_map m' st)
          /\ only_changes (get_map st) m' id r'
          /\ fields r r' u
    end.

(** [{key}] occurs in the template. *)
Definition mentions (key template : string) : bool :=
  includes (of_string ("{" ++ key ++ "}")%string) (of_string template).

(** Every metadata key is free of regular-expression syntax. *)
Definition plain_metadata (c : SchedulerService.AnyContact) : bool :=
  match SchedulerService.metadata c with
  | Some entries => forallb (fun kv => SchedulerService.plain_key (fst kv)) entries
  | None => true
  end.

(** The template holds no placeholder of [name], [phone], [email] or of a
    metadata key of the contact. *)
Definition mentions_no_key_of (template : string) (c : SchedulerService.AnyContact) : bool :=
  negb (mentions "name" template) && negb (mentions "phone" template)
  && negb (mentions "email" template)
  && match SchedulerService.metadata c with
     | Some entries => forallb (fun kv => negb (mentions (fst kv) template)) entries
     | None => true
     end.

(** ** Dispatch *)

(** The messages the socket accepted between two states of the process. *)
Definition sent_during (w w' : Runtime.World) : list Runtime.SocketMessage :=
  skipn (List.length (Runtime.delivered w)) (Runtime.delivered w').

(** Those of them that went through the channel [sessionId]. *)
Definition sent_via (sessionId : string) (w w' : Runtime.World)
  : list Runtime.SocketMessage :=
  filter (fun m => String.eqb (Runtime.via m) sessionId) (sent_during w w').

(** The rate limit an entry has of its own: the [rateLimit] configured on
    the campaign that owns it, 30 for an entry without campaign. *)
Definition owner_limit (m : MessageQueue.t) (st : MemStorage.t) : Z :=
  match MessageQueue.campaignId m with
  | Some campaignId =>
      match MemStorage.getCampaign campaignId st with
      | Some c => match Campaign.rateLimit c with Some n => n | None => 30%Z end
      | None => 30%Z
      end
  | None => 30%Z
  end.

(** The rate limit in force while a channel is drained: the one of the
    campaign that owns the first pending entry of the channel. *)
Definition batch_limit (session : WhatsappSession.t) (st : MemStorage.t) : Z :=
  match MemStorage.getPendingMessages (WhatsappSession.id session) st with
  | firstMessage :: _ => SchedulerService.rateLimit_for firstMessage st
  | [] => 0%Z
  end.

(** The campaign that owns the first pending entry of a channel. *)
Definition batch_campaign (session : WhatsappSession.t) (st : MemStorage.t) : option string :=
  match MemStorage.getPendingMessages (WhatsappSession.id session) st with
  | firstMessage :: _ => truthy_string (MessageQueue.campaignId firstMessage)
  | [] => None
  end.

Definition owned_by (campaignId : string) (m : MessageQueue.t) : bool :=
  match MessageQueue.campaignId m with
  | Some c => String.eqb c campaignId
  | None => false
  end.

(** The entries of a campaign, and those still pending. *)
Definition entries_of (campaignId : string) (st : MemStorage.t) : list MessageQueue.t :=
  filter (owned_by campaignId) (MemStorage.getMessageQueue st).

Definition pending_of (campaignId : string) (st : MemStorage.t) : list MessageQueue.t :=
  filter (fun m => String.eqb (MessageQueue.status m) "pending") (entries_of campaignId st).

Definition status_of (campaignId : string) (st : MemStorage.t) : option string :=
  option_map Campaign.status (MemStorage.getCampaign campaignId st).

Definition entry_status (id : string) (st : MemStorage.t) : option string :=
  option_map MessageQueue.status (JsMap.get id (MemStorage.messageQueue st)).

(** ** Reasoning about runs *)

(** The run of [m] from [w] ends, normally in a state that satisfies [Q] or
    with an exception in a state that satisfies [E]. *)
Definition wp {A : Type} (m : Runtime.M A)
  (Q : A -> Runtime.World -> Prop) (E : Runtime.Thrown -> Runtime.World -> Prop)
  (w : Runtime.World) : Prop :=
  match m w with
  | Runtime.Ok a w' => Q a w'
  | Runtime.Throw e w' => E e w'
  | Runtime.Stuck _ => False
  end.

Definition never {X : Type} : X -> Runtime.World -> Prop := fun _ _ => False.

(** Between [w] and [w'] the socket accepted at most [n] messages, all of
    them through a channel of [channels]. *)
Definition grows (channels : list string) (n : nat) (w w' : Runtime.World) : Prop :=
  exists new,
    Runtime.delivered w' = Runtime.delivered w ++ new
    /\ Forall (fun m => In (Runtime.via m) channels) new
    /\ List.length new <= n.

(** Between [st] and [st'] no campaign disappeared and no completed
    campaign left the status [completed]. *)
Definition campaigns_evolve (st st' : MemStorage.t) : Prop :=
  forall campaignId c,
    MemStorage.getCampaign campaignId st = Some c ->
    exists c',
      MemStorage.getCampaign campaignId st' = Some c'
      /\ (Campaign.status c = "completed" -> Campaign.status c' = "completed").

(** A computation that neither throws nor reaches the socket. *)
Definition silent {A : Type} (m : Runtime.M A) : Prop :=
  forall w, wp m (fun _ w' => Runtime.delivered w' = Runtime.delivered w) never w.

(** No string occurs twice. *)
Fixpoint distinct (l : list string) : bool :=
  match l with
  | [] => true
  | x :: r => negb (existsb (String.eqb x) r) && distinct r
  end.

(** The channels of the sessions in the store are pairwise different. *)
Definition distinct_channels (st : MemStorage.t) : bool :=
  distinct (map WhatsappSession.sessionId (MemStorage.getSessions st)).

(** A computation that, however it ends, lets the campaigns evolve. *)
Definition keeps_campaigns {A : Type} (m : Runtime.M A) : Prop :=
  forall w,
    wp m (fun _ w' => campaigns_evolve (Runtime.storage w) (Runtime.storage w'))
         (fun _ w' => campaigns_evolve (Runtime.storage w) (Runtime.storage w')) w.

(** ** Expansion *)

(** The queue entry of one recipient of a campaign. *)
Definition entry_for (campaign : Campaign.t) (contact : Contact.t) (e : MessageQueue.t) : Prop :=
  MessageQueue.campaignId e = truthy_string (Some (Campaign.id campaign))
  /\ MessageQueue.contactId e = truthy_string (Some (Contact.id contact))
  /\ MessageQueue.status e = "pending"
  /\ MessageQueue.sessionId e = truthy_string (Campaign.sessionId campaign).

(** The bindings of new queue entries. *)
Definition bindings (entries : list MessageQueue.t) : JsMap.t MessageQueue.t :=
  map (fun e => (MessageQueue.id e, e)) entries.

(** The message of every recipient is covered by the embedding, and holds
    no dollar sign once it is personalised. *)
Definition renders_plainly (campaign : Campaign.t) (contacts : list Contact.t) : bool :=
  forallb (fun c =>
             match SchedulerService.personalizeMessage (Campaign.message campaign)
                     (SchedulerService.of_contact c) with
             | SchedulerService.Value m => Spintax.no_dollar (of_string m)
             | SchedulerService.Raise _ => true
             | SchedulerService.NotCovered => false
             end) contacts.

(** The rounds [parseSpintax] needs at most for one of the recipients. *)
Definition render_rounds (campaign : Campaign.t) (contacts : list Contact.t) : nat :=
  list_max
    (map (fun c =>
            match SchedulerService.personalizeMessage (Campaign.message campaign)
                    (SchedulerService.of_contact c) with
            | SchedulerService.Value m => Spintax.count_lbrace (of_string m)
            | _ => 0
            end) contacts).

(** The next [n] values of [randomUUID()] are new: pairwise different and
    not the key of a queue entry. *)
Definition next_uuids (env : Runtime.Env) (w : Runtime.World) (n : nat) : list string :=
  map (Runtime.randomUUID_at env) (seq (Runtime.uuidsDrawn w) n).

Definition fresh_uuids (env : Runtime.Env) (w : Runtime.World) (n : nat) : bool :=
  distinct (next_uuids env w n)
  && forallb (fun id =>
                negb (existsb (String.eqb id)
                        (JsMap.keys (MemStorage.messageQueue (Runtime.storage w)))))
             (next_uuids env w n).

(** How an expansion that returns leaves the store: the queue has grown by
    [created], the campaign has [totalRecipients] set, and either every
    recipient has its entry and the campaign is [sending], or the entries
    stop before the first recipient whose message could not be personalised
    and the campaign is [failed]. *)
Definition expanded (campaign : Campaign.t) (contacts : list Contact.t)
  (st st' : MemStorage.t) (created : list MessageQueue.t) : Prop :=
  MemStorage.messageQueue st' = MemStorage.messageQueue st ++ bindings created
  /\ exists c',
       MemStorage.getCampaign (Campaign.id campaign) st' = Some c'
       /\ Campaign.totalRecipients c' = Some (Z.of_nat (List.length contacts))
       /\ ((Forall2 (entry_for campaign) contacts created
            /\ Campaign.status c' = "sending")
           \/ (exists done bad rest e,
                 contacts = done ++ bad :: rest
                 /\ Forall2 (entry_for campaign) done created
                 /\ SchedulerService.personalizeMessage (Campaign.message campaign)
                      (SchedulerService.of_contact bad) = SchedulerService.Raise e
                 /\ Campaign.status c' = "failed")).

(** What one round of the expansion loop does to the world: one entry more
    at the end of the queue, under the next identifier. *)
Definition queued_one (env : Runtime.Env) (w w' : Runtime.World) (e : MessageQueue.t) : Prop :=
  Runtime.storage w'
  = MemStorage.with_messageQueue
      (MemStorage.messageQueue (Runtime.storage w) ++ [(MessageQueue.id e, e)])
      (Runtime.storage w)
  /\ MessageQueue.id e = Runtime.randomUUID_at env (Runtime.uuidsDrawn w)
  /\ Runtime.uuidsDrawn w' = S (Runtime.uuidsDrawn w).

(** The store differs by new entries at the end of the queue only. *)
Definition same_but_queue (w w' : Runtime.World) (created : list MessageQueue.t) : Prop :=
  Runtime.storage w'
  = MemStorage.with_messageQueue
      (MemStorage.messageQueue (Runtime.storage w) ++ bindings created)
      (Runtime.storage w).

End Notions.

(* ================================================================== *)
(** * Concrete stores and runs used by the examples *)
(* ================================================================== *)

Module Fixtures.
Import Runtime.

(** Distinct identifiers for [randomUUID()]. *)
Fixpoint uuid (n : nat) : string :=
  match n with
  | O => "uuid"
  | S k => String "x"%char (uuid k)
  end.

(** A socket that accepts every message, files that can be read, a random
    source that always draws 0, a server on UTC. *)
Definition env : Env :=
  {| randomUUID_at := uuid;
     random_at := fun _ => 0;
     socket_at := fun _ => None;
     readFileSync_at := fun _ => None;
     timezoneOffset := 0 |}.

Definition contact (id name phone : string) (metadata : option (list (string * string)))
  : Contact.t :=
  {| Contact.id := id; Contact.name := name; Contact.phone := phone;
     Contact.email := None; Contact.groups := Some ["vip"];
     Contact.metadata := metadata; Contact.createdAt := Some 0%Z |}.

Definition ann : Contact.t := contact "c1" "Ann" "15550001" None.
Definition bob : Contact.t := contact "c2" "Bob" "15550002" (Some [("(", "x")]).
Definition carl : Contact.t := contact "c3" "Carl" "15550003" (Some [("city", "Rome")]).

Definition session : WhatsappSession.t :=
  {| WhatsappSession.id := "s1"; WhatsappSession.sessionId := "main";
     WhatsappSession.phone := Some "15559999"; WhatsappSession.status := "connected";
     WhatsappSession.qrCode := None; WhatsappSession.lastSeen := None;
     WhatsappSession.createdAt := Some 0%Z |}.

Definition campaign (id message status : string) (scheduledAt : option Date)
  (rateLimit : Z) : Campaign.t :=
  {| Campaign.id := id; Campaign.name := id; Campaign.message := message;
     Campaign.contactGroups := None; Campaign.mediaUrl := None;
     Campaign.mediaType := None; Campaign.status := status;
     Campaign.scheduledAt := scheduledAt; Campaign.rateLimit := Some rateLimit;
     Campaign.totalRecipients := Some 0%Z; Campaign.messagesSent := Some 0%Z;
     Campaign.messagesDelivered := Some 0%Z; Campaign.messagesResponded := Some 0%Z;
     Campaign.sessionId := Some "s1"; Campaign.createdAt := Some 0%Z |}.

Definition queued (id campaignId contactId : string) : MessageQueue.t :=
  {| MessageQueue.id := id; MessageQueue.campaignId := Some campaignId;
     MessageQueue.contactId := Some contactId; MessageQueue.message := "Hi";
     MessageQueue.mediaUrl := None; MessageQueue.mediaType := None;
     MessageQueue.status := "pending"; MessageQueue.scheduledAt := Some 0%Z;
     MessageQueue.sentAt := None; MessageQueue.deliveredAt := None;
     MessageQueue.errorMessage := None; MessageQueue.sessionId := Some "s1";
     MessageQueue.createdAt := Some 0%Z |}.

Definition rule (triggerType : string) : AutoReplyRule.t :=
  {| AutoReplyRule.id := "r1"; AutoReplyRule.name := "Welcome";
     AutoReplyRule.keywords := Some []; AutoReplyRule.triggerType := triggerType;
     AutoReplyRule.response := "Welcome!"; AutoReplyRule.delay := Some 0%Z;
     AutoReplyRule.isActive := Some true; AutoReplyRule.businessHoursOnly := Some false;
     AutoReplyRule.businessHoursStart := None; AutoReplyRule.businessHoursEnd := None;
     AutoReplyRule.sessionId := Some "main"; AutoReplyRule.createdAt := Some 0%Z |}.

Definition keyed {R : Type} (id : R -> string) (rs : list R) : JsMap.t R :=
  map (fun r => (id r, r)) rs.

Definition store (contacts : list Contact.t) (campaigns : list Campaign.t)
  (rules : list AutoReplyRule.t) (queue : list MessageQueue.t) : MemStorage.t :=
  {| MemStorage.users := JsMap.empty;
     MemStorage.contacts := keyed Contact.id contacts;
     MemStorage.sessions := keyed WhatsappSession.id [session];
     MemStorage.campaigns := keyed Campaign.id campaigns;
     MemStorage.autoReplyRules := keyed AutoReplyRule.id rules;
     MemStorage.messageQueue := keyed MessageQueue.id queue;
     MemStorage.messageAnalytics := JsMap.empty |}.

(** The process with the channel ["main"] connected. *)
Definition world (st : MemStorage.t) (clock : Date) : World :=
  {| storage := st;
     waSessions := [("main", {| socket := true; qr := None; status := "connected";
                                phone := Some "15559999" |})];
     cronTasks := []; scheduledJobs := JsMap.empty; timeouts := [];
     clock := clock; uuidsDrawn := 0; randomsDrawn := 0; socketCalls := 0;
     delivered := [] |}.

(** *** Auto-reply: one rule, a first message from an unknown sender *)

Definition inbound_world (triggerType : string) : World :=
  world (store [] [] [rule triggerType] []) 1000%Z.

Definition first_hello : WhatsAppService.IncomingMessage :=
  {| WhatsAppService.fromMe := false;
     WhatsAppService.remoteJid := Some "15550001@s.whatsapp.net";
     WhatsAppService.conversation := Some "hello";
     WhatsAppService.extendedText := None |}.

(** *** Expansion: two recipients, the second with the metadata key ["("] *)

Definition promo : Campaign.t := campaign "k1" "Hi {name}" "draft" None 30%Z.

Definition expansion_world : World := world (store [ann; bob] [promo] [] []) 1000%Z.

(** *** Scheduling: a campaign due on 2030-01-15 at 10:00 UTC, submitted on
    2030-01-01 *)

Definition due : Date := (Calendar.utc 2030 1 15 10 0 0)%Z.
Definition a_year_later : Date := (Calendar.utc 2031 1 15 10 0 0)%Z.

Definition newsletter : Campaign.t := campaign "k2" "News for {name}" "draft" (Some due) 30%Z.

(** A due time with seconds, and a server one hour ahead of UTC. *)
Definition due_with_seconds : Date := (Calendar.utc 2030 1 15 10 0 45)%Z.

Definition env_ahead : Env :=
  {| randomUUID_at := uuid;
     random_at := fun _ => 0;
     socket_at := fun _ => None;
     readFileSync_at := fun _ => None;
     timezoneOffset := 60 |}.

Definition scheduling_world : World :=
  world (store [ann] [newsletter] [] []) (Calendar.utc 2030 1 1 0 0 0)%Z.

(** *** Dispatch: one channel, entries of two campaigns with rate limits 3
    and 1 *)

Definition campaignA : Campaign.t := campaign "kA" "A" "sending" None 3%Z.
Definition campaignB : Campaign.t := campaign "kB" "B" "sending" None 1%Z.

Definition mixed_world : World :=
  world (store [ann] [campaignA; campaignB] []
           [queued "m1" "kA" "c1"; queued "m2" "kB" "c1"; queued "m3" "kB" "c1"]) 1000%Z.

(** *** Dispatch: a paused campaign with one pending entry *)

Definition pausedCampaign : Campaign.t := campaign "kP" "P" "paused" None 30%Z.

Definition paused_world : World :=
  world (store [ann] [pausedCampaign] [] [queued "m1" "kP" "c1"]) 1000%Z.

(** *** Personalisation: the record [{}] and the record [{ name: "Ann" }] *)

Definition nobody : SchedulerService.AnyContact :=
  {| SchedulerService.name := None; SchedulerService.phone := None;
     SchedulerService.email := None; SchedulerService.metadata := None |}.

Definition just_ann : SchedulerService.AnyContact :=
  {| SchedulerService.name := Some "Ann"; SchedulerService.phone := None;
     SchedulerService.email := None; SchedulerService.metadata := None |}.

End Fixtures.

(* ================================================================== *)
(** * Notions for the create, delete and lookup methods of the store *)
(* ================================================================== *)

Module StoreNotions.

(** What a create method does with the map [get_map] it works on: the
    record it answers carries the identifier drawn, it is stored under that
    identifier, every other identifier keeps its record, no other map
    changes, and when the identifier is new the record is the last one of
    the map. *)
Definition create_contract {R : Type}
  (get_map : MemStorage.t -> JsMap.t R)
  (with_map : JsMap.t R -> MemStorage.t -> MemStorage.t)
  (id_of : R -> string)
  (create : string -> MemStorage.t -> R * MemStorage.t) : Prop :=
  forall (id : string) (st : MemStorage.t),
    exists (r : R) (m' : JsMap.t R),
      create id st = (r, with_map m' st)
      /\ id_of r = id
      /\ JsMap.get id m' = Some r
      /\ (forall k, k <> id -> JsMap.get k m' = JsMap.get k (get_map st))
      /\ (JsMap.get id (get_map st) = None ->
          JsMap.values m' = JsMap.values (get_map st) ++ [r]).

(** What a delete method does: it answers [false] and leaves the whole
    store alone when the identifier is absent; otherwise it answers [true],
    the identifier has no record any more, every other identifier keeps its
    record, and no other map changes. *)
Definition delete_contract {R : Type}
  (get_map : MemStorage.t -> JsMap.t R)
  (with_map : JsMap.t R -> MemStorage.t -> MemStorage.t)
  (delete : string -> MemStorage.t -> bool * MemStorage.t) : Prop :=
  forall (id : string) (st : MemStorage.t),
    match JsMap.get id (get_map st) with
    | None => delete id st = (false, st)
    | Some _ =>
        exists m' : JsMap.t R,
          delete id st = (true, with_map m' st)
          /\ JsMap.get id m' = None
          /\ (forall k, k <> id -> JsMap.get k m' = JsMap.get k (get_map st))
    end.

(** Creating a record under a new identifier and deleting it again gives
    the store back. *)
Definition create_then_delete {R : Type}
  (get_map : MemStorage.t -> JsMap.t R)
  (create : string -> MemStorage.t -> R * MemStorage.t)
  (delete : string -> MemStorage.t -> bool * MemStorage.t) : Prop :=
  forall (id : string) (st : MemStorage.t),
    JsMap.get id (get_map st) = None ->
    delete id (snd (create id st)) = (true, st).

End StoreNotions.

(* ================================================================== *)
(** * Notions for the services *)
(* ================================================================== *)

Module ServiceNotions.
Import Runtime WhatsAppService.

(** The channel is registered with a socket and has the status
    [connected]: the condition [sendMessage] checks first. *)
Definition connected_channel (sessionId : string) (w : World) : bool :=
  match JsMap.get sessionId (waSessions w) with
  | Some sessionData => socket sessionData && String.eqb (status sessionData) "connected"
  | None => false
  end.

(** The sender and the text of an inbound message the auto-reply loop
    looks at: a message that is not our own, with a sender and a text. *)
Definition accepted (message : IncomingMessage) : option (string * string) :=
  if fromMe message then None
  else
    match truthy_string (number_of_jid (remoteJid message)) with
    | Some fromNumber =>
        if String.eqb (text_of message) EmptyString then None
        else Some (fromNumber, text_of message)
    | None => None
    end.

(** [response] is the response of an active rule of the channel that the
    text triggers. *)
Definition answers (st : MemStorage.t) (sessionId messageText response : string) : Prop :=
  exists rule,
    In rule (MemStorage.getAutoReplyRules (Some sessionId) st)
    /\ AutoReplyRule.isActive rule = Some true
    /\ checkAutoReplyTrigger messageText rule = inr true
    /\ AutoReplyRule.response rule = response.

(** What one reply does between two states: it went out at once, as one
    text message to the sender through the channel, or it was dropped
    because the channel has no socket or the socket refused it, or it waits
    in one new timer. *)
Definition replied (sessionId fromNumber response : string) (w w' : World) : Prop :=
  (timeouts w' = timeouts w
   /\ (delivered w' = delivered w
       \/ delivered w'
          = delivered w ++ [{| via := sessionId; jid := jid_of fromNumber;
                               content := TextContent response |}]))
  \/ (delivered w' = delivered w
      /\ exists ms,
           (0 < ms)%Z
           /\ timeouts w'
              = timeouts w ++ [{| dueAt := (clock w + ms)%Z; replySession := sessionId;
                                  replyTo := fromNumber; replyText := response |}]).

(** A rule whose trigger type compares the text with the keywords. *)
Definition keyword_trigger (triggerType : string) : bool :=
  String.eqb triggerType "contains" || String.eqb triggerType "exact"
  || String.eqb triggerType "starts_with" || String.eqb triggerType "ends_with".

(** The rule with its keywords in lower case. *)
Definition with_lower_keywords (rule : AutoReplyRule.t) : AutoReplyRule.t :=
  {| AutoReplyRule.id := AutoReplyRule.id rule;
     AutoReplyRule.name := AutoReplyRule.name rule;
     AutoReplyRule.keywords := option_map (map lower) (AutoReplyRule.keywords rule);
     AutoReplyRule.triggerType := AutoReplyRule.triggerType rule;
     AutoReplyRule.response := AutoReplyRule.response rule;
     AutoReplyRule.delay := AutoReplyRule.delay rule;
     AutoReplyRule.isActive := AutoReplyRule.isActive rule;
     AutoReplyRule.businessHoursOnly := AutoReplyRule.businessHoursOnly rule;
     AutoReplyRule.businessHoursStart := AutoReplyRule.businessHoursStart rule;
     AutoReplyRule.businessHoursEnd := AutoReplyRule.businessHoursEnd rule;
     AutoReplyRule.sessionId := AutoReplyRule.sessionId rule;
     AutoReplyRule.createdAt := AutoReplyRule.createdAt rule |}.

(** A computation that ends, normally or with an exception, in a state
    where [f] reads what it read at the start. *)
Definition keeps {X A : Type} (f : World -> X) (m : M A) : Prop :=
  forall w, Notions.wp m (fun _ w' => f w' = f w) (fun _ w' => f w' = f w) w.

(** The store as long as no session row has the channel name for
    identifier. *)
Definition unregistered_store (sessionId : string) (w : World) : option MemStorage.t :=
  match MemStorage.getSession sessionId (storage w) with
  | None => Some (storage w)
  | Some _ => None
  end.

(** What neither a connection update nor a disconnect touches. *)
Definition beside_channels (w : World) :=
  (cronTasks w, scheduledJobs w, timeouts w, clock w, uuidsDrawn w, randomsDrawn w,
   socketCalls w, delivered w).

(** Everything in the process but the analytics rows and the number of
    identifiers drawn. *)
Definition beside_analytics (w : World) :=
  (MemStorage.users (storage w), MemStorage.contacts (storage w),
   MemStorage.sessions (storage w), MemStorage.campaigns (storage w),
   MemStorage.autoReplyRules (storage w), MemStorage.messageQueue (storage w),
   waSessions w, cronTasks w, scheduledJobs w, timeouts w, clock w,
   randomsDrawn w, socketCalls w, delivered w).

(** A receipt that is recorded: it has a read or a delivered timestamp, and
    its key has a sender. *)
Definition receipt_counts (update : ReceiptUpdate) : bool :=
  match receipt update with
  | Some r =>
      match truthy_number (readTimestamp r), truthy_number (deliveredTimestamp r) with
      | None, None => false
      | _, _ =>
          match truthy_string (number_of_jid (receiptJid update)) with
          | Some _ => true
          | None => false
          end
      end
  | None => false
  end.

(** The analytics row of a recorded receipt: type [read] when the receipt
    has a read timestamp and [delivered] otherwise, the sender of the key,
    the channel, the time of the call. *)
Definition receipt_row (sessionId : string) (now : Date) (id : string)
  (update : ReceiptUpdate) : MessageAnalytics.t :=
  {| MessageAnalytics.id := id;
     MessageAnalytics.messageId := None;
     MessageAnalytics.contactPhone :=
       match truthy_string (number_of_jid (receiptJid update)) with
       | Some contactPhone => contactPhone
       | None => EmptyString
       end;
     MessageAnalytics.messageType :=
       match receipt update with
       | Some r =>
           match truthy_number (readTimestamp r) with
           | Some _ => "read"
           | None => "delivered"
           end
       | None => "delivered"
       end;
     MessageAnalytics.timestamp := Some now;
     MessageAnalytics.sessionId := Some sessionId |}.

(** The rows [rows], each stored under its identifier, one after the
    other. *)
Definition stored_in_turn (rows : list (string * MessageAnalytics.t))
  (m : JsMap.t MessageAnalytics.t) : JsMap.t MessageAnalytics.t :=
  fold_left (fun acc row => JsMap.set (fst row) (snd row) acc) rows m.

(** A queue entry without the fields the dispatch loop writes ([status],
    [sentAt], [errorMessage]), and a campaign without the fields it writes
    ([status], [messagesSent]). *)
Definition entry_core (m : MessageQueue.t) :=
  (MessageQueue.id m, MessageQueue.campaignId m, MessageQueue.contactId m,
   MessageQueue.message m, MessageQueue.mediaUrl m, MessageQueue.mediaType m,
   MessageQueue.scheduledAt m, MessageQueue.deliveredAt m, MessageQueue.sessionId m,
   MessageQueue.createdAt m).

Definition campaign_core (c : Campaign.t) :=
  (Campaign.id c, Campaign.name c, Campaign.message c, Campaign.contactGroups c,
   Campaign.mediaUrl c, Campaign.mediaType c, Campaign.scheduledAt c, Campaign.rateLimit c,
   Campaign.totalRecipients c, Campaign.messagesDelivered c, Campaign.messagesResponded c,
   Campaign.sessionId c, Campaign.createdAt c).

(** The updates that leave these fields alone. *)
Definition entry_core_kept (u : MessageQueue.Partial.t) : bool :=
  match MessageQueue.Partial.id u, MessageQueue.Partial.campaignId u,
        MessageQueue.Partial.contactId u, MessageQueue.Partial.message u,
        MessageQueue.Partial.mediaUrl u, MessageQueue.Partial.mediaType u,
        MessageQueue.Partial.scheduledAt u, MessageQueue.Partial.deliveredAt u,
        MessageQueue.Partial.sessionId u, MessageQueue.Partial.createdAt u with
  | None, None, None, None, None, None, None, None, None, None => true
  | _, _, _, _, _, _, _, _, _, _ => false
  end.

Definition campaign_core_kept (u : Campaign.Partial.t) : bool :=
  match Campaign.Partial.id u, Campaign.Partial.name u, Campaign.Partial.message u,
        Campaign.Partial.contactGroups u, Campaign.Partial.mediaUrl u,
        Campaign.Partial.mediaType u, Campaign.Partial.scheduledAt u,
        Campaign.Partial.rateLimit u, Campaign.Partial.totalRecipients u,
        Campaign.Partial.messagesDelivered u, Campaign.Partial.messagesResponded u,
        Campaign.Partial.sessionId u, Campaign.Partial.createdAt u with
  | None, None, None, None, None, None, None, None, None, None, None, None, None => true
  | _, _, _, _, _, _, _, _, _, _, _, _, _ => false
  end.

Definition cores {R C : Type} (core : R -> C) (m : JsMap.t R) : list (string * C) :=
  map (fun kv => (fst kv, core (snd kv))) m.

(** Everything a dispatch tick leaves alone: users, contacts, sessions and
    rules; which campaigns and queue entries there are, in which order, and
    the fields of them it does not write; channels, cron tasks, timers and
    the random source. *)
Definition beside_dispatch (w : World) :=
  (MemStorage.users (storage w), MemStorage.contacts (storage w),
   MemStorage.sessions (storage w), MemStorage.autoReplyRules (storage w),
   cores campaign_core (MemStorage.campaigns (storage w)),
   cores entry_core (MemStorage.messageQueue (storage w)),
   waSessions w, cronTasks w, scheduledJobs w, timeouts w, randomsDrawn w).

(** The first millisecond of the minute of a time, and the length of the
    cycle of the Gregorian calendar (400 years) in milliseconds. *)
Definition start_of_minute (t : Date) : Date := (t - t mod Calendar.msPerMinute)%Z.

Definition calendar_cycle : Z := (146097 * Calendar.msPerDay)%Z.

(** The handle [job] is one of the handles registered in [scheduledJobs]. *)
Definition registered (job : nat) (w : World) : bool :=
  existsb (Nat.eqb job) (JsMap.values (scheduledJobs w)).

(** The row of a campaign, and a state where no queue entry belongs to the
    campaign. *)
Definition campaign_at (campaignId : string) (w : World) : option Campaign.t :=
  MemStorage.getCampaign campaignId (storage w).

Definition without_entries (campaignId : string) (w : World) : Prop :=
  ~ In (Some campaignId)
       (map MessageQueue.campaignId (MemStorage.getMessageQueue (storage w))).

(** The interval fires [n] times, one tick after the other. *)
Fixpoint ticks (env : Env) (n : nat) : M unit :=
  match n with
  | O => ret tt
  | S k => bind (SchedulerService.processQueuedMessages env) (fun _ => ticks env k)
  end.

End ServiceNotions.

(* ================================================================== *)
(** * Templates read as segments *)
(* ================================================================== *)

Module Templates.
Import JsString Spintax SchedulerService.

Local Open Scope string_scope.
Local Open Scope list_scope.

(** A template read left to right: texts without braces, and placeholders
    [{key}] whose key holds no brace. *)
Inductive Segment :=
| Plain (s : string)
| Placeholder (key : string).

Definition segment_text (seg : Segment) : chars :=
  match seg with
  | Plain s => of_string s
  | Placeholder key => fullMatch (of_string key)
  end.

Definition template_text (segs : list Segment) : string :=
  to_string (List.concat (map segment_text segs)).

Definition well_formed (seg : Segment) : bool :=
  match seg with
  | Plain s => no_brace (of_string s)
  | Placeholder key => no_brace (of_string key)
  end.

(** What the placeholders of a contact stand for, in the order in which
    [personalizeMessage] replaces them: [name], [phone], [email], then the
    metadata keys. *)
Definition bindings_of (contact : AnyContact) : list (string * string) :=
  [("name", string_or (name contact) "there");
   ("phone", string_or (phone contact) EmptyString);
   ("email", string_or (email contact) EmptyString)]
  ++ match metadata contact with
     | Some entries => map (fun kv => (fst kv, string_or (Some (snd kv)) EmptyString)) entries
     | None => []
     end.

(** The first binding of a key. *)
Fixpoint value_of (key : string) (bindings : list (string * string)) : option string :=
  match bindings with
  | [] => None
  | (k, v) :: rest => if String.eqb k key then Some v else value_of key rest
  end.

(** A segment with its placeholder filled in: a placeholder without binding
    stays as it is written. *)
Definition fill (bindings : list (string * string)) (seg : Segment) : Segment :=
  match seg with
  | Plain s => Plain s
  | Placeholder key =>
      match value_of key bindings with
      | Some v => Plain v
      | None => Placeholder key
      end
  end.

(** The values of the contact hold neither a dollar sign nor a brace. *)
Definition plain_values (contact : AnyContact) : bool :=
  forallb (fun kv => no_dollar (of_string (snd kv)) && no_brace (of_string (snd kv)))
          (bindings_of contact).

End Templates.

(* ================================================================== *)
(** * server/routes.ts: the handlers that work on the store *)
(* ================================================================== *)

Module Routes.
Import Runtime.

Local Open Scope monad_scope.
Local Open Scope string_scope.

(** ** POST /api/contacts/import *)

(** A row object of csv-parser: the columns of the header line, each with
    a string value. *)
Definition CsvRow := JsMap.t string.

(** [row.a || row.b || ''] *)
Definition column_or (row : CsvRow) (a b : string) : string :=
  match truthy_string (JsMap.get a row) with
  | Some v => v
  | None =>
      match truthy_string (JsMap.get b row) with
      | Some v => v
      | None => EmptyString
      end
  end.

(** [row.groups ? row.groups.split(',').map(g => g.trim()) : []] *)
Definition groups_of (row : CsvRow) : list string :=
  match truthy_string (JsMap.get "groups" row) with
  | Some g => map (fun p => to_string (trim p)) (split ","%char (of_string g))
  | None => []
  end.

(** [contactData] *)
Definition contactData (row : CsvRow) : Contact.Insert.t :=
  {| Contact.Insert.name := column_or row "name" "Name";
     Contact.Insert.phone := column_or row "phone" "Phone";
     Contact.Insert.email := Some (column_or row "email" "Email");
     Contact.Insert.groups := Some (groups_of row);
     Contact.Insert.metadata := None |}.

(** The body sent back: [{ imported, errors: errors.length, errorDetails:
    errors.slice(0, 10) }]. *)
Record ImportResult := {
  imported : nat;
  errors : nat;
  errorDetails : list string
}.

Section WithEnv.
Variable env : Env.
(** [JSON.stringify(row)] and the text of a thrown value in a template
    string. *)
Variable JSON_stringify : CsvRow -> string.
Variable String_of : Thrown -> string.

Definition createContact (insertContact : Contact.Insert.t) : M Contact.t :=
  id <- WhatsAppService.randomUUID env ;;
  now <- newDate ;;
  storage_call (MemStorage.createContact id now insertContact).

(** The body of the loop over the rows: the answer is the error pushed, if
    any; without error the row was imported. *)
Definition import_row (row : CsvRow) : M (option string) :=
  try_catch
    (let data := contactData row in
     if String.eqb (Contact.Insert.name data) EmptyString
        || String.eqb (Contact.Insert.phone data) EmptyString
     then ret (Some ("Skipped row: missing name or phone - " ++ JSON_stringify row))
     else createContact data ;; ret None)
    (fun error =>
       ret (Some ("Error importing row: " ++ JSON_stringify row ++ " - " ++ String_of error))).

Fixpoint import_rows (results : list CsvRow) (imported : nat) (errors : list string)
  : M (nat * list string) :=
  match results with
  | [] => ret (imported, errors)
  | row :: rest =>
      error <- import_row row ;;
      match error with
      | None => import_rows rest (S imported) errors
      | Some e => import_rows rest imported (errors ++ [e])
      end
  end.

(** The [end] handler of the upload: the loop and the body of the answer.
    The removal of the uploaded file and the broadcast are left out. *)
Definition import_contacts (results : list CsvRow) : M ImportResult :=
  r <- import_rows results 0 [] ;;
  ret {| imported := fst r;
         errors := List.length (snd r);
         errorDetails := firstn 10 (snd r) |}.

(** ** DELETE /api/campaigns/:id *)

(** The status code of the answer: 200 with [{ success: true }], 404 with
    [{ error: 'Campaign not found' }], 500 when something threw.  The
    broadcast is left out. *)
Definition delete_campaign (id : string) : M Z :=
  try_catch
    (SchedulerService.cancelScheduledCampaign id ;;
     deleted <- storage_call (MemStorage.deleteCampaign id) ;;
     if negb deleted then ret 404%Z else ret 200%Z)
    (fun error => ret 500%Z).

End WithEnv.

(** ** Notions for the import *)

(** A row that is imported: it has a name and a phone. *)
Definition importable (row : CsvRow) : bool :=
  negb (String.eqb (column_or row "name" "Name") EmptyString)
  && negb (String.eqb (column_or row "phone" "Phone") EmptyString).

(** The contact of a row. *)
Definition contact_of_row (row : CsvRow) (c : Contact.t) : Prop :=
  Contact.name c = column_or row "name" "Name"
  /\ Contact.phone c = column_or row "phone" "Phone"
  /\ Contact.email c = truthy_string (Some (column_or row "email" "Email"))
  /\ Contact.groups c = Some (groups_of row)
  /\ Contact.metadata c = None.

(** The next [n] identifiers are new for the contacts. *)
Definition fresh_contact_ids (env : Env) (w : World) (n : nat) : bool :=
  Notions.distinct (Notions.next_uuids env w n)
  && forallb (fun id =>
                negb (existsb (String.eqb id)
                        (JsMap.keys (MemStorage.contacts (storage w)))))
             (Notions.next_uuids env w n).

(** Everything in the process but the contacts and the number of
    identifiers drawn. *)
Definition beside_contacts (w : World) :=
  (MemStorage.users (storage w), MemStorage.sessions (storage w),
   MemStorage.campaigns (storage w), MemStorage.autoReplyRules (storage w),
   MemStorage.messageQueue (storage w), MemStorage.messageAnalytics (storage w),
   waSessions w, cronTasks w, scheduledJobs w, timeouts w, clock w,
   randomsDrawn w, socketCalls w, delivered w).

End Routes.
(* ================================================================== *)
(** * Further stores and inputs used by the examples *)
(* ================================================================== *)

Module MoreFixtures.
Import Runtime Fixtures.

Local Open Scope string_scope.
Local Open Scope list_scope.

(** *** Auto-reply rules as the rule form sends them *)

(** A rule for every message, sent without [isActive]. *)
Definition quiet_rule : AutoReplyRule.Insert.t :=
  {| AutoReplyRule.Insert.name := "Out of office";
     AutoReplyRule.Insert.keywords := None;
     AutoReplyRule.Insert.triggerType := Some "any";
     AutoReplyRule.Insert.response := "Back on Monday";
     AutoReplyRule.Insert.delay := None;
     AutoReplyRule.Insert.isActive := None;
     AutoReplyRule.Insert.businessHoursOnly := None;
     AutoReplyRule.Insert.businessHoursStart := None;
     AutoReplyRule.Insert.businessHoursEnd := None;
     AutoReplyRule.Insert.sessionId := Some "main" |}.

(** An active rule sent without keywords and without trigger type. *)
Definition price_rule : AutoReplyRule.Insert.t :=
  {| AutoReplyRule.Insert.name := "Prices";
     AutoReplyRule.Insert.keywords := None;
     AutoReplyRule.Insert.triggerType := None;
     AutoReplyRule.Insert.response := "See our price list";
     AutoReplyRule.Insert.delay := None;
     AutoReplyRule.Insert.isActive := Some true;
     AutoReplyRule.Insert.businessHoursOnly := None;
     AutoReplyRule.Insert.businessHoursStart := None;
     AutoReplyRule.Insert.businessHoursEnd := None;
     AutoReplyRule.Insert.sessionId := Some "main" |}.

(** The process with the channel connected and an empty store. *)
Definition empty_world : World := world (store [] [] [] []) 1000%Z.

(** *** An uploaded file of three rows, the second without name *)

Definition row_ann : Routes.CsvRow :=
  [("name", "Ann"); ("phone", "15550001"); ("email", ""); ("groups", "vip, press")].

Definition row_nameless : Routes.CsvRow :=
  [("Name", ""); ("Phone", "15550002")].

Definition row_bob : Routes.CsvRow :=
  [("Name", "Bob"); ("Phone", "15550002"); ("Email", "bob@example.org")].

Definition upload : list Routes.CsvRow := [row_ann; row_nameless; row_bob].

Definition import_world : World := world (store [carl] [] [] []) 1000%Z.

(** *** A template with three placeholders, and a record with one metadata
    entry *)

Definition greeting : list Templates.Segment :=
  [Templates.Plain "Hi "; Templates.Placeholder "name"; Templates.Plain " from ";
   Templates.Placeholder "city"; Templates.Plain "! "; Templates.Placeholder "x"].

Definition carl_record : SchedulerService.AnyContact :=
  {| SchedulerService.name := Some "Carl"; SchedulerService.phone := None;
     SchedulerService.email := None;
     SchedulerService.metadata := Some [("city", "Rome")] |}.

(** *** A campaign in a store without contacts *)

Definition lonely_world : World := world (store [] [promo] [] []) 1000%Z.

(** *** A queue entry that carries a document *)

Definition brochure : MessageQueue.t :=
  {| MessageQueue.id := "m9"; MessageQueue.campaignId := Some "kA";
     MessageQueue.contactId := Some "c1"; MessageQueue.message := "Our offer";
     MessageQueue.mediaUrl := Some "/files/offer.pdf";
     MessageQueue.mediaType := Some "document";
     MessageQueue.status := "pending"; MessageQueue.scheduledAt := Some 0%Z;
     MessageQueue.sentAt := None; MessageQueue.deliveredAt := None;
     MessageQueue.errorMessage := None; MessageQueue.sessionId := Some "s1";
     MessageQueue.createdAt := Some 0%Z |}.

Definition brochure_world : World := world (store [ann] [campaignA] [] [brochure]) 1000%Z.

(** *** Three receipts: read, without timestamp, delivered *)

Definition receipts : list WhatsAppService.ReceiptUpdate :=
  [{| WhatsAppService.receiptJid := Some "15550001@s.whatsapp.net";
      WhatsAppService.receipt :=
        Some {| WhatsAppService.readTimestamp := Some 1700000000%Z;
                WhatsAppService.deliveredTimestamp := Some 1690000000%Z |} |};
   {| WhatsAppService.receiptJid := Some "15550003@s.whatsapp.net";
      WhatsAppService.receipt :=
        Some {| WhatsAppService.readTimestamp := None;
                WhatsAppService.deliveredTimestamp := None |} |};
   {| WhatsAppService.receiptJid := Some "15550002@s.whatsapp.net";
      WhatsAppService.receipt :=
        Some {| WhatsAppService.readTimestamp := None;
                WhatsAppService.deliveredTimestamp := Some 1690000000%Z |} |}].

(** *** A record with every field, and a template that names them *)

Definition carl_full : SchedulerService.AnyContact :=
  {| SchedulerService.name := Some "Carl"; SchedulerService.phone := Some "15550003";
     SchedulerService.email := Some "carl@example.org";
     SchedulerService.metadata := Some [("city", "Rome")] |}.

Definition card : list Templates.Segment :=
  [Templates.Plain "Dear "; Templates.Placeholder "name"; Templates.Plain ", call ";
   Templates.Placeholder "phone"; Templates.Plain " or write to ";
   Templates.Placeholder "email"; Templates.Plain " in "; Templates.Placeholder "city";
   Templates.Plain " "; Templates.Placeholder "x"].

End MoreFixtures.

(* ================================================================== *)
(** * Facts about the string primitives *)
(* ================================================================== *)

Unset Implicit Arguments.

Module JsStringFacts.
Import JsString.

Lemma to_of_string (s : string) : to_string (of_string s) = s.
Proof. apply string_of_list_ascii_of_string. Qed.

Lemma of_to_string (l : chars) : of_string (to_string l) = l.
Proof. apply list_ascii_of_string_of_list_ascii. Qed.

Lemma startsWith_app (pat rest : chars) : startsWith pat (pat ++ rest) = true.
Proof.
  induction pat as [|p pat IH]; simpl; [reflexivity|].
  now rewrite Ascii.eqb_refl, IH.
Qed.

Lemma startsWith_split (pat s : chars) :
  startsWith pat s = true -> s = pat ++ skipn (List.length pat) s.
Proof.
  revert s; induction pat as [|p pat IH]; intros s H; simpl in *; [reflexivity|].
  destruct s as [|c s]; [discriminate|].
  apply andb_true_iff in H as [Hc Hs].
  apply Ascii.eqb_eq in Hc; subst c.
  simpl. f_equal. now apply IH.
Qed.

Lemma includes_of_startsWith (pat s : chars) :
  startsWith pat s = true -> includes pat s = true.
Proof. intros H. destruct s; cbn [includes]; now rewrite H. Qed.

Lemma includes_app (pat a b : chars) : includes pat (a ++ pat ++ b) = true.
Proof.
  induction a as [|c a IH].
  - cbn [app]. apply includes_of_startsWith, startsWith_app.
  - cbn [app includes]. rewrite IH. apply orb_true_r.
Qed.

(** A pattern that does not occur is not replaced. *)
Lemma replaceAll_from_absent (pat rep : chars) :
  forall s before, includes pat s = false -> replaceAll_from pat rep before s 0 = s.
Proof.
  induction s as [|c t IH]; intros before H; [reflexivity|].
  cbn [includes] in H. apply orb_false_iff in H as [Hs Ht].
  cbn [replaceAll_from]. rewrite Hs. f_equal. now apply IH.
Qed.

Lemma replaceAll_absent (pat rep s : chars) :
  includes pat s = false -> replaceAll pat rep s = s.
Proof. apply replaceAll_from_absent. Qed.

End JsStringFacts.

(* ================================================================== *)
(** * Spintax: validation *)
(* ================================================================== *)

Module SpintaxFacts.
Import JsString JsStringFacts Spintax.

Local Open Scope string_scope.
Local Open Scope list_scope.

(** The counter of [validateSpintax] follows the pairing of braces: as long
    as no closing brace is left alone the counter is the number of opening
    braces waiting for a partner, and the loop breaks with an error at the
    first closing brace that has none. *)
Lemma brace_loop_pairing (s : chars) :
  forall (i : nat) (open : list nat),
    match pair_braces i open s with
    | ([], op) =>
        brace_loop (Z.of_nat (List.length open)) s = (Z.of_nat (List.length op), [])
    | (_ :: _, _) => snd (brace_loop (Z.of_nat (List.length open)) s) <> []
    end.
Proof.
  induction s as [|c t IH]; intros i open; cbn [pair_braces brace_loop].
  - reflexivity.
  - destruct (Ascii.eqb c lbrace).
    + specialize (IH (S i) (i :: open)).
      replace (Z.of_nat (List.length open) + 1)%Z
        with (Z.of_nat (List.length (i :: open))) by (cbn [List.length]; lia).
      exact IH.
    + destruct (Ascii.eqb c rbrace).
      * destruct open as [|o open'].
        -- cbn. destruct (pair_braces (S i) [] t). discriminate.
        -- specialize (IH (S i) open').
           replace (Z.of_nat (List.length (o :: open')) - 1)%Z
             with (Z.of_nat (List.length open')) by (cbn [List.length]; lia).
           cbv zeta.
           destruct (Z.of_nat (List.length open') <? 0)%Z eqn:E;
             [apply Z.ltb_lt in E; lia|].
           exact IH.
      * apply IH.
Qed.

Lemma brace_errors_unmatched (text : string) :
  unmatched_opening text <> [] \/ unmatched_closing text <> [] ->
  brace_errors (of_string text) <> [].
Proof.
  unfold unmatched_opening, unmatched_closing, brace_errors.
  pose proof (brace_loop_pairing (of_string text) 0 []) as H.
  destruct (pair_braces 0 [] (of_string text)) as [cl op]; cbn [fst snd].
  cbn [List.length Z.of_nat] in H.
  destruct cl as [|c cl].
  - rewrite H. intros [Hop|Hcl]; [|congruence].
    destruct op as [|o op]; [congruence|].
    cbn. discriminate.
  - intros _. destruct (brace_loop 0 (of_string text)) as [n errs]; cbn [snd] in H.
    destruct (0 <? n)%Z; [|exact H].
    destruct errs; [congruence|discriminate].
Qed.

Lemma isValid_false_of_errors (text : string) :
  errors (validateSpintax text) <> [] -> isValid (validateSpintax text) = false.
Proof.
  unfold validateSpintax; cbn [isValid errors].
  destruct (brace_errors (of_string text) ++ _); [congruence|reflexivity].
Qed.

(** The four facts of the claim on their own. *)
Lemma validateSpintax_unmatched_invalid :
  isValid (validateSpintax "{a|b|}") = false
  /\ isValid (validateSpintax "{a}") = false
  /\ (forall text : string,
        unmatched_opening text <> [] \/ unmatched_closing text <> [] ->
        isValid (validateSpintax text) = false)
  /\ validateSpintax "{a|b}" = {| isValid := true; errors := [] |}.
Proof.
  repeat split; try reflexivity.
  intros text H. apply isValid_false_of_errors.
  cbn [validateSpintax errors].
  intro E. apply app_eq_nil in E as [E _].
  now apply (brace_errors_unmatched text).
Qed.

(** The reported errors name the malformation. *)
Example validate_empty_option :
  errors (validateSpintax "{a|b|}") = ["Empty option in spintax pattern: {a|b|}"].
Proof. reflexivity. Qed.

Example validate_no_pipe :
  errors (validateSpintax "{a}") = ["Invalid spintax pattern: {a} (missing pipe separator)"].
Proof. reflexivity. Qed.

Example validate_unmatched_closing :
  errors (validateSpintax "a}b") = ["Unmatched closing brace }"].
Proof. reflexivity. Qed.

Example validate_unmatched_opening :
  errors (validateSpintax "{a|b") = ["Unmatched opening brace {"].
Proof. reflexivity. Qed.

End SpintaxFacts.

(* ================================================================== *)
(** * Spintax: rendering *)
(* ================================================================== *)

Module ParseSpintaxFacts.
Import JsString JsStringFacts Spintax.

Local Open Scope string_scope.
Local Open Scope list_scope.

(** ** What [exec] finds *)

Lemma span_nonbrace_spec (s : chars) :
  forall run rest, span_nonbrace s = (run, rest) ->
    s = run ++ rest
    /\ forallb (fun c => negb (is_brace c)) run = true
    /\ match rest with [] => True | d :: _ => is_brace d = true end.
Proof.
  induction s as [|c t IH]; intros run rest H; cbn [span_nonbrace] in H.
  - inversion H; subst. repeat split.
  - destruct (is_brace c) eqn:Ec.
    + inversion H; subst. repeat split. exact Ec.
    + destruct (span_nonbrace t) as [run' rest'] eqn:Et.
      inversion H; subst.
      destruct (IH run' rest eq_refl) as (-> & Hrun & Hrest).
      repeat split; [|exact Hrest].
      cbn [forallb]. now rewrite Ec, Hrun.
Qed.

(** A run without braces followed by a brace is the run [span_nonbrace]
    finds. *)
Lemma span_nonbrace_app (run : chars) (d : ascii) (rest : chars) :
  forallb (fun c => negb (is_brace c)) run = true ->
  is_brace d = true ->
  span_nonbrace (run ++ d :: rest) = (run, d :: rest).
Proof.
  intros Hrun Hd. induction run as [|c run IH]; cbn [app span_nonbrace].
  - now rewrite Hd.
  - cbn [forallb] in Hrun. apply andb_true_iff in Hrun as [Hc Hrun].
    apply negb_true_iff in Hc. rewrite Hc, (IH Hrun). reflexivity.
Qed.

Lemma match_here_spec (need_pipe : bool) (s g after : chars) :
  match_here need_pipe s = Some (g, after) ->
  s = fullMatch g ++ after
  /\ forallb (fun c => negb (is_brace c)) g = true
  /\ (need_pipe = true -> has_pipe g = true).
Proof.
  unfold match_here. destruct s as [|c t]; [discriminate|].
  destruct (Ascii.eqb c lbrace) eqn:Ec; [|discriminate].
  apply Ascii.eqb_eq in Ec; subst c.
  destruct (span_nonbrace t) as [run rest] eqn:Et.
  destruct rest as [|d rest']; [discriminate|].
  destruct (Ascii.eqb d rbrace) eqn:Ed; cbn [andb]; [|discriminate].
  apply Ascii.eqb_eq in Ed; subst d.
  destruct (negb need_pipe || has_pipe run) eqn:Ep; [|discriminate].
  intros H; inversion H; subst.
  destruct (span_nonbrace_spec t _ _ Et) as (-> & Hrun & _).
  repeat split.
  - unfold fullMatch. cbn [app]. now rewrite <- app_assoc.
  - exact Hrun.
  - intros ->. exact Ep.
Qed.

Lemma exec_spec (need_pipe : bool) (s : chars) :
  forall before g after, exec need_pipe s = Some (before, g, after) ->
    s = before ++ fullMatch g ++ after
    /\ forallb (fun c => negb (is_brace c)) g = true
    /\ (need_pipe = true -> has_pipe g = true).
Proof.
  induction s as [|c t IH]; intros before g after H; cbn [exec] in H.
  - destruct (match_here need_pipe []) as [[g' a']|] eqn:E; [|discriminate].
    inversion H; subst. now apply match_here_spec.
  - destruct (match_here need_pipe (c :: t)) as [[g' a']|] eqn:E.
    + inversion H; subst. now apply match_here_spec.
    + destruct (exec need_pipe t) as [[[b' g'] a']|] eqn:Et; [|discriminate].
      inversion H; subst.
      destruct (IH b' g after eq_refl) as (-> & Hg & Hp).
      repeat split; assumption.
Qed.

Lemma is_brace_rbrace : is_brace rbrace = true.
Proof. reflexivity. Qed.

Lemma match_here_marker (content after : chars) :
  forallb (fun c => negb (is_brace c)) content = true ->
  has_pipe content = true ->
  match_here true (fullMatch content ++ after) = Some (content, after).
Proof.
  intros Hc Hp. unfold match_here, fullMatch.
  cbn [app]. rewrite Ascii.eqb_refl.
  rewrite <- app_assoc. cbn [app].
  rewrite (span_nonbrace_app content rbrace after Hc is_brace_rbrace).
  rewrite Ascii.eqb_refl, Hp. reflexivity.
Qed.

(** [exec] misses no marker. *)
Lemma exec_complete (s before content after : chars) :
  marker_at s before content after -> exec true s <> None.
Proof.
  intros (-> & Hc & Hp).
  induction before as [|c before IH]; cbn [app].
  - destruct (fullMatch content ++ after) eqn:E; cbn [exec]; rewrite <- ?E;
      rewrite (match_here_marker content after Hc Hp); discriminate.
  - cbn [exec].
    destruct (match_here true (c :: before ++ fullMatch content ++ after)) as [[g a]|];
      [discriminate|].
    destruct (exec true (before ++ fullMatch content ++ after)) as [[[b g] a]|];
      [discriminate|contradiction].
Qed.

(** ** Whatever [parseSpintax] returns holds no marker *)

Lemma parseSpintax_loop_no_marker (fuel : nat) (random : nat -> nat) :
  forall k result out k',
    parseSpintax_loop fuel random k result = Some (out, k') ->
    exec true out = None.
Proof.
  induction fuel as [|fuel IH]; intros k result out k' H; cbn [parseSpintax_loop] in H.
  - destruct (exec true result) as [[[b g] a]|] eqn:E; [discriminate|].
    inversion H; subst. exact E.
  - destruct (exec true result) as [[[b g] a]|] eqn:E.
    + eapply IH; exact H.
    + inversion H; subst. exact E.
Qed.

Theorem parseSpintax_result_has_no_marker (fuel : nat) (random : nat -> nat)
  (text out : string) :
  parseSpintax fuel random text = Some out -> ~ has_marker out.
Proof.
  unfold parseSpintax, parseSpintax_from.
  destruct (parseSpintax_loop fuel random 0 (of_string text)) as [[r k]|] eqn:E;
    [|discriminate].
  cbn. intros H; inversion H; subst.
  intros (before & content & after & Hm).
  rewrite of_to_string in Hm.
  apply exec_complete in Hm.
  apply Hm. eapply parseSpintax_loop_no_marker; exact E.
Qed.

Lemma parseSpintax_result_has_no_marker_witness :
  parseSpintax 5 (fun _ => 1) "Hi {a|b} and { c | d |e}" = Some "Hi b and d"
  /\ ~ has_marker "Hi b and d".
Proof.
  assert (H : parseSpintax 5 (fun _ => 1) "Hi {a|b} and { c | d |e}" = Some "Hi b and d")
    by reflexivity.
  split; [exact H|].
  exact (parseSpintax_result_has_no_marker 5 (fun _ => 1) "Hi {a|b} and { c | d |e}" _ H).
Defined.

(** ** The option [$&] *)

(** Replacing the group [{$&|$&}] by its option [$&] gives the group back:
    [String.prototype.replace] reads [$&] as "the matched text". *)
Lemma dollar_amp_step (random : nat -> nat) (k : nat) :
  replaceFirst (fullMatch (of_string "$&|$&"))
    (trim (randomOption random k (split pipe (of_string "$&|$&"))))
    (of_string "{$&|$&}") = of_string "{$&|$&}".
Proof.
  unfold randomOption.
  change (split pipe (of_string "$&|$&")) with [of_string "$&"; of_string "$&"].
  cbn [List.length].
  assert (Hlt : random k mod 2 < 2) by (apply Nat.mod_upper_bound; discriminate).
  destruct (random k mod 2) as [|[|n]]; [reflexivity|reflexivity|lia].
Qed.

Lemma parseSpintax_loop_dollar_amp (random : nat -> nat) (fuel : nat) :
  forall k, parseSpintax_loop fuel random k (of_string "{$&|$&}") = None.
Proof.
  induction fuel as [|fuel IH]; intros k.
  - reflexivity.
  - cbn [parseSpintax_loop].
    change (exec true (of_string "{$&|$&}"))
      with (Some (@nil ascii, of_string "$&|$&", @nil ascii)).
    cbv beta iota zeta.
    rewrite dollar_amp_step. apply IH.
Qed.

(** C8 (the code at the failing input).  On the text ["{$&|$&}"] the loop of
    [parseSpintax] never ends: whatever the random source draws and however
    many rounds are allowed, no result comes out. *)
Theorem parseSpintax_dollar_amp_never_returns :
  forall (fuel : nat) (random : nat -> nat),
    parseSpintax fuel random "{$&|$&}" = None.
Proof.
  intros fuel random. unfold parseSpintax, parseSpintax_from.
  now rewrite parseSpintax_loop_dollar_amp.
Qed.

End ParseSpintaxFacts.

(* ================================================================== *)
(** * Spintax: texts without a dollar sign are rendered in finitely many
      rounds *)
(* ================================================================== *)

Module ParseSpintaxTermination.
Import JsString JsStringFacts Spintax ParseSpintaxFacts.

Local Open Scope string_scope.
Local Open Scope list_scope.

Section CharPredicate.
Variable P : ascii -> bool.

Lemma forallb_trimStart (s : chars) :
  forallb P s = true -> forallb P (trimStart s) = true.
Proof.
  induction s as [|c t IH]; intros H; cbn [trimStart]; [reflexivity|].
  destruct (isWhiteSpace c); [|exact H].
  cbn [forallb] in H. apply andb_true_iff in H as [_ H]. now apply IH.
Qed.

Lemma forallb_rev (s : chars) : forallb P s = true -> forallb P (rev s) = true.
Proof.
  rewrite !forallb_forall. intros H x Hx. apply H. now apply in_rev.
Qed.

Lemma forallb_trim (s : chars) : forallb P s = true -> forallb P (trim s) = true.
Proof.
  intros H. unfold trim, trimEnd.
  now apply forallb_rev, forallb_trimStart, forallb_rev, forallb_trimStart.
Qed.

Lemma forallb_split (sep : ascii) (s : chars) :
  forallb P s = true -> Forall (fun p => forallb P p = true) (split sep s).
Proof.
  induction s as [|c t IH]; intros H; cbn [split].
  - constructor; [reflexivity|constructor].
  - cbn [forallb] in H. apply andb_true_iff in H as [Hc Ht].
    specialize (IH Ht).
    destruct (Ascii.eqb c sep).
    + constructor; [reflexivity|exact IH].
    + destruct (split sep t) as [|p ps].
      * constructor; [cbn; now rewrite Hc|constructor].
      * inversion IH; subst. constructor; [cbn [forallb]; now rewrite Hc|assumption].
Qed.

Lemma forallb_nth (l : list chars) (i : nat) :
  Forall (fun p => forallb P p = true) l -> forallb P (nth i l []) = true.
Proof.
  intros H. revert i. induction H as [|p ps Hp _ IH]; intros [|i]; cbn [nth]; auto.
Qed.

Lemma forallb_option (random : nat -> nat) (k : nat) (g : chars) :
  forallb P g = true ->
  forallb P (trim (randomOption random k (split pipe g))) = true.
Proof.
  intros H. apply forallb_trim. unfold randomOption.
  now apply forallb_nth, forallb_split.
Qed.

End CharPredicate.

Lemma GetSubstitution_no_dollar (matched before after template : chars) :
  no_dollar template = true ->
  GetSubstitution matched before after template = template.
Proof.
  induction template as [|c t IH]; intros H; [reflexivity|].
  cbn [no_dollar forallb] in H. apply andb_true_iff in H as [Hc Ht].
  apply negb_true_iff in Hc.
  cbn [GetSubstitution]. rewrite Hc. f_equal. now apply IH.
Qed.

(** [replace] with a pattern that occurs: one occurrence is exchanged for
    the expanded replacement. *)
Lemma replaceFirst_from_occurs (pattern replacement : chars) :
  forall s before,
    includes pattern s = true ->
    exists b a,
      s = b ++ pattern ++ a
      /\ replaceFirst_from pattern replacement before s
         = (before ++ b) ++ GetSubstitution pattern (before ++ b) a replacement ++ a.
Proof.
  induction s as [|c t IH]; intros before H.
  - cbn [includes] in H. rewrite orb_false_r in H.
    exists [], (skipn (List.length pattern) []).
    split; [now apply startsWith_split|].
    cbn [replaceFirst_from]. rewrite H. now rewrite app_nil_r.
  - cbn [replaceFirst_from].
    destruct (startsWith pattern (c :: t)) eqn:Es.
    + exists [], (skipn (List.length pattern) (c :: t)).
      split; [now apply startsWith_split|].
      now rewrite app_nil_r.
    + cbn [includes] in H. rewrite Es in H. cbn [orb] in H.
      destruct (IH (before ++ [c]) H) as (b & a & -> & Hr).
      exists (c :: b), a. split; [reflexivity|].
      rewrite Hr. now rewrite <- !app_assoc.
Qed.

Lemma count_lbrace_app (a b : chars) :
  count_lbrace (a ++ b) = count_lbrace a + count_lbrace b.
Proof. unfold count_lbrace. now rewrite filter_app, length_app. Qed.

Lemma count_lbrace_no_brace (s : chars) :
  forallb (fun c => negb (is_brace c)) s = true -> count_lbrace s = 0.
Proof.
  induction s as [|c t IH]; intros H; [reflexivity|].
  cbn [forallb] in H. apply andb_true_iff in H as [Hc Ht].
  apply negb_true_iff in Hc. unfold is_brace in Hc.
  apply orb_false_iff in Hc as [Hc _].
  unfold count_lbrace in *. cbn [filter].
  rewrite Ascii.eqb_sym, Hc. now apply IH.
Qed.

Lemma count_lbrace_fullMatch (g : chars) :
  forallb (fun c => negb (is_brace c)) g = true -> count_lbrace (fullMatch g) = 1.
Proof.
  intros H. unfold fullMatch.
  change (lbrace :: g ++ [rbrace]) with ([lbrace] ++ g ++ [rbrace]).
  rewrite !count_lbrace_app, (count_lbrace_no_brace g H). reflexivity.
Qed.

Lemma no_dollar_app (a b : chars) :
  no_dollar (a ++ b) = no_dollar a && no_dollar b.
Proof. apply forallb_app. Qed.

(** One round of the loop on a text without dollar sign: an occurrence of
    the group is exchanged for the trimmed option as it is written, which
    takes one opening brace away and brings no dollar sign in. *)
Lemma round_no_dollar (random : nat -> nat) (k : nat) (s before g after : chars) :
  no_dollar s = true ->
  exec true s = Some (before, g, after) ->
  let chosen := trim (randomOption random k (split pipe g)) in
  let s' := replaceFirst (fullMatch g) chosen s in
  (exists b a, s = b ++ fullMatch g ++ a /\ s' = b ++ chosen ++ a)
  /\ no_dollar s' = true
  /\ S (count_lbrace s') = count_lbrace s.
Proof.
  intros Hs He chosen s'.
  destruct (exec_spec true s _ _ _ He) as (Hsplit & Hg & _).
  assert (Hinc : includes (fullMatch g) s = true)
    by (rewrite Hsplit; apply includes_app).
  destruct (replaceFirst_from_occurs (fullMatch g) chosen s [] Hinc)
    as (b & a & Hba & Hr).
  assert (Hgd : no_dollar g = true).
  { rewrite Hsplit in Hs. rewrite !no_dollar_app in Hs.
    apply andb_true_iff in Hs as [_ Hs]. apply andb_true_iff in Hs as [Hs _].
    unfold fullMatch in Hs. cbn [no_dollar forallb] in Hs.
    apply andb_true_iff in Hs as [_ Hs].
    unfold no_dollar in Hs. rewrite forallb_app in Hs.
    now apply andb_true_iff in Hs as [Hs _]. }
  assert (Hcd : no_dollar chosen = true) by (now apply forallb_option).
  assert (Hcb : forallb (fun c => negb (is_brace c)) chosen = true)
    by (now apply forallb_option).
  assert (Hs' : s' = b ++ chosen ++ a).
  { unfold s', replaceFirst. rewrite Hr. cbn [app].
    now rewrite (GetSubstitution_no_dollar _ _ _ _ Hcd). }
  split; [exists b, a; now split|].
  split.
  - rewrite Hs'. rewrite Hba in Hs. rewrite !no_dollar_app in *.
    apply andb_true_iff in Hs as [Hb Hs]. apply andb_true_iff in Hs as [_ Ha].
    now rewrite Hb, Hcd, Ha.
  - rewrite Hs', Hba, !count_lbrace_app.
    rewrite (count_lbrace_no_brace chosen Hcb), (count_lbrace_fullMatch g Hg). lia.
Qed.

Lemma exec_none_of_no_lbrace (s : chars) : count_lbrace s = 0 -> exec true s = None.
Proof.
  intros H. destruct (exec true s) as [[[b g] a]|] eqn:E; [|reflexivity].
  destruct (exec_spec true s _ _ _ E) as (Hs & Hg & _).
  rewrite Hs, !count_lbrace_app, (count_lbrace_fullMatch g Hg) in H. lia.
Qed.

Lemma parseSpintax_loop_terminates (random : nat -> nat) (fuel : nat) :
  forall k s,
    no_dollar s = true ->
    count_lbrace s <= fuel ->
    exists out k',
      parseSpintax_loop fuel random k s = Some (out, k') /\ no_dollar out = true.
Proof.
  induction fuel as [|fuel IH]; intros k s Hd Hc; cbn [parseSpintax_loop].
  - rewrite exec_none_of_no_lbrace by lia. eauto.
  - destruct (exec true s) as [[[b g] a]|] eqn:E; [|eauto].
    destruct (round_no_dollar random k s b g a Hd E) as (_ & Hd' & Hc').
    apply IH; [exact Hd'|lia].
Qed.

(** X1: for a text without dollar sign, [parseSpintax] returns as soon as it is
    allowed as many rounds as the text has opening braces, and its result
    holds no spintax marker. *)
Theorem parseSpintax_terminates (random : nat -> nat) (fuel : nat) (text : string) :
  no_dollar (of_string text) = true ->
  count_lbrace (of_string text) <= fuel ->
  exists out, parseSpintax fuel random text = Some out /\ ~ has_marker out.
Proof.
  intros Hd Hc.
  destruct (parseSpintax_loop_terminates random fuel 0 (of_string text) Hd Hc)
    as (out & k' & Hl & _).
  exists (to_string out).
  assert (H : parseSpintax fuel random text = Some (to_string out))
    by (unfold parseSpintax, parseSpintax_from; now rewrite Hl).
  split; [exact H|].
  eapply parseSpintax_result_has_no_marker; exact H.
Qed.

Lemma parseSpintax_terminates_witness :
  exists out, parseSpintax 2 (fun _ => 0) "{Hi|Hello} {you|all}" = Some out
              /\ ~ has_marker out.
Proof.
  apply (parseSpintax_terminates (fun _ => 0) 2 "{Hi|Hello} {you|all}").
  - reflexivity.
  - vm_compute. lia.
Defined.

End ParseSpintaxTermination.

(* ================================================================== *)
(** * Spintax: validation reports the malformations and nothing else *)
(* ================================================================== *)

Module ValidateExact.
Import JsString JsStringFacts Spintax SpintaxFacts ParseSpintaxFacts.

Local Open Scope string_scope.
Local Open Scope list_scope.

Lemma includes_pipe (s : chars) : includes [pipe] s = has_pipe s.
Proof.
  unfold has_pipe. induction s as [|c t IH]; [reflexivity|].
  cbn [includes startsWith existsb]. rewrite IH, andb_true_r. reflexivity.
Qed.

(** [pattern_errors] is empty exactly on a group with a pipe and without
    empty option. *)
Lemma pattern_errors_nil (content : chars) :
  pattern_errors content = [] <-> has_pipe content = true /\ empty_option content = false.
Proof.
  unfold pattern_errors, empty_option. rewrite includes_pipe.
  destruct (has_pipe content); cbn [negb].
  - destruct (existsb _ _); split; try discriminate; intuition discriminate.
  - split; [discriminate|intros [H _]; discriminate].
Qed.

Lemma match_here_group (content after : chars) :
  forallb (fun c => negb (is_brace c)) content = true ->
  match_here false (fullMatch content ++ after) = Some (content, after).
Proof.
  intros Hc. unfold match_here, fullMatch.
  cbn [app]. rewrite Ascii.eqb_refl.
  rewrite <- app_assoc. cbn [app].
  rewrite (span_nonbrace_app content rbrace after Hc is_brace_rbrace).
  rewrite Ascii.eqb_refl. reflexivity.
Qed.

(** Two runs without braces that end at a closing brace in the same text
    are the same run. *)
Lemma run_unique (g content a after : chars) :
  forallb (fun c => negb (is_brace c)) g = true ->
  forallb (fun c => negb (is_brace c)) content = true ->
  g ++ rbrace :: a = content ++ rbrace :: after ->
  g = content /\ a = after.
Proof.
  revert content. induction g as [|x g IH]; intros content Hg Hc E.
  - destruct content as [|y content]; cbn [app] in E.
    + inversion E. auto.
    + inversion E; subst y. cbn [forallb] in Hc. discriminate.
  - destruct content as [|y content]; cbn [app] in E.
    + inversion E; subst x. cbn [forallb] in Hg. discriminate.
    + inversion E; subst y.
      cbn [forallb] in Hg, Hc.
      apply andb_true_iff in Hg as [_ Hg]. apply andb_true_iff in Hc as [_ Hc].
      destruct (IH content Hg Hc H1) as [-> ->]. auto.
Qed.

(** An opening brace after a run without braces and its closing brace lies
    behind them. *)
Lemma later_group (g a before rest : chars) :
  forallb (fun c => negb (is_brace c)) g = true ->
  g ++ rbrace :: a = before ++ lbrace :: rest ->
  exists before', before = g ++ rbrace :: before' /\ a = before' ++ lbrace :: rest.
Proof.
  revert before. induction g as [|x g IH]; intros before Hg E; cbn [app] in E.
  - destruct before as [|y before]; cbn [app] in E; [discriminate|].
    inversion E; subst y. exists before. auto.
  - cbn [forallb] in Hg. apply andb_true_iff in Hg as [Hx Hg].
    destruct before as [|y before]; cbn [app] in E.
    + inversion E; subst x. discriminate.
    + inversion E; subst y.
      destruct (IH before Hg H1) as (before' & -> & ->).
      exists before'. auto.
Qed.

(** [exec] finds the leftmost group, and every other group of the text lies
    in what follows the match. *)
Lemma exec_leftmost (s : chars) :
  forall b g a before content after,
    exec false s = Some (b, g, a) ->
    group_at s before content after ->
    (before = b /\ content = g /\ after = a)
    \/ (exists before', before = b ++ fullMatch g ++ before'
                        /\ group_at a before' content after).
Proof.
  induction s as [|c t IH]; intros b g a before content after He [Hs Hc].
  - destruct before; discriminate.
  - cbn [exec] in He.
    destruct (match_here false (c :: t)) as [[g' a']|] eqn:Em.
    + inversion He; subst b g' a'.
      destruct (match_here_spec false _ _ _ Em) as (Hsplit & Hg & _).
      rewrite Hsplit in Hs. unfold fullMatch in Hs.
      destruct before as [|y before]; cbn [app] in Hs.
      * left. inversion Hs as [E]. rewrite <- !app_assoc in E. cbn [app] in E.
        destruct (run_unique g content a after Hg Hc E) as [-> ->]. auto.
      * right. inversion Hs as [[Ey E]].
        rewrite <- !app_assoc in E. cbn [app] in E.
        destruct (later_group g a before _ Hg E) as (before' & -> & ->).
        exists before'. split.
        -- unfold fullMatch. cbn [app]. now rewrite <- !app_assoc.
        -- split; [|exact Hc]. unfold fullMatch. cbn [app].
           now rewrite <- !app_assoc.
    + destruct (exec false t) as [[[b' g'] a']|] eqn:Et; [|discriminate].
      inversion He; subst b g' a'.
      destruct before as [|y before]; cbn [app] in Hs.
      * rewrite Hs, (match_here_group content after Hc) in Em. discriminate.
      * inversion Hs as [[Ey E]].
        destruct (IH b' g a before content after eq_refl (conj E Hc))
          as [(-> & -> & ->) | (before' & -> & Hlater)].
        -- left. auto.
        -- right. exists before'. auto.
Qed.

Lemma exec_finds_group (s before content after : chars) :
  group_at s before content after -> exec false s <> None.
Proof.
  intros [-> Hc].
  induction before as [|c before IH]; cbn [app].
  - destruct (fullMatch content ++ after) eqn:E; cbn [exec]; rewrite <- ?E;
      rewrite (match_here_group content after Hc); discriminate.
  - cbn [exec].
    destruct (match_here false (c :: before ++ fullMatch content ++ after)) as [[g a]|];
      [discriminate|].
    destruct (exec false (before ++ fullMatch content ++ after)) as [[[b g] a]|];
      [discriminate|contradiction].
Qed.

Lemma exec_shorter (s b g a : chars) :
  exec false s = Some (b, g, a) -> List.length a < List.length s.
Proof.
  intros He. destruct (exec_spec false s _ _ _ He) as (-> & _).
  unfold fullMatch. cbn [app]. rewrite !length_app. cbn [List.length].
  rewrite !length_app. cbn [List.length]. lia.
Qed.

(** More rounds than the text has characters change nothing: the loop has
    ended before. *)
Lemma pattern_loop_fuel (fuel : nat) :
  forall fuel' s,
    List.length s <= fuel -> List.length s <= fuel' ->
    pattern_loop fuel s = pattern_loop fuel' s.
Proof.
  induction fuel as [|fuel IH]; intros fuel' s Hf Hf'.
  - destruct s; [|cbn [List.length] in Hf; lia].
    destruct fuel'; reflexivity.
  - destruct fuel' as [|fuel'].
    + destruct s; [reflexivity|cbn [List.length] in Hf'; lia].
    + cbn [pattern_loop].
      destruct (exec false s) as [[[b g] a]|] eqn:He; [|reflexivity].
      pose proof (exec_shorter s b g a He).
      f_equal. apply IH; lia.
Qed.

(** The pattern loop meets every group of the text. *)
Lemma pattern_loop_complete (fuel : nat) :
  forall s before content after,
    List.length s <= fuel ->
    group_at s before content after ->
    incl (pattern_errors content) (pattern_loop fuel s).
Proof.
  induction fuel as [|fuel IH]; intros s before content after Hf Hg.
  - destruct Hg as [-> _]. unfold fullMatch in Hf.
    rewrite length_app in Hf. cbn [app List.length] in Hf. lia.
  - cbn [pattern_loop].
    destruct (exec false s) as [[[b g] a]|] eqn:He;
      [|exfalso; now apply (exec_finds_group s before content after Hg)].
    destruct (exec_leftmost s b g a before content after He Hg)
      as [(-> & -> & ->) | (before' & -> & Hlater)].
    + apply incl_appl, incl_refl.
    + apply incl_appr. apply (IH a before' content after); [|exact Hlater].
      pose proof (exec_shorter s b g a He). lia.
Qed.

(** Every error of the pattern loop is the error of a group of the text. *)
Lemma pattern_loop_sound (fuel : nat) :
  forall s,
    pattern_loop fuel s <> [] ->
    exists before content after,
      group_at s before content after /\ pattern_errors content <> [].
Proof.
  induction fuel as [|fuel IH]; intros s H; cbn [pattern_loop] in H; [congruence|].
  destruct (exec false s) as [[[b g] a]|] eqn:He; [|congruence].
  destruct (exec_spec false s _ _ _ He) as (Hs & Hg & _).
  destruct (pattern_errors g) as [|e es] eqn:Ee.
  - cbn [app] in H. destruct (IH a H) as (before & content & after & [Ha Hc] & Herr).
    exists (b ++ fullMatch g ++ before), content, after.
    split; [|exact Herr]. split; [|exact Hc].
    rewrite Hs, Ha. now rewrite <- !app_assoc.
  - exists b, g, a. split; [now split|]. rewrite Ee. discriminate.
Qed.

Lemma brace_errors_nil (text : string) :
  unmatched_opening text = [] -> unmatched_closing text = [] ->
  brace_errors (of_string text) = [].
Proof.
  unfold unmatched_opening, unmatched_closing, brace_errors.
  pose proof (brace_loop_pairing (of_string text) 0 []) as H.
  destruct (pair_braces 0 [] (of_string text)) as [cl op]; cbn [fst snd].
  intros -> ->. cbn [List.length Z.of_nat] in H. rewrite H. reflexivity.
Qed.

(** [validateSpintax] answers invalid on the malformed texts and on no
    other text. *)
Theorem validateSpintax_invalid_iff (text : string) :
  isValid (validateSpintax text) = false <-> malformed text.
Proof.
  split.
  - intros H. unfold validateSpintax in H. cbn [isValid] in H.
    destruct (brace_errors (of_string text)) as [|e es] eqn:Eb.
    + cbn [app] in H.
      destruct (pattern_loop (List.length (of_string text)) (of_string text))
        as [|e es] eqn:Ep; [discriminate|].
      destruct (pattern_loop_sound (List.length (of_string text)) (of_string text))
        as (b & c & a & Hg & Herr);
        [rewrite Ep; discriminate|].
      right. right. exists b, c, a. split; [exact Hg|].
      destruct (has_pipe c) eqn:Hp; [|now left]. right.
      destruct (empty_option c) eqn:Ho; [reflexivity|].
      exfalso. apply Herr. apply pattern_errors_nil. now split.
    + destruct (unmatched_opening text) eqn:Eo; [|left; rewrite Eo; discriminate].
      destruct (unmatched_closing text) eqn:Ec; [|right; left; rewrite Ec; discriminate].
      rewrite (brace_errors_nil text Eo Ec) in Eb. discriminate.
  - intros [H | [H | (b & c & a & Hg & Hbad)]].
    + apply (proj1 (proj2 (proj2 validateSpintax_unmatched_invalid))). now left.
    + apply (proj1 (proj2 (proj2 validateSpintax_unmatched_invalid))). now right.
    + apply isValid_false_of_errors. cbn [validateSpintax errors].
      intros E. apply app_eq_nil in E as [_ E].
      pose proof (pattern_loop_complete _ (of_string text) b c a (le_n _) Hg) as Hi.
      rewrite E in Hi.
      assert (Hn : pattern_errors c = []).
      { destruct (pattern_errors c) as [|e es]; [reflexivity|].
        destruct (Hi e (or_introl eq_refl)). }
      apply pattern_errors_nil in Hn as [Hp Ho].
      destruct Hbad; congruence.
Qed.

(** C9.  [validateSpintax] answers invalid on ["{a|b|}"] (an option that is
    empty after trimming), on ["{a}"] (a group without pipe) and on every
    text in which an opening or a closing brace is left without partner; it
    answers valid, with no error, on ["{a|b}"].  It answers invalid exactly
    on the malformed texts: those with a brace without partner, a group
    without pipe, or a group with an option that is empty once trimmed. *)
Theorem validateSpintax_malformations :
  isValid (validateSpintax "{a|b|}") = false
  /\ isValid (validateSpintax "{a}") = false
  /\ (forall text : string,
        unmatched_opening text <> [] \/ unmatched_closing text <> [] ->
        isValid (validateSpintax text) = false)
  /\ validateSpintax "{a|b}" = {| isValid := true; errors := [] |}
  /\ (forall text : string, isValid (validateSpintax text) = false <-> malformed text).
Proof.
  destruct validateSpintax_unmatched_invalid as (H1 & H2 & H3 & H4).
  repeat split; try assumption; apply validateSpintax_invalid_iff.
Qed.

Lemma validateSpintax_malformations_witness :
  (unmatched_opening "{a|b" <> [] \/ unmatched_closing "{a|b" <> [])
  /\ isValid (validateSpintax "{a|b") = false
  /\ malformed "{a|b".
Proof.
  assert (H : unmatched_opening "{a|b" <> [] \/ unmatched_closing "{a|b" <> [])
    by (left; vm_compute; discriminate).
  split; [exact H|].
  pose proof (proj1 (proj2 (proj2 validateSpintax_malformations)) "{a|b" H) as Hi.
  split; [exact Hi|].
  exact (proj1 (proj2 (proj2 (proj2 (proj2 validateSpintax_malformations))) "{a|b") Hi).
Defined.

End ValidateExact.

(* ================================================================== *)
(** * The store: update methods *)
(* ================================================================== *)

Module JsMapFacts.

Section Facts.
Context {V : Type}.

Lemma get_set_same (k : string) (v : V) (m : JsMap.t V) :
  JsMap.get k (JsMap.set k v m) = Some v.
Proof.
  induction m as [|[k' v'] r IH]; cbn [JsMap.set JsMap.get].
  - now rewrite String.eqb_refl.
  - destruct (String.eqb k' k) eqn:E; cbn [JsMap.get].
    + now rewrite String.eqb_refl.
    + now rewrite E.
Qed.

Lemma get_set_other (k k' : string) (v : V) (m : JsMap.t V) :
  k' <> k -> JsMap.get k' (JsMap.set k v m) = JsMap.get k' m.
Proof.
  intros Hne. induction m as [|[k0 v0] r IH]; cbn [JsMap.set JsMap.get].
  - destruct (String.eqb k k') eqn:E; [|reflexivity].
    apply String.eqb_eq in E. congruence.
  - destruct (String.eqb k0 k) eqn:E; cbn [JsMap.get].
    + apply String.eqb_eq in E; subst k0.
      destruct (String.eqb k k') eqn:E'; [|reflexivity].
      apply String.eqb_eq in E'. congruence.
    + now rewrite IH.
Qed.

Lemma keys_set_present (k : string) (v v0 : V) (m : JsMap.t V) :
  JsMap.get k m = Some v0 -> JsMap.keys (JsMap.set k v m) = JsMap.keys m.
Proof.
  unfold JsMap.keys.
  induction m as [|[k' v'] r IH]; cbn [JsMap.set JsMap.get map fst]; [discriminate|].
  destruct (String.eqb k' k) eqn:E; cbn [map fst].
  - apply String.eqb_eq in E. now subst.
  - intros H. now rewrite IH.
Qed.

Lemma only_changes_set (k : string) (v v0 : V) (m : JsMap.t V) :
  JsMap.get k m = Some v0 -> Notions.only_changes m (JsMap.set k v m) k v.
Proof.
  intros H. repeat split.
  - apply get_set_same.
  - intros k' Hne. now apply get_set_other.
  - eapply keys_set_present; exact H.
Qed.

End Facts.

End JsMapFacts.

Module MemStorageFacts.
Import Notions MemStorage JsMapFacts.

Lemma Contact_spread_fields (r : Contact.t) (u : Contact.Partial.t) :
  Contact_fields r (Contact.spread r u) u.
Proof.
  destruct u as [a b c d e f g]; unfold Contact_fields, Contact.spread; cbn.
  repeat split;
    match goal with |- overwritten_iff_supplied _ _ ?x => destruct x; reflexivity end.
Qed.

Lemma Session_spread_fields (r : WhatsappSession.t) (u : WhatsappSession.Partial.t) :
  Session_fields r (WhatsappSession.spread r u) u.
Proof.
  destruct u; unfold Session_fields, WhatsappSession.spread; cbn.
  repeat split;
    match goal with |- overwritten_iff_supplied _ _ ?x => destruct x; reflexivity end.
Qed.

Lemma Campaign_spread_fields (r : Campaign.t) (u : Campaign.Partial.t) :
  Campaign_fields r (Campaign.spread r u) u.
Proof.
  destruct u; unfold Campaign_fields, Campaign.spread; cbn.
  repeat split;
    match goal with |- overwritten_iff_supplied _ _ ?x => destruct x; reflexivity end.
Qed.

Lemma Rule_spread_fields (r : AutoReplyRule.t) (u : AutoReplyRule.Partial.t) :
  Rule_fields r (AutoReplyRule.spread r u) u.
Proof.
  destruct u; unfold Rule_fields, AutoReplyRule.spread; cbn.
  repeat split;
    match goal with |- overwritten_iff_supplied _ _ ?x => destruct x; reflexivity end.
Qed.

Lemma Message_spread_fields (r : MessageQueue.t) (u : MessageQueue.Partial.t) :
  Message_fields r (MessageQueue.spread r u) u.
Proof.
  destruct u; unfold Message_fields, MessageQueue.spread; cbn.
  repeat split;
    match goal with |- overwritten_iff_supplied _ _ ?x => destruct x; reflexivity end.
Qed.

(** The five update methods are one pattern. *)
Ltac update_contract_tac update fields_lemma :=
  intros id u st; unfold update;
  destruct (JsMap.get id _) as [r|] eqn:E; [|reflexivity];
  eexists; eexists; split; [reflexivity|];
  split; [eapply only_changes_set; exact E | apply fields_lemma].

(** C10.  Each of [updateContact], [updateSession], [updateCampaign],
    [updateAutoReplyRule] and [updateQueuedMessage] answers [undefined] and
    leaves the whole store as it was when no record has the given id; when
    the record exists, the answer is the merged record, it is stored under
    the id, no other record and no other map changes, and a field of the
    merged record differs from the old one only where the update supplies
    it. *)
Theorem update_methods_contract :
  update_contract contacts with_contacts Contact_fields updateContact
  /\ update_contract sessions with_sessions Session_fields updateSession
  /\ update_contract campaigns with_campaigns Campaign_fields updateCampaign
  /\ update_contract autoReplyRules with_autoReplyRules Rule_fields updateAutoReplyRule
  /\ update_contract messageQueue with_messageQueue Message_fields updateQueuedMessage.
Proof.
  repeat split.
  - update_contract_tac updateContact Contact_spread_fields.
  - update_contract_tac updateSession Session_spread_fields.
  - update_contract_tac updateCampaign Campaign_spread_fields.
  - update_contract_tac updateAutoReplyRule Rule_spread_fields.
  - update_contract_tac updateQueuedMessage Message_spread_fields.
Qed.

End MemStorageFacts.

(* ================================================================== *)
(** * personalizeMessage *)
(* ================================================================== *)

Module PersonalizeFacts.
Import JsString JsStringFacts Runtime SchedulerService Notions Fixtures.

Local Open Scope string_scope.
Local Open Scope list_scope.

Lemma replace_global_absent (literal replacement message : string) :
  includes (of_string literal) (of_string message) = false ->
  replace_global literal replacement message = message.
Proof.
  intros H. unfold replace_global.
  rewrite (replaceAll_absent _ _ _ H). apply to_of_string.
Qed.

Lemma RegExp_of_plain_key (key : string) :
  plain_key key = true -> RegExp_of_key key = Literal ("{" ++ key ++ "}")%string.
Proof. intros H. unfold RegExp_of_key. now rewrite H. Qed.

(** With plain keys the metadata loop never throws. *)
Lemma replace_metadata_plain (entries : list (string * string)) :
  forall message,
    forallb (fun kv => plain_key (fst kv)) entries = true ->
    exists out, replace_metadata entries message = Value out.
Proof.
  induction entries as [|[key value] rest IH]; intros message H; cbn [replace_metadata].
  - eauto.
  - cbn [forallb fst] in H. apply andb_true_iff in H as [Hk Hr].
    rewrite (RegExp_of_plain_key key Hk). now apply IH.
Qed.

(** A key whose placeholder does not occur changes nothing. *)
Lemma replace_metadata_unmentioned (entries : list (string * string)) (message : string) :
  forallb (fun kv => plain_key (fst kv)) entries = true ->
  forallb (fun kv => negb (mentions (fst kv) message)) entries = true ->
  replace_metadata entries message = Value message.
Proof.
  induction entries as [|[key value] rest IH]; intros Hp Hm; cbn [replace_metadata].
  - reflexivity.
  - cbn [forallb fst] in Hp, Hm.
    apply andb_true_iff in Hp as [Hk Hp]. apply andb_true_iff in Hm as [Hn Hm].
    apply negb_true_iff in Hn.
    rewrite (RegExp_of_plain_key key Hk).
    rewrite (replace_global_absent _ _ _ Hn). now apply IH.
Qed.

(** C5 as the claim states it fails: the placeholder of a key the record
    does not have is not replaced by the empty string, it stays. *)
Lemma personalize_absent_key_not_emptied :
  personalizeMessage "Hi {x}" nobody = Value "Hi {x}"
  /\ personalizeMessage "Hi {x}" nobody <> Value "Hi ".
Proof. split; [reflexivity|]. vm_compute. discriminate. Qed.

(** A metadata key with an unclosed parenthesis makes the method throw. *)
Example personalize_throws :
  personalizeMessage "Hi {name}" (of_contact bob)
  = Raise (ErrorObject "Invalid regular expression: Unterminated group").
Proof. reflexivity. Qed.

(** A present metadata key is substituted. *)
Example personalize_metadata :
  personalizeMessage "Hi {name} from {city}" (of_contact carl) = Value "Hi Carl from Rome".
Proof. reflexivity. Qed.

End PersonalizeFacts.

(* ================================================================== *)
(** * Auto-reply rules *)
(* ================================================================== *)

Module AutoReplyFacts.
Import Runtime WhatsAppService Fixtures.

Local Open Scope string_scope.
Local Open Scope list_scope.

(** A rule of type [first_message] falls through to the [default] branch. *)
Lemma first_message_is_default (messageText : string) (r : AutoReplyRule.t) :
  AutoReplyRule.triggerType r = "first_message" ->
  checkAutoReplyTrigger messageText r = inr false.
Proof. intros H. unfold checkAutoReplyTrigger. now rewrite H. Qed.

Lemma first_message_is_default_witness :
  AutoReplyRule.triggerType (rule "first_message") = "first_message"
  /\ checkAutoReplyTrigger "hello" (rule "first_message") = inr false.
Proof.
  split; [reflexivity|].
  apply (first_message_is_default "hello" (rule "first_message")). reflexivity.
Defined.

(** C6 (the code at the failing input).  The channel has one active rule of
    type [first_message]; a sender without any recorded inbound message
    writes "hello".  The rule does not match and nothing is sent, at once or
    later; the same message with a rule of type [any] is answered. *)
Theorem first_message_rule_does_not_reply :
  recorded_inbound "15550001" (storage (inbound_world "first_message")) = []
  /\ checkAutoReplyTrigger "hello" (rule "first_message") = inr false
  /\ (exists w,
        handleIncomingMessages env "main" [first_hello] (inbound_world "first_message")
        = Ok tt w
        /\ delivered w = [] /\ timeouts w = []
        /\ List.length (recorded_inbound "15550001" (storage w)) = 1)
  /\ (exists w,
        handleIncomingMessages env "main" [first_hello] (inbound_world "any") = Ok tt w
        /\ delivered w = [{| via := "main"; jid := "15550001@s.whatsapp.net";
                             content := TextContent "Welcome!" |}]).
Proof.
  split; [reflexivity|]. split; [reflexivity|]. split.
  - eexists. split; [vm_compute; reflexivity|]. repeat split.
  - eexists. split; [vm_compute; reflexivity|]. reflexivity.
Qed.

End AutoReplyFacts.

(* ================================================================== *)
(** * The services on concrete stores *)
(* ================================================================== *)

Module Runs.
Import Runtime SchedulerService Notions Fixtures.

Local Open Scope string_scope.
Local Open Scope list_scope.

(** C1 as the claim states it fails.  The campaign has two recipients; the
    message of the second cannot be personalised (its metadata has the key
    ["("]).  Expansion returns with the campaign [failed] and the entry of
    the first recipient still in the queue. *)
Lemma failed_expansion_keeps_entries :
  exists w,
    processCampaign env 5 promo expansion_world = Ok tt w
    /\ status_of "k1" (storage w) = Some "failed"
    /\ map MessageQueue.contactId (entries_of "k1" (storage w)) = [Some "c1"]
    /\ entries_of "k1" (storage w) <> [].
Proof.
  eexists. split; [vm_compute; reflexivity|].
  repeat split. discriminate.
Qed.

(** C2 as the claim states it fails.  The channel holds an entry of a
    campaign with rate limit 3 followed by two entries of a campaign with
    rate limit 1.  One tick sends all three: an entry of the second campaign
    is sent in a batch of three messages although its own campaign allows
    one. *)
Lemma mixed_batch_exceeds_owner_limit :
  exists w m,
    processQueuedMessages env mixed_world = Ok tt w
    /\ In m (MemStorage.getPendingMessages "s1" (storage mixed_world))
    /\ entry_status (MessageQueue.id m) (storage w) = Some "sent"
    /\ owner_limit m (storage mixed_world) = 1%Z
    /\ List.length (sent_via "main" mixed_world w) = 3
    /\ ~ (Z.of_nat (List.length (sent_via "main" mixed_world w))
          <= owner_limit m (storage mixed_world))%Z.
Proof.
  eexists. exists (queued "m2" "kB" "c1").
  split; [vm_compute; reflexivity|].
  split; [right; left; reflexivity|].
  repeat split. vm_compute. intros H. apply H. reflexivity.
Qed.

(** C3 (the code at the failing input).  The only pending entry of the
    channel belongs to a paused campaign.  The tick passes it to the socket,
    marks it sent, counts it in [messagesSent] and moves the campaign from
    [paused] to [completed]. *)
Theorem paused_campaign_is_sent :
  status_of "kP" (storage paused_world) = Some "paused"
  /\ map MessageQueue.id (pending_of "kP" (storage paused_world)) = ["m1"]
  /\ exists w,
       processQueuedMessages env paused_world = Ok tt w
       /\ sent_during paused_world w
          = [{| via := "main"; jid := "15550001@s.whatsapp.net";
                content := TextContent "Hi" |}]
       /\ entry_status "m1" (storage w) = Some "sent"
       /\ option_map Campaign.messagesSent (MemStorage.getCampaign "kP" (storage w))
          = Some (Some 1%Z)
       /\ status_of "kP" (storage w) = Some "completed".
Proof.
  split; [reflexivity|]. split; [reflexivity|].
  eexists. split; [vm_compute; reflexivity|].
  repeat split.
Qed.

(** C4 (the code at the failing input).  In the same tick as above for the
    two campaigns, both entries of the second campaign are sent and none of
    its entries is pending afterwards, but only the campaign of the first
    pending entry is marked completed.  The second campaign is left in the
    status [sending] for good: the session has no pending entry any more,
    so every later tick passes the session by and never checks the
    campaign. *)
Theorem touched_campaign_never_completed :
  status_of "kB" (storage mixed_world) = Some "sending"
  /\ exists w,
       processQueuedMessages env mixed_world = Ok tt w
       /\ map (fun m => entry_status (MessageQueue.id m) (storage w))
              (entries_of "kB" (storage mixed_world)) = [Some "sent"; Some "sent"]
       /\ pending_of "kB" (storage w) = []
       /\ status_of "kB" (storage w) = Some "sending"
       /\ status_of "kB" (storage w) <> Some "completed"
       /\ status_of "kA" (storage w) = Some "completed"
       /\ forall n : nat,
            exists w',
              ServiceNotions.ticks env n w = Ok tt w'
              /\ pending_of "kB" (storage w') = []
              /\ status_of "kB" (storage w') = Some "sending".
Proof.
  split; [reflexivity|].
  assert (H : exists w,
             processQueuedMessages env mixed_world = Ok tt w
             /\ processQueuedMessages env w = Ok tt w
             /\ map (fun m => entry_status (MessageQueue.id m) (storage w))
                    (entries_of "kB" (storage mixed_world)) = [Some "sent"; Some "sent"]
             /\ pending_of "kB" (storage w) = []
             /\ status_of "kB" (storage w) = Some "sending"
             /\ status_of "kA" (storage w) = Some "completed").
  { eexists. split; [vm_compute; reflexivity|].
    split; [vm_compute; reflexivity|]. repeat split. }
  destruct H as (w & Hrun & Hidle & Hsent & Hpending & HB & HA).
  exists w. split; [exact Hrun|]. split; [exact Hsent|]. split; [exact Hpending|].
  split; [exact HB|]. split; [rewrite HB; discriminate|]. split; [exact HA|].
  intros n. exists w. split; [|split; assumption].
  induction n as [|n IH]; cbn [ServiceNotions.ticks]; [reflexivity|].
  unfold bind. now rewrite Hidle.
Qed.

(** C7 (the code at the failing input).  A campaign due on 2030-01-15 at
    10:00 UTC is scheduled on 2030-01-01: it becomes [scheduled] and a cron
    task with the expression [0 10 15 1 *] is registered.  The task expands
    the campaign when the clock reaches the due time, stays running, and
    expands the campaign a second time one year later.  Besides, the
    expression of a due time with seconds does not match the due time but
    the start of its minute, and on a server one hour ahead of UTC the
    expression matches one hour after the due time. *)
Theorem scheduled_campaign_fires_again :
  (exists w1 w2 w3,
      scheduleCampaign env 5 newsletter scheduling_world = Ok tt w1
      /\ status_of "k2" (storage w1) = Some "scheduled"
      /\ map expression (cronTasks w1)
         = [{| cronMinute := 0; cronHour := 10; cronDayOfMonth := 15; cronMonth := 1 |}]
      /\ entries_of "k2" (storage w1) = []
      /\ cron_fire env 5 due w1 = Ok tt w2
      /\ List.length (entries_of "k2" (storage w2)) = 1
      /\ map running (cronTasks w2) = [true]
      /\ cron_fire env 5 a_year_later w2 = Ok tt w3
      /\ List.length (entries_of "k2" (storage w3)) = 2)
  /\ cron_matches (dateToCronExpression env due_with_seconds) due_with_seconds = false
  /\ cron_matches (dateToCronExpression env due_with_seconds) (due_with_seconds - 45000)%Z = true
  /\ cron_matches (dateToCronExpression env_ahead due) due = false
  /\ cron_matches (dateToCronExpression env_ahead due) (due + Calendar.msPerHour)%Z = true.
Proof.
  split; [|repeat split; vm_compute; reflexivity].
  eexists. eexists. eexists.
  split; [vm_compute; reflexivity|].
  split; [reflexivity|]. split; [reflexivity|]. split; [reflexivity|].
  split; [vm_compute; reflexivity|].
  split; [reflexivity|]. split; [reflexivity|].
  split; [vm_compute; reflexivity|].
  reflexivity.
Qed.

End Runs.

(* ================================================================== *)
(** * Rules for runs *)
(* ================================================================== *)

Module RunRules.
Import Runtime Notions.

Lemma wp_ret {A} (a : A) Q E w : Q a w -> wp (ret a) Q E w.
Proof. intros H; exact H. Qed.

Lemma wp_bind {A B} (m : M A) (k : A -> M B) Q E w :
  wp m (fun a w' => wp (k a) Q E w') E w -> wp (bind m k) Q E w.
Proof.
  unfold wp, bind. destruct (m w) as [a w'|e w'|why]; auto.
Qed.

Lemma wp_try_catch {A} (body : M A) (handler : Thrown -> M A) Q E w :
  wp body Q (fun e w' => wp (handler e) Q E w') w -> wp (try_catch body handler) Q E w.
Proof.
  unfold wp, try_catch. destruct (body w) as [a w'|e w'|why]; auto.
Qed.

Lemma wp_mono {A} (m : M A) (Q Q' : A -> World -> Prop) (E E' : Thrown -> World -> Prop) w :
  (forall a w', Q a w' -> Q' a w') ->
  (forall e w', E e w' -> E' e w') ->
  wp m Q E w -> wp m Q' E' w.
Proof.
  unfold wp. intros HQ HE. destruct (m w) as [a w'|e w'|why]; auto.
Qed.

Lemma wp_ok {A} (m : M A) Q E w :
  wp m Q E w -> (forall e w', ~ E e w') -> exists a w', m w = Ok a w' /\ Q a w'.
Proof.
  unfold wp. intros H HE. destruct (m w) as [a w'|e w'|why].
  - eauto.
  - exfalso; eapply HE; eauto.
  - contradiction.
Qed.

Lemma wp_storage_read {A} (f : MemStorage.t -> A) Q E w :
  Q (f (storage w)) w -> wp (storage_read f) Q E w.
Proof. auto. Qed.

Lemma wp_newDate Q E w : Q (clock w) w -> wp newDate Q E w.
Proof. auto. Qed.

Lemma wp_sleep ms Q E w : Q tt (with_clock (clock w + ms)%Z w) -> wp (sleep ms) Q E w.
Proof. auto. Qed.

(** A loop whose body does not throw, with an invariant indexed by the
    number of rounds. *)
Lemma wp_for_of_count {X} (body : X -> M unit) (I : nat -> World -> Prop) E :
  (forall n x w, I n w -> wp (body x) (fun _ w' => I (S n) w') E w) ->
  forall xs n w, I n w -> wp (for_of xs body) (fun _ w' => I (n + List.length xs) w') E w.
Proof.
  intros Hstep. induction xs as [|x xs IH]; intros n w HI; cbn [for_of List.length].
  - apply wp_ret. now rewrite Nat.add_0_r.
  - apply wp_bind. eapply wp_mono; [| |apply Hstep; exact HI]; cbv beta.
    + intros _ w' HI'. rewrite <- Nat.add_succ_comm. now apply IH.
    + auto.
Qed.

Lemma for_of_app {X} (body : X -> M unit) (xs ys : list X) (w : World) :
  for_of (xs ++ ys) body w = bind (for_of xs body) (fun _ => for_of ys body) w.
Proof.
  revert w. induction xs as [|x xs IH]; intros w; cbn [app for_of].
  - reflexivity.
  - unfold bind in *. destruct (body x w) as [[] w'|e w'|why]; [|reflexivity..].
    apply IH.
Qed.

End RunRules.

(* ================================================================== *)
(** * The dispatch loop: how many messages a tick sends *)
(* ================================================================== *)

Module DispatchRate.
Import Runtime SchedulerService Notions RunRules.

Local Open Scope string_scope.
Local Open Scope list_scope.

Lemma grows_same channels (w w' : World) :
  delivered w' = delivered w -> grows channels 0 w w'.
Proof.
  intros H. exists []. rewrite app_nil_r. repeat split; auto.
Qed.

Lemma grows_trans channels n1 n2 (w w1 w2 : World) :
  grows channels n1 w w1 -> grows channels n2 w1 w2 -> grows channels (n1 + n2) w w2.
Proof.
  intros (l1 & H1 & F1 & L1) (l2 & H2 & F2 & L2).
  exists (l1 ++ l2). rewrite H2, H1, app_assoc. repeat split.
  - now apply Forall_app.
  - rewrite length_app. lia.
Qed.

Lemma grows_weaken channels channels' n n' (w w' : World) :
  incl channels channels' -> n <= n' -> grows channels n w w' -> grows channels' n' w w'.
Proof.
  intros Hi Hn (l & H & F & L). exists l. repeat split; [exact H| |lia].
  eapply Forall_impl; [|exact F]. intros m Hm. now apply Hi.
Qed.

Lemma silent_wp {A} (m : M A) channels Q E w :
  silent m ->
  (forall a w', grows channels 0 w w' -> Q a w') ->
  wp m Q E w.
Proof.
  intros Hs HQ. eapply wp_mono; [| |apply Hs]; cbv beta.
  - intros a w' H. now apply HQ, grows_same.
  - intros e w' [].
Qed.

Section WithEnv.
Variable env : Env.

Lemma silent_updateQueuedMessage id u : silent (updateQueuedMessage id u).
Proof.
  intros w. unfold wp, updateQueuedMessage, bind, storage_call, ret.
  destruct (MemStorage.updateQueuedMessage id u (storage w)). reflexivity.
Qed.

Lemma silent_updateCampaign id u : silent (updateCampaign id u).
Proof.
  intros w. unfold wp, updateCampaign, bind, storage_call, ret.
  destruct (MemStorage.updateCampaign id u (storage w)). reflexivity.
Qed.

Lemma silent_count_sent message : silent (count_sent message).
Proof.
  intros w. unfold count_sent.
  destruct (truthy_string (MessageQueue.campaignId message)) as [cid|]; [|reflexivity].
  unfold wp, bind, storage_read.
  destruct (MemStorage.getCampaign cid (storage w)) as [c|]; [|reflexivity].
  apply silent_updateCampaign.
Qed.

Lemma silent_checkCampaignCompletion campaignId :
  silent (checkCampaignCompletion campaignId).
Proof.
  intros w. unfold checkCampaignCompletion, wp, bind, storage_read.
  destruct (MemStorage.getCampaign campaignId (storage w)) as [c|]; [|reflexivity].
  destruct (List.length _ =? 0)%nat; [|reflexivity].
  apply silent_updateCampaign.
Qed.

Lemma silent_logAnalytic phone type sessionId :
  silent (WhatsAppService.logAnalytic env phone type sessionId).
Proof.
  intros w. unfold WhatsAppService.logAnalytic, wp, bind, newDate,
    WhatsAppService.randomUUID, storage_call, ret. cbn.
  reflexivity.
Qed.

(** [sendMessage] reaches the socket once at most; an accepted message is
    one of the channel it was asked to use. *)
Lemma sendMessage_grows sessionId toNumber message mediaUrl mediaType w :
  wp (WhatsAppService.sendMessage env sessionId toNumber message mediaUrl mediaType)
     (fun _ w' => grows [sessionId] 1 w w')
     (fun _ w' => grows [sessionId] 0 w w') w.
Proof.
  unfold wp, WhatsAppService.sendMessage.
  destruct (negb _); [now apply grows_same|].
  unfold bind, WhatsAppService.readFileSync, WhatsAppService.socket_sendMessage.
  assert (Hone : forall m, via m = sessionId ->
            grows [sessionId] 1 w
              (with_socket (S (socketCalls w)) (delivered w ++ [m]) w)).
  { intros m Hm. exists [m]. repeat split; auto.
    constructor; [left; now rewrite Hm|constructor]. }
  destruct (truthy_string mediaUrl) as [url|];
    [destruct (truthy_string mediaType) as [type|];
       [destruct (readFileSync_at env url); [now apply grows_same|]|]|];
    (destruct (socket_at env (socketCalls w)); [now apply grows_same|]);
    (match goal with
     | |- context [WhatsAppService.logAnalytic env ?a ?b ?c ?w0] =>
         pose proof (silent_logAnalytic a b c w0) as Hl; unfold wp in Hl;
         destruct (WhatsAppService.logAnalytic env a b c w0) as [[] w'|e w'|why];
         [|contradiction..]
     end);
    cbn [ret];
    (match type of Hl with
     | _ = delivered (with_socket _ (_ ++ [?m]) _) =>
         destruct (Hone m eq_refl) as (new & Hd & HF & HL)
     end);
    exists new; (split; [now rewrite Hl|now split]).
Qed.

Lemma process_message_grows session batchSize message w :
  wp (process_message env session batchSize message)
     (fun _ w' => grows [WhatsappSession.sessionId session] 1 w w') never w.
Proof.
  set (sid := WhatsappSession.sessionId session).
  unfold process_message. apply wp_try_catch.
  apply wp_bind, wp_storage_read.
  destruct (contact_of message (storage w)) as [contact|];
    [|apply wp_ret; eapply grows_weaken; [apply incl_refl| |now apply grows_same]; lia].
  apply wp_bind.
  eapply wp_mono; [| |apply sendMessage_grows]; cbv beta.
  - intros _ w1 H1.
    apply wp_bind, wp_newDate, wp_bind.
    apply (silent_wp _ [sid] _ _ w1 (silent_updateQueuedMessage _ _)).
    intros _ w2 H2. apply wp_bind.
    apply (silent_wp _ [sid] _ _ w2 (silent_count_sent _)).
    intros _ w3 H3.
    assert (H : grows [sid] 1 w w3).
    { eapply grows_weaken; [apply incl_refl| |
        exact (grows_trans _ _ _ _ _ _ H1 (grows_trans _ _ _ _ _ _ H2 H3))]. lia. }
    destruct (1 <? batchSize)%Z; [|exact H].
    apply wp_sleep. destruct H as (new & Hd & HF & HL). exists new. now split.
  - intros e w1 H1.
    apply (silent_wp _ [sid] _ _ w1 (silent_updateQueuedMessage _ _)).
    intros _ w2 H2.
    eapply grows_weaken; [apply incl_refl| |exact (grows_trans _ _ _ _ _ _ H1 H2)]. lia.
Qed.

Lemma batch_grows session batchSize messages w :
  wp (for_of messages (process_message env session batchSize))
     (fun _ w' => grows [WhatsappSession.sessionId session] (List.length messages) w w')
     never w.
Proof.
  set (sid := WhatsappSession.sessionId session).
  refine (wp_for_of_count (process_message env session batchSize)
            (fun n w' => grows [sid] n w w') never _ messages 0 w _).
  - intros n x w1 H1.
    eapply wp_mono; [| |apply process_message_grows]; cbv beta; [|auto].
    intros _ w2 H2. replace (S n) with (n + 1) by lia.
    exact (grows_trans _ _ _ _ _ _ H1 H2).
  - now apply grows_same.
Qed.

Lemma slice_to_length {A} (l : list A) (limit : Z) :
  (0 <= limit)%Z ->
  (Z.of_nat (List.length (slice_to l (Z.min limit (Z.of_nat (List.length l))))) <= limit)%Z.
Proof.
  intros H. unfold slice_to.
  destruct (Z.min limit (Z.of_nat (List.length l)) <? 0)%Z eqn:E.
  - apply Z.ltb_lt in E. lia.
  - rewrite length_firstn. lia.
Qed.

(** The turn of one session: nothing is thrown, and the socket accepts at
    most as many messages as the batch holds, all through the session's
    channel. *)
Lemma process_session_grows session w :
  wp (process_session env session)
     (fun _ w' =>
        exists n, grows [WhatsappSession.sessionId session] n w w'
                  /\ ((0 <= batch_limit session (storage w))%Z ->
                      (Z.of_nat n <= batch_limit session (storage w))%Z))
     never w.
Proof.
  unfold process_session, batch_limit.
  destruct (negb _).
  { apply wp_ret. exists 0. split; [now apply grows_same|].
    destruct (MemStorage.getPendingMessages _ _); cbn; lia. }
  apply wp_bind, wp_storage_read.
  destruct (MemStorage.getPendingMessages (WhatsappSession.id session) (storage w))
    as [|firstMessage rest] eqn:Ep.
  { apply wp_ret. exists 0. split; [now apply grows_same|lia]. }
  apply wp_bind, wp_storage_read, wp_bind.
  eapply wp_mono; [| |apply batch_grows]; cbv beta; [|auto].
  intros _ w1 H1.
  apply (silent_wp _ [WhatsappSession.sessionId session]).
  { destruct (truthy_string (MessageQueue.campaignId firstMessage)) as [cid|];
      [apply silent_checkCampaignCompletion|intros w0; reflexivity]. }
  intros _ w2 H2.
  eexists. split; [exact (grows_trans _ _ _ _ _ _ H1 H2)|].
  intros Hl. rewrite Nat.add_0_r. now apply slice_to_length.
Qed.

End WithEnv.

End DispatchRate.

Module DispatchTick.
Import Runtime SchedulerService Notions RunRules DispatchRate Fixtures.

Local Open Scope string_scope.
Local Open Scope list_scope.

Lemma distinct_NoDup (l : list string) : distinct l = true -> NoDup l.
Proof.
  induction l as [|x r IH]; intros H; [constructor|].
  cbn [distinct] in H. apply andb_true_iff in H as [Hx Hr].
  constructor; [|now apply IH].
  intros Hin. apply negb_true_iff in Hx.
  assert (existsb (String.eqb x) r = true); [|congruence].
  apply existsb_exists. exists x. split; [exact Hin|apply String.eqb_refl].
Qed.

Lemma filter_other_channel (channel : string) (channels : list string)
  (l : list SocketMessage) :
  ~ In channel channels ->
  Forall (fun m => In (via m) channels) l ->
  filter (fun m => String.eqb (via m) channel) l = [].
Proof.
  intros Hn HF. induction HF as [|m l Hm _ IH]; [reflexivity|].
  cbn [filter]. destruct (String.eqb (via m) channel) eqn:E; [|exact IH].
  apply String.eqb_eq in E. congruence.
Qed.

Section WithEnv.
Variable env : Env.

Lemma process_session_ok session w :
  exists w' n,
    process_session env session w = Ok tt w'
    /\ grows [WhatsappSession.sessionId session] n w w'
    /\ ((0 <= batch_limit session (storage w))%Z ->
        (Z.of_nat n <= batch_limit session (storage w))%Z).
Proof.
  destruct (wp_ok _ _ _ _ (process_session_grows env session w))
    as ([] & w' & Hr & n & Hg & Hl); [intros e w' []|].
  exists w', n. auto.
Qed.

Lemma sessions_ok (sessions : list WhatsappSession.t) :
  forall w,
    exists w' n,
      for_of sessions (process_session env) w = Ok tt w'
      /\ grows (map WhatsappSession.sessionId sessions) n w w'.
Proof.
  induction sessions as [|s rest IH]; intros w; cbn [for_of map].
  - exists w, 0. split; [reflexivity|now apply grows_same].
  - destruct (process_session_ok s w) as (w1 & n1 & H1 & G1 & _).
    destruct (IH w1) as (w2 & n2 & H2 & G2).
    exists w2, (n1 + n2). unfold bind. rewrite H1. split; [exact H2|].
    eapply grows_trans.
    + eapply grows_weaken; [|apply le_n|exact G1].
      intros x [<-|[]]. now left.
    + eapply grows_weaken; [|apply le_n|exact G2].
      intros x Hx. now right.
Qed.

(** The tick never throws. *)
Lemma processQueuedMessages_ok w :
  exists w', processQueuedMessages env w = Ok tt w'
             /\ for_of (MemStorage.getSessions (storage w)) (process_session env) w = Ok tt w'.
Proof.
  destruct (sessions_ok (MemStorage.getSessions (storage w)) w) as (w' & n & H & _).
  exists w'. split; [|exact H].
  unfold processQueuedMessages, try_catch, bind, storage_read. now rewrite H.
Qed.

(** C2, amended.  A tick never fails.  When the channels of the sessions
    are pairwise different, the messages a tick sends through the channel of
    a session are at most the rate limit in force when the session's turn
    comes: the [rateLimit] of the campaign that owns the first pending entry
    of the session (30 when that entry has no campaign, when the campaign is
    gone, or when its [rateLimit] is null or 0), provided that limit is not
    negative.  Entries of other campaigns in the same batch go out under
    that same limit. *)
Theorem tick_rate_limit (w : World) :
  distinct_channels (storage w) = true ->
  exists w',
    processQueuedMessages env w = Ok tt w'
    /\ forall pre session post,
         MemStorage.getSessions (storage w) = pre ++ session :: post ->
         exists w1,
           for_of pre (process_session env) w = Ok tt w1
           /\ ((0 <= batch_limit session (storage w1))%Z ->
               (Z.of_nat (List.length (sent_via (WhatsappSession.sessionId session) w w'))
                <= batch_limit session (storage w1))%Z).
Proof.
  intros Hd. apply distinct_NoDup in Hd.
  destruct (processQueuedMessages_ok w) as (w' & Ht & Hf).
  exists w'. split; [exact Ht|].
  intros pre session post Hs. rewrite Hs in Hf, Hd.
  rewrite for_of_app in Hf. unfold bind in Hf.
  destruct (sessions_ok pre w) as (w1 & n1 & H1 & G1).
  rewrite H1 in Hf. cbn [for_of] in Hf. unfold bind in Hf.
  destruct (process_session_ok session w1) as (w2 & n2 & H2 & G2 & L2).
  rewrite H2 in Hf.
  destruct (sessions_ok post w2) as (w3 & n3 & H3 & G3).
  rewrite H3 in Hf. inversion Hf; subst w3.
  exists w1. split; [exact H1|].
  intros Hl. specialize (L2 Hl).
  rewrite map_app in Hd. cbn [map] in Hd.
  pose proof (NoDup_remove_2 _ _ _ Hd) as Hnot.
  destruct G1 as (l1 & D1 & F1 & _).
  destruct G2 as (l2 & D2 & F2 & N2).
  destruct G3 as (l3 & D3 & F3 & _).
  unfold sent_via, sent_during.
  rewrite D3, D2, D1, <- !app_assoc, skipn_app, Nat.sub_diag, skipn_all.
  cbn [skipn app]. rewrite !filter_app.
  rewrite (filter_other_channel _ (map WhatsappSession.sessionId pre) l1);
    [|intros Hin; apply Hnot, in_or_app; now left|exact F1].
  rewrite (filter_other_channel _ (map WhatsappSession.sessionId post) l3);
    [|intros Hin; apply Hnot, in_or_app; now right|exact F3].
  rewrite app_nil_r. cbn [app].
  pose proof (filter_length_le (fun m => String.eqb (via m) (WhatsappSession.sessionId session)) l2).
  lia.
Qed.

End WithEnv.

Lemma tick_rate_limit_witness :
  distinct_channels (storage mixed_world) = true
  /\ batch_limit session (storage mixed_world) = 3%Z
  /\ exists w',
       processQueuedMessages env mixed_world = Ok tt w'
       /\ (Z.of_nat (List.length (sent_via "main" mixed_world w')) <= 3)%Z.
Proof.
  split; [reflexivity|]. split; [reflexivity|].
  destruct (tick_rate_limit env mixed_world eq_refl) as (w' & Ht & H).
  exists w'. split; [exact Ht|].
  destruct (H [] session [] eq_refl) as (w1 & H1 & Hl).
  inversion H1; subst w1.
  apply Hl. vm_compute. discriminate.
Defined.

End DispatchTick.

(* ================================================================== *)
(** * The dispatch loop: which campaign a tick completes *)
(* ================================================================== *)

Module DispatchCompletion.
Import Runtime SchedulerService Notions RunRules JsMapFacts DispatchTick Fixtures.

Local Open Scope string_scope.
Local Open Scope list_scope.

Lemma campaigns_evolve_refl st : campaigns_evolve st st.
Proof. intros cid c H. exists c. auto. Qed.

Lemma campaigns_evolve_trans st1 st2 st3 :
  campaigns_evolve st1 st2 -> campaigns_evolve st2 st3 -> campaigns_evolve st1 st3.
Proof.
  intros H12 H23 cid c H.
  destruct (H12 cid c H) as (c2 & H2 & S2).
  destruct (H23 cid c2 H2) as (c3 & H3 & S3).
  exists c3. auto.
Qed.

Lemma campaigns_evolve_same st st' :
  MemStorage.campaigns st' = MemStorage.campaigns st -> campaigns_evolve st st'.
Proof.
  intros E cid c H. exists c. unfold MemStorage.getCampaign in *. rewrite E. auto.
Qed.

(** An update that leaves [status] alone or sets it to [completed]. *)
Lemma updateCampaign_evolves id u st :
  Campaign.Partial.status u = None \/ Campaign.Partial.status u = Some "completed" ->
  campaigns_evolve st (snd (MemStorage.updateCampaign id u st)).
Proof.
  intros Hu. unfold MemStorage.updateCampaign.
  destruct (JsMap.get id (MemStorage.campaigns st)) as [c0|] eqn:E;
    [|apply campaigns_evolve_refl].
  cbn [snd]. intros cid c H. unfold MemStorage.getCampaign in *.
  cbn [MemStorage.campaigns MemStorage.with_campaigns].
  destruct (String.eqb cid id) eqn:Ec.
  - apply String.eqb_eq in Ec; subst cid.
    rewrite get_set_same. eexists; split; [reflexivity|].
    rewrite E in H; inversion H; subst c0.
    cbn [Campaign.spread Campaign.status]. intros Hs.
    destruct Hu as [-> | ->]; cbn [spread_field]; auto.
  - apply String.eqb_neq in Ec. rewrite get_set_other by exact Ec.
    exists c. auto.
Qed.

Lemma keeps_ret {A} (a : A) : keeps_campaigns (ret a).
Proof. intros w. apply campaigns_evolve_refl. Qed.

Lemma keeps_bind {A B} (m : M A) (k : A -> M B) :
  keeps_campaigns m -> (forall a, keeps_campaigns (k a)) -> keeps_campaigns (bind m k).
Proof.
  intros Hm Hk w. specialize (Hm w). unfold wp, bind in *.
  destruct (m w) as [a w1|e w1|why]; [|exact Hm|exact Hm].
  specialize (Hk a w1). unfold wp in Hk.
  destruct (k a w1) as [b w2|e w2|why]; [| |exact Hk];
    eapply campaigns_evolve_trans; eassumption.
Qed.

Lemma keeps_try_catch {A} (body : M A) (handler : Thrown -> M A) :
  keeps_campaigns body -> (forall e, keeps_campaigns (handler e)) ->
  keeps_campaigns (try_catch body handler).
Proof.
  intros Hm Hk w. specialize (Hm w). unfold wp, try_catch in *.
  destruct (body w) as [a w1|e w1|why]; [exact Hm| |exact Hm].
  specialize (Hk e w1). unfold wp in Hk.
  destruct (handler e w1) as [b w2|e2 w2|why]; [| |exact Hk];
    eapply campaigns_evolve_trans; eassumption.
Qed.

Lemma keeps_for_of {X} (xs : list X) (body : X -> M unit) :
  (forall x, keeps_campaigns (body x)) -> keeps_campaigns (for_of xs body).
Proof.
  intros H. induction xs as [|x xs IH]; cbn [for_of].
  - apply keeps_ret.
  - apply keeps_bind; auto.
Qed.

Lemma keeps_storage_read {A} (f : MemStorage.t -> A) : keeps_campaigns (storage_read f).
Proof. intros w. apply campaigns_evolve_refl. Qed.

Lemma keeps_newDate : keeps_campaigns newDate.
Proof. intros w. apply campaigns_evolve_refl. Qed.

Lemma keeps_sleep ms : keeps_campaigns (sleep ms).
Proof. intros w. apply campaigns_evolve_refl. Qed.

Lemma keeps_updateQueuedMessage id u : keeps_campaigns (updateQueuedMessage id u).
Proof.
  intros w. unfold wp, updateQueuedMessage, bind, storage_call, ret.
  destruct (MemStorage.updateQueuedMessage id u (storage w)) as [r st'] eqn:E.
  apply campaigns_evolve_same. cbn.
  unfold MemStorage.updateQueuedMessage in E.
  destruct (JsMap.get id _); inversion E; reflexivity.
Qed.

Lemma keeps_updateCampaign id u :
  Campaign.Partial.status u = None \/ Campaign.Partial.status u = Some "completed" ->
  keeps_campaigns (updateCampaign id u).
Proof.
  intros Hu w. unfold wp, updateCampaign, bind, storage_call, ret.
  pose proof (updateCampaign_evolves id u (storage w) Hu) as H.
  destruct (MemStorage.updateCampaign id u (storage w)) as [r st']. exact H.
Qed.

Lemma keeps_count_sent message : keeps_campaigns (count_sent message).
Proof.
  unfold count_sent.
  destruct (truthy_string (MessageQueue.campaignId message)) as [cid|];
    [|apply keeps_ret].
  apply keeps_bind; [apply keeps_storage_read|].
  intros [c|]; [|apply keeps_ret].
  apply keeps_updateCampaign. now left.
Qed.

Section WithEnv.
Variable env : Env.

Lemma keeps_sendMessage sessionId toNumber message mediaUrl mediaType :
  keeps_campaigns
    (WhatsAppService.sendMessage env sessionId toNumber message mediaUrl mediaType).
Proof.
  intros w. unfold wp, WhatsAppService.sendMessage.
  destruct (negb _); [apply campaigns_evolve_refl|].
  unfold bind, WhatsAppService.readFileSync, WhatsAppService.socket_sendMessage,
    WhatsAppService.logAnalytic, bind, newDate, WhatsAppService.randomUUID,
    storage_call, ret.
  destruct (truthy_string mediaUrl) as [url|];
    [destruct (truthy_string mediaType) as [type|];
       [destruct (readFileSync_at env url); [apply campaigns_evolve_refl|]|]|];
    (destruct (socket_at env (socketCalls w)); [apply campaigns_evolve_refl|]);
    cbn; apply campaigns_evolve_same; reflexivity.
Qed.

Lemma keeps_process_message session batchSize message :
  keeps_campaigns (process_message env session batchSize message).
Proof.
  unfold process_message. apply keeps_try_catch.
  - apply keeps_bind; [apply keeps_storage_read|].
    intros [contact|]; [|apply keeps_ret].
    apply keeps_bind; [apply keeps_sendMessage|]. intros _.
    apply keeps_bind; [apply keeps_newDate|]. intros now.
    apply keeps_bind; [apply keeps_updateQueuedMessage|]. intros _.
    apply keeps_bind; [apply keeps_count_sent|]. intros _.
    destruct (1 <? batchSize)%Z; [apply keeps_sleep|apply keeps_ret].
  - intros e. apply keeps_updateQueuedMessage.
Qed.

Lemma keeps_checkCampaignCompletion campaignId :
  keeps_campaigns (checkCampaignCompletion campaignId).
Proof.
  unfold checkCampaignCompletion.
  apply keeps_bind; [apply keeps_storage_read|].
  intros [c|]; [|apply keeps_ret].
  apply keeps_bind; [apply keeps_storage_read|]. intros q.
  destruct (List.length _ =? 0)%nat; [|apply keeps_ret].
  apply keeps_updateCampaign. now right.
Qed.

Lemma keeps_process_session session : keeps_campaigns (process_session env session).
Proof.
  unfold process_session.
  destruct (negb _); [apply keeps_ret|].
  apply keeps_bind; [apply keeps_storage_read|].
  intros [|firstMessage rest]; [apply keeps_ret|].
  apply keeps_bind; [apply keeps_storage_read|]. intros rateLimit.
  apply keeps_bind; [apply keeps_for_of; intros x; apply keeps_process_message|].
  intros _.
  destruct (truthy_string _); [apply keeps_checkCampaignCompletion|apply keeps_ret].
Qed.

Lemma pending_of_filter campaignId st :
  pending_of campaignId st
  = filter (fun msg => owned_by campaignId msg
                       && String.eqb (MessageQueue.status msg) "pending")
           (MemStorage.getMessageQueue st).
Proof.
  unfold pending_of, entries_of.
  induction (MemStorage.getMessageQueue st) as [|m q IH]; [reflexivity|].
  cbn [filter]. destruct (owned_by campaignId m); cbn [filter andb]; rewrite IH;
    reflexivity.
Qed.

(** The check at the end of a session's turn. *)
Lemma checkCampaignCompletion_completes campaignId w c :
  MemStorage.getCampaign campaignId (storage w) = Some c ->
  wp (checkCampaignCompletion campaignId)
     (fun _ w' =>
        pending_of campaignId (storage w') = [] ->
        status_of campaignId (storage w') = Some "completed")
     never w.
Proof.
  intros Hc. unfold checkCampaignCompletion, wp, bind, storage_read. rewrite Hc.
  change (fun msg : MessageQueue.t =>
            match MessageQueue.campaignId msg with
            | Some c0 => String.eqb c0 campaignId
            | None => false
            end && String.eqb (MessageQueue.status msg) "pending")
    with (fun msg => owned_by campaignId msg
                     && String.eqb (MessageQueue.status msg) "pending").
  rewrite <- pending_of_filter.
  destruct (pending_of campaignId (storage w)) as [|m l] eqn:Ep; cbn [List.length Nat.eqb].
  - unfold updateCampaign, bind, storage_call, ret, MemStorage.updateCampaign.
    unfold MemStorage.getCampaign in Hc. rewrite Hc. cbn.
    intros _. unfold status_of, MemStorage.getCampaign, MemStorage.with_campaigns.
    cbn [MemStorage.campaigns]. rewrite get_set_same. reflexivity.
  - cbn [ret]. rewrite Ep. discriminate.
Qed.

Lemma process_session_completes session w campaignId :
  WhatsappSession.status session = "connected" ->
  batch_campaign session (storage w) = Some campaignId ->
  MemStorage.getCampaign campaignId (storage w) <> None ->
  exists w',
    process_session env session w = Ok tt w'
    /\ campaigns_evolve (storage w) (storage w')
    /\ (pending_of campaignId (storage w') = [] ->
        status_of campaignId (storage w') = Some "completed").
Proof.
  intros Hs Hb Hc.
  destruct (process_session_ok env session w) as (w' & n & Hr & _).
  exists w'. split; [exact Hr|].
  pose proof (keeps_process_session session w) as Hk.
  unfold wp in Hk. rewrite Hr in Hk. split; [exact Hk|].
  clear Hk. revert Hr. unfold process_session, batch_campaign in *.
  rewrite Hs, String.eqb_refl. cbn [negb].
  unfold bind at 1. unfold storage_read at 1.
  destruct (MemStorage.getPendingMessages (WhatsappSession.id session) (storage w))
    as [|firstMessage rest]; [discriminate|].
  unfold bind at 1. unfold storage_read at 1.
  unfold bind at 1.
  match goal with
  | |- context [for_of ?xs ?f w] =>
      pose proof (keeps_for_of xs f (fun x => keeps_process_message session _ x) w) as Hb1;
      unfold wp in Hb1; destruct (for_of xs f w) as [[] w1|e w1|why]; [|discriminate..]
  end.
  rewrite Hb.
  destruct (MemStorage.getCampaign campaignId (storage w)) as [c|] eqn:Ec; [|congruence].
  destruct (Hb1 campaignId c Ec) as (c1 & Hc1 & _).
  pose proof (checkCampaignCompletion_completes campaignId w1 c1 Hc1) as Hcc.
  unfold wp in Hcc.
  destruct (checkCampaignCompletion campaignId w1) as [[] w2|e w2|why];
    [|contradiction..].
  intros Hr; inversion Hr; subst w2. exact Hcc.
Qed.

Lemma sessions_evolve (sessions : list WhatsappSession.t) w w' :
  for_of sessions (process_session env) w = Ok tt w' ->
  campaigns_evolve (storage w) (storage w').
Proof.
  intros H.
  pose proof (keeps_for_of sessions _ keeps_process_session w) as Hk.
  unfold wp in Hk. now rewrite H in Hk.
Qed.

(** The part of the completion rule the code does carry out.  A tick never
    fails.  When the turn of a connected session comes and the campaign that
    owns its first pending entry exists, that campaign is [completed] at the
    end of the tick if none of its entries is pending once the session's
    batch has been processed.  The campaigns that own the other entries of
    the batch are not examined. *)
Theorem tick_completes_first_campaign (w : World) :
  exists w',
    processQueuedMessages env w = Ok tt w'
    /\ forall pre session post campaignId,
         MemStorage.getSessions (storage w) = pre ++ session :: post ->
         exists w1 w2,
           for_of pre (process_session env) w = Ok tt w1
           /\ process_session env session w1 = Ok tt w2
           /\ (WhatsappSession.status session = "connected" ->
               batch_campaign session (storage w1) = Some campaignId ->
               MemStorage.getCampaign campaignId (storage w1) <> None ->
               pending_of campaignId (storage w2) = [] ->
               status_of campaignId (storage w') = Some "completed").
Proof.
  destruct (processQueuedMessages_ok env w) as (w' & Ht & Hf).
  exists w'. split; [exact Ht|].
  intros pre session post campaignId Hs. rewrite Hs in Hf.
  rewrite for_of_app in Hf. unfold bind in Hf.
  destruct (sessions_ok env pre w) as (w1 & n1 & H1 & _).
  rewrite H1 in Hf. cbn [for_of] in Hf. unfold bind in Hf.
  destruct (process_session_ok env session w1) as (w2 & n2 & H2 & _).
  rewrite H2 in Hf.
  exists w1, w2. split; [exact H1|]. split; [exact H2|].
  intros Hconn Hb Hc Hp.
  destruct (process_session_completes session w1 campaignId Hconn Hb Hc)
    as (w2' & H2' & _ & Hdone).
  rewrite H2 in H2'. inversion H2'; subst w2'.
  specialize (Hdone Hp).
  pose proof (sessions_evolve post w2 w' Hf) as He.
  unfold status_of in *.
  destruct (MemStorage.getCampaign campaignId (storage w2)) as [c2|] eqn:E2;
    [|discriminate].
  destruct (He campaignId c2 E2) as (c' & Hc' & Hst).
  rewrite Hc'. cbn [option_map] in *. inversion Hdone as [Hs2].
  now rewrite (Hst Hs2), Hs2.
Qed.

End WithEnv.

Lemma tick_completes_first_campaign_witness :
  exists w',
    processQueuedMessages env mixed_world = Ok tt w'
    /\ status_of "kA" (storage w') = Some "completed".
Proof.
  destruct (tick_completes_first_campaign env mixed_world) as (w' & Ht & H).
  exists w'. split; [exact Ht|].
  destruct (H [] session [] "kA" eq_refl) as (w1 & w2 & H1 & H2 & Hc).
  inversion H1; subst w1.
  apply Hc.
  - reflexivity.
  - reflexivity.
  - discriminate.
  - assert (E : exists w, process_session env session mixed_world = Ok tt w
                          /\ pending_of "kA" (storage w) = []).
    { eexists. split; [vm_compute; reflexivity|reflexivity]. }
    destruct E as (w & Hw & Hp). rewrite Hw in H2. inversion H2; subst w2. exact Hp.
Defined.

End DispatchCompletion.

(* ================================================================== *)
(** * Campaign expansion *)
(* ================================================================== *)

Module Expansion.
Import JsString JsStringFacts Runtime SchedulerService Notions RunRules JsMapFacts
  ParseSpintaxTermination DispatchTick Fixtures.

Local Open Scope string_scope.
Local Open Scope list_scope.

Lemma set_fresh {V} (k : string) (v : V) (m : JsMap.t V) :
  ~ In k (JsMap.keys m) -> JsMap.set k v m = m ++ [(k, v)].
Proof.
  unfold JsMap.keys. induction m as [|[k' v'] r IH]; intros H; cbn [JsMap.set app].
  - reflexivity.
  - cbn [map fst In] in H.
    destruct (String.eqb k' k) eqn:E.
    + apply String.eqb_eq in E. exfalso. apply H. now left.
    + f_equal. apply IH. intros Hin. apply H. now right.
Qed.

Section WithEnv.
Variable env : Env.
Variable fuel : nat.
Variable campaign : Campaign.t.

Lemma queue_for_value (contact : Contact.t) (w : World) (m : string) :
  personalizeMessage (Campaign.message campaign) (of_contact contact) = Value m ->
  Spintax.no_dollar (of_string m) = true ->
  Spintax.count_lbrace (of_string m) <= fuel ->
  ~ In (randomUUID_at env (uuidsDrawn w)) (JsMap.keys (MemStorage.messageQueue (storage w))) ->
  exists w' e,
    queue_for env fuel campaign contact w = Ok tt w'
    /\ queued_one env w w' e
    /\ entry_for campaign contact e.
Proof.
  intros Hp Hd Hc Hfresh.
  destruct (parseSpintax_loop_terminates (random_at env) fuel (randomsDrawn w)
              (of_string m) Hd Hc) as (out & k' & Hl & _).
  unfold queue_for, bind, lift_outcome. rewrite Hp.
  unfold parseSpintax, Spintax.parseSpintax_from. rewrite Hl.
  unfold newDate, createQueuedMessage, bind, newDate, WhatsAppService.randomUUID,
    storage_call, ret.
  cbn [clock with_randomsDrawn uuidsDrawn with_uuidsDrawn storage
         MemStorage.createQueuedMessage].
  match goal with
  | |- context [JsMap.set _ ?msg _] => eexists; exists msg
  end.
  split; [reflexivity|]. split.
  - unfold queued_one. cbn [storage with_storage uuidsDrawn MessageQueue.id].
    rewrite (set_fresh _ _ _ Hfresh).
    split; [reflexivity|]. split; reflexivity.
  - unfold entry_for. split; [reflexivity|]. split; [reflexivity|].
    split; reflexivity.
Qed.

Lemma queue_for_raise (contact : Contact.t) (w : World) (e : Thrown) :
  personalizeMessage (Campaign.message campaign) (of_contact contact) = Raise e ->
  queue_for env fuel campaign contact w = Throw e w.
Proof.
  intros Hp. unfold queue_for, bind, lift_outcome. now rewrite Hp.
Qed.

Lemma expansion_loop (contacts : list Contact.t) :
  forall w,
    renders_plainly campaign contacts = true ->
    render_rounds campaign contacts <= fuel ->
    NoDup (next_uuids env w (List.length contacts)) ->
    (forall id, In id (next_uuids env w (List.length contacts)) ->
                ~ In id (JsMap.keys (MemStorage.messageQueue (storage w)))) ->
    (exists w' created,
        for_of contacts (queue_for env fuel campaign) w = Ok tt w'
        /\ same_but_queue w w' created
        /\ Forall2 (entry_for campaign) contacts created)
    \/ (exists w' created done bad rest e,
          for_of contacts (queue_for env fuel campaign) w = Throw e w'
          /\ same_but_queue w w' created
          /\ contacts = done ++ bad :: rest
          /\ Forall2 (entry_for campaign) done created
          /\ personalizeMessage (Campaign.message campaign) (of_contact bad) = Raise e).
Proof.
  induction contacts as [|c rest IH]; intros w Hr Hf Hnd Hnew.
  - left. exists w, []. split; [reflexivity|]. split; [|constructor].
    unfold same_but_queue, bindings. cbn [map]. rewrite app_nil_r.
    destruct (storage w); reflexivity.
  - cbn [renders_plainly forallb] in Hr. apply andb_true_iff in Hr as [Hc Hr].
    unfold render_rounds in Hf. cbn [map list_max fold_right] in Hf.
    fold (list_max (map (fun c0 =>
            match personalizeMessage (Campaign.message campaign) (of_contact c0) with
            | Value m => Spintax.count_lbrace (of_string m)
            | _ => 0
            end) rest)) in Hf.
    fold (render_rounds campaign rest) in Hf.
    unfold next_uuids in Hnd, Hnew. cbn [List.length seq map] in Hnd, Hnew.
    destruct (personalizeMessage (Campaign.message campaign) (of_contact c))
      as [m|e|] eqn:Hp; [| |discriminate].
    + destruct (queue_for_value c w m Hp Hc ltac:(lia) (Hnew _ (or_introl eq_refl)))
        as (w1 & e1 & H1 & (Hs1 & Hid1 & Hu1) & He1).
      assert (Hq1 : MemStorage.messageQueue (storage w1)
                    = MemStorage.messageQueue (storage w) ++ [(MessageQueue.id e1, e1)])
        by (rewrite Hs1; reflexivity).
      inversion Hnd as [|x l Hnotin Hnd']; subst.
      destruct (IH w1 Hr ltac:(lia)) as
        [(w' & created & Hl & Hsame & HF) | (w' & created & done & bad & rest' & e & Hl & Hsame & Hsplit & HF & Hbad)].
      * unfold next_uuids. rewrite Hu1. exact Hnd'.
      * unfold next_uuids. rewrite Hu1. intros id Hin. rewrite Hq1.
        unfold JsMap.keys. rewrite map_app, in_app_iff. cbn [map fst In].
        intros [Hold|[Heq|[]]].
        -- apply (Hnew id); [now right|exact Hold].
        -- rewrite Hid1 in Heq. subst id. contradiction.
      * left. exists w', (e1 :: created). cbn [for_of]. unfold bind. rewrite H1.
        split; [exact Hl|]. split; [|now constructor].
        unfold same_but_queue in *. rewrite Hsame, Hs1.
        unfold bindings. cbn [map MemStorage.with_messageQueue MemStorage.messageQueue].
        now rewrite <- app_assoc.
      * right. exists w', (e1 :: created), (c :: done), bad, rest', e.
        cbn [for_of]. unfold bind. rewrite H1.
        split; [exact Hl|]. split; [|split; [now rewrite Hsplit|split; [now constructor|exact Hbad]]].
        unfold same_but_queue in *. rewrite Hsame, Hs1.
        unfold bindings. cbn [map MemStorage.with_messageQueue MemStorage.messageQueue].
        now rewrite <- app_assoc.
    + right. exists w, [], [], c, rest, e.
      cbn [for_of]. unfold bind. rewrite (queue_for_raise c w e Hp).
      split; [reflexivity|]. split; [|split; [reflexivity|split; [constructor|exact Hp]]].
      unfold same_but_queue, bindings. cbn [map]. rewrite app_nil_r.
      destruct (storage w); reflexivity.
Qed.

Lemma fresh_uuids_spec (w : World) (n : nat) :
  fresh_uuids env w n = true ->
  NoDup (next_uuids env w n)
  /\ (forall id, In id (next_uuids env w n) ->
                 ~ In id (JsMap.keys (MemStorage.messageQueue (storage w)))).
Proof.
  unfold fresh_uuids. intros H. apply andb_true_iff in H as [Hd Hf].
  split; [now apply distinct_NoDup|].
  intros id Hin Hkey. rewrite forallb_forall in Hf.
  specialize (Hf id Hin). apply negb_true_iff in Hf.
  assert (existsb (String.eqb id) (JsMap.keys (MemStorage.messageQueue (storage w))) = true);
    [|congruence].
  apply existsb_exists. exists id. split; [exact Hkey|apply String.eqb_refl].
Qed.

(** C1, amended.  Take a campaign that is in the store, whose recipients'
    messages are covered by the embedding and hold no dollar sign once
    personalised, and let the identifiers drawn for the new entries be new.
    Then expansion returns, without exception: [totalRecipients] is the
    number of recipients, and either every recipient has its entry at the
    end of the queue and the campaign is [sending], or personalising the
    message of some recipient threw, the campaign is [failed], and the
    entries created for the recipients before that one are still in the
    queue. *)
Theorem processCampaign_outcome (w : World) (c0 : Campaign.t) :
  MemStorage.getCampaign (Campaign.id campaign) (storage w) = Some c0 ->
  renders_plainly campaign (resolve_contacts campaign (storage w)) = true ->
  fresh_uuids env w (List.length (resolve_contacts campaign (storage w))) = true ->
  render_rounds campaign (resolve_contacts campaign (storage w)) <= fuel ->
  exists w' created,
    processCampaign env fuel campaign w = Ok tt w'
    /\ expanded campaign (resolve_contacts campaign (storage w))
         (storage w) (storage w') created.
Proof.
  intros Hc Hr Hfresh Hfuel.
  set (contacts := resolve_contacts campaign (storage w)) in *.
  set (id := Campaign.id campaign) in *.
  set (c1 := Campaign.spread c0 (Campaign.Partial.of_status "sending")).
  set (c2 := Campaign.spread c1
               (Campaign.Partial.of_totalRecipients (Z.of_nat (List.length contacts)))).
  set (camps2 := JsMap.set id c2 (JsMap.set id c1 (MemStorage.campaigns (storage w)))).
  set (w2 := with_storage (MemStorage.with_campaigns camps2 (storage w)) w).
  assert (Hpre : forall (k : unit -> M unit) handler,
             try_catch
               (bind (updateCampaign id (Campaign.Partial.of_status "sending"))
                  (fun _ => bind (storage_read (resolve_contacts campaign))
                     (fun cs => bind (updateCampaign id
                                  (Campaign.Partial.of_totalRecipients
                                     (Z.of_nat (List.length cs))))
                                  (fun _ => for_of cs (queue_for env fuel campaign)))))
               handler w
             = try_catch (for_of contacts (queue_for env fuel campaign)) handler w2).
  { intros k handler.
    unfold try_catch, updateCampaign, storage_call, storage_read, ret,
      MemStorage.updateCampaign, bind.
    cbv beta.
    unfold MemStorage.getCampaign in Hc. fold id. rewrite Hc.
    cbn [storage with_storage MemStorage.campaigns MemStorage.with_campaigns].
    rewrite get_set_same. reflexivity. }
  unfold processCampaign. fold id. rewrite (Hpre (fun _ => ret tt)). clear Hpre.
  destruct (fresh_uuids_spec w _ Hfresh) as [Hnd Hnew].
  assert (Hget2 : JsMap.get id camps2 = Some c2) by apply get_set_same.
  destruct (expansion_loop contacts w2 Hr Hfuel Hnd Hnew)
    as [(w' & created & Hl & Hsame & HF)
       | (w' & created & done & bad & rest & e & Hl & Hsame & Hsplit & HF & Hbad)].
  - exists w', created. unfold try_catch. rewrite Hl. split; [reflexivity|].
    unfold same_but_queue in Hsame. unfold expanded. rewrite !Hsame.
    split; [reflexivity|].
    exists c2. split; [exact Hget2|]. split; [reflexivity|].
    left. split; [exact HF|reflexivity].
  - unfold try_catch. rewrite Hl.
    unfold updateCampaign, storage_call, ret, MemStorage.updateCampaign, bind.
    cbv beta. unfold same_but_queue in Hsame. rewrite !Hsame.
    cbn [storage w2 with_storage MemStorage.campaigns MemStorage.with_campaigns
           MemStorage.with_messageQueue].
    rewrite Hget2.
    eexists. exists created. split; [reflexivity|].
    unfold expanded.
    cbn [storage with_storage MemStorage.messageQueue MemStorage.with_campaigns].
    split; [reflexivity|].
    eexists. split; [apply get_set_same|]. split; [reflexivity|].
    right. exists done, bad, rest, e. repeat split; assumption.
Qed.

End WithEnv.

Lemma processCampaign_outcome_witness :
  exists w' created,
    processCampaign env 5 promo expansion_world = Ok tt w'
    /\ expanded promo (resolve_contacts promo (storage expansion_world))
         (storage expansion_world) (storage w') created.
Proof.
  apply (processCampaign_outcome env 5 promo expansion_world promo).
  - reflexivity.
  - reflexivity.
  - reflexivity.
  - vm_compute. lia.
Defined.

End Expansion.

(* ================================================================== *)
(** * Scheduling and cancelling *)
(* ================================================================== *)

Module Scheduling.
Import Runtime SchedulerService Notions JsMapFacts Fixtures.

Local Open Scope string_scope.
Local Open Scope list_scope.

Section WithEnv.
Variable env : Env.
Variable fuel : nat.

(** Scheduling a campaign whose time is still to come: the campaign becomes
    [scheduled] (when it is in the store), one running task with the
    expression of the date is added, and the queue is left alone. *)
Lemma scheduleCampaign_future (c : Campaign.t) (w : World) (scheduleTime : Date) :
  Campaign.scheduledAt c = Some scheduleTime ->
  (clock w < scheduleTime)%Z ->
  exists w',
    scheduleCampaign env fuel c w = Ok tt w'
    /\ cronTasks w'
       = cronTasks w ++ [{| expression := dateToCronExpression env scheduleTime;
                            Runtime.campaign := c; running := true |}]
    /\ JsMap.get (Campaign.id c) (scheduledJobs w') = Some (List.length (cronTasks w))
    /\ MemStorage.messageQueue (storage w') = MemStorage.messageQueue (storage w)
    /\ (MemStorage.getCampaign (Campaign.id c) (storage w) <> None ->
        status_of (Campaign.id c) (storage w') = Some "scheduled").
Proof.
  intros Hs Hlt. unfold scheduleCampaign. rewrite Hs.
  unfold bind at 1. unfold newDate at 1.
  destruct (scheduleTime <=? clock w)%Z eqn:E; [apply Z.leb_le in E; lia|].
  unfold cron_schedule, scheduledJobs_set, updateCampaign, storage_call, ret,
    MemStorage.updateCampaign, bind.
  cbv beta.
  cbn [storage cronTasks scheduledJobs with_cronTasks with_scheduledJobs].
  destruct (JsMap.get (Campaign.id c) (MemStorage.campaigns (storage w)))
    as [c0|] eqn:Ec.
  - eexists. split; [reflexivity|].
    cbn [storage cronTasks scheduledJobs with_storage MemStorage.messageQueue
           MemStorage.with_campaigns].
    repeat split.
    + apply get_set_same.
    + intros _. unfold status_of, MemStorage.getCampaign, MemStorage.with_campaigns.
      cbn [MemStorage.campaigns]. rewrite get_set_same. reflexivity.
  - eexists. split; [reflexivity|].
    cbn [storage cronTasks scheduledJobs with_storage].
    repeat split.
    + apply get_set_same.
    + intros H. exfalso. apply H. exact Ec.
Qed.

(** The expression of a date keeps the minute, the hour, the day and the
    month of the date and drops its year: whether it matches a time does not
    depend on the year of that time. *)
Lemma cron_matches_spec (e : CronExpression) (t : Date) :
  cron_matches e t = true <->
  (Calendar.getUTCSeconds t = 0 /\ Calendar.getUTCMinutes t = cronMinute e
   /\ Calendar.getUTCHours t = cronHour e /\ Calendar.getUTCDate t = cronDayOfMonth e
   /\ Calendar.getUTCMonth t + 1 = cronMonth e)%Z.
Proof.
  unfold cron_matches. rewrite !andb_true_iff, !Z.eqb_eq. tauto.
Qed.

(** X2: cancelling a campaign that was scheduled in a process without other
    tasks: whenever the clock moves afterwards, nothing is expanded. *)
Theorem cancel_before_fire (c : Campaign.t) (w : World) (scheduleTime t : Date) :
  Campaign.scheduledAt c = Some scheduleTime ->
  (clock w < scheduleTime)%Z ->
  cronTasks w = [] ->
  exists w1 w2,
    scheduleCampaign env fuel c w = Ok tt w1
    /\ cancelScheduledCampaign (Campaign.id c) w1 = Ok tt w2
    /\ map running (cronTasks w2) = [false]
    /\ cron_fire env fuel t w2 = Ok tt (with_clock t w2)
    /\ MemStorage.messageQueue (storage (with_clock t w2))
       = MemStorage.messageQueue (storage w).
Proof.
  intros Hs Hlt Hnone.
  destruct (scheduleCampaign_future c w scheduleTime Hs Hlt)
    as (w1 & H1 & Htasks & Hjob & Hq & _).
  rewrite Hnone in Htasks, Hjob. cbn [app List.length] in Htasks, Hjob.
  exists w1. unfold cancelScheduledCampaign. rewrite Hjob.
  unfold job_stop, scheduledJobs_delete, bind. cbv beta. rewrite Htasks.
  cbn [List.length seq combine map fst snd Nat.eqb expression Runtime.campaign].
  eexists. split; [exact H1|]. split; [reflexivity|].
  cbn [cronTasks with_cronTasks with_scheduledJobs storage with_clock].
  split; [reflexivity|]. split; [|exact Hq].
  unfold cron_fire. cbn [cronTasks with_clock for_of running andb]. reflexivity.
Qed.

End WithEnv.

Lemma cancel_before_fire_witness :
  exists w1 w2,
    scheduleCampaign env 5 newsletter scheduling_world = Ok tt w1
    /\ cancelScheduledCampaign "k2" w1 = Ok tt w2
    /\ map running (cronTasks w2) = [false]
    /\ cron_fire env 5 due w2 = Ok tt (with_clock due w2)
    /\ MemStorage.messageQueue (storage (with_clock due w2)) = [].
Proof.
  apply (cancel_before_fire env 5 newsletter scheduling_world due due).
  - reflexivity.
  - vm_compute. reflexivity.
  - reflexivity.
Defined.

End Scheduling.
(* ================================================================== *)
(** * Spintax: counting and enumerating the variations *)
(* ================================================================== *)

Module SpintaxVariations.
Import JsString JsStringFacts Spintax ParseSpintaxFacts ParseSpintaxTermination.

Local Open Scope string_scope.
Local Open Scope list_scope.

(** ** Texts without marker *)

Lemma exec_none_iff (s : chars) :
  exec true s = None <-> ~ (exists before content after, marker_at s before content after).
Proof.
  split.
  - intros E (b & g & a & Hm). now apply (exec_complete s b g a Hm).
  - intros H. destruct (exec true s) as [[[b g] a]|] eqn:E; [|reflexivity].
    exfalso. apply H. exists b, g, a.
    destruct (exec_spec true s b g a E) as (Hs & Hg & Hp).
    repeat split; auto.
Qed.

Lemma split_length_pos (sep : ascii) (s : chars) : 1 <= List.length (split sep s).
Proof.
  induction s as [|c t IH]; cbn [split]; [simpl; lia|].
  destruct (Ascii.eqb c sep); [simpl; lia|].
  destruct (split sep t); simpl in *; lia.
Qed.

(** A group with a pipe has two options at least. *)
Lemma split_length_pipe (s : chars) :
  has_pipe s = true -> 2 <= List.length (split pipe s).
Proof.
  unfold has_pipe. induction s as [|c t IH]; cbn [existsb split]; [discriminate|].
  intros H. rewrite Ascii.eqb_sym.
  destruct (Ascii.eqb pipe c) eqn:E.
  - pose proof (split_length_pos pipe t). simpl. lia.
  - simpl in H. specialize (IH H).
    destruct (split pipe t); simpl in *; lia.
Qed.

(** ** Products in double arithmetic *)

Lemma double_of_Z_exact (p : Z) : (p < 2 ^ 53)%Z -> double_of_Z p = Finite p.
Proof.
  intros H. unfold double_of_Z.
  destruct (Z.ltb_spec p (2 ^ 53)); [reflexivity|lia].
Qed.

Lemma double_of_Z_two_or_more (p : Z) : (2 <= p)%Z -> two_or_more (double_of_Z p).
Proof.
  intros Hp. unfold double_of_Z.
  destruct (Z.ltb_spec p (2 ^ 53)) as [Hs|Hb]; [exact Hp|].
  cbv zeta.
  set (e := (Z.log2 p - 52)%Z).
  assert (Hlog : (53 <= Z.log2 p)%Z).
  { change 53%Z with (Z.log2 (2 ^ 53)). now apply Z.log2_le_mono. }
  assert (He : (1 <= e)%Z) by (unfold e; lia).
  assert (H2e : (2 <= 2 ^ e)%Z).
  { change 2%Z with (2 ^ 1)%Z at 1. apply Z.pow_le_mono_r; lia. }
  assert (Hq : (1 <= p / 2 ^ e)%Z).
  { apply Z.div_le_lower_bound; [lia|]. rewrite Z.mul_1_r.
    transitivity (2 ^ Z.log2 p)%Z.
    - apply Z.pow_le_mono_r; unfold e; lia.
    - apply Z.log2_spec. lia. }
  match goal with
  | |- two_or_more (if (?v <? _)%Z then _ else _) =>
      assert (Hv : (2 <= v)%Z); [|destruct (v <? 2 ^ 1024)%Z; [exact Hv|exact I]]
  end.
  repeat match goal with
         | |- context [if ?b then _ else _] => destruct b
         end; nia.
Qed.

Lemma times_two_or_more (d : JsNumber) (n : nat) :
  two_or_more d -> 1 <= n -> two_or_more (times d n).
Proof.
  destruct d as [a|]; cbn [times two_or_more]; [|auto].
  intros Ha Hn. apply double_of_Z_two_or_more. nia.
Qed.

Lemma count_loop_two_or_more (fuel : nat) :
  forall s total, two_or_more total -> two_or_more (count_loop fuel s total).
Proof.
  induction fuel as [|fuel IH]; intros s total Ht; cbn [count_loop]; [exact Ht|].
  destruct (exec true s) as [[[b g] a]|]; [|exact Ht].
  apply IH, times_two_or_more; [exact Ht|apply split_length_pos].
Qed.

Lemma options_product_pos (gs : list (chars * chars)) : 1 <= options_product gs.
Proof.
  induction gs as [|[g b] rest IH]; cbn [options_product]; [lia|].
  pose proof (split_length_pos pipe g). nia.
Qed.

(** Below 2^53 the product is computed exactly. *)
Lemma fold_times_exact (gs : list (chars * chars)) :
  forall a : Z,
    (1 <= a)%Z ->
    (a * Z.of_nat (options_product gs) < 2 ^ 53)%Z ->
    fold_left (fun total gb => times total (List.length (split pipe (fst gb)))) gs (Finite a)
    = Finite (a * Z.of_nat (options_product gs)).
Proof.
  induction gs as [|[g b] rest IH]; intros a Ha Hlt; cbn [fold_left options_product fst].
  - f_equal. cbn [options_product]. lia.
  - cbn [options_product] in Hlt. rewrite Nat2Z.inj_mul in Hlt.
    pose proof (split_length_pos pipe g) as Hn.
    pose proof (options_product_pos rest) as Hr.
    cbn [times]. rewrite double_of_Z_exact by nia.
    rewrite IH; [f_equal; rewrite Nat2Z.inj_mul; lia|nia|].
    now rewrite <- Z.mul_assoc.
Qed.

(** X3: countSpintaxVariations.  The count is 1 exactly for the texts without
    spintax marker, and those are the texts [parseSpintax] returns as they
    are, without a draw from the random source, whatever the fuel. *)
Theorem single_variation_iff_no_marker (text : string) :
  (countSpintaxVariations text = Finite 1 <-> ~ has_marker text)
  /\ (~ has_marker text ->
      forall fuel random k, parseSpintax_from fuel random k text = Some (text, k)).
Proof.
  unfold has_marker. split; [split|].
  - intros Hc. apply exec_none_iff.
    unfold countSpintaxVariations in Hc.
    destruct (exec true (of_string text)) as [[[b g] a]|] eqn:E; [exfalso|reflexivity].
    destruct (exec_spec true _ b g a E) as (Hs & Hg & Hp).
    destruct (List.length (of_string text)) as [|n] eqn:L.
    + rewrite Hs in L. rewrite !length_app in L. simpl in L. lia.
    + cbn [count_loop] in Hc. rewrite E in Hc.
      pose proof (split_length_pipe g (Hp eq_refl)) as Hn.
      assert (H2 : two_or_more (times (Finite 1) (List.length (split pipe g)))).
      { cbn [times]. apply double_of_Z_two_or_more. lia. }
      pose proof (count_loop_two_or_more n a _ H2) as Hge.
      rewrite Hc in Hge. cbn [two_or_more] in Hge. lia.
  - intros H. apply exec_none_iff in H.
    unfold countSpintaxVariations.
    destruct (List.length (of_string text)); cbn [count_loop]; [reflexivity|].
    now rewrite H.
  - intros H fuel random k. apply exec_none_iff in H.
    unfold parseSpintax_from.
    destruct fuel; cbn [parseSpintax_loop]; rewrite H; now rewrite to_of_string.
Qed.

(** ** Templates without nesting *)

Lemma no_brace_not_lbrace (c : ascii) : is_brace c = false -> Ascii.eqb c lbrace = false.
Proof. unfold is_brace. now intros H%orb_false_iff. Qed.

(** The leftmost marker of a text that starts without braces. *)
Lemma exec_after_plain (prefix g after : chars) :
  no_brace prefix = true ->
  no_brace g = true ->
  has_pipe g = true ->
  exec true (prefix ++ fullMatch g ++ after) = Some (prefix, g, after).
Proof.
  intros Hp Hg Hpipe. induction prefix as [|c prefix IH].
  - cbn [app].
    change (fullMatch g ++ after) with (lbrace :: (g ++ [rbrace]) ++ after).
    cbn [exec].
    change (lbrace :: (g ++ [rbrace]) ++ after) with (fullMatch g ++ after).
    now rewrite (match_here_marker g after Hg Hpipe).
  - cbn [no_brace forallb] in Hp. apply andb_true_iff in Hp as [Hc Hp].
    apply negb_true_iff in Hc.
    cbn [app exec]. cbn [match_here]. rewrite (no_brace_not_lbrace c Hc).
    now rewrite (IH Hp).
Qed.

Lemma startsWith_head (c d : ascii) (pat s : chars) :
  Ascii.eqb d c = false -> startsWith (d :: pat) (c :: s) = false.
Proof. intros H. cbn [startsWith]. now rewrite H. Qed.

(** [replace] reaches the group behind a text without braces and writes an
    option without dollar sign as it is. *)
Lemma replaceFirst_after_plain (g chosen after : chars) :
  no_dollar chosen = true ->
  forall prefix before,
    no_brace prefix = true ->
    replaceFirst_from (fullMatch g) chosen before (prefix ++ fullMatch g ++ after)
    = before ++ prefix ++ chosen ++ after.
Proof.
  intros Hd. induction prefix as [|c prefix IH]; intros before Hp.
  - cbn [app].
    assert (Hs : startsWith (fullMatch g) (fullMatch g ++ after) = true)
      by apply startsWith_app.
    assert (Hk : skipn (List.length (fullMatch g)) (fullMatch g ++ after) = after).
    { rewrite skipn_app, skipn_all, Nat.sub_diag. reflexivity. }
    change (fullMatch g ++ after) with (lbrace :: (g ++ [rbrace]) ++ after) at 1.
    cbn [replaceFirst_from].
    change (lbrace :: (g ++ [rbrace]) ++ after) with (fullMatch g ++ after).
    rewrite Hs, Hk. now rewrite GetSubstitution_no_dollar.
  - cbn [no_brace forallb] in Hp. apply andb_true_iff in Hp as [Hc Hp].
    apply negb_true_iff in Hc.
    cbn [app replaceFirst_from].
    unfold fullMatch at 1. rewrite startsWith_head.
    + rewrite IH by exact Hp. now rewrite <- !app_assoc.
    + rewrite Ascii.eqb_sym. now apply no_brace_not_lbrace.
Qed.

Lemma no_brace_app (a b : chars) : no_brace (a ++ b) = no_brace a && no_brace b.
Proof. apply forallb_app. Qed.

Lemma flat_cons (l : chars) (g b : chars) (rest : list (chars * chars)) :
  flat {| lead := l; parts := (g, b) :: rest |} = true ->
  no_brace l = true /\ no_brace g = true /\ has_pipe g = true /\ no_dollar g = true
  /\ no_brace b = true
  /\ forall l', no_brace l' = true -> flat {| lead := l'; parts := rest |} = true.
Proof.
  unfold flat. cbn [lead parts forallb fst snd]. intros H.
  apply andb_true_iff in H as [Hl H].
  apply andb_true_iff in H as [H Hrest].
  apply andb_true_iff in H as [H Hb].
  apply andb_true_iff in H as [H Hd].
  apply andb_true_iff in H as [Hg Hpipe].
  repeat (split; [assumption|]).
  intros l' Hl'. now rewrite Hl', Hrest.
Qed.

Lemma parseSpintax_loop_flat (random : nat -> nat) :
  forall gs l fuel k,
    flat {| lead := l; parts := gs |} = true ->
    List.length gs <= fuel ->
    parseSpintax_loop fuel random k (l ++ flat_tail gs)
    = Some (l ++ rendered_tail random k gs, k + List.length gs).
Proof.
  induction gs as [|[g b] rest IH]; intros l fuel k Hf Hfuel.
  - cbn [flat_tail rendered_tail List.length]. rewrite app_nil_r, Nat.add_0_r.
    unfold flat in Hf. cbn [lead parts forallb] in Hf. rewrite andb_true_r in Hf.
    assert (E : exec true l = None)
      by (apply exec_none_of_no_lbrace; now apply count_lbrace_no_brace).
    destruct fuel; cbn [parseSpintax_loop]; now rewrite E.
  - destruct (flat_cons l g b rest Hf) as (Hl & Hg & Hpipe & Hd & Hb & Hrest).
    cbn [List.length] in Hfuel. destruct fuel as [|fuel]; [lia|].
    cbn [flat_tail rendered_tail parseSpintax_loop].
    rewrite (exec_after_plain l g (b ++ flat_tail rest) Hl Hg Hpipe).
    set (chosen := trim (randomOption random k (split pipe g))).
    assert (Hcd : no_dollar chosen = true) by (now apply forallb_option).
    assert (Hcb : no_brace chosen = true) by (now apply forallb_option).
    unfold replaceFirst.
    rewrite (replaceFirst_after_plain g chosen (b ++ flat_tail rest) Hcd l [] Hl).
    cbn [app].
    replace (l ++ chosen ++ b ++ flat_tail rest)
      with ((l ++ chosen ++ b) ++ flat_tail rest)
      by (now rewrite <- !app_assoc).
    rewrite IH.
    + cbn [List.length]. rewrite <- !app_assoc.
      replace (S k + List.length rest) with (k + S (List.length rest)) by lia.
      reflexivity.
    + apply Hrest. rewrite !no_brace_app, Hl, Hcb, Hb. reflexivity.
    + lia.
Qed.

Lemma flat_tail_length (gs : list (chars * chars)) :
  List.length gs <= List.length (flat_tail gs).
Proof.
  induction gs as [|[g b] rest IH]; cbn [flat_tail List.length]; [lia|].
  unfold fullMatch. rewrite !length_app. cbn [List.length]. lia.
Qed.

Lemma count_loop_flat :
  forall gs l fuel total,
    flat {| lead := l; parts := gs |} = true ->
    List.length gs <= fuel ->
    count_loop fuel (l ++ flat_tail gs) total
    = fold_left (fun total gb => times total (List.length (split pipe (fst gb)))) gs total.
Proof.
  induction gs as [|[g b] rest IH]; intros l fuel total Hf Hfuel.
  - cbn [flat_tail fold_left]. rewrite app_nil_r.
    unfold flat in Hf. cbn [lead parts forallb] in Hf. rewrite andb_true_r in Hf.
    assert (E : exec true l = None)
      by (apply exec_none_of_no_lbrace; now apply count_lbrace_no_brace).
    destruct fuel; cbn [count_loop]; now rewrite ?E.
  - destruct (flat_cons l g b rest Hf) as (Hl & Hg & Hpipe & Hd & Hb & Hrest).
    cbn [List.length] in Hfuel. destruct fuel as [|fuel]; [lia|].
    cbn [flat_tail fold_left count_loop fst].
    rewrite (exec_after_plain l g (b ++ flat_tail rest) Hl Hg Hpipe).
    apply IH; [now apply Hrest|lia].
Qed.

(** X4: parseSpintax and countSpintaxVariations on a template without
    nesting.  The groups are replaced from left to right, the i-th group by
    the option that the i-th draw picks, trimmed; the text between the
    groups stays; one draw is made per group, and as many rounds as there are
    groups are enough.  The count is the product of the numbers of options
    as the loop computes it, with one multiplication of doubles per group:
    it is the exact product when that is below 2^53, and a rounded product
    or [Infinity] beyond. *)
Theorem parseSpintax_flat (random : nat -> nat) (fuel : nat) (t : FlatTemplate) :
  flat t = true ->
  List.length (parts t) <= fuel ->
  parseSpintax_from fuel random 0 (to_string (flat_text t))
  = Some (to_string (rendered random t), List.length (parts t))
  /\ countSpintaxVariations (to_string (flat_text t)) = rounded_product (parts t)
  /\ ((Z.of_nat (options_product (parts t)) < 2 ^ 53)%Z ->
      countSpintaxVariations (to_string (flat_text t))
      = Finite (Z.of_nat (options_product (parts t)))).
Proof.
  intros Hf Hfuel. destruct t as [l gs]. cbn [lead parts] in *.
  assert (Hcount : countSpintaxVariations (to_string (l ++ flat_tail gs))
                   = rounded_product gs).
  { unfold countSpintaxVariations, rounded_product. rewrite of_to_string.
    apply (count_loop_flat gs l _ (Finite 1) Hf).
    rewrite length_app. pose proof (flat_tail_length gs). lia. }
  unfold flat_text, rendered. cbn [lead parts]. split; [|split].
  - unfold parseSpintax_from. rewrite of_to_string.
    now rewrite (parseSpintax_loop_flat random gs l fuel 0 Hf Hfuel).
  - exact Hcount.
  - intros Hlt. rewrite Hcount. unfold rounded_product.
    rewrite (fold_times_exact gs 1); [f_equal; lia|lia|lia].
Qed.

Lemma parseSpintax_flat_witness :
  (parseSpintax_from 2 (fun k => k) 0 "Dear {friend|customer |partner}, {hi|hello}!"
   = Some ("Dear friend, hello!", 2)
   /\ countSpintaxVariations "Dear {friend|customer |partner}, {hi|hello}!" = Finite 6)
  /\ countSpintaxVariations
       (to_string (flat_text {| lead := []; parts := repeat (of_string "a|b|c", []) 34 |}))
     = Finite 16677181699666568.
Proof.
  split.
  - destruct (parseSpintax_flat (fun k => k) 2
                {| lead := of_string "Dear ";
                   parts := [(of_string "friend|customer |partner", of_string ", ");
                             (of_string "hi|hello", of_string "!")] |}
                eq_refl (le_n 2)) as (Hrender & _ & Hexact).
    split; [exact Hrender|]. apply Hexact. reflexivity.
  - destruct (parseSpintax_flat (fun k => k) 34
                {| lead := []; parts := repeat (of_string "a|b|c", []) 34 |}
                eq_refl (le_n 34)) as (_ & Hcount & _).
    rewrite Hcount. vm_compute. reflexivity.
Defined.

(** ** generateAllSpintaxVariations *)

Lemma Set_add_NoDup (x : string) (s : list string) : NoDup s -> NoDup (Set_add x s).
Proof.
  intros H. unfold Set_add.
  destruct (existsb (String.eqb x) s) eqn:E; [exact H|].
  apply NoDup_app; [exact H|repeat constructor; intros []|].
  intros y Hy [Hxy|[]]. subst y.
  assert (existsb (String.eqb x) s = true)
    by (apply existsb_exists; exists x; split; [exact Hy|apply String.eqb_refl]).
  congruence.
Qed.

Lemma Set_add_length (x : string) (s : list string) :
  List.length (Set_add x s) <= S (List.length s).
Proof.
  unfold Set_add. destruct (existsb (String.eqb x) s); [lia|].
  rewrite length_app. simpl. lia.
Qed.

Lemma Set_add_In (x : string) (s : list string) : In x (Set_add x s).
Proof.
  unfold Set_add. destruct (existsb (String.eqb x) s) eqn:E.
  - apply existsb_exists in E as (y & Hy & He). apply String.eqb_eq in He. now subst.
  - apply in_or_app. right. now left.
Qed.

Lemma Set_add_incl (x : string) (s : list string) : incl s (Set_add x s).
Proof.
  unfold Set_add. destruct (existsb (String.eqb x) s); [apply incl_refl|].
  now apply incl_appl, incl_refl.
Qed.

Lemma Set_add_Forall (P : string -> Prop) (x : string) (s : list string) :
  P x -> Forall P s -> Forall P (Set_add x s).
Proof.
  intros Hx Hs. unfold Set_add. destruct (existsb (String.eqb x) s); [exact Hs|].
  apply Forall_app. split; [exact Hs|now constructor].
Qed.

Lemma generateVariation_no_marker (fuel : nat) (random : nat -> nat) (k : nat)
  (text out : string) (k' : nat) :
  generateVariation fuel random k text = Some (out, k') -> ~ has_marker out.
Proof.
  unfold generateVariation.
  destruct (parseSpintax_loop fuel random k (of_string text)) as [[r kr]|] eqn:E;
    [|discriminate].
  intros [= <- <-]. unfold has_marker. rewrite of_to_string.
  apply exec_none_iff.
  exact (parseSpintax_loop_no_marker fuel random k (of_string text) r kr E).
Qed.

Lemma variations_loop_spec (fuel : nat) (random : nat -> nat) (text : string)
  (maxVariations : Z) :
  no_dollar (of_string text) = true ->
  count_lbrace (of_string text) <= fuel ->
  forall attemptsLeft k unique,
    NoDup unique ->
    (Z.of_nat (List.length unique) <= Z.max 0 maxVariations)%Z ->
    Forall (fun v => ~ has_marker v) unique ->
    exists variations,
      variations_loop attemptsLeft fuel random k text maxVariations unique = Some variations
      /\ NoDup variations
      /\ (Z.of_nat (List.length variations) <= Z.max 0 maxVariations)%Z
      /\ Forall (fun v => ~ has_marker v) variations
      /\ incl unique variations
      /\ (attemptsLeft <> 0 -> (0 < maxVariations)%Z -> variations <> []).
Proof.
  intros Hd Hfuel.
  induction attemptsLeft as [|n IH]; intros k unique Hnd Hlen Hmark;
    cbn [variations_loop].
  - exists unique. repeat split; auto using incl_refl.
  - destruct (Z.of_nat (List.length unique) <? maxVariations)%Z eqn:Hlt.
    + apply Z.ltb_lt in Hlt.
      destruct (parseSpintax_loop_terminates random fuel k (of_string text) Hd Hfuel)
        as (out & k' & Hl & _).
      assert (Hg : generateVariation fuel random k text = Some (to_string out, k'))
        by (unfold generateVariation; now rewrite Hl).
      rewrite Hg.
      destruct (IH k' (Set_add (to_string out) unique)) as (vs & Hv & H1 & H2 & H3 & H4 & _).
      * now apply Set_add_NoDup.
      * pose proof (Set_add_length (to_string out) unique). lia.
      * apply Set_add_Forall; [|exact Hmark].
        now apply (generateVariation_no_marker fuel random k text _ k').
      * exists vs. repeat split; auto.
        -- intros x Hx. apply H4. now apply Set_add_incl.
        -- intros _ _ ->. apply (H4 (to_string out)). apply Set_add_In.
    + apply Z.ltb_ge in Hlt.
      exists unique. repeat split; auto using incl_refl.
      intros _ Hpos ->. simpl in Hlt. lia.
Qed.

(** X5: generateAllSpintaxVariations.  For a text without dollar sign, and
    with as many rounds per rendering as the text has opening braces, the
    function returns; its answer holds no text twice, at most
    [maxVariations] texts, none of them with a spintax marker, and at least
    one text when [maxVariations] is positive. *)
Theorem generateAllSpintaxVariations_bounded (fuel : nat) (random : nat -> nat)
  (text : string) (maxVariations : Z) :
  no_dollar (of_string text) = true ->
  count_lbrace (of_string text) <= fuel ->
  exists variations,
    generateAllSpintaxVariations fuel random text maxVariations = Some variations
    /\ NoDup variations
    /\ (Z.of_nat (List.length variations) <= Z.max 0 maxVariations)%Z
    /\ Forall (fun v => ~ has_marker v) variations
    /\ ((0 < maxVariations)%Z -> variations <> []).
Proof.
  intros Hd Hfuel. unfold generateAllSpintaxVariations.
  destruct (variations_loop_spec fuel random text maxVariations Hd Hfuel
              (Z.to_nat (maxVariations * 10)) 0 [])
    as (vs & Hv & H1 & H2 & H3 & _ & H5).
  - constructor.
  - simpl. lia.
  - constructor.
  - exists vs. repeat split; auto.
    intros Hpos. apply H5; [lia|exact Hpos].
Qed.

Lemma generateAllSpintaxVariations_bounded_witness :
  exists variations,
    generateAllSpintaxVariations 1 (fun k => k) "{Hi|Hello|Hey} Ann" 2 = Some variations
    /\ NoDup variations
    /\ (Z.of_nat (List.length variations) <= Z.max 0 2)%Z
    /\ Forall (fun v => ~ has_marker v) variations
    /\ ((0 < 2)%Z -> variations <> []).
Proof.
  apply (generateAllSpintaxVariations_bounded 1 (fun k => k) "{Hi|Hello|Hey} Ann" 2).
  - reflexivity.
  - vm_compute. lia.
Defined.

End SpintaxVariations.
(* ================================================================== *)
(** * The store: create, delete and lookup methods *)
(* ================================================================== *)

Module JsMapMoreFacts.

Section Facts.
Context {V : Type}.

Lemma set_new (k : string) (v : V) (m : JsMap.t V) :
  JsMap.get k m = None -> JsMap.set k v m = m ++ [(k, v)].
Proof.
  induction m as [|[k' v'] r IH]; cbn [JsMap.set JsMap.get app]; [reflexivity|].
  destruct (String.eqb k' k); [discriminate|].
  intros H. now rewrite IH.
Qed.

Lemma remove_absent (k : string) (m : JsMap.t V) :
  JsMap.get k m = None ->
  filter (fun kv => negb (String.eqb (fst kv) k)) m = m.
Proof.
  induction m as [|[k' v'] r IH]; cbn [JsMap.get filter fst]; [reflexivity|].
  destruct (String.eqb k' k); [discriminate|].
  intros H. cbn [negb]. now rewrite IH.
Qed.

Lemma delete_absent (k : string) (m : JsMap.t V) :
  JsMap.get k m = None -> JsMap.delete k m = (false, m).
Proof.
  intros H. unfold JsMap.delete, JsMap.has. now rewrite H, remove_absent.
Qed.

Lemma delete_present (k : string) (v : V) (m : JsMap.t V) :
  JsMap.get k m = Some v -> fst (JsMap.delete k m) = true.
Proof. intros H. unfold JsMap.delete, JsMap.has. now rewrite H. Qed.

Lemma get_delete_same (k : string) (m : JsMap.t V) :
  JsMap.get k (snd (JsMap.delete k m)) = None.
Proof.
  cbn [JsMap.delete snd].
  induction m as [|[k' v'] r IH]; cbn [filter fst]; [reflexivity|].
  destruct (String.eqb k' k) eqn:E; cbn [negb]; [exact IH|].
  cbn [JsMap.get]. now rewrite E.
Qed.

Lemma get_delete_other (k k' : string) (m : JsMap.t V) :
  k' <> k -> JsMap.get k' (snd (JsMap.delete k m)) = JsMap.get k' m.
Proof.
  intros Hne. cbn [JsMap.delete snd].
  induction m as [|[k0 v0] r IH]; cbn [filter fst]; [reflexivity|].
  destruct (String.eqb k0 k) eqn:E; cbn [negb JsMap.get].
  - apply String.eqb_eq in E; subst k0.
    destruct (String.eqb k k') eqn:E'; [|exact IH].
    apply String.eqb_eq in E'. congruence.
  - now rewrite IH.
Qed.

Lemma delete_set_new (k : string) (v : V) (m : JsMap.t V) :
  JsMap.get k m = None -> JsMap.delete k (JsMap.set k v m) = (true, m).
Proof.
  intros H. unfold JsMap.delete, JsMap.has.
  rewrite JsMapFacts.get_set_same. f_equal.
  rewrite (set_new k v m H), filter_app, (remove_absent k m H).
  cbn [filter fst]. rewrite String.eqb_refl. cbn [negb]. apply app_nil_r.
Qed.

Lemma values_set_new (k : string) (v : V) (m : JsMap.t V) :
  JsMap.get k m = None -> JsMap.values (JsMap.set k v m) = JsMap.values m ++ [v].
Proof.
  intros H. unfold JsMap.values. now rewrite (set_new k v m H), map_app.
Qed.

End Facts.

End JsMapMoreFacts.

Module MemStorageMoreFacts.
Import StoreNotions MemStorage JsMapFacts JsMapMoreFacts.

(** The create methods are one pattern. *)
Ltac create_contract_tac create :=
  intros id st; unfold create;
  eexists; eexists; split; [reflexivity|];
  split; [reflexivity|];
  split; [apply get_set_same|];
  split; [intros k Hne; now apply get_set_other|];
  intros Hnew; now apply values_set_new.

(** X6: the create methods.  Each of [createUser], [createContact],
    [createSession], [createCampaign], [createAutoReplyRule],
    [createQueuedMessage] and [createMessageAnalytic] answers a record that
    carries the identifier drawn and stores it under that identifier; a
    lookup of the identifier finds the record, every other identifier and
    every other map keep what they had, and under a new identifier the
    record is listed last. *)
Theorem create_methods_contract :
  (forall insertUser,
     create_contract users with_users User.id (fun id => createUser id insertUser))
  /\ (forall now insertContact,
        create_contract contacts with_contacts Contact.id
          (fun id => createContact id now insertContact))
  /\ (forall now insertSession,
        create_contract sessions with_sessions WhatsappSession.id
          (fun id => createSession id now insertSession))
  /\ (forall now insertCampaign,
        create_contract campaigns with_campaigns Campaign.id
          (fun id => createCampaign id now insertCampaign))
  /\ (forall now insertRule,
        create_contract autoReplyRules with_autoReplyRules AutoReplyRule.id
          (fun id => createAutoReplyRule id now insertRule))
  /\ (forall now insertMessage,
        create_contract messageQueue with_messageQueue MessageQueue.id
          (fun id => createQueuedMessage id now insertMessage))
  /\ (forall messageId contactPhone messageType timestamp sessionId,
        create_contract messageAnalytics with_messageAnalytics MessageAnalytics.id
          (fun id => createMessageAnalytic id messageId contactPhone messageType
                       timestamp sessionId)).
Proof.
  repeat split; intros.
  - create_contract_tac createUser.
  - create_contract_tac createContact.
  - create_contract_tac createSession.
  - create_contract_tac createCampaign.
  - create_contract_tac createAutoReplyRule.
  - create_contract_tac createQueuedMessage.
  - create_contract_tac createMessageAnalytic.
Qed.

Lemma with_contacts_same (st : t) : with_contacts (contacts st) st = st.
Proof. now destruct st. Qed.

Lemma with_sessions_same (st : t) : with_sessions (sessions st) st = st.
Proof. now destruct st. Qed.

Lemma with_campaigns_same (st : t) : with_campaigns (campaigns st) st = st.
Proof. now destruct st. Qed.

Lemma with_autoReplyRules_same (st : t) : with_autoReplyRules (autoReplyRules st) st = st.
Proof. now destruct st. Qed.

(** The delete methods are one pattern. *)
Ltac delete_contract_tac delete get_map same :=
  intros id st; unfold delete;
  destruct (JsMap.get id _) as [r|] eqn:E;
  [ exists (snd (JsMap.delete id (get_map st)));
    split;
    [ rewrite (surjective_pairing (JsMap.delete id _)),
        (delete_present id r _ E); reflexivity
    | split; [apply get_delete_same | intros k Hne; now apply get_delete_other] ]
  | rewrite (delete_absent id _ E); now rewrite same ].

(** X7: the delete methods.  Each of [deleteContact], [deleteSession],
    [deleteCampaign] and [deleteAutoReplyRule] answers [false] and leaves
    the whole store as it was when no record has the identifier; otherwise
    it answers [true], a later lookup of the identifier finds nothing, and
    every other record and every other map is untouched: queue entries of a
    deleted campaign, contact or session stay in the queue. *)
Theorem delete_methods_contract :
  delete_contract contacts with_contacts deleteContact
  /\ delete_contract sessions with_sessions deleteSession
  /\ delete_contract campaigns with_campaigns deleteCampaign
  /\ delete_contract autoReplyRules with_autoReplyRules deleteAutoReplyRule.
Proof.
  repeat split.
  - delete_contract_tac deleteContact contacts with_contacts_same.
  - delete_contract_tac deleteSession sessions with_sessions_same.
  - delete_contract_tac deleteCampaign campaigns with_campaigns_same.
  - delete_contract_tac deleteAutoReplyRule autoReplyRules with_autoReplyRules_same.
Qed.

Ltac create_then_delete_tac create delete same :=
  intros id st Hnew; unfold create, delete; cbn [snd];
  match goal with
  | |- context [JsMap.delete id (?get (?with_map (JsMap.set id ?r ?m) st))] =>
      change (get (with_map (JsMap.set id r m) st)) with (JsMap.set id r m);
      rewrite (delete_set_new id r m Hnew)
  end;
  destruct st; reflexivity.

(** X8: create then delete.  A record created under an identifier that was
    not in use and deleted again leaves the store exactly as it was before
    the two calls, and the delete answers [true]. *)
Theorem create_then_delete_restores :
  (forall now insertContact,
     create_then_delete contacts (fun id => createContact id now insertContact)
       deleteContact)
  /\ (forall now insertSession,
        create_then_delete sessions (fun id => createSession id now insertSession)
          deleteSession)
  /\ (forall now insertCampaign,
        create_then_delete campaigns (fun id => createCampaign id now insertCampaign)
          deleteCampaign)
  /\ (forall now insertRule,
        create_then_delete autoReplyRules
          (fun id => createAutoReplyRule id now insertRule) deleteAutoReplyRule).
Proof.
  repeat split; intros.
  - create_then_delete_tac createContact deleteContact with_contacts_same.
  - create_then_delete_tac createSession deleteSession with_sessions_same.
  - create_then_delete_tac createCampaign deleteCampaign with_campaigns_same.
  - create_then_delete_tac createAutoReplyRule deleteAutoReplyRule with_autoReplyRules_same.
Qed.

(** ** Lookup by channel name *)

Lemma find_app_some {A : Type} (p : A -> bool) (l l' : list A) (x : A) :
  find p l = Some x -> find p (l ++ l') = Some x.
Proof.
  induction l as [|y l IH]; cbn [find app]; [discriminate|].
  destruct (p y); [trivial|exact IH].
Qed.

(** X9: createSession and getSessionBySessionId.  [createSession] does not
    look at the channel names in use: when a session with the same
    [sessionId] is already stored, the new row is stored as well, after the
    old one, and [getSessionBySessionId] keeps answering the old row; only
    [getSession] with the new identifier reaches the new row. *)
Theorem createSession_accepts_duplicate_channel
  (id : string) (now : Date) (insertSession : WhatsappSession.Insert.t) (st : t)
  (old : WhatsappSession.t) :
  getSessionBySessionId (WhatsappSession.Insert.sessionId insertSession) st = Some old ->
  getSession id st = None ->
  let session := fst (createSession id now insertSession st) in
  let st' := snd (createSession id now insertSession st) in
  getSessions st' = getSessions st ++ [session]
  /\ WhatsappSession.sessionId session = WhatsappSession.sessionId old
  /\ getSessionBySessionId (WhatsappSession.Insert.sessionId insertSession) st' = Some old
  /\ getSession id st' = Some session.
Proof.
  intros Hold Hnew. unfold getSessionBySessionId, getSession, getSessions in *.
  cbn [createSession fst snd with_sessions sessions].
  rewrite (values_set_new id _ (sessions st) Hnew).
  repeat split.
  - apply find_some in Hold as [_ Heq]. apply String.eqb_eq in Heq.
    cbn [WhatsappSession.sessionId]. now symmetry.
  - now apply find_app_some.
  - apply get_set_same.
Qed.

Lemma createSession_accepts_duplicate_channel_witness :
  let st := snd (createSession "s1" 0%Z
                   {| WhatsappSession.Insert.sessionId := "main";
                      WhatsappSession.Insert.phone := None;
                      WhatsappSession.Insert.status := None;
                      WhatsappSession.Insert.qrCode := None |} new) in
  let insertSession :=
    {| WhatsappSession.Insert.sessionId := "main";
       WhatsappSession.Insert.phone := None;
       WhatsappSession.Insert.status := Some "connected";
       WhatsappSession.Insert.qrCode := None |} in
  option_map WhatsappSession.id (getSessionBySessionId "main" st) = Some "s1"
  /\ List.length (getSessions (snd (createSession "s2" 5%Z insertSession st))) = 2
  /\ option_map WhatsappSession.id
       (getSessionBySessionId "main" (snd (createSession "s2" 5%Z insertSession st)))
     = Some "s1".
Proof.
  intros st insertSession.
  assert (Hold : exists old,
             getSessionBySessionId (WhatsappSession.Insert.sessionId insertSession) st
             = Some old /\ WhatsappSession.id old = "s1")
    by (eexists; split; reflexivity).
  destruct Hold as (old & Hold & Hid).
  destruct (createSession_accepts_duplicate_channel "s2" 5%Z insertSession st old
              Hold eq_refl) as (H1 & _ & H3 & _).
  split; [reflexivity|]. split.
  - rewrite H1. reflexivity.
  - cbn [WhatsappSession.Insert.sessionId insertSession] in H3.
    rewrite H3. cbn [option_map]. now rewrite Hid.
Defined.

(** ** Analytics *)

Lemma In_filter_opt {A B : Type} (o : option B) (f : B -> A -> bool) (l : list A) (a : A) :
  In a (match o with Some b => filter (f b) l | None => l end)
  <-> In a l /\ (forall b, o = Some b -> f b a = true).
Proof.
  destruct o as [b|].
  - rewrite filter_In. split.
    + intros [Hin Hf]. split; [exact Hin|]. now intros b' [= <-].
    + intros [Hin Hf]. split; [exact Hin|]. now apply Hf.
  - split; [intros Hin; split; [exact Hin|discriminate]|now intros [Hin _]].
Qed.

(** X10: getMessageAnalytics.  The answer holds exactly the analytics rows
    that belong to the session asked for, when a non-empty [sessionId] is
    given, and whose timestamp lies in the window asked for; a row without
    timestamp is left out as soon as one end of the window is given, and
    an empty [sessionId] selects the rows of every session. *)
Theorem getMessageAnalytics_selects
  (sessionId : option string) (startDate endDate : option Date) (st : t)
  (a : MessageAnalytics.t) :
  In a (getMessageAnalytics sessionId startDate endDate st)
  <-> In a (JsMap.values (messageAnalytics st))
      /\ (forall sid, truthy_string sessionId = Some sid ->
                      MessageAnalytics.sessionId a = Some sid)
      /\ (forall d, startDate = Some d ->
                    exists t, MessageAnalytics.timestamp a = Some t /\ (d <= t)%Z)
      /\ (forall d, endDate = Some d ->
                    exists t, MessageAnalytics.timestamp a = Some t /\ (t <= d)%Z).
Proof.
  unfold getMessageAnalytics.
  rewrite !In_filter_opt. split.
  - intros [[[Hin Hs] Hb] He]. repeat split; [exact Hin| | |].
    + intros sid E. specialize (Hs sid E). cbv beta in Hs.
      destruct (MessageAnalytics.sessionId a); [|discriminate].
      apply String.eqb_eq in Hs. now subst.
    + intros d E. specialize (Hb d E). unfold not_before in Hb.
      destruct (MessageAnalytics.timestamp a) as [t|]; [|discriminate].
      exists t. split; [reflexivity|lia].
    + intros d E. specialize (He d E). unfold not_after in He.
      destruct (MessageAnalytics.timestamp a) as [t|]; [|discriminate].
      exists t. split; [reflexivity|lia].
  - intros (Hin & Hs & Hb & He). repeat split; [exact Hin| | |].
    + intros sid E. rewrite (Hs sid E). apply String.eqb_refl.
    + intros d E. destruct (Hb d E) as (t & Ht & Hle).
      unfold not_before. rewrite Ht. lia.
    + intros d E. destruct (He d E) as (t & Ht & Hle).
      unfold not_after. rewrite Ht. lia.
Qed.

End MemStorageMoreFacts.
(* ================================================================== *)
(** * The gateway: sending, auto-replies, receipts, connection updates *)
(* ================================================================== *)

Module GatewayFacts.
Import Runtime WhatsAppService Notions ServiceNotions RunRules JsMapFacts JsMapMoreFacts.

Local Open Scope string_scope.
Local Open Scope list_scope.

Section WithEnv.
Variable env : Env.

(** ** sendMessage *)

Lemma logAnalytic_run (contactPhone messageType sessionId : string) (w : World) :
  logAnalytic env contactPhone messageType sessionId w
  = Ok tt
      (with_storage
         (snd (MemStorage.createMessageAnalytic (randomUUID_at env (uuidsDrawn w)) None
                 contactPhone messageType (Some (clock w)) (Some sessionId) (storage w)))
         (with_uuidsDrawn (S (uuidsDrawn w)) w)).
Proof. reflexivity. Qed.

(** The runs of [sendMessage]. *)
Lemma sendMessage_cases (sessionId toNumber message : string)
  (mediaUrl mediaType : option string) (w : World) :
  match sendMessage env sessionId toNumber message mediaUrl mediaType w with
  | Ok answer w' =>
      answer = true
      /\ connected_channel sessionId w = true
      /\ exists m,
           via m = sessionId /\ jid m = jid_of toNumber
           /\ content m = match truthy_string mediaUrl, truthy_string mediaType with
                          | Some url, Some type => messageContent message url type
                          | _, _ => TextContent message
                          end
           /\ w' = with_storage
                     (snd (MemStorage.createMessageAnalytic
                             (randomUUID_at env (uuidsDrawn w)) None toNumber "sent"
                             (Some (clock w)) (Some sessionId) (storage w)))
                     (with_uuidsDrawn (S (uuidsDrawn w))
                        (with_socket (S (socketCalls w)) (delivered w ++ [m]) w))
  | Throw e w' =>
      (connected_channel sessionId w = false
       /\ e = ErrorObject "WhatsApp session not connected" /\ w' = w)
      \/ (connected_channel sessionId w = true
          /\ (w' = w \/ w' = with_socket (S (socketCalls w)) (delivered w) w))
  | Stuck _ => False
  end.
Proof.
  unfold sendMessage, connected_channel.
  destruct (match JsMap.get sessionId (waSessions w) with
            | Some sd => socket sd && String.eqb (status sd) "connected"
            | None => false
            end) eqn:Hc; cbn [negb].
  2: { left. repeat split. }
  unfold bind, readFileSync, socket_sendMessage.
  destruct (truthy_string mediaUrl) as [url|];
    [destruct (truthy_string mediaType) as [type|];
       [destruct (readFileSync_at env url); [right; split; [reflexivity|now left]|]|]|];
    (destruct (socket_at env (socketCalls w));
     [right; split; [reflexivity|now right]|]);
    rewrite logAnalytic_run; cbn [ret];
    (split; [reflexivity|]); (split; [reflexivity|]);
    match goal with
    | |- context [delivered w ++ [?m]] => exists m
    end; repeat split.
Qed.


(** ** Auto-replies *)

Lemma sendAutoReply_once (sessionId toNumber response : string) (w : World) :
  exists w',
    sendAutoReply env sessionId toNumber response w = Ok tt w'
    /\ timeouts w' = timeouts w
    /\ (delivered w' = delivered w
        \/ delivered w'
           = delivered w ++ [{| via := sessionId; jid := jid_of toNumber;
                                content := TextContent response |}]).
Proof.
  unfold sendAutoReply.
  destruct (JsMap.get sessionId (waSessions w)) as [sd|]; [|eauto].
  destruct (socket sd); [|eauto].
  unfold try_catch, bind, socket_sendMessage.
  destruct (socket_at env (socketCalls w)).
  - eexists. split; [reflexivity|]. split; [reflexivity|]. now left.
  - rewrite logAnalytic_run.
    eexists. split; [reflexivity|]. split; [reflexivity|]. now right.
Qed.

(** The loop over the rules: at most one reply, and it is the response of
    an active rule of the list that the text triggers; an exception leaves
    the state as it was. *)
Lemma reply_by_rules_once (sessionId fromNumber messageText : string)
  (P : AutoReplyRule.t -> Prop) :
  forall rules w,
    Forall P rules ->
    wp (reply_by_rules env sessionId fromNumber messageText rules)
       (fun _ w' =>
          w' = w \/
          exists rule,
            P rule /\ AutoReplyRule.isActive rule = Some true
            /\ checkAutoReplyTrigger messageText rule = inr true
            /\ replied sessionId fromNumber (AutoReplyRule.response rule) w w')
       (fun _ w' => w' = w) w.
Proof.
  induction rules as [|rule rest IH]; intros w HP; cbn [reply_by_rules].
  - apply wp_ret. now left.
  - inversion HP as [|? ? Hrule Hrest]; subst.
    destruct (AutoReplyRule.isActive rule) as [[|]|] eqn:Ha; try now apply IH.
    destruct (checkAutoReplyTrigger messageText rule) as [e|[|]] eqn:Ht;
      [reflexivity| |now apply IH].
    assert (Hnow : wp (sendAutoReply env sessionId fromNumber (AutoReplyRule.response rule))
                     (fun _ w' =>
                        w' = w \/
                        exists rule0,
                          P rule0 /\ AutoReplyRule.isActive rule0 = Some true
                          /\ checkAutoReplyTrigger messageText rule0 = inr true
                          /\ replied sessionId fromNumber (AutoReplyRule.response rule0) w w')
                     (fun _ w' => w' = w) w).
    { destruct (sendAutoReply_once sessionId fromNumber (AutoReplyRule.response rule) w)
        as (w' & Hrun & Ht' & Hd).
      unfold wp. rewrite Hrun. right. exists rule. repeat split; auto.
      left. now split. }
    destruct (AutoReplyRule.delay rule) as [d|]; [|exact Hnow].
    destruct (0 <? d)%Z eqn:Hd; [|exact Hnow].
    apply Z.ltb_lt in Hd. unfold wp, setTimeout_reply. right.
    exists rule. repeat split; auto. right. split; [reflexivity|].
    exists (d * 1000)%Z. split; [lia|reflexivity].
Qed.

(** X12: handleIncomingMessages, one message.  A message of our own, without
    sender or without text changes nothing.  Any other message gets at most
    one reply: the response of an active rule of the channel that its text
    triggers, sent at once as a text message to the sender, dropped when the
    channel has no socket or the socket refuses it, or put on one timer.
    When a rule throws, the state is as it was before the message. *)
Theorem handleIncomingMessage_replies_once (sessionId : string) (message : IncomingMessage)
  (w : World) :
  wp (handleIncomingMessage env sessionId message)
     (fun _ w' =>
        match accepted message with
        | None => w' = w
        | Some (fromNumber, messageText) =>
            (delivered w' = delivered w /\ timeouts w' = timeouts w)
            \/ exists response,
                 answers (storage w) sessionId messageText response
                 /\ replied sessionId fromNumber response w w'
        end)
     (fun _ w' => w' = w) w.
Proof.
  unfold handleIncomingMessage, accepted.
  destruct (fromMe message); [reflexivity|].
  destruct (truthy_string (number_of_jid (remoteJid message))) as [fromNumber|];
    [|reflexivity].
  destruct (String.eqb (text_of message) EmptyString); [reflexivity|].
  apply wp_bind, wp_storage_read, wp_bind.
  eapply wp_mono;
    [| |apply (reply_by_rules_once sessionId fromNumber (text_of message)
                 (fun rule => In rule (MemStorage.getAutoReplyRules (Some sessionId)
                                         (storage w))));
        apply Forall_forall; auto]; cbv beta; [|auto].
  intros _ w1 H. unfold wp. rewrite logAnalytic_run.
  destruct H as [->|(rule & Hin & Ha & Ht & Hr)].
  - left. split; reflexivity.
  - right. exists (AutoReplyRule.response rule). split.
    + exists rule. repeat split; auto.
    + destruct Hr as [[Ht1 Hd1]|[Hd1 Hms]]; [left|right]; split; auto.
Qed.

(** ** Rules that are not active, rules without keywords *)

Lemma reply_by_rules_skips_inactive (sessionId fromNumber messageText : string)
  (rule : AutoReplyRule.t) :
  AutoReplyRule.isActive rule <> Some true ->
  forall rules w,
    reply_by_rules env sessionId fromNumber messageText (rules ++ [rule]) w
    = reply_by_rules env sessionId fromNumber messageText rules w.
Proof.
  intros Hoff. induction rules as [|r rest IH]; intros w; cbn [app reply_by_rules].
  - destruct (AutoReplyRule.isActive rule) as [[|]|]; [congruence|reflexivity..].
  - destruct (AutoReplyRule.isActive r) as [[|]|]; try apply IH.
    destruct (checkAutoReplyTrigger messageText r) as [e|[|]]; try reflexivity.
    apply IH.
Qed.

Lemma createAutoReplyRule_values (id : string) (now : Date)
  (insertRule : AutoReplyRule.Insert.t) (st : MemStorage.t) :
  MemStorage.getAutoReplyRule id st = None ->
  JsMap.values (MemStorage.autoReplyRules
                  (snd (MemStorage.createAutoReplyRule id now insertRule st)))
  = JsMap.values (MemStorage.autoReplyRules st)
      ++ [fst (MemStorage.createAutoReplyRule id now insertRule st)].
Proof.
  intros Hnew. unfold MemStorage.getAutoReplyRule in Hnew.
  cbn [MemStorage.createAutoReplyRule fst snd MemStorage.with_autoReplyRules
         MemStorage.autoReplyRules].
  now rewrite (values_set_new id _ _ Hnew).
Qed.

Lemma getAutoReplyRules_created (id : string) (now : Date)
  (insertRule : AutoReplyRule.Insert.t) (st : MemStorage.t) (sessionId : option string) :
  MemStorage.getAutoReplyRule id st = None ->
  let rule := fst (MemStorage.createAutoReplyRule id now insertRule st) in
  let st' := snd (MemStorage.createAutoReplyRule id now insertRule st) in
  MemStorage.getAutoReplyRules sessionId st' = MemStorage.getAutoReplyRules sessionId st
  \/ MemStorage.getAutoReplyRules sessionId st'
     = MemStorage.getAutoReplyRules sessionId st ++ [rule].
Proof.
  intros Hnew. unfold MemStorage.getAutoReplyRules, MemStorage.getAutoReplyRule in *.
  cbn [MemStorage.createAutoReplyRule fst snd MemStorage.with_autoReplyRules
         MemStorage.autoReplyRules].
  rewrite (values_set_new id _ _ Hnew).
  destruct (truthy_string sessionId) as [sid|]; [|now right].
  rewrite filter_app. cbn [filter].
  match goal with |- context [if ?b then _ else _] => destruct b end;
    [now right|left; apply app_nil_r].
Qed.

(** X13: createAutoReplyRule and the auto-reply loop.  A rule that is created
    without [isActive], or with [isActive] false, is stored as not active,
    and the loop over the rules passes it by: for every channel, sender and
    text the loop does what it did before the rule was created. *)
Theorem rule_created_inactive_never_replies (id : string) (now : Date)
  (insertRule : AutoReplyRule.Insert.t) (st : MemStorage.t)
  (sessionId fromNumber messageText : string) (w : World) :
  AutoReplyRule.Insert.isActive insertRule <> Some true ->
  MemStorage.getAutoReplyRule id st = None ->
  let st' := snd (MemStorage.createAutoReplyRule id now insertRule st) in
  reply_by_rules env sessionId fromNumber messageText
    (MemStorage.getAutoReplyRules (Some sessionId) st') w
  = reply_by_rules env sessionId fromNumber messageText
      (MemStorage.getAutoReplyRules (Some sessionId) st) w.
Proof.
  intros Hoff Hnew st'.
  destruct (getAutoReplyRules_created id now insertRule st (Some sessionId) Hnew)
    as [H|H]; fold st' in H; rewrite H; [reflexivity|].
  now apply reply_by_rules_skips_inactive.
Qed.

Lemma truthy_string_fixed (v : option string) (s : string) :
  truthy_string v = Some s -> truthy_string (Some s) = Some s.
Proof.
  destruct v as [x|]; cbn [truthy_string]; [|discriminate].
  destruct (String.eqb x EmptyString) eqn:E; [discriminate|].
  intros [= <-]. now rewrite E.
Qed.

Lemma keywords_null_throws (messageText : string) (rule : AutoReplyRule.t) :
  keyword_trigger (AutoReplyRule.triggerType rule) = true ->
  AutoReplyRule.keywords rule = None ->
  checkAutoReplyTrigger messageText rule
  = inl (ErrorObject "Cannot read properties of null (reading 'some')").
Proof.
  unfold keyword_trigger, checkAutoReplyTrigger, keywords_some. intros Ht ->.
  destruct (String.eqb (AutoReplyRule.triggerType rule) "contains"); [reflexivity|].
  destruct (String.eqb (AutoReplyRule.triggerType rule) "exact"); [reflexivity|].
  destruct (String.eqb (AutoReplyRule.triggerType rule) "starts_with"); [reflexivity|].
  destruct (String.eqb (AutoReplyRule.triggerType rule) "ends_with"); [reflexivity|].
  discriminate.
Qed.

(** X14: createAutoReplyRule and handleIncomingMessages.  An active rule that
    is created without keywords is stored with [keywords] null; when its
    trigger type compares keywords (as the default [contains] does) and it
    is the only rule of its channel, every inbound message with a sender and
    a text makes [handleIncomingMessages] throw a [TypeError]: the message
    is not recorded and the messages behind it in the batch are not looked
    at. *)
Theorem rule_without_keywords_rejects_inbound (id : string) (now : Date)
  (insertRule : AutoReplyRule.Insert.t) (sessionId : string) (w : World)
  (message : IncomingMessage) (rest : list IncomingMessage)
  (fromNumber messageText : string) :
  AutoReplyRule.Insert.keywords insertRule = None ->
  AutoReplyRule.Insert.isActive insertRule = Some true ->
  keyword_trigger
    (AutoReplyRule.triggerType (fst (MemStorage.createAutoReplyRule id now insertRule
                                       (storage w)))) = true ->
  truthy_string (AutoReplyRule.Insert.sessionId insertRule) = Some sessionId ->
  MemStorage.getAutoReplyRules (Some sessionId) (storage w) = [] ->
  MemStorage.getAutoReplyRule id (storage w) = None ->
  accepted message = Some (fromNumber, messageText) ->
  let w1 := with_storage (snd (MemStorage.createAutoReplyRule id now insertRule (storage w)))
              w in
  handleIncomingMessages env sessionId (message :: rest) w1
  = Throw (ErrorObject "Cannot read properties of null (reading 'some')") w1.
Proof.
  intros Hk Ha Ht Hs Hnone Hnew Hacc w1.
  set (rule := fst (MemStorage.createAutoReplyRule id now insertRule (storage w))) in *.
  assert (Hrules : MemStorage.getAutoReplyRules (Some sessionId) (storage w1) = [rule]).
  { unfold w1. cbn [storage with_storage].
    unfold MemStorage.getAutoReplyRules in *.
    rewrite (createAutoReplyRule_values id now insertRule (storage w) Hnew).
    fold rule.
    rewrite (truthy_string_fixed _ _ Hs) in *.
    rewrite filter_app, Hnone. cbn [filter app].
    assert (Hsid : AutoReplyRule.sessionId rule = Some sessionId) by exact Hs.
    rewrite Hsid, String.eqb_refl. reflexivity. }
  unfold handleIncomingMessages. cbn [for_of]. unfold bind at 1.
  unfold handleIncomingMessage. unfold accepted in Hacc.
  destruct (fromMe message); [discriminate|].
  destruct (truthy_string (number_of_jid (remoteJid message))) as [n|]; [|discriminate].
  destruct (String.eqb (text_of message) EmptyString); [discriminate|].
  injection Hacc as <- <-.
  unfold bind at 1. unfold storage_read at 1. rewrite Hrules.
  unfold bind at 1. cbn [reply_by_rules].
  assert (Hact : AutoReplyRule.isActive rule = Some true) by exact Ha.
  rewrite Hact, (keywords_null_throws (text_of message) rule Ht Hk).
  reflexivity.
Qed.

End WithEnv.

Lemma rule_created_inactive_never_replies_witness :
  let st := storage (Fixtures.inbound_world "any") in
  reply_by_rules Fixtures.env "main" "15550001" "hello"
    (MemStorage.getAutoReplyRules (Some "main")
       (snd (MemStorage.createAutoReplyRule "r2" 5%Z MoreFixtures.quiet_rule st)))
    (Fixtures.inbound_world "any")
  = reply_by_rules Fixtures.env "main" "15550001" "hello"
      (MemStorage.getAutoReplyRules (Some "main") st) (Fixtures.inbound_world "any").
Proof.
  intros st.
  apply (rule_created_inactive_never_replies Fixtures.env "r2" 5%Z MoreFixtures.quiet_rule st
           "main" "15550001" "hello" (Fixtures.inbound_world "any")).
  - discriminate.
  - reflexivity.
Defined.

Lemma rule_without_keywords_rejects_inbound_witness :
  let w1 := with_storage
              (snd (MemStorage.createAutoReplyRule "r1" 5%Z MoreFixtures.price_rule
                      (storage MoreFixtures.empty_world)))
              MoreFixtures.empty_world in
  handleIncomingMessages Fixtures.env "main" [Fixtures.first_hello] w1
  = Throw (ErrorObject "Cannot read properties of null (reading 'some')") w1.
Proof.
  exact (rule_without_keywords_rejects_inbound Fixtures.env "r1" 5%Z MoreFixtures.price_rule
           "main" MoreFixtures.empty_world Fixtures.first_hello [] "15550001" "hello"
           eq_refl eq_refl eq_refl eq_refl eq_refl eq_refl eq_refl).
Defined.

(** ** The trigger *)

Lemma lowerChar_idempotent (c : ascii) : lowerChar (lowerChar c) = lowerChar c.
Proof.
  destruct c as [[|] [|] [|] [|] [|] [|] [|] [|]]; reflexivity.
Qed.

Lemma lower_idempotent (s : string) : lower (lower s) = lower s.
Proof.
  unfold lower. rewrite JsStringFacts.of_to_string. f_equal.
  unfold toLowerCase. rewrite map_map.
  apply map_ext. intros c. apply lowerChar_idempotent.
Qed.

Lemma existsb_map_lower (f : string -> bool) (keywords : list string) :
  existsb f (map lower keywords) = existsb (fun keyword => f (lower keyword)) keywords.
Proof.
  induction keywords as [|k ks IH]; cbn [map existsb]; [reflexivity|]. now rewrite IH.
Qed.

Lemma existsb_same {A : Type} (f g : A -> bool) (l : list A) :
  (forall x, f x = g x) -> existsb f l = existsb g l.
Proof.
  intros H. induction l as [|x l IH]; cbn [existsb]; [reflexivity|]. now rewrite H, IH.
Qed.

(** X15: checkAutoReplyTrigger ignores case.  The answer for a text is the
    answer for the text in lower case, and the answer of a rule is the
    answer of the rule with its keywords in lower case: text and keywords
    are compared without regard to case, for every trigger type. *)
Theorem checkAutoReplyTrigger_ignores_case (messageText : string) (rule : AutoReplyRule.t) :
  checkAutoReplyTrigger (lower messageText) rule = checkAutoReplyTrigger messageText rule
  /\ checkAutoReplyTrigger messageText (with_lower_keywords rule)
     = checkAutoReplyTrigger messageText rule.
Proof.
  split.
  - unfold checkAutoReplyTrigger. now rewrite lower_idempotent.
  - unfold checkAutoReplyTrigger, with_lower_keywords, keywords_some.
    cbn [AutoReplyRule.triggerType AutoReplyRule.keywords].
    destruct (AutoReplyRule.keywords rule) as [keywords|]; cbn [option_map];
      [|reflexivity].
    rewrite !existsb_map_lower.
    repeat match goal with
           | |- context [if ?b then _ else _] => destruct b
           end;
      try reflexivity; f_equal; apply existsb_same; intros k;
      now rewrite lower_idempotent.
Qed.

Lemma includes_nil (s : chars) : includes [] s = true.
Proof. destruct s; reflexivity. Qed.

(** X16: checkAutoReplyTrigger on its edges.  With an empty list of keywords
    a rule that compares keywords never triggers; an empty keyword makes a
    rule of type [contains], [starts_with] or [ends_with] trigger on every
    text; a trigger type the method does not know never triggers. *)
Theorem checkAutoReplyTrigger_edges (messageText : string) (rule : AutoReplyRule.t) :
  (keyword_trigger (AutoReplyRule.triggerType rule) = true ->
   AutoReplyRule.keywords rule = Some [] ->
   checkAutoReplyTrigger messageText rule = inr false)
  /\ (keyword_trigger (AutoReplyRule.triggerType rule) = true ->
      AutoReplyRule.triggerType rule <> "exact" ->
      (exists keywords, AutoReplyRule.keywords rule = Some keywords
                        /\ In EmptyString keywords) ->
      checkAutoReplyTrigger messageText rule = inr true)
  /\ (keyword_trigger (AutoReplyRule.triggerType rule) = false ->
      AutoReplyRule.triggerType rule <> "any" ->
      checkAutoReplyTrigger messageText rule = inr false).
Proof.
  unfold keyword_trigger, checkAutoReplyTrigger, keywords_some.
  repeat split.
  - intros Ht ->. cbn [existsb].
    repeat match goal with
           | |- context [if ?b then _ else _] => destruct b
           end; try reflexivity; discriminate.
  - intros Ht Hne (keywords & -> & Hin).
    assert (Hany : forall f, f EmptyString = true -> existsb f keywords = true)
      by (intros f Hf; apply existsb_exists; eauto).
    destruct (String.eqb (AutoReplyRule.triggerType rule) "contains").
    { f_equal. apply Hany. apply includes_nil. }
    destruct (String.eqb (AutoReplyRule.triggerType rule) "exact") eqn:E.
    { apply String.eqb_eq in E. contradiction. }
    destruct (String.eqb (AutoReplyRule.triggerType rule) "starts_with").
    { f_equal. apply Hany. reflexivity. }
    destruct (String.eqb (AutoReplyRule.triggerType rule) "ends_with").
    { f_equal. apply Hany. reflexivity. }
    discriminate.
  - intros Ht Hne.
    destruct (String.eqb (AutoReplyRule.triggerType rule) "contains"); [discriminate|].
    destruct (String.eqb (AutoReplyRule.triggerType rule) "exact"); [discriminate|].
    destruct (String.eqb (AutoReplyRule.triggerType rule) "starts_with"); [discriminate|].
    destruct (String.eqb (AutoReplyRule.triggerType rule) "ends_with"); [discriminate|].
    destruct (String.eqb (AutoReplyRule.triggerType rule) "any") eqn:E; [|reflexivity].
    apply String.eqb_eq in E. contradiction.
Qed.

End GatewayFacts.
(* ================================================================== *)
(** * What a computation leaves alone *)
(* ================================================================== *)

Module FrameRules.
Import Runtime Notions ServiceNotions RunRules.

Section Frame.
Context {X : Type}.
Variable f : World -> X.

Lemma frame_ret {A} (a : A) : keeps f (ret a).
Proof. intros w. reflexivity. Qed.

Lemma frame_throw {A} (e : Thrown) : keeps f (@throw A e).
Proof. intros w. reflexivity. Qed.

Lemma frame_bind {A B} (m : M A) (k : A -> M B) :
  keeps f m -> (forall a, keeps f (k a)) -> keeps f (bind m k).
Proof.
  intros Hm Hk w. apply wp_bind.
  eapply wp_mono; [| |apply Hm]; cbv beta.
  - intros a w1 H1. eapply wp_mono; [| |apply Hk]; cbv beta; intros; congruence.
  - auto.
Qed.

Lemma frame_try_catch {A} (body : M A) (handler : Thrown -> M A) :
  keeps f body -> (forall e, keeps f (handler e)) -> keeps f (try_catch body handler).
Proof.
  intros Hb Hh w. apply wp_try_catch.
  eapply wp_mono; [| |apply Hb]; cbv beta.
  - auto.
  - intros e w1 H1. eapply wp_mono; [| |apply Hh]; cbv beta; intros; congruence.
Qed.

Lemma frame_for_of {A} (xs : list A) (body : A -> M unit) :
  (forall x, keeps f (body x)) -> keeps f (for_of xs body).
Proof.
  intros Hb. induction xs as [|x xs IH]; cbn [for_of].
  - apply frame_ret.
  - apply frame_bind; [apply Hb|intros _; exact IH].
Qed.

Lemma frame_storage_read {A} (g : MemStorage.t -> A) : keeps f (storage_read g).
Proof. intros w. reflexivity. Qed.

Lemma frame_newDate : keeps f newDate.
Proof. intros w. reflexivity. Qed.

Lemma frame_storage_call {A} (g : MemStorage.t -> A * MemStorage.t) :
  (forall w, f (with_storage (snd (g (storage w))) w) = f w) ->
  keeps f (storage_call g).
Proof.
  intros H w. unfold wp, storage_call. specialize (H w).
  destruct (g (storage w)) as [a st]. exact H.
Qed.

(** A step that cannot fail. *)
Lemma frame_step {A} (a : World -> A) (h : World -> World) :
  (forall w, f (h w) = f w) -> keeps f (fun w => Ok (a w) (h w)).
Proof. intros H w. apply H. Qed.

Lemma frame_ok {A} (m : M A) (w : World) :
  keeps f m -> (forall e w', m w <> Throw e w') -> exists a w', m w = Ok a w' /\ f w' = f w.
Proof.
  intros Hk Hn. specialize (Hk w). unfold wp in Hk.
  destruct (m w) as [a w'|e w'|why]; [eauto| |contradiction].
  exfalso. now apply (Hn e w').
Qed.

End Frame.

End FrameRules.
(* ================================================================== *)
(** * The gateway: receipts, connection updates, disconnecting *)
(* ================================================================== *)

Module GatewayState.
Import Runtime WhatsAppService Notions ServiceNotions RunRules FrameRules JsMapFacts
  JsMapMoreFacts.

Local Open Scope string_scope.
Local Open Scope list_scope.

(** ** Receipts *)

Section Receipts.
Variable env : Env.

Lemma handleMessageReceipt_run (sessionId : string) (update : ReceiptUpdate) (w : World) :
  exists w',
    handleMessageReceipt env sessionId update w = Ok tt w'
    /\ beside_analytics w' = beside_analytics w
    /\ uuidsDrawn w' = (if receipt_counts update then 1 else 0) + uuidsDrawn w
    /\ MemStorage.messageAnalytics (storage w')
       = if receipt_counts update
         then JsMap.set (randomUUID_at env (uuidsDrawn w))
                (receipt_row sessionId (clock w) (randomUUID_at env (uuidsDrawn w)) update)
                (MemStorage.messageAnalytics (storage w))
         else MemStorage.messageAnalytics (storage w).
Proof.
  unfold handleMessageReceipt, receipt_counts, receipt_row.
  assert (Hnone : exists w',
             ret tt w = Ok tt w'
             /\ beside_analytics w' = beside_analytics w
             /\ uuidsDrawn w' = 0 + uuidsDrawn w
             /\ MemStorage.messageAnalytics (storage w')
                = MemStorage.messageAnalytics (storage w))
    by (exists w; repeat split).
  destruct (receipt update) as [r|]; [|exact Hnone].
  destruct (truthy_number (readTimestamp r)), (truthy_number (deliveredTimestamp r));
    try exact Hnone;
    (destruct (truthy_string (number_of_jid (receiptJid update))); [|exact Hnone]);
    rewrite GatewayFacts.logAnalytic_run;
    (eexists; split; [reflexivity|]; split; [reflexivity|]; split; reflexivity).
Qed.

Lemma map_fst_combine_same {A B : Type} (l : list A) (l' : list B) :
  List.length l = List.length l' -> map fst (combine l l') = l.
Proof.
  revert l'. induction l as [|a l IH]; intros [|b l'] H; cbn in *;
    try reflexivity; try discriminate.
  f_equal. apply IH. congruence.
Qed.

(** Rows stored under identifiers that are new and pairwise different come
    last, in their order. *)
Lemma stored_in_turn_new (rows : list (string * MessageAnalytics.t)) :
  forall m,
    NoDup (map fst rows) ->
    (forall id, In id (map fst rows) -> JsMap.get id m = None) ->
    JsMap.values (stored_in_turn rows m) = JsMap.values m ++ map snd rows.
Proof.
  unfold stored_in_turn.
  induction rows as [|[id row] rows IH]; intros m Hnd Hnew; cbn [fold_left map fst snd].
  - now rewrite app_nil_r.
  - cbn [map fst] in Hnd. inversion Hnd as [|? ? Hnotin Hnd']; subst.
    rewrite IH; [|exact Hnd'|].
    + rewrite values_set_new by (apply Hnew; now left).
      now rewrite <- app_assoc.
    + intros id' Hin. rewrite get_set_other.
      * apply Hnew. now right.
      * intros ->. contradiction.
Qed.

(** X17: handleMessageReceipts.  The method never throws.  For each receipt
    that has a read or delivered timestamp and a sender it draws one
    identifier and stores one analytics row under it: the row has the type
    [read] when the receipt has a read timestamp and [delivered] otherwise,
    the sender, the channel and the time of the call.  When the identifiers
    drawn are new and pairwise different these rows are listed after the
    rows that were there, in the order of the receipts.  The method changes
    nothing else: no queue entry becomes [delivered], no [deliveredAt] is
    set and no counter of a campaign moves. *)
Theorem handleMessageReceipts_only_logs (sessionId : string) (updates : list ReceiptUpdate)
  (w : World) :
  let counted := filter receipt_counts updates in
  let ids := next_uuids env w (List.length counted) in
  let rows := map (fun it => (fst it, receipt_row sessionId (clock w) (fst it) (snd it)))
                  (combine ids counted) in
  exists w',
    handleMessageReceipts env sessionId updates w = Ok tt w'
    /\ beside_analytics w' = beside_analytics w
    /\ uuidsDrawn w' = List.length counted + uuidsDrawn w
    /\ MemStorage.messageAnalytics (storage w')
       = stored_in_turn rows (MemStorage.messageAnalytics (storage w))
    /\ (NoDup ids ->
        (forall id, In id ids ->
                    JsMap.get id (MemStorage.messageAnalytics (storage w)) = None) ->
        JsMap.values (MemStorage.messageAnalytics (storage w'))
        = JsMap.values (MemStorage.messageAnalytics (storage w)) ++ map snd rows).
Proof.
  cbv zeta.
  assert (Hrun : exists w',
             handleMessageReceipts env sessionId updates w = Ok tt w'
             /\ beside_analytics w' = beside_analytics w
             /\ uuidsDrawn w' = List.length (filter receipt_counts updates) + uuidsDrawn w
             /\ MemStorage.messageAnalytics (storage w')
                = stored_in_turn
                    (map (fun it => (fst it, receipt_row sessionId (clock w) (fst it) (snd it)))
                       (combine (next_uuids env w (List.length (filter receipt_counts updates)))
                          (filter receipt_counts updates)))
                    (MemStorage.messageAnalytics (storage w))).
  { unfold handleMessageReceipts. revert w.
    induction updates as [|update updates IH]; intros w; cbn [for_of filter].
    - exists w. repeat split.
    - destruct (handleMessageReceipt_run sessionId update w) as (w1 & H1 & Hf1 & Hu1 & Ha1).
      destruct (IH w1) as (w2 & H2 & Hf2 & Hu2 & Ha2).
      assert (Hclock : clock w1 = clock w) by (unfold beside_analytics in Hf1; congruence).
      exists w2. unfold bind. rewrite H1. split; [exact H2|].
      split; [congruence|].
      rewrite Ha2, Ha1, Hclock. unfold next_uuids. rewrite Hu1.
      destruct (receipt_counts update); cbn [List.length Nat.add].
      + split; [lia|]. cbn [seq map combine]. unfold stored_in_turn.
        cbn [fold_left fst snd]. reflexivity.
      + split; [lia|reflexivity]. }
  destruct Hrun as (w' & Hok & Hb & Hu & Ha).
  exists w'. split; [exact Hok|]. split; [exact Hb|]. split; [exact Hu|].
  split; [exact Ha|].
  intros Hnd Hnew. rewrite Ha.
  assert (Hids : map fst
                   (map (fun it => (fst it, receipt_row sessionId (clock w) (fst it) (snd it)))
                      (combine (next_uuids env w (List.length (filter receipt_counts updates)))
                         (filter receipt_counts updates)))
                 = next_uuids env w (List.length (filter receipt_counts updates))).
  { rewrite map_map. cbn [fst].
    change (fun x : string * ReceiptUpdate => fst x) with (@fst string ReceiptUpdate).
    apply map_fst_combine_same. unfold next_uuids. now rewrite length_map, length_seq. }
  apply stored_in_turn_new; rewrite Hids; assumption.
Qed.

End Receipts.

Lemma handleMessageReceipts_only_logs_witness :
  exists w',
    handleMessageReceipts Fixtures.env "main" MoreFixtures.receipts MoreFixtures.empty_world
    = Ok tt w'
    /\ map (fun a => (MessageAnalytics.id a, MessageAnalytics.messageType a,
                      MessageAnalytics.contactPhone a, MessageAnalytics.sessionId a,
                      MessageAnalytics.timestamp a))
           (JsMap.values (MemStorage.messageAnalytics (storage w')))
       = [("uuid", "read", "15550001", Some "main", Some 1000%Z);
          ("xuuid", "delivered", "15550002", Some "main", Some 1000%Z)].
Proof.
  destruct (handleMessageReceipts_only_logs Fixtures.env "main" MoreFixtures.receipts
              MoreFixtures.empty_world) as (w' & Hok & _ & _ & _ & Hvalues).
  exists w'. split; [exact Hok|].
  rewrite Hvalues; [reflexivity| |].
  - repeat constructor; cbn; intuition discriminate.
  - intros id _. reflexivity.
Defined.

(** ** Connection updates *)

Section Connection.
Variable toDataURL : string -> Thrown + string.
Variable userId : string -> option string.
Variable sessionId : string.

Lemma unregistered_store_same (w w' : World) :
  MemStorage.getSession sessionId (storage w) = None ->
  unregistered_store sessionId w' = unregistered_store sessionId w ->
  storage w' = storage w.
Proof.
  unfold unregistered_store. intros ->.
  destruct (MemStorage.getSession sessionId (storage w')); congruence.
Qed.

Lemma updateSession_unregistered (u : WhatsappSession.Partial.t) :
  keeps (unregistered_store sessionId) (updateSession sessionId u).
Proof.
  unfold updateSession. apply frame_bind; [|intros; apply frame_ret].
  apply frame_storage_call. intros w.
  unfold unregistered_store, MemStorage.updateSession, MemStorage.getSession.
  cbn [storage with_storage].
  destruct (JsMap.get sessionId (MemStorage.sessions (storage w))) eqn:E; cbn [snd].
  - unfold MemStorage.with_sessions. cbn [MemStorage.sessions].
    now rewrite get_set_same.
  - now rewrite E.
Qed.

Lemma updateSession_beside (u : WhatsappSession.Partial.t) :
  keeps beside_channels (updateSession sessionId u).
Proof.
  unfold updateSession. apply frame_bind; [|intros; apply frame_ret].
  apply frame_storage_call. reflexivity.
Qed.

Lemma updateSession_channels (k : string) (u : WhatsappSession.Partial.t) :
  keeps (fun w => JsMap.get k (waSessions w)) (updateSession sessionId u).
Proof.
  unfold updateSession. apply frame_bind; [|intros; apply frame_ret].
  apply frame_storage_call. reflexivity.
Qed.

Section Keeps.
Context {X : Type}.
Variable f : World -> X.
Hypothesis f_sessions_set : forall sessionData, keeps f (sessions_set sessionId sessionData).
Hypothesis f_sessions_delete : keeps f (sessions_delete sessionId).
Hypothesis f_updateSession : forall u, keeps f (updateSession sessionId u).

Lemma on_qr_keeps (sessionData : SessionData) (qr : option string) :
  keeps f (on_qr toDataURL sessionId sessionData qr).
Proof.
  unfold on_qr. destruct (truthy_string qr) as [code|]; [|apply frame_ret].
  destruct (toDataURL code); [apply frame_ret|].
  apply frame_bind; [apply f_sessions_set|intros _].
  apply frame_bind; [apply f_updateSession|intros _]. apply frame_ret.
Qed.

Lemma handleConnectionUpdate_keeps (update : ConnectionUpdate) :
  keeps f (handleConnectionUpdate toDataURL userId sessionId update).
Proof.
  intros w. unfold wp, handleConnectionUpdate.
  destruct (JsMap.get sessionId (waSessions w)) as [sessionData|]; [|reflexivity].
  match goal with
  | |- match ?m w with _ => _ end =>
      change (wp m (fun _ w' => f w' = f w) (fun _ w' => f w' = f w) w);
        assert (Hk : keeps f m); [|apply Hk]
  end.
  apply frame_bind; [apply on_qr_keeps|intros sd].
  destruct (connection update) as [c|]; [|apply frame_ret].
  destruct (String.eqb c "close").
  - destruct (match lastDisconnectStatusCode update with
              | Some code => negb (code =? loggedOut)%Z
              | None => true
              end);
      (apply frame_bind; [apply f_sessions_set|intros _];
       apply frame_bind; [apply f_updateSession|intros _]; apply frame_ret).
  - destruct (String.eqb c "open"); [|apply frame_ret].
    apply frame_bind; [apply f_sessions_set|intros _].
    apply frame_bind; [apply frame_newDate|intros now].
    apply frame_bind; [apply f_updateSession|intros _]. apply frame_ret.
Qed.

Lemma disconnectSession_keeps (logout : string -> option Thrown) :
  keeps f (disconnectSession logout sessionId).
Proof.
  intros w. unfold wp, disconnectSession.
  match goal with
  | |- match ?m w with _ => _ end =>
      change (wp m (fun _ w' => f w' = f w) (fun _ w' => f w' = f w) w);
        assert (Hk : keeps f m); [|apply Hk]
  end.
  apply frame_bind.
  - destruct (JsMap.get sessionId (waSessions w)) as [sd|]; [|apply frame_ret].
    destruct (socket sd); [|apply frame_ret].
    destruct (logout sessionId); [apply frame_throw|apply f_sessions_set].
  - intros _. apply frame_bind; [apply f_sessions_delete|intros _].
    apply f_updateSession.
Qed.

End Keeps.

Lemma sessions_set_other (k : string) (sessionData : SessionData) :
  k <> sessionId ->
  keeps (fun w => JsMap.get k (waSessions w)) (sessions_set sessionId sessionData).
Proof. intros Hne w. cbn. now apply get_set_other. Qed.

Lemma sessions_delete_other (k : string) :
  k <> sessionId ->
  keeps (fun w => JsMap.get k (waSessions w)) (sessions_delete sessionId).
Proof.
  intros Hne w. unfold wp, sessions_delete. cbn [waSessions with_waSessions].
  now apply get_delete_other.
Qed.

Lemma sendMessage_not_connected (env : Env) (toNumber message : string)
  (mediaUrl mediaType : option string) (w : World) :
  connected_channel sessionId w = false ->
  sendMessage env sessionId toNumber message mediaUrl mediaType w
  = Throw (ErrorObject "WhatsApp session not connected") w.
Proof.
  unfold connected_channel, sendMessage. now intros ->.
Qed.

Lemma wp_updateSession_channels (u : WhatsappSession.Partial.t)
  (Q : unit -> World -> Prop) (w : World) :
  (forall w', waSessions w' = waSessions w -> Q tt w') ->
  wp (updateSession sessionId u) Q never w.
Proof.
  intros HQ. unfold wp, updateSession, bind, storage_call, ret.
  destruct (MemStorage.updateSession sessionId u (storage w)). now apply HQ.
Qed.

Lemma wp_sessions_set (sessionData : SessionData) (Q : unit -> World -> Prop) (w : World) :
  (forall w', JsMap.get sessionId (waSessions w') = Some sessionData -> Q tt w') ->
  wp (sessions_set sessionId sessionData) Q never w.
Proof.
  intros HQ. unfold wp, sessions_set. apply HQ. cbn. apply get_set_same.
Qed.

Lemma on_qr_channel (sessionData : SessionData) (qr : option string) (w : World) :
  JsMap.get sessionId (waSessions w) = Some sessionData ->
  wp (on_qr toDataURL sessionId sessionData qr)
     (fun sessionData' w' =>
        JsMap.get sessionId (waSessions w') = Some sessionData'
        /\ socket sessionData' = socket sessionData)
     never w.
Proof.
  intros Hreg. unfold on_qr.
  destruct (truthy_string qr) as [code|]; [|now split].
  destruct (toDataURL code) as [e|url]; [now split|].
  apply wp_bind, wp_sessions_set. intros w1 H1.
  apply wp_bind, wp_updateSession_channels. intros w2 H2.
  apply wp_ret. rewrite H2. now split.
Qed.

(** The channel after a connection update. *)
Lemma handleConnectionUpdate_channel (update : ConnectionUpdate) (w : World)
  (sessionData : SessionData) :
  JsMap.get sessionId (waSessions w) = Some sessionData ->
  wp (handleConnectionUpdate toDataURL userId sessionId update)
     (fun reconnect w' =>
        exists sessionData',
          JsMap.get sessionId (waSessions w') = Some sessionData'
          /\ (connection update = Some "close" ->
              connected_channel sessionId w' = false
              /\ reconnect
                 = negb (match lastDisconnectStatusCode update with
                         | Some code => (code =? loggedOut)%Z
                         | None => false
                         end)
              /\ (reconnect = false -> socket sessionData' = false))
          /\ (connection update = Some "open" ->
              reconnect = false
              /\ status sessionData' = "connected" /\ qr sessionData' = None
              /\ connected_channel sessionId w' = socket sessionData))
     never w.
Proof.
  intros Hreg.
  match goal with |- wp _ ?Q _ w => set (Post := Q) end.
  unfold wp, handleConnectionUpdate. rewrite Hreg.
  match goal with
  | |- match ?m w with _ => _ end => change (wp m Post never w)
  end.
  subst Post. apply wp_bind.
  eapply wp_mono; [| |apply (on_qr_channel sessionData (updateQr update) w Hreg)];
    cbv beta; [|auto].
  intros sd1 w1 [H1 Hs1].
  destruct (connection update) as [c|].
  2: { apply wp_ret. exists sd1. split; [exact H1|]. split; discriminate. }
  destruct (String.eqb c "close") eqn:Ec.
  - apply String.eqb_eq in Ec. subst c.
    destruct (lastDisconnectStatusCode update) as [code|];
      [destruct (code =? loggedOut)%Z|]; cbn [negb];
      (apply wp_bind, wp_sessions_set; intros w2 H2;
       apply wp_bind, wp_updateSession_channels; intros w3 H3;
       apply wp_ret; eexists; rewrite H3; (split; [exact H2|]);
       (split; [intros _|discriminate]);
       unfold connected_channel; rewrite H3, H2; cbn [socket status];
       repeat split; try reflexivity; try discriminate;
       rewrite ?andb_false_r; reflexivity).
  - destruct (String.eqb c "open") eqn:Eo.
    + apply String.eqb_eq in Eo. subst c.
      apply wp_bind, wp_sessions_set. intros w2 H2.
      apply wp_bind, wp_newDate, wp_bind, wp_updateSession_channels. intros w3 H3.
      apply wp_ret. eexists. rewrite H3. split; [exact H2|].
      split; [discriminate|intros _].
      unfold connected_channel. rewrite H3, H2. cbn [socket status qr].
      repeat split. now rewrite andb_true_r.
    + apply String.eqb_neq in Ec, Eo. apply wp_ret. exists sd1.
      split; [exact H1|]. split; intros [= ->]; congruence.
Qed.

Lemma wp_both {A} (m : M A) (Q1 Q2 : A -> World -> Prop)
  (E1 E2 : Thrown -> World -> Prop) (w : World) :
  wp m Q1 E1 w -> wp m Q2 E2 w ->
  wp m (fun a w' => Q1 a w' /\ Q2 a w') (fun e w' => E1 e w' /\ E2 e w') w.
Proof. unfold wp. destruct (m w); auto. Qed.

(** X18: handleConnectionUpdate.  The method never throws.  It leaves the
    messages sent, the auto-reply timers, the cron tasks and every other
    channel alone,
    and it leaves the store alone unless a session row has the channel name
    for identifier: the row is looked up by [storage.updateSession] under
    the name of the channel.  For a channel that is not registered nothing
    changes at all.  After a [close] no message can be sent through the
    channel, and a reconnect is asked for unless the status code says
    logged out; after an [open] the channel is connected when it has a
    socket. *)
Theorem handleConnectionUpdate_effect (update : ConnectionUpdate) (w : World) :
  wp (handleConnectionUpdate toDataURL userId sessionId update)
     (fun reconnect w' =>
        beside_channels w' = beside_channels w
        /\ (forall k, k <> sessionId ->
                      JsMap.get k (waSessions w') = JsMap.get k (waSessions w))
        /\ (MemStorage.getSession sessionId (storage w) = None -> storage w' = storage w)
        /\ (JsMap.get sessionId (waSessions w) = None -> w' = w /\ reconnect = false)
        /\ (connection update = Some "close" ->
            forall env toNumber message mediaUrl mediaType,
              sendMessage env sessionId toNumber message mediaUrl mediaType w'
              = Throw (ErrorObject "WhatsApp session not connected") w')
        /\ (forall sessionData,
              JsMap.get sessionId (waSessions w) = Some sessionData ->
              (connection update = Some "close" ->
               reconnect = negb (match lastDisconnectStatusCode update with
                                 | Some code => (code =? loggedOut)%Z
                                 | None => false
                                 end))
              /\ (connection update = Some "open" ->
                  reconnect = false
                  /\ connected_channel sessionId w' = socket sessionData)))
     never w.
Proof.
  assert (Hframe :
            wp (handleConnectionUpdate toDataURL userId sessionId update)
               (fun _ w' =>
                  beside_channels w' = beside_channels w
                  /\ (forall k, k <> sessionId ->
                                JsMap.get k (waSessions w') = JsMap.get k (waSessions w))
                  /\ (MemStorage.getSession sessionId (storage w) = None ->
                      storage w' = storage w))
               (fun _ _ => True) w).
  { pose proof (handleConnectionUpdate_keeps beside_channels
                  (fun sd w0 => eq_refl) updateSession_beside update w) as H1.
    pose proof (handleConnectionUpdate_keeps (unregistered_store sessionId)
                  (fun sd w0 => eq_refl) updateSession_unregistered update w) as H2.
    assert (H3 : forall k, k <> sessionId ->
                 wp (handleConnectionUpdate toDataURL userId sessionId update)
                    (fun _ w' => JsMap.get k (waSessions w') = JsMap.get k (waSessions w))
                    (fun _ w' => JsMap.get k (waSessions w') = JsMap.get k (waSessions w))
                    w).
    { intros k Hne.
      exact (handleConnectionUpdate_keeps (fun w0 => JsMap.get k (waSessions w0))
               (fun sd => sessions_set_other k sd Hne)
               (updateSession_channels k) update w). }
    unfold wp in *.
    destruct (handleConnectionUpdate toDataURL userId sessionId update w)
      as [r w'|e w'|why]; [|exact I|contradiction].
    split; [exact H1|]. split; [exact H3|].
    intros Hnone. now apply unregistered_store_same. }
  destruct (JsMap.get sessionId (waSessions w)) as [sessionData|] eqn:Hreg.
  - pose proof (wp_both _ _ _ _ _ w Hframe
                  (handleConnectionUpdate_channel update w sessionData Hreg)) as H.
    eapply wp_mono; [| |exact H]; cbv beta; [|now intros e w' [_ []]].
    intros reconnect w' [(Hb & Hk & Hs) (sd' & Hget & Hclose & Hopen)].
    split; [exact Hb|]. split; [exact Hk|]. split; [exact Hs|].
    split; [discriminate|]. split.
    + intros Hc env toNumber message mediaUrl mediaType.
      apply sendMessage_not_connected. now apply Hclose.
    + intros sd0 [= <-]. split.
      * intros Hc. now apply Hclose.
      * intros Ho. destruct (Hopen Ho) as (Hr & _ & _ & Hc). now split.
  - unfold wp, handleConnectionUpdate. rewrite Hreg.
    split; [reflexivity|]. split; [reflexivity|]. split; [reflexivity|].
    split; [now split|]. split; [|discriminate].
    intros _ env toNumber message mediaUrl mediaType.
    apply sendMessage_not_connected. unfold connected_channel. now rewrite Hreg.
Qed.

End Connection.

(** ** Disconnecting *)

Section Disconnect.
Variable logout : string -> option Thrown.
Variable sessionId : string.

Lemma disconnectSession_run (w : World) :
  wp (disconnectSession logout sessionId)
     (fun _ w' => getSessionStatus sessionId w' = None)
     (fun e w' =>
        w' = w /\ logout sessionId = Some e
        /\ exists sessionData,
             getSessionStatus sessionId w = Some sessionData /\ socket sessionData = true)
     w.
Proof.
  match goal with |- wp _ ?Q ?E w => set (Post := Q); set (Exc := E) end.
  unfold wp, disconnectSession.
  match goal with
  | |- match ?m w with _ => _ end => change (wp m Post Exc w)
  end.
  subst Post Exc. apply wp_bind.
  assert (Hrest : forall E w1,
             wp (bind (sessions_delete sessionId)
                   (fun _ => updateSession sessionId update_disconnected))
                (fun _ w' => getSessionStatus sessionId w' = None) E w1).
  { intros E w1. apply wp_bind. unfold wp at 1, sessions_delete.
    eapply wp_mono; [| |apply (wp_updateSession_channels sessionId)]; cbv beta.
    - intros a w' H. exact H.
    - intros e w' [].
    - intros w' H. unfold getSessionStatus. rewrite H.
      cbn [waSessions with_waSessions]. apply get_delete_same. }
  unfold getSessionStatus at 2.
  destruct (JsMap.get sessionId (waSessions w)) as [sd|] eqn:Hreg;
    [|apply wp_ret, Hrest].
  destruct (socket sd) eqn:Hs; [|apply wp_ret, Hrest].
  destruct (logout sessionId) as [e|] eqn:Hl.
  - unfold wp, throw. repeat split. now exists sd.
  - unfold wp at 1, sessions_set. apply Hrest.
Qed.

(** X19: disconnectSession.  When [logout] rejects, the method rejects with
    the same error and nothing has changed.  Otherwise the channel is no
    longer registered, so that [getSessionStatus] answers null and
    [sendMessage] through the channel throws; the other channels, the
    messages sent, the auto-reply timers and the cron tasks are as before, and the
    store is as before unless a session row has the channel name for
    identifier. *)
Theorem disconnectSession_effect (w : World) :
  match disconnectSession logout sessionId w with
  | Ok _ w' =>
      getSessionStatus sessionId w' = None
      /\ (forall env toNumber message mediaUrl mediaType,
            sendMessage env sessionId toNumber message mediaUrl mediaType w'
            = Throw (ErrorObject "WhatsApp session not connected") w')
      /\ beside_channels w' = beside_channels w
      /\ (forall k, k <> sessionId ->
                    JsMap.get k (waSessions w') = JsMap.get k (waSessions w))
      /\ (MemStorage.getSession sessionId (storage w) = None -> storage w' = storage w)
  | Throw e w' =>
      w' = w /\ logout sessionId = Some e
      /\ exists sessionData,
           getSessionStatus sessionId w = Some sessionData /\ socket sessionData = true
  | Stuck _ => False
  end.
Proof.
  pose proof (disconnectSession_run w) as Hrun.
  pose proof (disconnectSession_keeps sessionId beside_channels
                (fun sd w0 => eq_refl) (fun w0 => eq_refl)
                (updateSession_beside sessionId) logout w) as H1.
  pose proof (disconnectSession_keeps sessionId (unregistered_store sessionId)
                (fun sd w0 => eq_refl) (fun w0 => eq_refl)
                (updateSession_unregistered sessionId) logout w) as H2.
  assert (H3 : forall k, k <> sessionId ->
               wp (disconnectSession logout sessionId)
                  (fun _ w' => JsMap.get k (waSessions w') = JsMap.get k (waSessions w))
                  (fun _ w' => JsMap.get k (waSessions w') = JsMap.get k (waSessions w))
                  w).
  { intros k Hne.
    exact (disconnectSession_keeps sessionId (fun w0 => JsMap.get k (waSessions w0))
             (fun sd => sessions_set_other sessionId k sd Hne)
             (sessions_delete_other sessionId k Hne)
             (updateSession_channels sessionId k) logout w). }
  unfold wp in *.
  destruct (disconnectSession logout sessionId w) as [[] w'|e w'|why];
    [|exact Hrun|contradiction].
  split; [exact Hrun|]. split.
  - intros env toNumber message mediaUrl mediaType.
    apply sendMessage_not_connected. unfold connected_channel.
    unfold getSessionStatus in Hrun. now rewrite Hrun.
  - split; [exact H1|]. split; [exact H3|].
    intros Hnone. now apply (unregistered_store_same sessionId).
Qed.

End Disconnect.

End GatewayState.
(* ================================================================== *)
(** * The dispatch loop: what a tick does to an entry, and what it leaves
      alone *)
(* ================================================================== *)

Module DispatchFrame.
Import Runtime SchedulerService Notions ServiceNotions RunRules FrameRules JsMapFacts
  JsMapMoreFacts.

Local Open Scope string_scope.
Local Open Scope list_scope.

Lemma cores_set_same {R C : Type} (core : R -> C) (k : string) (v v0 : R) (m : JsMap.t R) :
  JsMap.get k m = Some v0 -> core v = core v0 ->
  cores core (JsMap.set k v m) = cores core m.
Proof.
  unfold cores. intros Hget Hcore.
  induction m as [|[k' v'] r IH]; cbn [JsMap.set JsMap.get map fst snd] in *;
    [discriminate|].
  destruct (String.eqb k' k) eqn:E; cbn [map fst snd].
  - apply String.eqb_eq in E. injection Hget as ->. now rewrite Hcore, E.
  - now rewrite IH.
Qed.

Section WithEnv.
Variable env : Env.

(** ** What a tick leaves alone *)

Lemma updateQueuedMessage_beside (id : string) (u : MessageQueue.Partial.t) :
  entry_core_kept u = true ->
  keeps beside_dispatch (updateQueuedMessage id u).
Proof.
  intros Hu. unfold updateQueuedMessage.
  apply frame_bind; [|intros; apply frame_ret].
  apply frame_storage_call. intros w.
  unfold beside_dispatch, MemStorage.updateQueuedMessage. cbn [storage with_storage].
  destruct (JsMap.get id (MemStorage.messageQueue (storage w))) as [m|] eqn:E;
    cbn [snd]; [|reflexivity].
  cbn [MemStorage.with_messageQueue MemStorage.users MemStorage.contacts
         MemStorage.sessions MemStorage.autoReplyRules MemStorage.campaigns
         MemStorage.messageQueue].
  rewrite (cores_set_same entry_core id _ m _ E); [reflexivity|].
  destruct u as [a b c d e f g h i j k l n]. unfold entry_core_kept in Hu.
  cbn in Hu. unfold entry_core, MessageQueue.spread. cbn.
  destruct a, b, c, d, e, f, h, j, l, n; try discriminate. reflexivity.
Qed.

Lemma updateCampaign_beside (id : string) (u : Campaign.Partial.t) :
  campaign_core_kept u = true ->
  keeps beside_dispatch (updateCampaign id u).
Proof.
  intros Hu. unfold updateCampaign.
  apply frame_bind; [|intros; apply frame_ret].
  apply frame_storage_call. intros w.
  unfold beside_dispatch, MemStorage.updateCampaign. cbn [storage with_storage].
  destruct (JsMap.get id (MemStorage.campaigns (storage w))) as [c|] eqn:E;
    cbn [snd]; [|reflexivity].
  cbn [MemStorage.with_campaigns MemStorage.users MemStorage.contacts
         MemStorage.sessions MemStorage.autoReplyRules MemStorage.campaigns
         MemStorage.messageQueue].
  rewrite (cores_set_same campaign_core id _ c _ E); [reflexivity|].
  destruct u as [a b c0 d e f g h i j k l m n o]. unfold campaign_core_kept in Hu.
  cbn in Hu. unfold campaign_core, Campaign.spread. cbn.
  destruct a, b, c0, d, e, f, h, i, j, l, m, n, o; try discriminate. reflexivity.
Qed.

Lemma sendMessage_beside (sessionId toNumber message : string)
  (mediaUrl mediaType : option string) :
  keeps beside_dispatch
    (WhatsAppService.sendMessage env sessionId toNumber message mediaUrl mediaType).
Proof.
  intros w.
  pose proof (GatewayFacts.sendMessage_cases env sessionId toNumber message mediaUrl
                mediaType w) as H.
  unfold wp.
  destruct (WhatsAppService.sendMessage env sessionId toNumber message mediaUrl mediaType w)
    as [answer w'|e w'|why]; [| |exact H].
  - destruct H as (_ & _ & m & _ & _ & _ & ->). reflexivity.
  - destruct H as [(_ & _ & ->)|(_ & [->| ->])]; reflexivity.
Qed.

Lemma count_sent_beside (message : MessageQueue.t) :
  keeps beside_dispatch (count_sent message).
Proof.
  unfold count_sent.
  destruct (truthy_string (MessageQueue.campaignId message)) as [cid|];
    [|apply frame_ret].
  apply frame_bind; [apply frame_storage_read|intros [c|]]; [|apply frame_ret].
  now apply updateCampaign_beside.
Qed.

Lemma process_message_beside (session : WhatsappSession.t) (batchSize : Z)
  (message : MessageQueue.t) :
  keeps beside_dispatch (process_message env session batchSize message).
Proof.
  unfold process_message. apply frame_try_catch.
  - apply frame_bind; [apply frame_storage_read|intros [contact|]]; [|apply frame_ret].
    apply frame_bind; [apply sendMessage_beside|intros _].
    apply frame_bind; [apply frame_newDate|intros now].
    apply frame_bind; [now apply updateQueuedMessage_beside|intros _].
    apply frame_bind; [apply count_sent_beside|intros _].
    destruct (1 <? batchSize)%Z; [|apply frame_ret].
    intros w. reflexivity.
  - intros e. now apply updateQueuedMessage_beside.
Qed.

Lemma checkCampaignCompletion_beside (campaignId : string) :
  keeps beside_dispatch (checkCampaignCompletion campaignId).
Proof.
  unfold checkCampaignCompletion.
  apply frame_bind; [apply frame_storage_read|intros [c|]]; [|apply frame_ret].
  apply frame_bind; [apply frame_storage_read|intros pendingMessages].
  destruct (List.length _ =? 0)%nat; [|apply frame_ret].
  now apply updateCampaign_beside.
Qed.

Lemma process_session_beside (session : WhatsappSession.t) :
  keeps beside_dispatch (process_session env session).
Proof.
  unfold process_session.
  destruct (negb _); [apply frame_ret|].
  apply frame_bind; [apply frame_storage_read|intros [|firstMessage rest]];
    [apply frame_ret|].
  apply frame_bind; [apply frame_storage_read|intros rateLimit].
  apply frame_bind; [apply frame_for_of; intros m; apply process_message_beside|intros _].
  destruct (truthy_string (MessageQueue.campaignId firstMessage));
    [apply checkCampaignCompletion_beside|apply frame_ret].
Qed.

(** X20: what a dispatch tick leaves alone.  [processQueuedMessages] never
    throws, and it changes nothing but the [status], [sentAt] and
    [errorMessage] of queue entries, the [status] and [messagesSent] of
    campaigns, the analytics rows, the messages sent and the clock: no queue
    entry or campaign is added, removed or reordered, no entry becomes
    [delivered], the counters [messagesDelivered] and [messagesResponded]
    and [totalRecipients] do not move, and users, contacts, sessions, rules,
    channels, cron tasks and timers are untouched. *)
Theorem tick_frame (w : World) :
  wp (processQueuedMessages env)
     (fun _ w' => beside_dispatch w' = beside_dispatch w) never w.
Proof.
  assert (Hk : keeps beside_dispatch (processQueuedMessages env)).
  { unfold processQueuedMessages. apply frame_try_catch; [|intros; apply frame_ret].
    apply frame_bind; [apply frame_storage_read|intros sessions].
    apply frame_for_of. intros session. apply process_session_beside. }
  destruct (DispatchTick.processQueuedMessages_ok env w) as (w' & Hok & _).
  specialize (Hk w). unfold wp in *. now rewrite Hok in *.
Qed.

(** ** What a tick does to one entry *)

Lemma truthy_string_twice (v : option string) :
  truthy_string (truthy_string v) = truthy_string v.
Proof.
  destruct v as [x|]; cbn [truthy_string]; [|reflexivity].
  destruct (String.eqb x EmptyString) eqn:E; cbn [truthy_string]; [reflexivity|].
  now rewrite E.
Qed.

Lemma count_sent_run (message : MessageQueue.t) (w : World) :
  exists w',
    count_sent message w = Ok tt w'
    /\ MemStorage.messageQueue (storage w') = MemStorage.messageQueue (storage w)
    /\ delivered w' = delivered w.
Proof.
  unfold count_sent.
  destruct (truthy_string (MessageQueue.campaignId message)) as [cid|]; [|now exists w].
  unfold bind, storage_read.
  destruct (MemStorage.getCampaign cid (storage w)) as [c|]; [|now exists w].
  unfold updateCampaign, bind, storage_call, ret, MemStorage.updateCampaign.
  destruct (JsMap.get cid (MemStorage.campaigns (storage w))); eexists;
    (split; [reflexivity|]); split; reflexivity.
Qed.

Lemma updateQueuedMessage_run (id : string) (u : MessageQueue.Partial.t)
  (stored : MessageQueue.t) (w : World) :
  MemStorage.getQueuedMessage id (storage w) = Some stored ->
  exists w',
    updateQueuedMessage id u w = Ok tt w'
    /\ MemStorage.getQueuedMessage id (storage w') = Some (MessageQueue.spread stored u)
    /\ (forall k, k <> id ->
                  MemStorage.getQueuedMessage k (storage w')
                  = MemStorage.getQueuedMessage k (storage w))
    /\ delivered w' = delivered w.
Proof.
  unfold MemStorage.getQueuedMessage. intros Hs.
  unfold updateQueuedMessage, bind, storage_call, ret, MemStorage.updateQueuedMessage.
  rewrite Hs. eexists. split; [reflexivity|].
  cbn [storage with_storage MemStorage.with_messageQueue MemStorage.messageQueue delivered].
  split; [apply get_set_same|]. split; [|reflexivity].
  intros k Hne. now apply get_set_other.
Qed.

(** X21: what a tick does to one entry.  Processing an entry that is stored
    in the queue never throws.  When the contact of the entry does not
    exist, nothing changes at all: the entry stays [pending].  Otherwise no
    other entry changes and either exactly one message went out, to the
    phone of the contact and through the channel of the session, and the
    entry is stored with [status] sent and [sentAt] now; or no message went
    out and the entry is stored with [status]
    failed and the message of the error, which is ['WhatsApp session not
    connected'] when the channel is not connected.  The message that goes
    out is the text of the entry when the entry has no media file or no
    media type; otherwise it is the file with the text as caption (image,
    video), the file without the text (document, audio), or the text
    without the file (any other type). *)
Theorem process_message_outcome (session : WhatsappSession.t) (batchSize : Z)
  (message stored : MessageQueue.t) (w : World) :
  MemStorage.getQueuedMessage (MessageQueue.id message) (storage w) = Some stored ->
  wp (process_message env session batchSize message)
     (fun _ w' =>
        match contact_of message (storage w) with
        | None => w' = w
        | Some contact =>
            (forall k, k <> MessageQueue.id message ->
                       MemStorage.getQueuedMessage k (storage w')
                       = MemStorage.getQueuedMessage k (storage w))
            /\ (((exists m,
                    delivered w' = delivered w ++ [m]
                    /\ via m = WhatsappSession.sessionId session
                    /\ jid m = WhatsAppService.jid_of (Contact.phone contact)
                    /\ content m
                       = match truthy_string (MessageQueue.mediaUrl message),
                               truthy_string (MessageQueue.mediaType message) with
                         | Some url, Some type =>
                             WhatsAppService.messageContent (MessageQueue.message message)
                               url type
                         | _, _ => TextContent (MessageQueue.message message)
                         end)
                 /\ MemStorage.getQueuedMessage (MessageQueue.id message) (storage w')
                    = Some (MessageQueue.spread stored
                              (MessageQueue.Partial.sent (clock w))))
                \/ (delivered w' = delivered w
                    /\ exists e,
                         MemStorage.getQueuedMessage (MessageQueue.id message) (storage w')
                         = Some (MessageQueue.spread stored
                                   (MessageQueue.Partial.failed (errorMessageOf e)))
                         /\ (connected_channel (WhatsappSession.sessionId session) w = false ->
                             e = ErrorObject "WhatsApp session not connected")))
        end)
     never w.
Proof.
  intros Hstored. unfold process_message.
  apply wp_try_catch, wp_bind, wp_storage_read.
  destruct (contact_of message (storage w)) as [contact|]; [|now apply wp_ret].
  apply wp_bind. unfold wp at 1.
  pose proof (GatewayFacts.sendMessage_cases env (WhatsappSession.sessionId session)
                (Contact.phone contact) (MessageQueue.message message)
                (truthy_string (MessageQueue.mediaUrl message))
                (truthy_string (MessageQueue.mediaType message)) w) as Hsend.
  destruct (WhatsAppService.sendMessage env (WhatsappSession.sessionId session)
              (Contact.phone contact) (MessageQueue.message message)
              (truthy_string (MessageQueue.mediaUrl message))
              (truthy_string (MessageQueue.mediaType message)) w)
    as [answer w1|e w1|why]; [| |exact Hsend].
  - destruct Hsend as (_ & _ & m & Hv & Hj & Ht & Hw1).
    rewrite !truthy_string_twice in Ht.
    assert (Hq1 : MemStorage.getQueuedMessage (MessageQueue.id message) (storage w1)
                  = Some stored) by (rewrite Hw1; exact Hstored).
    assert (Hc1 : clock w1 = clock w) by (now rewrite Hw1).
    assert (Hd1 : delivered w1 = delivered w ++ [m]) by (now rewrite Hw1).
    assert (Hs1 : forall k, MemStorage.getQueuedMessage k (storage w1)
                            = MemStorage.getQueuedMessage k (storage w))
      by (intros k; now rewrite Hw1).
    clear Hw1.
    apply wp_bind, wp_newDate, wp_bind. rewrite Hc1.
    destruct (updateQueuedMessage_run (MessageQueue.id message)
                (MessageQueue.Partial.sent (clock w)) stored w1 Hq1)
      as (w2 & Hrun2 & Hq2 & Ho2 & Hd2).
    unfold wp at 1. rewrite Hrun2.
    apply wp_bind.
    destruct (count_sent_run message w2) as (w3 & Hrun3 & Hq3 & Hd3).
    unfold wp at 1. rewrite Hrun3.
    assert (Hend : forall w4,
               storage w4 = storage w3 -> delivered w4 = delivered w3 ->
               (forall k, k <> MessageQueue.id message ->
                          MemStorage.getQueuedMessage k (storage w4)
                          = MemStorage.getQueuedMessage k (storage w))
               /\ (((exists m0,
                       delivered w4 = delivered w ++ [m0]
                       /\ via m0 = WhatsappSession.sessionId session
                       /\ jid m0 = WhatsAppService.jid_of (Contact.phone contact)
                       /\ content m0
                          = match truthy_string (MessageQueue.mediaUrl message),
                                  truthy_string (MessageQueue.mediaType message) with
                            | Some url, Some type =>
                                WhatsAppService.messageContent
                                  (MessageQueue.message message) url type
                            | _, _ => TextContent (MessageQueue.message message)
                            end)
                    /\ MemStorage.getQueuedMessage (MessageQueue.id message) (storage w4)
                       = Some (MessageQueue.spread stored
                                 (MessageQueue.Partial.sent (clock w))))
                   \/ (delivered w4 = delivered w
                       /\ exists e,
                            MemStorage.getQueuedMessage (MessageQueue.id message)
                              (storage w4)
                            = Some (MessageQueue.spread stored
                                      (MessageQueue.Partial.failed (errorMessageOf e)))
                            /\ (connected_channel (WhatsappSession.sessionId session) w
                                = false ->
                                e = ErrorObject "WhatsApp session not connected")))).
    { intros w4 Hs4 Hd4. unfold MemStorage.getQueuedMessage in *.
      rewrite Hs4, Hq3. split.
      - intros k Hne. rewrite (Ho2 k Hne). apply Hs1.
      - left. split; [|exact Hq2].
        exists m. rewrite Hd4, Hd3, Hd2, Hd1. repeat split; auto. }
    destruct (1 <? batchSize)%Z; [apply wp_sleep|apply wp_ret]; now apply Hend.
  - assert (Hs1 : storage w1 = storage w /\ delivered w1 = delivered w)
      by (destruct Hsend as [(_ & _ & ->)|(_ & [->| ->])]; now split).
    destruct Hs1 as [Hs1 Hd1].
    assert (Hq1 : MemStorage.getQueuedMessage (MessageQueue.id message) (storage w1)
                  = Some stored) by (rewrite Hs1; exact Hstored).
    destruct (updateQueuedMessage_run (MessageQueue.id message)
                (MessageQueue.Partial.failed (errorMessageOf e)) stored w1 Hq1)
      as (w2 & Hrun2 & Hq2 & Ho2 & Hd2).
    unfold wp. rewrite Hrun2. split.
    + intros k Hne. rewrite (Ho2 k Hne). now rewrite Hs1.
    + right. split; [congruence|]. exists e. split; [exact Hq2|].
      intros Hnc. destruct Hsend as [(_ & He & _)|(Hc & _)]; congruence.
Qed.

(** ** A tick without work *)

(** X22: a tick without work.  When no session of the store has the status
    [connected], or the connected sessions have no pending entry, a tick
    returns at once and changes nothing: nothing is sent, no entry and no
    campaign is touched, the clock does not move. *)
Theorem tick_without_work (w : World) :
  Forall (fun session =>
            WhatsappSession.status session <> "connected"
            \/ MemStorage.getPendingMessages (WhatsappSession.id session) (storage w) = [])
         (MemStorage.getSessions (storage w)) ->
  processQueuedMessages env w = Ok tt w.
Proof.
  intros Hall. unfold processQueuedMessages, try_catch, bind, storage_read.
  assert (H : for_of (MemStorage.getSessions (storage w)) (process_session env) w
              = Ok tt w).
  { induction (MemStorage.getSessions (storage w)) as [|session sessions IH];
      [reflexivity|].
    inversion Hall as [|? ? Hs Hrest]; subst.
    cbn [for_of]. unfold bind.
    assert (Hone : process_session env session w = Ok tt w).
    { unfold process_session. destruct Hs as [Hs|Hs].
      - destruct (String.eqb (WhatsappSession.status session) "connected") eqn:E;
          [apply String.eqb_eq in E; contradiction|reflexivity].
      - destruct (negb _); [reflexivity|].
        unfold bind, storage_read. now rewrite Hs. }
    rewrite Hone. now apply IH. }
  now rewrite H.
Qed.

End WithEnv.

Lemma process_message_outcome_witness :
  let message := MoreFixtures.brochure in
  let w := MoreFixtures.brochure_world in
  MemStorage.getQueuedMessage "m9" (storage w) = Some message
  /\ wp (process_message Fixtures.env Fixtures.session 1 message)
        (fun _ w' =>
           (forall k, k <> "m9" ->
                      MemStorage.getQueuedMessage k (storage w')
                      = MemStorage.getQueuedMessage k (storage w))
           /\ (((exists m,
                   delivered w' = delivered w ++ [m]
                   /\ via m = "main"
                   /\ jid m = WhatsAppService.jid_of "15550001"
                   /\ content m = DocumentContent "/files/offer.pdf")
                /\ MemStorage.getQueuedMessage "m9" (storage w')
                   = Some (MessageQueue.spread message (MessageQueue.Partial.sent 1000%Z)))
               \/ (delivered w' = delivered w
                   /\ exists e,
                        MemStorage.getQueuedMessage "m9" (storage w')
                        = Some (MessageQueue.spread message
                                  (MessageQueue.Partial.failed (errorMessageOf e)))
                        /\ (connected_channel "main" w = false ->
                            e = ErrorObject "WhatsApp session not connected"))))
        never w.
Proof.
  intros message w. split; [reflexivity|].
  exact (process_message_outcome Fixtures.env Fixtures.session 1 message message w eq_refl).
Defined.

Lemma tick_without_work_witness :
  processQueuedMessages Fixtures.env Fixtures.expansion_world = Ok tt Fixtures.expansion_world.
Proof.
  apply (tick_without_work Fixtures.env Fixtures.expansion_world).
  change (MemStorage.getSessions (storage Fixtures.expansion_world)) with [Fixtures.session].
  constructor; [|constructor]. right. reflexivity.
Defined.

End DispatchFrame.
(* ================================================================== *)
(** * The scheduler: when a task fires, stopping the scheduler *)
(* ================================================================== *)

Module SchedulerFacts.
Import Runtime SchedulerService Notions ServiceNotions RunRules.

Local Open Scope string_scope.
Local Open Scope list_scope.

(** ** The expression of a date *)

Lemma start_of_minute_day (t : Z) :
  Calendar.day_number (start_of_minute t) = Calendar.day_number t.
Proof.
  unfold Calendar.day_number, start_of_minute, Calendar.msPerDay, Calendar.msPerMinute.
  Z.div_mod_to_equations. lia.
Qed.

Lemma start_of_minute_ms (t : Z) :
  Calendar.ms_in_day (start_of_minute t)
  = (Calendar.ms_in_day t - Calendar.ms_in_day t mod 60000)%Z.
Proof.
  unfold Calendar.ms_in_day, start_of_minute, Calendar.msPerDay, Calendar.msPerMinute.
  Z.div_mod_to_equations. lia.
Qed.

Lemma cycle_day (t : Z) :
  Calendar.day_number (t + calendar_cycle) = (Calendar.day_number t + 146097)%Z.
Proof.
  unfold Calendar.day_number, calendar_cycle, Calendar.msPerDay.
  Z.div_mod_to_equations. lia.
Qed.

Lemma cycle_ms (t : Z) :
  Calendar.ms_in_day (t + calendar_cycle) = Calendar.ms_in_day t.
Proof.
  unfold Calendar.ms_in_day, calendar_cycle, Calendar.msPerDay.
  Z.div_mod_to_equations. lia.
Qed.

(** The calendar repeats after 146097 days, 400 years later. *)
Lemma civil_of_days_cycle (days : Z) :
  Calendar.civil_of_days (days + 146097)
  = (let '(y, m, d) := Calendar.civil_of_days days in ((y + 400)%Z, m, d)).
Proof.
  unfold Calendar.civil_of_days.
  assert (He : ((days + 146097 + 719468) / 146097 = (days + 719468) / 146097 + 1)%Z)
    by (Z.div_mod_to_equations; lia).
  rewrite He.
  replace (days + 146097 + 719468 - ((days + 719468) / 146097 + 1) * 146097)%Z
    with (days + 719468 - (days + 719468) / 146097 * 146097)%Z by lia.
  cbv zeta.
  set (doe := (days + 719468 - (days + 719468) / 146097 * 146097)%Z).
  set (yoe := ((doe - doe / 1460 + doe / 36524 - doe / 146096) / 365)%Z).
  set (m := if ((5 * (doe - (365 * yoe + yoe / 4 - yoe / 100)) + 2) / 153 <? 10)%Z
            then _ else _).
  destruct (m <=? 2)%Z; f_equal; f_equal; lia.
Qed.

Section WithEnv.
Variable env : Env.
Variable fuel : nat.

(** X23: dateToCronExpression and the cron task.  The expression built for a
    date matches the first millisecond of the minute of that date as the
    server's local clock reads it: on a server on UTC the task fires at the
    start of the minute of [scheduledAt], on a server whose clock is ahead
    of UTC that much later.  An expression that matches a time matches again
    one cycle of the calendar (146097 days) later: no task is over after it
    has fired once. *)
Theorem cron_expression_matches (date t : Date) :
  cron_matches (dateToCronExpression env date) (start_of_minute (local env date)) = true
  /\ (cron_matches (dateToCronExpression env date) t = true ->
      cron_matches (dateToCronExpression env date) (t + calendar_cycle)%Z = true).
Proof.
  split.
  - unfold cron_matches, dateToCronExpression.
    cbn [cronMinute cronHour cronDayOfMonth cronMonth].
    unfold Calendar.getUTCSeconds, Calendar.getUTCMinutes, Calendar.getUTCHours,
      Calendar.getUTCDate, Calendar.getUTCMonth.
    rewrite start_of_minute_day, start_of_minute_ms.
    set (r := Calendar.ms_in_day (local env date)).
    assert (Hr : (0 <= r < 86400000)%Z)
      by (unfold r, Calendar.ms_in_day, Calendar.msPerDay; apply Z.mod_pos_bound; lia).
    rewrite !andb_true_iff, !Z.eqb_eq. unfold Calendar.msPerMinute, Calendar.msPerHour.
    repeat split; try reflexivity.
    + Z.div_mod_to_equations. lia.
    + Z.div_mod_to_equations. lia.
    + Z.div_mod_to_equations. lia.
  - unfold cron_matches.
    unfold Calendar.getUTCSeconds, Calendar.getUTCMinutes, Calendar.getUTCHours,
      Calendar.getUTCDate, Calendar.getUTCMonth.
    rewrite cycle_day, cycle_ms, civil_of_days_cycle.
    destruct (Calendar.civil_of_days (Calendar.day_number t)) as [[y m] d].
    cbn [fst snd]. trivial.
Qed.

(** ** stopScheduler *)

Lemma nth_error_stopped (job : nat) (tasks : list ScheduledTask) :
  forall a j,
    nth_error
      (map (fun it => if (fst it =? job)%nat
                      then {| expression := expression (snd it);
                              campaign := campaign (snd it); running := false |}
                      else snd it)
           (combine (seq a (List.length tasks)) tasks)) j
    = option_map (fun task => if (a + j =? job)%nat
                              then {| expression := expression task;
                                      campaign := campaign task; running := false |}
                              else task)
        (nth_error tasks j).
Proof.
  induction tasks as [|task tasks IH]; intros a j; cbn [List.length seq combine map].
  - now destruct j.
  - destruct j as [|j]; cbn [nth_error option_map fst snd].
    + now rewrite Nat.add_0_r.
    + rewrite IH. now rewrite Nat.add_succ_comm.
Qed.

Lemma stop_jobs_run :
  forall (jobs : list nat) (w : World),
    exists w',
      for_of jobs job_stop w = Ok tt w'
      /\ w' = with_cronTasks (cronTasks w') w
      /\ forall j,
           nth_error (cronTasks w') j
           = option_map (fun task => if existsb (Nat.eqb j) jobs
                                     then {| expression := expression task;
                                             campaign := campaign task; running := false |}
                                     else task)
               (nth_error (cronTasks w) j).
Proof.
  induction jobs as [|job jobs IH]; intros w; cbn [for_of existsb].
  - exists w. split; [reflexivity|]. split; [now destruct w|].
    intros j. now destruct (nth_error (cronTasks w) j).
  - unfold bind. unfold job_stop at 1.
    match goal with
    | |- context [for_of jobs job_stop ?w1] =>
        destruct (IH w1) as (w' & Hrun & Hsame & Hnth)
    end.
    exists w'. split; [exact Hrun|]. split.
    + rewrite Hsame at 1. reflexivity.
    + intros j. rewrite Hnth. cbn [cronTasks with_cronTasks].
      rewrite nth_error_stopped. cbn [Nat.add].
      destruct (nth_error (cronTasks w) j) as [task|]; cbn [option_map]; [|reflexivity].
      f_equal. destruct (j =? job)%nat; cbn [orb expression campaign];
        destruct (existsb (Nat.eqb j) jobs); reflexivity.
Qed.

Lemma cron_fire_idle (t : Date) (w : World) :
  Forall (fun task => running task = false) (cronTasks w) ->
  cron_fire env fuel t w = Ok tt (with_clock t w).
Proof.
  unfold cron_fire. generalize (with_clock t w) as w0.
  induction (cronTasks w) as [|task tasks IH]; intros w0 Hall; [reflexivity|].
  inversion Hall as [|? ? Hr Hrest]; subst.
  cbn [for_of]. rewrite Hr. cbn [andb]. unfold bind, ret. now apply IH.
Qed.

(** X24: stopScheduler.  The method never throws and sets [messageProcessor]
    to null, so that the interval does nothing any more.  It stops exactly
    the cron tasks whose handle is registered in [scheduledJobs] and empties
    that map; every other task keeps running.  When every running task was
    registered, no task fires afterwards, whatever the time. *)
Theorem stopScheduler_stops (messageProcessor : bool) (w : World) :
  exists w',
    stopScheduler messageProcessor w = Ok false w'
    /\ scheduledJobs w' = JsMap.empty
    /\ (storage w', waSessions w', timeouts w', clock w', delivered w')
       = (storage w, waSessions w, timeouts w, clock w, delivered w)
    /\ (forall job,
          nth_error (cronTasks w') job
          = option_map (fun task => if registered job w
                                    then {| expression := expression task;
                                            campaign := campaign task; running := false |}
                                    else task)
              (nth_error (cronTasks w) job))
    /\ interval_fire env false w' = Ok tt w'
    /\ ((forall job task,
           nth_error (cronTasks w) job = Some task -> running task = true ->
           registered job w = true) ->
        forall t, cron_fire env fuel t w' = Ok tt (with_clock t w')).
Proof.
  destruct (stop_jobs_run (JsMap.values (scheduledJobs w)) w) as (w1 & Hrun & Hsame & Hnth).
  exists (with_scheduledJobs JsMap.empty w1).
  split.
  { unfold stopScheduler, bind, scheduledJobs_clear, ret. now rewrite Hrun. }
  split; [reflexivity|].
  split; [rewrite Hsame; reflexivity|].
  split; [exact Hnth|].
  split; [reflexivity|].
  intros Hreg t. apply cron_fire_idle. cbn [cronTasks with_scheduledJobs].
  apply Forall_forall. intros task' Hin.
  apply In_nth_error in Hin as [job Hjob].
  rewrite Hnth in Hjob. unfold registered in Hreg.
  destruct (nth_error (cronTasks w) job) as [task|] eqn:Et; [|discriminate].
  cbn [option_map] in Hjob.
  destruct (existsb (Nat.eqb job) (JsMap.values (scheduledJobs w))) eqn:Er.
  - injection Hjob as <-. reflexivity.
  - injection Hjob as <-.
    destruct (running task) eqn:Hr; [|reflexivity].
    specialize (Hreg job task Et Hr). congruence.
Qed.


End WithEnv.

End SchedulerFacts.
(* ================================================================== *)
(** * The routes: importing contacts, deleting a campaign *)
(* ================================================================== *)

Module RoutesFacts.
Import Runtime Routes Notions ServiceNotions RunRules JsMapFacts JsMapMoreFacts.

Local Open Scope string_scope.
Local Open Scope list_scope.

Lemma get_absent {V : Type} (k : string) (m : JsMap.t V) :
  ~ In k (JsMap.keys m) -> JsMap.get k m = None.
Proof.
  unfold JsMap.keys. induction m as [|[k' v'] r IH]; intros H; cbn [JsMap.get];
    [reflexivity|].
  cbn [map fst In] in H.
  destruct (String.eqb k' k) eqn:E.
  - apply String.eqb_eq in E. exfalso. apply H. now left.
  - apply IH. intros Hin. apply H. now right.
Qed.

Lemma fresh_contact_ids_spec (env : Env) (w : World) (n : nat) :
  fresh_contact_ids env w n = true ->
  NoDup (next_uuids env w n)
  /\ (forall id, In id (next_uuids env w n) ->
                 ~ In id (JsMap.keys (MemStorage.contacts (storage w)))).
Proof.
  unfold fresh_contact_ids. intros H. apply andb_true_iff in H as [Hd Hf].
  split; [now apply DispatchTick.distinct_NoDup|].
  intros id Hin Hkey. rewrite forallb_forall in Hf.
  specialize (Hf id Hin). apply negb_true_iff in Hf.
  assert (existsb (String.eqb id) (JsMap.keys (MemStorage.contacts (storage w))) = true);
    [|congruence].
  apply existsb_exists. exists id. split; [exact Hkey|apply String.eqb_refl].
Qed.

Section WithEnv.
Variable env : Env.
Variable JSON_stringify : CsvRow -> string.
Variable String_of : Thrown -> string.

(** ** Importing contacts *)

Lemma import_row_skipped (row : CsvRow) (w : World) :
  importable row = false ->
  exists e, import_row env JSON_stringify String_of row w = Ok (Some e) w.
Proof.
  unfold importable, import_row, try_catch, contactData.
  cbn [Contact.Insert.name Contact.Insert.phone]. intros H.
  destruct (String.eqb (column_or row "name" "Name") EmptyString);
    destruct (String.eqb (column_or row "phone" "Phone") EmptyString);
    try discriminate; cbn [orb]; eexists; reflexivity.
Qed.

Lemma import_row_imported (row : CsvRow) (w : World) :
  importable row = true ->
  ~ In (randomUUID_at env (uuidsDrawn w)) (JsMap.keys (MemStorage.contacts (storage w))) ->
  exists c w',
    import_row env JSON_stringify String_of row w = Ok None w'
    /\ contact_of_row row c
    /\ Contact.id c = randomUUID_at env (uuidsDrawn w)
    /\ MemStorage.contacts (storage w')
       = MemStorage.contacts (storage w) ++ [(Contact.id c, c)]
    /\ uuidsDrawn w' = S (uuidsDrawn w)
    /\ beside_contacts w' = beside_contacts w.
Proof.
  unfold importable, import_row, try_catch, contactData.
  cbn [Contact.Insert.name Contact.Insert.phone]. intros H Hnew.
  destruct (String.eqb (column_or row "name" "Name") EmptyString); [discriminate|].
  destruct (String.eqb (column_or row "phone" "Phone") EmptyString); [discriminate|].
  cbn [orb]. unfold bind, createContact, bind, WhatsAppService.randomUUID, newDate,
    storage_call, ret. cbv beta.
  cbn [storage with_uuidsDrawn MemStorage.createContact].
  match goal with
  | |- context [JsMap.set _ ?c _] => exists c
  end.
  eexists. split; [reflexivity|].
  split; [repeat split|]. split; [reflexivity|].
  split; [|split; reflexivity].
  cbn [storage with_storage MemStorage.with_contacts MemStorage.contacts Contact.id].
  apply set_new. now apply get_absent.
Qed.

Lemma import_rows_run :
  forall (rows : list CsvRow) (w : World) (count : nat) (errs : list string),
    fresh_contact_ids env w (List.length (filter importable rows)) = true ->
    exists errs' w' created,
      import_rows env JSON_stringify String_of rows count errs w
      = Ok (count + List.length (filter importable rows), errs ++ errs') w'
      /\ List.length (filter importable rows) + List.length errs' = List.length rows
      /\ MemStorage.contacts (storage w')
         = MemStorage.contacts (storage w) ++ map (fun c => (Contact.id c, c)) created
      /\ Forall2 contact_of_row (filter importable rows) created
      /\ beside_contacts w' = beside_contacts w.
Proof.
  induction rows as [|row rows IH]; intros w count errs Hfresh.
  - exists [], w, []. cbn [import_rows filter List.length map].
    rewrite Nat.add_0_r, !app_nil_r. repeat split. constructor.
  - cbn [import_rows filter]. cbn [filter] in Hfresh. unfold bind.
    destruct (importable row) eqn:Hi.
    + cbn [List.length] in Hfresh.
      destruct (fresh_contact_ids_spec env w _ Hfresh) as [Hnd Hnew].
      unfold next_uuids in Hnd, Hnew. cbn [seq map] in Hnd, Hnew.
      destruct (import_row_imported row w Hi (Hnew _ (or_introl eq_refl)))
        as (c & w1 & H1 & Hc & Hid & Hs1 & Hu1 & Hb1).
      rewrite H1.
      inversion Hnd as [|x l Hnotin Hnd']; subst.
      destruct (IH w1 (S count) errs) as (errs' & w' & created & Hrun & Hlen & Hs & HF & Hb).
      { unfold fresh_contact_ids, next_uuids. rewrite Hu1.
        apply andb_true_iff. split.
        - apply andb_true_iff in Hfresh as [Hd _].
          unfold next_uuids in Hd. cbn [seq map distinct] in Hd.
          now apply andb_true_iff in Hd as [_ Hd].
        - apply forallb_forall. intros id Hin. apply negb_true_iff.
          destruct (existsb _ _) eqn:E; [|reflexivity]. exfalso.
          apply existsb_exists in E as (k & Hk & Heq). apply String.eqb_eq in Heq.
          subst k. rewrite Hs1 in Hk. unfold JsMap.keys in Hk.
          rewrite map_app, in_app_iff in Hk. cbn [map fst In] in Hk.
          destruct Hk as [Hold|[Heq|[]]].
          + apply (Hnew id); [now right|exact Hold].
          + rewrite Hid in Heq. subst id. contradiction. }
      exists errs', w', (c :: created). rewrite Hrun. cbn [List.length].
      split; [f_equal; f_equal; lia|]. split; [lia|].
      split; [rewrite Hs, Hs1; cbn [map]; now rewrite <- app_assoc|].
      split; [now constructor|congruence].
    + destruct (import_row_skipped row w Hi) as (e & H1).
      rewrite H1.
      destruct (IH w count (errs ++ [e]) Hfresh)
        as (errs' & w' & created & Hrun & Hlen & Hs & HF & Hb).
      exists (e :: errs'), w', created. rewrite Hrun. cbn [List.length].
      split; [now rewrite <- app_assoc|]. split; [lia|]. auto.
Qed.

(** X25: POST /api/contacts/import.  When the identifiers drawn are new, the
    loop over the rows of the file returns without exception.  A row is
    imported exactly when it has a non-empty name and phone, under the
    column name in lower case or capitalised; every other row counts as an
    error, and at most ten error texts are sent back.  The contacts of the
    imported rows are stored after the contacts that were there, in the
    order of the rows, with an empty email stored as null and the groups
    split at commas and trimmed; nothing else in the store changes, and no
    row is compared with the contacts that exist. *)
Theorem import_contacts_imports (rows : list CsvRow) (w : World) :
  fresh_contact_ids env w (List.length (filter importable rows)) = true ->
  exists result w' created,
    import_contacts env JSON_stringify String_of rows w = Ok result w'
    /\ imported result = List.length (filter importable rows)
    /\ imported result + errors result = List.length rows
    /\ List.length (errorDetails result) = Nat.min 10 (errors result)
    /\ MemStorage.getContacts (storage w') = MemStorage.getContacts (storage w) ++ created
    /\ Forall2 contact_of_row (filter importable rows) created
    /\ beside_contacts w' = beside_contacts w.
Proof.
  intros Hfresh.
  destruct (import_rows_run rows w 0 [] Hfresh)
    as (errs' & w' & created & Hrun & Hlen & Hs & HF & Hb).
  eexists. exists w', created. unfold import_contacts, bind. rewrite Hrun.
  split; [reflexivity|]. cbn [imported errors errorDetails fst snd app].
  split; [reflexivity|]. split; [exact Hlen|].
  split; [apply length_firstn|].
  split; [|split; assumption].
  unfold MemStorage.getContacts, JsMap.values. rewrite Hs, map_app, map_map.
  cbn [snd]. now rewrite map_id.
Qed.

End WithEnv.

Lemma import_contacts_imports_witness :
  exists result w' created,
    import_contacts Fixtures.env (fun _ => "{}") (fun _ => "Error") MoreFixtures.upload
      MoreFixtures.import_world
    = Ok result w'
    /\ imported result = 2
    /\ imported result + errors result = 3
    /\ List.length (errorDetails result) = Nat.min 10 (errors result)
    /\ MemStorage.getContacts (storage w') = [Fixtures.carl] ++ created
    /\ Forall2 contact_of_row [MoreFixtures.row_ann; MoreFixtures.row_bob] created
    /\ beside_contacts w' = beside_contacts MoreFixtures.import_world.
Proof.
  exact (import_contacts_imports Fixtures.env (fun _ => "{}") (fun _ => "Error")
           MoreFixtures.upload MoreFixtures.import_world eq_refl).
Defined.

(** ** Deleting a campaign *)

(** X26: DELETE /api/campaigns/:id.  The handler never answers 500.  It
    answers 200 when the campaign was in the store and 404 otherwise; in
    both cases the campaign is not in the store afterwards, no handle is
    registered for it any more, and the task that was registered for it is
    stopped.  The queue is left as it was: the entries of a deleted campaign
    stay in the queue. *)
Theorem delete_campaign_effect (id : string) (w : World) :
  exists w',
    delete_campaign id w
    = Ok (match MemStorage.getCampaign id (storage w) with
          | Some _ => 200%Z
          | None => 404%Z
          end) w'
    /\ MemStorage.getCampaign id (storage w') = None
    /\ MemStorage.messageQueue (storage w') = MemStorage.messageQueue (storage w)
    /\ JsMap.get id (scheduledJobs w') = None
    /\ (forall job task,
          JsMap.get id (scheduledJobs w) = Some job ->
          nth_error (cronTasks w) job = Some task ->
          nth_error (cronTasks w') job
          = Some {| expression := expression task; campaign := campaign task;
                    running := false |}).
Proof.
  assert (Hcancel : exists w0,
             SchedulerService.cancelScheduledCampaign id w = Ok tt w0
             /\ storage w0 = storage w
             /\ JsMap.get id (scheduledJobs w0) = None
             /\ (forall job task,
                   JsMap.get id (scheduledJobs w) = Some job ->
                   nth_error (cronTasks w) job = Some task ->
                   nth_error (cronTasks w0) job
                   = Some {| expression := expression task; campaign := campaign task;
                             running := false |})).
  { unfold SchedulerService.cancelScheduledCampaign.
    destruct (JsMap.get id (scheduledJobs w)) as [job|] eqn:Ej.
    - unfold bind, SchedulerService.job_stop, SchedulerService.scheduledJobs_delete.
      eexists. split; [reflexivity|]. split; [reflexivity|].
      cbn [scheduledJobs cronTasks with_cronTasks with_scheduledJobs].
      split; [apply get_delete_same|].
      intros job0 task [= <-] Htask.
      rewrite SchedulerFacts.nth_error_stopped, Htask. cbn [option_map Nat.add].
      now rewrite Nat.eqb_refl.
    - exists w. split; [reflexivity|]. split; [reflexivity|]. split; [exact Ej|].
      discriminate. }
  destruct Hcancel as (w0 & Hrun0 & Hs0 & Hj0 & Ht0).
  unfold delete_campaign, try_catch, bind. rewrite Hrun0.
  unfold storage_call, MemStorage.deleteCampaign, MemStorage.getCampaign.
  rewrite Hs0.
  rewrite (surjective_pairing (JsMap.delete id (MemStorage.campaigns (storage w)))).
  destruct (JsMap.get id (MemStorage.campaigns (storage w))) as [c|] eqn:E.
  - rewrite (delete_present id c _ E). cbn [negb ret].
    eexists. split; [reflexivity|].
    cbn [storage with_storage MemStorage.with_campaigns MemStorage.campaigns
           MemStorage.messageQueue scheduledJobs cronTasks].
    split; [apply get_delete_same|]. repeat split; assumption.
  - rewrite (delete_absent id _ E). cbn [fst snd negb ret].
    eexists. split; [reflexivity|].
    cbn [storage with_storage MemStorage.with_campaigns MemStorage.campaigns
           MemStorage.messageQueue scheduledJobs cronTasks].
    split; [exact E|]. repeat split; assumption.
Qed.

End RoutesFacts.
(* ================================================================== *)
(** * Personalisation of templates without nesting *)
(* ================================================================== *)

Module TemplateFacts.
Import JsString JsStringFacts Spintax SchedulerService Templates Notions
  ParseSpintaxTermination SpintaxVariations.

Local Open Scope string_scope.
Local Open Scope list_scope.

(** ** Replacing every occurrence of a placeholder *)

Section ReplaceAll.
Variable pat rep : chars.
Hypothesis rep_plain : no_dollar rep = true.

Lemma replaceAll_from_skip :
  forall x before rest,
    replaceAll_from pat rep before (x ++ rest) (List.length x)
    = replaceAll_from pat rep (before ++ x) rest 0.
Proof.
  induction x as [|c x IH]; intros before rest; cbn [app List.length].
  - now rewrite app_nil_r.
  - cbn [replaceAll_from]. rewrite IH. now rewrite <- app_assoc.
Qed.

Lemma replaceAll_from_match (p : ascii) (pat' before rest : chars) :
  pat = p :: pat' ->
  replaceAll_from pat rep before (pat ++ rest) 0
  = rep ++ replaceAll_from pat rep (before ++ pat) rest 0.
Proof.
  intros Ep.
  assert (Hs : startsWith pat (p :: pat' ++ rest) = true)
    by (rewrite Ep at 1; apply (startsWith_app (p :: pat') rest)).
  assert (Hl : List.length pat - 1 = List.length pat')
    by (rewrite Ep; cbn [List.length]; lia).
  replace (pat ++ rest) with (p :: pat' ++ rest) by (now rewrite Ep).
  cbn [replaceAll_from]. rewrite Hs, Hl.
  rewrite (GetSubstitution_no_dollar _ _ _ _ rep_plain). f_equal.
  rewrite replaceAll_from_skip. rewrite Ep. now rewrite <- app_assoc.
Qed.

End ReplaceAll.

Lemma replaceAll_from_plain (pat' rep : chars) :
  forall a before rest,
    forallb (fun c => negb (Ascii.eqb c lbrace)) a = true ->
    replaceAll_from (lbrace :: pat') rep before (a ++ rest) 0
    = a ++ replaceAll_from (lbrace :: pat') rep (before ++ a) rest 0.
Proof.
  induction a as [|c a IH]; intros before rest Ha; cbn [app].
  - now rewrite app_nil_r.
  - cbn [forallb] in Ha. apply andb_true_iff in Ha as [Hc Ha].
    apply negb_true_iff in Hc.
    cbn [replaceAll_from]. rewrite startsWith_head by (now rewrite Ascii.eqb_sym).
    f_equal. rewrite IH by exact Ha. now rewrite <- app_assoc.
Qed.

Lemma no_brace_no_lbrace (s : chars) :
  no_brace s = true -> forallb (fun c => negb (Ascii.eqb c lbrace)) s = true.
Proof.
  unfold no_brace. intros H. rewrite forallb_forall in *. intros c Hc.
  specialize (H c Hc). apply negb_true_iff in H. apply negb_true_iff.
  now apply no_brace_not_lbrace.
Qed.

Lemma no_brace_not_rbrace (c : ascii) : is_brace c = false -> Ascii.eqb c rbrace = false.
Proof. unfold is_brace. now intros H%orb_false_iff. Qed.

(** Two placeholders that start at the same place are the same one. *)
Lemma startsWith_placeholder (k g rest : chars) :
  no_brace k = true -> no_brace g = true ->
  startsWith (k ++ [rbrace]) (g ++ rbrace :: rest) = true -> k = g.
Proof.
  revert g. induction k as [|c k IH]; intros g Hk Hg H.
  - destruct g as [|d g]; [reflexivity|].
    cbn [app startsWith] in H. apply andb_true_iff in H as [H _].
    apply Ascii.eqb_eq in H. subst d.
    cbn [no_brace forallb] in Hg. apply andb_true_iff in Hg as [Hd _]. discriminate.
  - cbn [no_brace forallb] in Hk. apply andb_true_iff in Hk as [Hc Hk].
    apply negb_true_iff in Hc.
    destruct g as [|d g]; cbn [app startsWith] in H;
      apply andb_true_iff in H as [H1 H2]; apply Ascii.eqb_eq in H1.
    + subst c. discriminate.
    + subst d. f_equal. apply IH; auto.
      cbn [no_brace forallb] in Hg. now apply andb_true_iff in Hg as [_ Hg].
Qed.

(** A placeholder of another key is passed by. *)
Lemma replaceAll_from_other (key g rep before rest : chars) :
  no_brace key = true -> no_brace g = true -> key <> g ->
  replaceAll_from (fullMatch key) rep before (fullMatch g ++ rest) 0
  = fullMatch g ++ replaceAll_from (fullMatch key) rep (before ++ fullMatch g) rest 0.
Proof.
  intros Hk Hg Hne. unfold fullMatch. cbn [app replaceAll_from].
  destruct (startsWith (lbrace :: key ++ [rbrace]) (lbrace :: (g ++ [rbrace]) ++ rest))
    eqn:Es.
  - exfalso. cbn [startsWith] in Es. apply andb_true_iff in Es as [_ Es].
    rewrite <- app_assoc in Es. cbn [app] in Es.
    now apply (startsWith_placeholder _ _ _ Hk Hg) in Es.
  - f_equal. rewrite replaceAll_from_plain.
    + f_equal. now rewrite <- app_assoc.
    + rewrite forallb_app, (no_brace_no_lbrace _ Hg). reflexivity.
Qed.

(** A template with the placeholders of one key exchanged for a value. *)
Lemma replaceAll_segments (key value : string) :
  no_brace (of_string key) = true ->
  no_dollar (of_string value) = true ->
  forall segs before,
    forallb well_formed segs = true ->
    replaceAll_from (fullMatch (of_string key)) (of_string value) before
      (List.concat (map segment_text segs)) 0
    = List.concat (map segment_text (map (fill [(key, value)]) segs)).
Proof.
  intros Hk Hv. induction segs as [|seg segs IH]; intros before Hw; [reflexivity|].
  cbn [forallb] in Hw. apply andb_true_iff in Hw as [Hseg Hw].
  cbn [map List.concat]. destruct seg as [s|g]; cbn [well_formed] in Hseg.
  - cbn [fill segment_text]. unfold fullMatch at 1.
    rewrite replaceAll_from_plain by (now apply no_brace_no_lbrace).
    f_equal. now apply IH.
  - cbn [fill value_of segment_text].
    destruct (String.eqb key g) eqn:E.
    + apply String.eqb_eq in E. subst g. cbn [segment_text].
      rewrite (replaceAll_from_match _ _ Hv lbrace (of_string key ++ [rbrace]))
        by reflexivity.
      f_equal. now apply IH.
    + cbn [segment_text]. apply String.eqb_neq in E.
      rewrite replaceAll_from_other; auto.
      * f_equal. now apply IH.
      * intros Heq. apply E.
        now rewrite <- (to_of_string key), <- (to_of_string g), Heq.
Qed.

(** ** personalizeMessage on such templates *)

Lemma of_string_app (a b : string) :
  of_string (a ++ b)%string = of_string a ++ of_string b.
Proof.
  unfold of_string. induction a as [|c a IH]; cbn [append list_ascii_of_string app];
    [reflexivity|]. now rewrite IH.
Qed.

Lemma of_string_placeholder (key : string) :
  of_string ("{" ++ key ++ "}")%string = fullMatch (of_string key).
Proof.
  change ("{" ++ key ++ "}")%string with (String "{"%char (key ++ "}")%string).
  unfold fullMatch. change (of_string (String "{"%char (key ++ "}")%string))
    with (lbrace :: of_string (key ++ "}")%string).
  now rewrite of_string_app.
Qed.

Lemma replace_global_segments (key value : string) (segs : list Segment) :
  no_brace (of_string key) = true ->
  no_dollar (of_string value) = true ->
  forallb well_formed segs = true ->
  replace_global ("{" ++ key ++ "}")%string value (template_text segs)
  = template_text (map (fill [(key, value)]) segs).
Proof.
  intros Hk Hv Hw. unfold replace_global, template_text, replaceAll.
  rewrite of_to_string, of_string_placeholder. f_equal.
  now apply replaceAll_segments.
Qed.

Lemma fill_well_formed (key value : string) (segs : list Segment) :
  no_brace (of_string value) = true ->
  forallb well_formed segs = true ->
  forallb well_formed (map (fill [(key, value)]) segs) = true.
Proof.
  intros Hv. induction segs as [|seg segs IH]; cbn [map forallb]; [reflexivity|].
  intros Hw. apply andb_true_iff in Hw as [Hseg Hw]. rewrite (IH Hw), andb_true_r.
  destruct seg as [s|g]; cbn [fill value_of]; [exact Hseg|].
  destruct (String.eqb key g); [exact Hv|exact Hseg].
Qed.

Lemma fill_twice (key value : string) (rest : list (string * string)) (seg : Segment) :
  fill rest (fill [(key, value)] seg) = fill ((key, value) :: rest) seg.
Proof.
  destruct seg as [s|g]; cbn [fill value_of]; [reflexivity|].
  destruct (String.eqb key g); reflexivity.
Qed.

Lemma fill_nothing (seg : Segment) : fill [] seg = seg.
Proof. now destruct seg. Qed.

(** The replacements one after the other. *)
Lemma replacements_fill :
  forall (bindings : list (string * string)) (segs : list Segment),
    forallb (fun kv => no_brace (of_string (fst kv))
                       && (no_dollar (of_string (snd kv)) && no_brace (of_string (snd kv))))
            bindings = true ->
    forallb well_formed segs = true ->
    fold_left (fun message kv => replace_global ("{" ++ fst kv ++ "}")%string (snd kv) message)
      bindings (template_text segs)
    = template_text (map (fill bindings) segs).
Proof.
  intros bs; induction bs as [|[key value] rest IH]; intros segs Hb Hw; cbn [fold_left].
  - replace (map (fill []) segs) with segs; [reflexivity|].
    clear Hw. induction segs as [|seg segs IHs]; cbn [map]; [reflexivity|].
    now rewrite fill_nothing, <- IHs.
  - cbn [forallb fst snd] in Hb. apply andb_true_iff in Hb as [Hkv Hb].
    apply andb_true_iff in Hkv as [Hk Hv]. apply andb_true_iff in Hv as [Hd Hn].
    cbn [fst snd]. rewrite (replace_global_segments key value segs Hk Hd Hw).
    rewrite IH; [|exact Hb|now apply fill_well_formed].
    f_equal. rewrite map_map. apply map_ext. intros seg. apply fill_twice.
Qed.

Lemma plain_key_no_brace (key : string) :
  plain_key key = true -> no_brace (of_string key) = true.
Proof.
  unfold plain_key, no_brace. intros H. rewrite forallb_forall in *. intros c Hc.
  specialize (H c Hc). apply negb_true_iff in H. apply negb_true_iff.
  unfold is_brace. destruct (Ascii.eqb c lbrace) eqn:El.
  - apply Ascii.eqb_eq in El. subst c. discriminate.
  - destruct (Ascii.eqb c rbrace) eqn:Er; [|reflexivity].
    apply Ascii.eqb_eq in Er. subst c. discriminate.
Qed.

Lemma replace_metadata_fold :
  forall (entries : list (string * string)) (message : string),
    forallb (fun kv => plain_key (fst kv)) entries = true ->
    replace_metadata entries message
    = Value (fold_left
               (fun message kv => replace_global ("{" ++ fst kv ++ "}")%string (snd kv) message)
               (map (fun kv => (fst kv, string_or (Some (snd kv)) EmptyString)) entries)
               message).
Proof.
  induction entries as [|[key value] rest IH]; intros message Hp;
    cbn [replace_metadata map fold_left]; [reflexivity|].
  cbn [forallb fst] in Hp. apply andb_true_iff in Hp as [Hk Hp].
  unfold RegExp_of_key. rewrite Hk. cbn [fst snd]. now apply IH.
Qed.

(** X27: personalizeMessage on a template without nesting.  For a template
    made of texts without braces and of placeholders, and a contact whose
    metadata keys hold no regular-expression syntax and whose values hold
    neither a dollar sign nor a brace, the message is the template with
    every placeholder exchanged for what its key stands for: the first
    binding of the key among [name] (['there'] when absent), [phone] and
    [email] (empty when absent) and then the metadata entries; a placeholder
    without binding stays as it is written. *)
Theorem personalizeMessage_fills (segs : list Segment) (contact : AnyContact) :
  forallb well_formed segs = true ->
  plain_metadata contact = true ->
  plain_values contact = true ->
  personalizeMessage (template_text segs) contact
  = Value (template_text (map (fill (bindings_of contact)) segs)).
Proof.
  intros Hw Hkeys Hvalues.
  assert (Hfold : personalizeMessage (template_text segs) contact
                  = Value (fold_left
                             (fun message kv =>
                                replace_global ("{" ++ fst kv ++ "}")%string (snd kv) message)
                             (bindings_of contact) (template_text segs))).
  { unfold personalizeMessage, bindings_of, plain_metadata in *.
    rewrite fold_left_app. cbn [fold_left fst snd append].
    destruct (metadata contact) as [entries|]; [|reflexivity].
    now apply replace_metadata_fold. }
  rewrite Hfold. f_equal. apply replacements_fill; [|exact Hw].
  unfold plain_values in Hvalues. unfold bindings_of, plain_metadata in *.
  rewrite forallb_app in *. apply andb_true_iff in Hvalues as [H3 Hm].
  apply andb_true_iff. split.
  - cbn [forallb fst snd] in *.
    repeat match goal with
           | H : _ && _ = true |- _ => apply andb_true_iff in H as [? ?]
           end.
    repeat (apply andb_true_iff; split); auto.
  - destruct (metadata contact) as [entries|]; [|reflexivity].
    rewrite forallb_forall in *. intros [k v] Hin.
    specialize (Hm (k, v) Hin). cbn [fst snd] in *. rewrite Hm, andb_true_r.
    apply in_map_iff in Hin as ([k0 v0] & [= <- <-] & Hin0).
    apply plain_key_no_brace. exact (Hkeys (k0, v0) Hin0).
Qed.

Lemma personalizeMessage_fills_witness :
  personalizeMessage "Hi {name} from {city}! {x}" MoreFixtures.carl_record
  = Value "Hi Carl from Rome! {x}".
Proof.
  exact (personalizeMessage_fills MoreFixtures.greeting MoreFixtures.carl_record
           eq_refl eq_refl eq_refl).
Defined.

(** ** What a placeholder stands for *)

Lemma value_of_metadata (key : string) (entries : list (string * string)) :
  value_of key (map (fun kv => (fst kv, string_or (Some (snd kv)) EmptyString)) entries)
  = value_of key entries.
Proof.
  induction entries as [|[k v] rest IH]; cbn [map value_of fst snd]; [reflexivity|].
  rewrite IH. destruct (String.eqb k key); [|reflexivity].
  unfold string_or, truthy_string.
  destruct (String.eqb v EmptyString) eqn:E; [|reflexivity].
  apply String.eqb_eq in E. now subst v.
Qed.

Lemma value_of_beside_fields (key : string) (contact : AnyContact) :
  key <> "name" -> key <> "phone" -> key <> "email" ->
  value_of key (bindings_of contact)
  = match metadata contact with
    | Some entries => value_of key entries
    | None => None
    end.
Proof.
  intros Hn Hp He. unfold bindings_of. cbn [app value_of].
  assert (H : forall k, key <> k -> String.eqb k key = false).
  { intros k Hk. apply String.eqb_neq. congruence. }
  rewrite (H "name" Hn), (H "phone" Hp), (H "email" He).
  destruct (metadata contact) as [entries|]; [apply value_of_metadata|reflexivity].
Qed.

(** C5, amended.  For a contact whose metadata keys hold no
    regular-expression syntax, [personalizeMessage] returns a message and
    does not throw, whatever the template.  When moreover the template is
    made of texts without braces and of placeholders, and the values of the
    contact hold neither a dollar sign nor a brace, the message is the
    template with every placeholder filled in: [{name}] by the name, or by
    ['there'] when the name is absent or empty, [{phone}] and [{email}] by
    their value, or by the empty string when absent, [{key}] by the value of
    the metadata key [key] of the contact; the placeholder of a key the
    contact does not have stays in the text as it is written.  A template
    that holds no placeholder of the contact comes back unchanged.  So
    [personalize("Hi {x}", {})] is ["Hi {x}"] and
    [personalize("Hello {name}", {name:"Ann"})] is ["Hello Ann"]. *)
Theorem personalizeMessage_placeholders :
  (forall (template : string) (contact : AnyContact),
      plain_metadata contact = true ->
      exists out, personalizeMessage template contact = Value out)
  /\ (forall (segs : list Segment) (contact : AnyContact),
        forallb well_formed segs = true ->
        plain_metadata contact = true ->
        plain_values contact = true ->
        personalizeMessage (template_text segs) contact
        = Value (template_text (map (fill (bindings_of contact)) segs)))
  /\ (forall contact : AnyContact,
        fill (bindings_of contact) (Placeholder "name")
        = Plain (match truthy_string (name contact) with Some n => n | None => "there" end)
        /\ fill (bindings_of contact) (Placeholder "phone")
           = Plain (match truthy_string (phone contact) with Some p => p | None => "" end)
        /\ fill (bindings_of contact) (Placeholder "email")
           = Plain (match truthy_string (email contact) with Some e => e | None => "" end)
        /\ (forall key entries value,
              key <> "name" -> key <> "phone" -> key <> "email" ->
              metadata contact = Some entries ->
              value_of key entries = Some value ->
              fill (bindings_of contact) (Placeholder key) = Plain value)
        /\ (forall key,
              key <> "name" -> key <> "phone" -> key <> "email" ->
              match metadata contact with
              | Some entries => value_of key entries = None
              | None => True
              end ->
              fill (bindings_of contact) (Placeholder key) = Placeholder key))
  /\ (forall (template : string) (contact : AnyContact),
        plain_metadata contact = true ->
        mentions_no_key_of template contact = true ->
        personalizeMessage template contact = Value template)
  /\ personalizeMessage "Hi {x}" Fixtures.nobody = Value "Hi {x}"
  /\ personalizeMessage "Hello {name}" Fixtures.just_ann = Value "Hello Ann"
  /\ personalizeMessage "{name}/{phone}/{email}" Fixtures.nobody = Value "there//"
  /\ personalizeMessage "Dear {name}, call {phone} or write to {email} in {city} {x}"
       MoreFixtures.carl_full
     = Value "Dear Carl, call 15550003 or write to carl@example.org in Rome {x}".
Proof.
  split; [|split; [|split; [|split; [|repeat split; reflexivity]]]].
  - intros template contact Hp. unfold personalizeMessage, plain_metadata in *.
    destruct (metadata contact) as [entries|]; [|eauto].
    now apply PersonalizeFacts.replace_metadata_plain.
  - intros segs contact Hw Hkeys Hvalues.
    assert (Hfold : personalizeMessage (template_text segs) contact
                    = Value (fold_left
                               (fun message kv =>
                                  replace_global ("{" ++ fst kv ++ "}")%string (snd kv)
                                    message)
                               (bindings_of contact) (template_text segs))).
    { unfold personalizeMessage, bindings_of, plain_metadata in *.
      rewrite fold_left_app. cbn [fold_left fst snd append].
      destruct (metadata contact) as [entries|]; [|reflexivity].
      now apply replace_metadata_fold. }
    rewrite Hfold. f_equal. apply replacements_fill; [|exact Hw].
    unfold plain_values in Hvalues. unfold bindings_of, plain_metadata in *.
    rewrite forallb_app in *. apply andb_true_iff in Hvalues as [H3 Hm].
    apply andb_true_iff. split.
    + cbn [forallb fst snd] in *.
      repeat match goal with
             | H : _ && _ = true |- _ => apply andb_true_iff in H as [? ?]
             end.
      repeat (apply andb_true_iff; split); auto.
    + destruct (metadata contact) as [entries|]; [|reflexivity].
      rewrite forallb_forall in *. intros [k v] Hin.
      specialize (Hm (k, v) Hin). cbn [fst snd] in *. rewrite Hm, andb_true_r.
      apply in_map_iff in Hin as ([k0 v0] & [= <- <-] & Hin0).
      apply plain_key_no_brace. exact (Hkeys (k0, v0) Hin0).
  - intros contact. split; [reflexivity|]. split; [reflexivity|]. split; [reflexivity|].
    split.
    + intros key entries value Hn Hp He Hm Hv. cbn [fill].
      now rewrite (value_of_beside_fields key contact Hn Hp He), Hm, Hv.
    + intros key Hn Hp He Hm. cbn [fill].
      rewrite (value_of_beside_fields key contact Hn Hp He).
      destruct (metadata contact) as [entries|]; [now rewrite Hm|reflexivity].
  - intros template contact Hp Hm.
    unfold personalizeMessage, plain_metadata, mentions_no_key_of in *.
    apply andb_true_iff in Hm as [Hm Hmeta].
    apply andb_true_iff in Hm as [Hm Hemail].
    apply andb_true_iff in Hm as [Hname Hphone].
    apply negb_true_iff in Hname, Hphone, Hemail.
    unfold mentions in Hname, Hphone, Hemail.
    rewrite (PersonalizeFacts.replace_global_absent "{name}" _ template Hname).
    rewrite (PersonalizeFacts.replace_global_absent "{phone}" _ template Hphone).
    rewrite (PersonalizeFacts.replace_global_absent "{email}" _ template Hemail).
    destruct (metadata contact) as [entries|]; [|reflexivity].
    now apply PersonalizeFacts.replace_metadata_unmentioned.
Qed.

Lemma personalizeMessage_placeholders_witness :
  (forallb well_formed MoreFixtures.card = true
   /\ plain_metadata MoreFixtures.carl_full = true
   /\ plain_values MoreFixtures.carl_full = true)
  /\ personalizeMessage "Dear {name}, call {phone} or write to {email} in {city} {x}"
       MoreFixtures.carl_full
     = Value "Dear Carl, call 15550003 or write to carl@example.org in Rome {x}"
  /\ fill (bindings_of MoreFixtures.carl_full) (Placeholder "city") = Plain "Rome"
  /\ fill (bindings_of MoreFixtures.carl_full) (Placeholder "x") = Placeholder "x".
Proof.
  split; [repeat split|].
  destruct personalizeMessage_placeholders as (_ & Hfill & Hkeys & _).
  split; [exact (Hfill MoreFixtures.card MoreFixtures.carl_full eq_refl eq_refl eq_refl)|].
  destruct (Hkeys MoreFixtures.carl_full) as (_ & _ & _ & Hmeta & Habsent).
  split.
  - apply (Hmeta "city" [("city", "Rome")] "Rome"); try discriminate; reflexivity.
  - apply (Habsent "x"); try discriminate. reflexivity.
Defined.

End TemplateFacts.
(* ================================================================== *)
(** * Campaigns without queue entries *)
(* ================================================================== *)

Module IdleCampaign.
Import Runtime SchedulerService Notions ServiceNotions RunRules FrameRules JsMapFacts
  JsMapMoreFacts.

Local Open Scope string_scope.
Local Open Scope list_scope.

Lemma frame_for_of_in {X A : Type} (f : World -> X) (xs : list A) (body : A -> M unit) :
  (forall x, In x xs -> keeps f (body x)) -> keeps f (for_of xs body).
Proof.
  induction xs as [|x xs IH]; intros Hb; cbn [for_of].
  - apply frame_ret.
  - apply frame_bind; [apply Hb; now left|intros _].
    apply IH. intros y Hy. apply Hb. now right.
Qed.

Lemma truthy_string_some (v : option string) (s : string) :
  truthy_string v = Some s -> v = Some s.
Proof.
  destruct v as [x|]; cbn [truthy_string]; [|discriminate].
  destruct (String.eqb x EmptyString); [discriminate|]. now intros [= <-].
Qed.

Lemma In_slice_to {A : Type} (x : A) (l : list A) (batchSize : Z) :
  In x (slice_to l batchSize) -> In x l.
Proof.
  unfold slice_to. intros H.
  destruct (batchSize <? 0)%Z;
    match type of H with In _ (firstn ?n _) =>
      rewrite <- (firstn_skipn n l); apply in_or_app; now left
    end.
Qed.

(** The campaigns of the queue entries are among what a tick leaves
    alone. *)
Lemma campaignIds_beside (w w' : World) :
  beside_dispatch w' = beside_dispatch w ->
  map MessageQueue.campaignId (MemStorage.getMessageQueue (storage w'))
  = map MessageQueue.campaignId (MemStorage.getMessageQueue (storage w)).
Proof.
  intros H.
  assert (Hc : cores entry_core (MemStorage.messageQueue (storage w'))
               = cores entry_core (MemStorage.messageQueue (storage w))).
  { unfold beside_dispatch in H. now inversion H. }
  assert (Hm : forall q : JsMap.t MessageQueue.t,
             map MessageQueue.campaignId (JsMap.values q)
             = map (fun kc : string * _ =>
                      match snd kc with
                      | (_, cid, _, _, _, _, _, _, _, _) => cid
                      end) (cores entry_core q)).
  { intros q. unfold cores, JsMap.values. rewrite !map_map.
    apply map_ext. intros [key m]. reflexivity. }
  unfold MemStorage.getMessageQueue. now rewrite !Hm, Hc.
Qed.

Section WithEnv.
Variable env : Env.
Variable k : string.

Lemma updateCampaign_other (id : string) (u : Campaign.Partial.t) :
  id <> k -> keeps (campaign_at k) (updateCampaign id u).
Proof.
  intros Hne. unfold updateCampaign.
  apply frame_bind; [|intros; apply frame_ret].
  apply frame_storage_call. intros w.
  unfold campaign_at, MemStorage.updateCampaign, MemStorage.getCampaign.
  cbn [storage with_storage].
  destruct (JsMap.get id (MemStorage.campaigns (storage w))); cbn [snd]; [|reflexivity].
  cbn [MemStorage.with_campaigns MemStorage.campaigns].
  apply get_set_other. congruence.
Qed.

Lemma updateQueuedMessage_campaign (id : string) (u : MessageQueue.Partial.t) :
  keeps (campaign_at k) (updateQueuedMessage id u).
Proof.
  unfold updateQueuedMessage.
  apply frame_bind; [|intros; apply frame_ret].
  apply frame_storage_call. intros w.
  unfold campaign_at, MemStorage.updateQueuedMessage, MemStorage.getCampaign.
  cbn [storage with_storage].
  destruct (JsMap.get id (MemStorage.messageQueue (storage w))); reflexivity.
Qed.

Lemma sendMessage_campaign (sessionId toNumber message : string)
  (mediaUrl mediaType : option string) :
  keeps (campaign_at k)
    (WhatsAppService.sendMessage env sessionId toNumber message mediaUrl mediaType).
Proof.
  intros w.
  pose proof (GatewayFacts.sendMessage_cases env sessionId toNumber message mediaUrl
                mediaType w) as H.
  unfold wp.
  destruct (WhatsAppService.sendMessage env sessionId toNumber message mediaUrl mediaType w)
    as [answer w'|e w'|why]; [| |exact H].
  - destruct H as (_ & _ & m & _ & _ & _ & ->). reflexivity.
  - destruct H as [(_ & _ & ->)|(_ & [->| ->])]; reflexivity.
Qed.

Lemma count_sent_campaign (message : MessageQueue.t) :
  MessageQueue.campaignId message <> Some k ->
  keeps (campaign_at k) (count_sent message).
Proof.
  intros Hne. unfold count_sent.
  destruct (truthy_string (MessageQueue.campaignId message)) as [cid|] eqn:E;
    [|apply frame_ret].
  apply truthy_string_some in E.
  apply frame_bind; [apply frame_storage_read|intros [c|]]; [|apply frame_ret].
  apply updateCampaign_other. congruence.
Qed.

Lemma process_message_campaign (session : WhatsappSession.t) (batchSize : Z)
  (message : MessageQueue.t) :
  MessageQueue.campaignId message <> Some k ->
  keeps (campaign_at k) (process_message env session batchSize message).
Proof.
  intros Hne. unfold process_message. apply frame_try_catch.
  - apply frame_bind; [apply frame_storage_read|intros [contact|]]; [|apply frame_ret].
    apply frame_bind; [apply sendMessage_campaign|intros _].
    apply frame_bind; [apply frame_newDate|intros now].
    apply frame_bind; [apply updateQueuedMessage_campaign|intros _].
    apply frame_bind; [now apply count_sent_campaign|intros _].
    destruct (1 <? batchSize)%Z; [|apply frame_ret].
    intros w. reflexivity.
  - intros e. apply updateQueuedMessage_campaign.
Qed.

Lemma checkCampaignCompletion_other (campaignId : string) :
  campaignId <> k -> keeps (campaign_at k) (checkCampaignCompletion campaignId).
Proof.
  intros Hne. unfold checkCampaignCompletion.
  apply frame_bind; [apply frame_storage_read|intros [c|]]; [|apply frame_ret].
  apply frame_bind; [apply frame_storage_read|intros pendingMessages].
  destruct (List.length _ =? 0)%nat; [|apply frame_ret].
  now apply updateCampaign_other.
Qed.

Lemma process_session_campaign (session : WhatsappSession.t) (w : World) :
  without_entries k w ->
  wp (process_session env session)
     (fun _ w' => campaign_at k w' = campaign_at k w)
     (fun _ w' => campaign_at k w' = campaign_at k w) w.
Proof.
  intros Hno. unfold process_session.
  destruct (negb _); [now apply wp_ret|].
  apply wp_bind, wp_storage_read.
  destruct (MemStorage.getPendingMessages (WhatsappSession.id session) (storage w))
    as [|firstMessage rest] eqn:Ep; [now apply wp_ret|].
  assert (Hq : forall m, In m (firstMessage :: rest) ->
                         MessageQueue.campaignId m <> Some k).
  { intros m Hin Hk. apply Hno. rewrite <- Hk. apply in_map.
    rewrite <- Ep in Hin. unfold MemStorage.getPendingMessages in Hin.
    now apply filter_In in Hin as [Hin _]. }
  apply wp_bind, wp_storage_read.
  match goal with |- wp ?m _ _ w => assert (Hk : keeps (campaign_at k) m) end; [|apply Hk].
  apply frame_bind.
  - apply frame_for_of_in. intros m Hin. apply process_message_campaign.
    apply Hq. now apply In_slice_to in Hin.
  - intros _.
    destruct (truthy_string (MessageQueue.campaignId firstMessage)) as [cid|] eqn:E;
      [|apply frame_ret].
    apply truthy_string_some in E. apply checkCampaignCompletion_other.
    intros ->. apply (Hq firstMessage); [now left|exact E].
Qed.

Lemma sessions_campaign (sessions : list WhatsappSession.t) (w : World) :
  without_entries k w ->
  wp (for_of sessions (process_session env))
     (fun _ w' => campaign_at k w' = campaign_at k w /\ without_entries k w')
     (fun _ w' => campaign_at k w' = campaign_at k w /\ without_entries k w') w.
Proof.
  revert w. induction sessions as [|session sessions IH]; intros w Hno; cbn [for_of].
  - now apply wp_ret.
  - apply wp_bind.
    pose proof (GatewayState.wp_both _ _ _ _ _ w
                  (process_session_campaign session w Hno)
                  (DispatchFrame.process_session_beside env session w)) as Hb.
    eapply wp_mono; [| |exact Hb]; cbv beta.
    + intros _ w1 [Hc Hd].
      assert (Hno1 : without_entries k w1).
      { unfold without_entries. now rewrite (campaignIds_beside _ _ Hd). }
      eapply wp_mono; [| |apply (IH w1 Hno1)]; cbv beta;
        intros _ w2 [Hc2 Hno2]; (split; [congruence|exact Hno2]).
    + intros e w1 [Hc Hd]. split; [exact Hc|].
      unfold without_entries. now rewrite (campaignIds_beside _ _ Hd).
Qed.

Lemma tick_campaign (w : World) :
  without_entries k w ->
  exists w',
    processQueuedMessages env w = Ok tt w'
    /\ campaign_at k w' = campaign_at k w /\ without_entries k w'.
Proof.
  intros Hno.
  destruct (DispatchTick.processQueuedMessages_ok env w) as (w' & Hok & Hfor).
  exists w'. split; [exact Hok|].
  pose proof (sessions_campaign (MemStorage.getSessions (storage w)) w Hno) as H.
  unfold wp in H. now rewrite Hfor in H.
Qed.

(** X28: a tick and the campaigns without entries.  A dispatch tick only
    touches the campaigns that own a queue entry: a campaign that no queue
    entry belongs to has, after any number of ticks, the row it had before,
    whatever its status, and still no entry belongs to it. *)
Theorem campaign_without_entries_untouched (n : nat) (w : World) :
  without_entries k w ->
  exists w',
    ticks env n w = Ok tt w'
    /\ campaign_at k w' = campaign_at k w
    /\ without_entries k w'.
Proof.
  revert w. induction n as [|n IH]; intros w Hno; cbn [ticks].
  - now exists w.
  - destruct (tick_campaign w Hno) as (w1 & Hok & Hc & Hno1).
    destruct (IH w1 Hno1) as (w2 & Hn & Hc2 & Hno2).
    exists w2. unfold bind. rewrite Hok. split; [exact Hn|]. split; [congruence|exact Hno2].
Qed.

End WithEnv.

Lemma campaign_without_entries_untouched_witness :
  exists w',
    ticks Fixtures.env 3 Fixtures.expansion_world = Ok tt w'
    /\ campaign_at "k1" w' = Some Fixtures.promo
    /\ without_entries "k1" w'.
Proof.
  apply (campaign_without_entries_untouched Fixtures.env "k1" 3 Fixtures.expansion_world).
  intros [].
Defined.

Section Expansion.
Variable env : Env.

(** X29: a campaign without recipients.  When the expansion of a stored
    campaign finds no contact, it returns with the campaign in status
    [sending] and [totalRecipients] 0 and adds no queue entry; no tick
    completes the campaign afterwards: after any number of ticks its row is
    still the same, with the status [sending]. *)
Theorem campaign_without_recipients_stays_sending (fuel n : nat)
  (campaign stored : Campaign.t) (w : World) :
  MemStorage.getCampaign (Campaign.id campaign) (storage w) = Some stored ->
  resolve_contacts campaign (storage w) = [] ->
  without_entries (Campaign.id campaign) w ->
  exists w1 w2,
    processCampaign env fuel campaign w = Ok tt w1
    /\ MemStorage.getMessageQueue (storage w1) = MemStorage.getMessageQueue (storage w)
    /\ ticks env n w1 = Ok tt w2
    /\ campaign_at (Campaign.id campaign) w2
       = Some (Campaign.spread
                 (Campaign.spread stored (Campaign.Partial.of_status "sending"))
                 (Campaign.Partial.of_totalRecipients 0))
    /\ option_map Campaign.status (campaign_at (Campaign.id campaign) w2) = Some "sending".
Proof.
  intros Hstored Hnone Hno.
  set (id := Campaign.id campaign) in *.
  set (row := Campaign.spread
                (Campaign.spread stored (Campaign.Partial.of_status "sending"))
                (Campaign.Partial.of_totalRecipients 0)).
  assert (Hrun : exists w1,
             processCampaign env fuel campaign w = Ok tt w1
             /\ MemStorage.messageQueue (storage w1) = MemStorage.messageQueue (storage w)
             /\ campaign_at id w1 = Some row).
  { unfold processCampaign, try_catch, bind, updateCampaign, bind, storage_call, ret,
      storage_read, MemStorage.updateCampaign, MemStorage.getCampaign in *.
    fold id. rewrite Hstored. cbn [storage with_storage snd fst].
    assert (Hr : resolve_contacts campaign
                   (MemStorage.with_campaigns
                      (JsMap.set id
                         (Campaign.spread stored (Campaign.Partial.of_status "sending"))
                         (MemStorage.campaigns (storage w))) (storage w))
                 = resolve_contacts campaign (storage w)) by reflexivity.
    rewrite Hr, Hnone. cbn [List.length Z.of_nat MemStorage.with_campaigns
                              MemStorage.campaigns for_of].
    rewrite get_set_same. cbn [storage with_storage snd fst ret].
    eexists. split; [reflexivity|]. split; [reflexivity|].
    unfold campaign_at, MemStorage.getCampaign.
    cbn [storage with_storage MemStorage.with_campaigns MemStorage.campaigns].
    apply get_set_same. }
  destruct Hrun as (w1 & Hrun & Hq & Hrow).
  assert (Hno1 : without_entries id w1).
  { unfold without_entries, MemStorage.getMessageQueue in *. now rewrite Hq. }
  assert (Hticks : exists w2,
             ticks env n w1 = Ok tt w2 /\ campaign_at id w2 = campaign_at id w1).
  { clear Hrun Hq Hrow. revert w1 Hno1. induction n as [|m IH]; intros w1 Hno1; cbn [ticks].
    - now exists w1.
    - destruct (tick_campaign env id w1 Hno1) as (w' & Hok & Hc & Hno').
      destruct (IH w' Hno') as (w2 & Hn & Hc2).
      exists w2. unfold bind. rewrite Hok. split; [exact Hn|congruence]. }
  destruct Hticks as (w2 & Hn & Hc).
  exists w1, w2. split; [exact Hrun|].
  split; [unfold MemStorage.getMessageQueue; now rewrite Hq|].
  split; [exact Hn|]. rewrite Hc, Hrow. split; reflexivity.
Qed.

End Expansion.

Lemma campaign_without_recipients_stays_sending_witness :
  exists w1 w2,
    processCampaign Fixtures.env 5 Fixtures.promo MoreFixtures.lonely_world = Ok tt w1
    /\ MemStorage.getMessageQueue (storage w1) = []
    /\ ticks Fixtures.env 3 w1 = Ok tt w2
    /\ campaign_at "k1" w2
       = Some (Campaign.spread
                 (Campaign.spread Fixtures.promo (Campaign.Partial.of_status "sending"))
                 (Campaign.Partial.of_totalRecipients 0))
    /\ option_map Campaign.status (campaign_at "k1" w2) = Some "sending".
Proof.
  exact (campaign_without_recipients_stays_sending Fixtures.env 5 3 Fixtures.promo
           Fixtures.promo MoreFixtures.lonely_world eq_refl eq_refl (fun H => H)).
Defined.

End IdleCampaign.
